(** * rclc executor: a shallow embedding of [executor.c] and [executor_handle.c]

    The development follows the two C files of the executor:
    - [executor_handle.c]: the handle record, its initialisation and the
      mapping from a handle to the rcl entity it refers to;
    - [executor.c]: life cycle of the executor, registration and removal of
      handles, the readiness / take / execute passes, the two schedulers
      (default and LET), [spin_some] and the trigger predicates.

    Conventions of the embedding.
    - C structs are records, enums are inductive types, [size_t] and
      [unsigned int] are [N] with the wrap-around written out.
    - A C function that writes through [rclc_executor_t *executor] takes the
      executor by value and returns the updated executor next to its
      [rcl_ret_t].  The guard on the [executor] pointer itself being [NULL] is
      therefore outside the model; all other [NULL] guards are modelled.
    - The rcl / rmw layer is not part of the repository.  It is an interface
      ([Middleware]) whose operations are parameters of the development; a
      small reference implementation ([Toy]) is used to run the code on
      concrete inputs.
    - A ghost trace records the calls that cross the executor boundary
      (takes, user callbacks, responses) and the entry / exit of the per-handle
      helpers, so that ordering properties of a round can be stated. *)

From stdpp Require Import prelude gmap.

Set Default Proof Using "Type".
Open Scope N_scope.

(** ** Machine integers *)

(** [size_t] on the 64-bit targets of rclc. *)
Definition size_t := N.
Definition SIZE_WIDTH : N := 64.
Definition size_wrap (n : N) : size_t := n mod 2 ^ SIZE_WIDTH.
(** [x++], [x--] and [x += y] on a [size_t]. *)
Definition size_incr (x : size_t) : size_t := size_wrap (x + 1).
Definition size_decr (x : size_t) : size_t := size_wrap (x + (2 ^ SIZE_WIDTH - 1)).
Definition size_add (x y : size_t) : size_t := size_wrap (x + y).
(** Conversion of a [size_t] to [unsigned int] (32 bits), as it happens when
    [executor->max_handles] is passed to a trigger function. *)
Definition to_unsigned_int (n : size_t) : N := n mod 2 ^ 32.
(** The value of an integer as an [int64_t]: the conversion of a [uint64_t]
    to [int64_t], as it happens when [timeout_ns] is passed to [rcl_wait], and
    unsigned 64-bit arithmetic read back as signed. *)
Definition to_int64 (z : Z) : Z := ((z + 2 ^ 63) mod 2 ^ 64 - 2 ^ 63)%Z.

(** ** Pointers *)

(** Objects of different C types never share an address, so a pointer is
    modelled as the type of the object it points to together with an object
    identifier.  [void *] comparisons compare both. *)
Inductive c_type :=
| T_rcl_subscription
| T_rcl_timer
| T_rcl_client
| T_rcl_service
| T_rcl_guard_condition
| T_rclc_action_client
| T_rclc_action_server
| T_rcl_context
| T_rcl_allocator
| T_message
| T_function
| T_user.

Inductive void_ptr :=
| NULL
| Ptr (ty : c_type) (obj : N).

#[global] Instance c_type_eq_dec : EqDecision c_type.
Proof. solve_decision. Defined.
#[global] Instance void_ptr_eq_dec : EqDecision void_ptr.
Proof. solve_decision. Defined.
#[global] Instance void_ptr_inhabited : Inhabited void_ptr := populate NULL.

Definition is_null (p : void_ptr) : bool := bool_decide (p = NULL).
Definition ptr_eqb (p q : void_ptr) : bool := bool_decide (p = q).

(** The object a pointer designates when it is dereferenced as a given
    struct; dereferencing [NULL] is undefined in C and reads object 0 here. *)
Definition obj_of (p : void_ptr) : N :=
  match p with
  | NULL => 0
  | Ptr _ o => o
  end.

(** ** Return codes *)

(** The [rcl_ret_t] codes that the executor names, and [RCL_RET_other] for
    every further code of the middleware.  Only their distinctness matters. *)
Inductive rcl_ret_t :=
| RCL_RET_OK
| RCL_RET_ERROR
| RCL_RET_TIMEOUT
| RCL_RET_BAD_ALLOC
| RCL_RET_INVALID_ARGUMENT
| RCL_RET_SUBSCRIPTION_TAKE_FAILED
| RCL_RET_CLIENT_TAKE_FAILED
| RCL_RET_SERVICE_TAKE_FAILED
| RCL_RET_TIMER_CANCELED
| RCL_RET_other (code : N).

#[global] Instance rcl_ret_eq_dec : EqDecision rcl_ret_t.
Proof. solve_decision. Defined.
#[global] Instance rcl_ret_inhabited : Inhabited rcl_ret_t := populate RCL_RET_OK.

Definition ret_eqb (a b : rcl_ret_t) : bool := bool_decide (a = b).
Notation "a '=r?' b" := (ret_eqb a b) (at level 70, no associativity).
Notation "a '<>r?' b" := (negb (ret_eqb a b)) (at level 70, no associativity).

(** ** [executor_handle.h]: the handle record *)

Inductive rclc_executor_handle_type_t :=
| RCLC_SUBSCRIPTION
| RCLC_SUBSCRIPTION_WITH_CONTEXT
| RCLC_TIMER
| RCLC_CLIENT
| RCLC_CLIENT_WITH_REQUEST_ID
| RCLC_SERVICE
| RCLC_SERVICE_WITH_REQUEST_ID
| RCLC_SERVICE_WITH_CONTEXT
| RCLC_ACTION_CLIENT
| RCLC_ACTION_SERVER
| RCLC_GUARD_CONDITION
| RCLC_NONE.

Inductive rclc_executor_handle_invocation_t :=
| ON_NEW_DATA
| ALWAYS.

#[global] Instance handle_type_eq_dec : EqDecision rclc_executor_handle_type_t.
Proof. solve_decision. Defined.
#[global] Instance invocation_eq_dec : EqDecision rclc_executor_handle_invocation_t.
Proof. solve_decision. Defined.

(** [rmw_request_id_t] (writer guid and sequence number), kept abstract. *)
Definition rmw_request_id_t := N.

(** [rclc_executor_handle_t].  The anonymous union of entity pointers
    ([subscription], [timer], [client], [service], [gc], [action_client],
    [action_server]) is the single field [entity]; the anonymous union of
    callbacks is the single field [callback].  The C field [index] (the slot
    of the handle in the wait set) is [h_index] here, because the executor
    has an [index] field of its own. *)
Record rclc_executor_handle_t := mk_handle {
  type : rclc_executor_handle_type_t;
  invocation : rclc_executor_handle_invocation_t;
  entity : void_ptr;
  data : void_ptr;
  req_id : rmw_request_id_t;
  data_response_msg : void_ptr;
  callback_context : void_ptr;
  callback : void_ptr;
  h_index : size_t;
  initialized : bool;
  data_available : bool
}.

#[global] Instance handle_eq_dec : EqDecision rclc_executor_handle_t.
Proof. solve_decision. Defined.

Definition set_type v (h : rclc_executor_handle_t) :=
  mk_handle v (invocation h) (entity h) (data h) (req_id h) (data_response_msg h)
    (callback_context h) (callback h) (h_index h) (initialized h) (data_available h).
Definition set_invocation v (h : rclc_executor_handle_t) :=
  mk_handle (type h) v (entity h) (data h) (req_id h) (data_response_msg h)
    (callback_context h) (callback h) (h_index h) (initialized h) (data_available h).
Definition set_entity v (h : rclc_executor_handle_t) :=
  mk_handle (type h) (invocation h) v (data h) (req_id h) (data_response_msg h)
    (callback_context h) (callback h) (h_index h) (initialized h) (data_available h).
Definition set_data v (h : rclc_executor_handle_t) :=
  mk_handle (type h) (invocation h) (entity h) v (req_id h) (data_response_msg h)
    (callback_context h) (callback h) (h_index h) (initialized h) (data_available h).
Definition set_req_id v (h : rclc_executor_handle_t) :=
  mk_handle (type h) (invocation h) (entity h) (data h) v (data_response_msg h)
    (callback_context h) (callback h) (h_index h) (initialized h) (data_available h).
Definition set_data_response_msg v (h : rclc_executor_handle_t) :=
  mk_handle (type h) (invocation h) (entity h) (data h) (req_id h) v
    (callback_context h) (callback h) (h_index h) (initialized h) (data_available h).
Definition set_callback_context v (h : rclc_executor_handle_t) :=
  mk_handle (type h) (invocation h) (entity h) (data h) (req_id h) (data_response_msg h)
    v (callback h) (h_index h) (initialized h) (data_available h).
Definition set_callback v (h : rclc_executor_handle_t) :=
  mk_handle (type h) (invocation h) (entity h) (data h) (req_id h) (data_response_msg h)
    (callback_context h) v (h_index h) (initialized h) (data_available h).
Definition set_h_index v (h : rclc_executor_handle_t) :=
  mk_handle (type h) (invocation h) (entity h) (data h) (req_id h) (data_response_msg h)
    (callback_context h) (callback h) v (initialized h) (data_available h).
Definition set_initialized v (h : rclc_executor_handle_t) :=
  mk_handle (type h) (invocation h) (entity h) (data h) (req_id h) (data_response_msg h)
    (callback_context h) (callback h) (h_index h) v (data_available h).
Definition set_data_available v (h : rclc_executor_handle_t) :=
  mk_handle (type h) (invocation h) (entity h) (data h) (req_id h) (data_response_msg h)
    (callback_context h) (callback h) (h_index h) (initialized h) v.

(** [rclc_executor_handle_counters_t] *)
Record rclc_executor_handle_counters_t := mk_counters {
  number_of_subscriptions : size_t;
  number_of_timers : size_t;
  number_of_clients : size_t;
  number_of_services : size_t;
  number_of_action_clients : size_t;
  number_of_action_servers : size_t;
  number_of_guard_conditions : size_t;
  number_of_events : size_t
}.

(** [rclc_executor_handle_counters_zero_init]: [memset] to zero. *)
Definition rclc_executor_handle_counters_zero_init : rclc_executor_handle_counters_t :=
  mk_counters 0 0 0 0 0 0 0 0.

(** [rclc_executor_handle_init]: every field is reset except [req_id], which
    the C function does not touch. *)
Definition rclc_executor_handle_init (handle : rclc_executor_handle_t) (max_handles : size_t)
  : rclc_executor_handle_t :=
  {| type := RCLC_NONE;
     invocation := ON_NEW_DATA;
     entity := NULL;
     data := NULL;
     req_id := req_id handle;
     data_response_msg := NULL;
     callback_context := NULL;
     callback := NULL;
     h_index := max_handles;
     initialized := false;
     data_available := false |}.

(** [rclc_executor_handle_clear] *)
Definition rclc_executor_handle_clear (handle : rclc_executor_handle_t) (max_handles : size_t)
  : rclc_executor_handle_t :=
  set_initialized false (set_h_index max_handles handle).

(** [rclc_executor_handle_get_ptr]: the entity pointer for the kinds that
    have one, [NULL] for action endpoints and [RCLC_NONE]. *)
Definition rclc_executor_handle_get_ptr (handle : rclc_executor_handle_t) : void_ptr :=
  match type handle with
  | RCLC_SUBSCRIPTION | RCLC_SUBSCRIPTION_WITH_CONTEXT => entity handle
  | RCLC_TIMER => entity handle
  | RCLC_CLIENT | RCLC_CLIENT_WITH_REQUEST_ID => entity handle
  | RCLC_SERVICE | RCLC_SERVICE_WITH_REQUEST_ID | RCLC_SERVICE_WITH_CONTEXT => entity handle
  | RCLC_GUARD_CONDITION => entity handle
  | RCLC_ACTION_CLIENT | RCLC_ACTION_SERVER | RCLC_NONE => NULL
  end.

(** Contents of freshly allocated (not yet initialised) handle storage. *)
Definition raw_handle : rclc_executor_handle_t :=
  mk_handle RCLC_NONE ON_NEW_DATA NULL NULL 0 NULL NULL NULL 0 false false.
#[global] Instance handle_inhabited : Inhabited rclc_executor_handle_t := populate raw_handle.

(** ** Action endpoints

    [rclc_action_client_t] and [rclc_action_server_t] are declared in headers
    that are not part of these sources.  The records below hold the fields
    that [executor.c] reads and writes; the goal-handle pools behind them are
    part of the environment. *)
Record rclc_action_client_t := mk_action_client {
  ac_allocator : void_ptr;
  ac_goal_handles_memory_size : size_t;
  ac_ros_feedback : void_ptr;
  ac_ros_result_response : void_ptr;
  ac_goal_callback : void_ptr;
  ac_feedback_callback : void_ptr;
  ac_result_callback : void_ptr;
  ac_cancel_callback : void_ptr;
  feedback_available : bool;
  status_available : bool;
  goal_response_available : bool;
  cancel_response_available : bool;
  result_response_available : bool
}.

Record rclc_action_server_t := mk_action_server {
  as_allocator : void_ptr;
  as_goal_handles_memory_size : size_t;
  as_goal_callback : void_ptr;
  as_cancel_callback : void_ptr;
  goal_ended : bool;
  goal_request_available : bool;
  cancel_request_available : bool;
  result_request_available : bool;
  goal_expired_available : bool
}.

#[global] Instance action_client_inhabited : Inhabited rclc_action_client_t :=
  populate (mk_action_client NULL 0 NULL NULL NULL NULL NULL NULL false false false false false).
#[global] Instance action_server_inhabited : Inhabited rclc_action_server_t :=
  populate (mk_action_server NULL 0 NULL NULL false false false false false).

(** The five readiness flags of an action client, in the order of the
    out-parameters of [rcl_action_client_wait_set_get_entities_ready]:
    feedback, status, goal response, cancel response, result response. *)
Definition client_ready_flags : Type := bool * bool * bool * bool * bool.
(** The four readiness flags of an action server: goal request, cancel
    request, result request, goal expired. *)
Definition server_ready_flags : Type := bool * bool * bool * bool.

Definition ac_ready (c : rclc_action_client_t) : client_ready_flags :=
  (feedback_available c, status_available c, goal_response_available c,
   cancel_response_available c, result_response_available c).
Definition ac_set_ready (f : client_ready_flags) (c : rclc_action_client_t) :=
  let '(fb, st, gr, cr, rr) := f in
  mk_action_client (ac_allocator c) (ac_goal_handles_memory_size c) (ac_ros_feedback c)
    (ac_ros_result_response c) (ac_goal_callback c) (ac_feedback_callback c)
    (ac_result_callback c) (ac_cancel_callback c) fb st gr cr rr.

Definition as_ready (s : rclc_action_server_t) : server_ready_flags :=
  (goal_request_available s, cancel_request_available s, result_request_available s,
   goal_expired_available s).
Definition as_set_ready (f : server_ready_flags) (s : rclc_action_server_t) :=
  let '(gr, cr, rr, ge) := f in
  mk_action_server (as_allocator s) (as_goal_handles_memory_size s) (as_goal_callback s)
    (as_cancel_callback s) (goal_ended s) gr cr rr ge.
Definition as_set_goal_ended v (s : rclc_action_server_t) :=
  mk_action_server (as_allocator s) (as_goal_handles_memory_size s) (as_goal_callback s)
    (as_cancel_callback s) v (goal_request_available s) (cancel_request_available s)
    (result_request_available s) (goal_expired_available s).
Definition as_set_goal_request_available v (s : rclc_action_server_t) :=
  as_set_ready (v, cancel_request_available s, result_request_available s,
                goal_expired_available s) s.
Definition as_set_cancel_request_available v (s : rclc_action_server_t) :=
  as_set_ready (goal_request_available s, v, result_request_available s,
                goal_expired_available s) s.
Definition as_set_result_request_available v (s : rclc_action_server_t) :=
  as_set_ready (goal_request_available s, cancel_request_available s, v,
                goal_expired_available s) s.

(** The memory that holds the action endpoint structs, by object. *)
Record action_memory := mk_memory {
  action_clients : gmap N rclc_action_client_t;
  action_servers : gmap N rclc_action_server_t
}.

Definition empty_memory : action_memory := mk_memory ∅ ∅.

(** [*handle->action_client] and [*handle->action_server]. *)
Definition load_action_client (m : action_memory) (p : void_ptr) : rclc_action_client_t :=
  action_clients m !!! obj_of p.
Definition load_action_server (m : action_memory) (p : void_ptr) : rclc_action_server_t :=
  action_servers m !!! obj_of p.
Definition store_action_client (p : void_ptr) (c : rclc_action_client_t) (m : action_memory) :=
  mk_memory (<[obj_of p := c]> (action_clients m)) (action_servers m).
Definition store_action_server (p : void_ptr) (s : rclc_action_server_t) (m : action_memory) :=
  mk_memory (action_clients m) (<[obj_of p := s]> (action_servers m)).

(** ** [_rclc_check_handle_data_available] *)
Definition _rclc_check_handle_data_available (m : action_memory) (handle : rclc_executor_handle_t)
  : bool :=
  match type handle with
  | RCLC_ACTION_CLIENT =>
      let c := load_action_client m (entity handle) in
      if feedback_available c || status_available c || goal_response_available c
         || cancel_response_available c || result_response_available c
      then true else false
  | RCLC_ACTION_SERVER =>
      let s := load_action_server m (entity handle) in
      if goal_request_available s || cancel_request_available s || goal_expired_available s
         || result_request_available s || goal_ended s
      then true else false
  | _ => if data_available handle then true else false
  end.

(** ** Trigger predicates

    A trigger function receives the handle array (or [NULL]), its size as an
    [unsigned int] and the trigger object; it reads the action endpoints
    through the handles, hence the memory argument. *)
Definition trigger_fn : Type :=
  action_memory -> option (list rclc_executor_handle_t) -> N -> void_ptr -> bool.

(** The loops of the built-in triggers run over [i = 0 .. size-1] and stop at
    the first handle that is not initialised.  [fuel] is [size - i]. *)
Fixpoint trigger_all_loop (m : action_memory) (handles : list rclc_executor_handle_t)
  (fuel i : nat) : bool :=
  match fuel with
  | O => true
  | S fuel' =>
      if initialized (handles !!! i) then
        if negb (_rclc_check_handle_data_available m (handles !!! i)) then false
        else trigger_all_loop m handles fuel' (S i)
      else true
  end.

Definition rclc_executor_trigger_all : trigger_fn := fun m handles size obj =>
  match handles with
  | None => false
  | Some hs => trigger_all_loop m hs (N.to_nat size) 0
  end.

Fixpoint trigger_any_loop (m : action_memory) (handles : list rclc_executor_handle_t)
  (fuel i : nat) : bool :=
  match fuel with
  | O => false
  | S fuel' =>
      if initialized (handles !!! i) then
        if _rclc_check_handle_data_available m (handles !!! i) then true
        else trigger_any_loop m handles fuel' (S i)
      else false
  end.

Definition rclc_executor_trigger_any : trigger_fn := fun m handles size obj =>
  match handles with
  | None => false
  | Some hs => trigger_any_loop m hs (N.to_nat size) 0
  end.

Fixpoint trigger_one_loop (m : action_memory) (handles : list rclc_executor_handle_t)
  (obj : void_ptr) (fuel i : nat) : bool :=
  match fuel with
  | O => false
  | S fuel' =>
      if initialized (handles !!! i) then
        if _rclc_check_handle_data_available m (handles !!! i) then
          let handle_obj_ptr := rclc_executor_handle_get_ptr (handles !!! i) in
          if is_null handle_obj_ptr then false
          else if ptr_eqb obj handle_obj_ptr then true
          else trigger_one_loop m handles obj fuel' (S i)
        else trigger_one_loop m handles obj fuel' (S i)
      else false
  end.

Definition rclc_executor_trigger_one : trigger_fn := fun m handles size obj =>
  match handles with
  | None => false
  | Some hs => trigger_one_loop m hs obj (N.to_nat size) 0
  end.

Definition rclc_executor_trigger_always : trigger_fn := fun m handles size obj => true.

(** ** [executor.h]: the executor *)

Inductive rclc_executor_semantics_t :=
| RCLCPP_EXECUTOR
| LET.

(** [rcl_wait_set_t]: the public arrays of the wait set, which the executor
    reads directly, and the opaque [impl] of the middleware. *)
Record rcl_wait_set_t := mk_wait_set {
  subscriptions : list void_ptr;
  guard_conditions : list void_ptr;
  timers : list void_ptr;
  clients : list void_ptr;
  services : list void_ptr;
  events : list void_ptr;
  impl : N
}.

(** An all-zero [rcl_wait_set_t], as in a zero-initialised executor. *)
Definition zero_wait_set : rcl_wait_set_t := mk_wait_set [] [] [] [] [] [] 0.

(** [ws->subscriptions[i]] and the like; a read past the end of the array is
    undefined in C and yields [NULL] here. *)
Definition ws_entry (arr : list void_ptr) (i : size_t) : void_ptr := arr !!! N.to_nat i.

(** [rclc_executor_t].  [handles] is [None] for a [NULL] pointer; the C field
    [context] is [exe_context]; [trigger_function] is [None] for a [NULL]
    function pointer. *)
Record rclc_executor_t := mk_executor {
  exe_context : void_ptr;
  handles : option (list rclc_executor_handle_t);
  max_handles : size_t;
  index : size_t;
  allocator : void_ptr;
  wait_set : rcl_wait_set_t;
  info : rclc_executor_handle_counters_t;
  timeout_ns : N;
  invocation_time : Z;
  trigger_function : option trigger_fn;
  trigger_object : void_ptr;
  data_comm_semantics : rclc_executor_semantics_t
}.

Definition set_exe_context v (e : rclc_executor_t) :=
  mk_executor v (handles e) (max_handles e) (index e) (allocator e) (wait_set e) (info e)
    (timeout_ns e) (invocation_time e) (trigger_function e) (trigger_object e)
    (data_comm_semantics e).
Definition set_handles v (e : rclc_executor_t) :=
  mk_executor (exe_context e) v (max_handles e) (index e) (allocator e) (wait_set e) (info e)
    (timeout_ns e) (invocation_time e) (trigger_function e) (trigger_object e)
    (data_comm_semantics e).
Definition set_max_handles v (e : rclc_executor_t) :=
  mk_executor (exe_context e) (handles e) v (index e) (allocator e) (wait_set e) (info e)
    (timeout_ns e) (invocation_time e) (trigger_function e) (trigger_object e)
    (data_comm_semantics e).
Definition set_index v (e : rclc_executor_t) :=
  mk_executor (exe_context e) (handles e) (max_handles e) v (allocator e) (wait_set e) (info e)
    (timeout_ns e) (invocation_time e) (trigger_function e) (trigger_object e)
    (data_comm_semantics e).
Definition set_allocator v (e : rclc_executor_t) :=
  mk_executor (exe_context e) (handles e) (max_handles e) (index e) v (wait_set e) (info e)
    (timeout_ns e) (invocation_time e) (trigger_function e) (trigger_object e)
    (data_comm_semantics e).
Definition set_wait_set v (e : rclc_executor_t) :=
  mk_executor (exe_context e) (handles e) (max_handles e) (index e) (allocator e) v (info e)
    (timeout_ns e) (invocation_time e) (trigger_function e) (trigger_object e)
    (data_comm_semantics e).
Definition set_info v (e : rclc_executor_t) :=
  mk_executor (exe_context e) (handles e) (max_handles e) (index e) (allocator e) (wait_set e) v
    (timeout_ns e) (invocation_time e) (trigger_function e) (trigger_object e)
    (data_comm_semantics e).
Definition set_timeout_ns v (e : rclc_executor_t) :=
  mk_executor (exe_context e) (handles e) (max_handles e) (index e) (allocator e) (wait_set e)
    (info e) v (invocation_time e) (trigger_function e) (trigger_object e)
    (data_comm_semantics e).
Definition set_trigger_function v (e : rclc_executor_t) :=
  mk_executor (exe_context e) (handles e) (max_handles e) (index e) (allocator e) (wait_set e)
    (info e) (timeout_ns e) (invocation_time e) v (trigger_object e) (data_comm_semantics e).
Definition set_trigger_object v (e : rclc_executor_t) :=
  mk_executor (exe_context e) (handles e) (max_handles e) (index e) (allocator e) (wait_set e)
    (info e) (timeout_ns e) (invocation_time e) (trigger_function e) v (data_comm_semantics e).
Definition set_data_comm_semantics v (e : rclc_executor_t) :=
  mk_executor (exe_context e) (handles e) (max_handles e) (index e) (allocator e) (wait_set e)
    (info e) (timeout_ns e) (invocation_time e) (trigger_function e) (trigger_object e) v.

(** The array [executor->handles] points to ([NULL] reads as an empty array;
    dereferencing it is undefined in C). *)
Definition handle_array (e : rclc_executor_t) : list rclc_executor_handle_t :=
  default [] (handles e).
(** [executor->handles[i]] *)
Definition handle_at (e : rclc_executor_t) (i : size_t) : rclc_executor_handle_t :=
  handle_array e !!! N.to_nat i.
(** [executor->handles[i] = h] *)
Definition store_handle (i : size_t) (h : rclc_executor_handle_t) (e : rclc_executor_t) :=
  set_handles ((λ hs, <[N.to_nat i := h]> hs) <$> handles e) e.

(** Counter updates [executor->info.number_of_... ++ / -- / += n]. *)
Definition add_subscriptions (n : size_t) (c : rclc_executor_handle_counters_t) :=
  mk_counters (size_add (number_of_subscriptions c) n) (number_of_timers c)
    (number_of_clients c) (number_of_services c) (number_of_action_clients c)
    (number_of_action_servers c) (number_of_guard_conditions c) (number_of_events c).
Definition add_timers (n : size_t) (c : rclc_executor_handle_counters_t) :=
  mk_counters (number_of_subscriptions c) (size_add (number_of_timers c) n)
    (number_of_clients c) (number_of_services c) (number_of_action_clients c)
    (number_of_action_servers c) (number_of_guard_conditions c) (number_of_events c).
Definition add_clients (n : size_t) (c : rclc_executor_handle_counters_t) :=
  mk_counters (number_of_subscriptions c) (number_of_timers c)
    (size_add (number_of_clients c) n) (number_of_services c) (number_of_action_clients c)
    (number_of_action_servers c) (number_of_guard_conditions c) (number_of_events c).
Definition add_services (n : size_t) (c : rclc_executor_handle_counters_t) :=
  mk_counters (number_of_subscriptions c) (number_of_timers c)
    (number_of_clients c) (size_add (number_of_services c) n) (number_of_action_clients c)
    (number_of_action_servers c) (number_of_guard_conditions c) (number_of_events c).
Definition add_action_clients (n : size_t) (c : rclc_executor_handle_counters_t) :=
  mk_counters (number_of_subscriptions c) (number_of_timers c)
    (number_of_clients c) (number_of_services c) (size_add (number_of_action_clients c) n)
    (number_of_action_servers c) (number_of_guard_conditions c) (number_of_events c).
Definition add_action_servers (n : size_t) (c : rclc_executor_handle_counters_t) :=
  mk_counters (number_of_subscriptions c) (number_of_timers c)
    (number_of_clients c) (number_of_services c) (number_of_action_clients c)
    (size_add (number_of_action_servers c) n) (number_of_guard_conditions c)
    (number_of_events c).
Definition add_guard_conditions (n : size_t) (c : rclc_executor_handle_counters_t) :=
  mk_counters (number_of_subscriptions c) (number_of_timers c)
    (number_of_clients c) (number_of_services c) (number_of_action_clients c)
    (number_of_action_servers c) (size_add (number_of_guard_conditions c) n)
    (number_of_events c).
(** [x--] is [x += SIZE_MAX] modulo [2^64]. *)
Definition SIZE_MAX : size_t := 2 ^ SIZE_WIDTH - 1.
Definition incr_subscriptions := add_subscriptions 1.
Definition decr_subscriptions := add_subscriptions SIZE_MAX.
Definition incr_timers := add_timers 1.
Definition decr_timers := add_timers SIZE_MAX.
Definition incr_clients := add_clients 1.
Definition decr_clients := add_clients SIZE_MAX.
Definition incr_services := add_services 1.
Definition decr_services := add_services SIZE_MAX.
Definition incr_guard_conditions := add_guard_conditions 1.
Definition decr_guard_conditions := add_guard_conditions SIZE_MAX.
Definition incr_action_clients := add_action_clients 1.
Definition incr_action_servers := add_action_servers 1.

(** ** The rcl interface used outside of a round

    The wait-set and allocator functions of rcl that the life-cycle and
    registration code calls.  Their results depend only on their arguments:
    whatever state the middleware keeps for a wait set is behind [impl]. *)
Class rcl_api := {
  (** [rcutils_allocator_is_valid], behind [RCL_CHECK_ALLOCATOR_WITH_MSG] *)
  rcutils_allocator_is_valid : void_ptr -> bool;
  (** [allocator->allocate(size, state) != NULL] *)
  allocate : void_ptr -> size_t -> bool;
  sizeof_rclc_executor_handle_t : size_t;
  sizeof_rclc_action_goal_handle_t : size_t;
  rcl_get_zero_initialized_wait_set : rcl_wait_set_t;
  rcl_wait_set_is_valid : rcl_wait_set_t -> bool;
  rcl_wait_set_fini : rcl_wait_set_t -> rcl_ret_t * rcl_wait_set_t;
  (** [rcl_wait_set_init (ws, subscriptions, guard conditions, timers,
      clients, services, events, context, allocator)] *)
  rcl_wait_set_init :
    rcl_wait_set_t -> size_t -> size_t -> size_t -> size_t -> size_t -> size_t ->
    void_ptr -> void_ptr -> rcl_ret_t * rcl_wait_set_t;
  rcl_wait_set_clear : rcl_wait_set_t -> rcl_ret_t * rcl_wait_set_t;
  (** [rcl_wait_set_add_* (ws, entity, &index)]: the result code, the wait
      set and the value left in [index]; the last argument is the value
      [index] had before the call. *)
  rcl_wait_set_add_subscription :
    rcl_wait_set_t -> void_ptr -> size_t -> rcl_ret_t * rcl_wait_set_t * size_t;
  rcl_wait_set_add_timer :
    rcl_wait_set_t -> void_ptr -> size_t -> rcl_ret_t * rcl_wait_set_t * size_t;
  rcl_wait_set_add_service :
    rcl_wait_set_t -> void_ptr -> size_t -> rcl_ret_t * rcl_wait_set_t * size_t;
  rcl_wait_set_add_client :
    rcl_wait_set_t -> void_ptr -> size_t -> rcl_ret_t * rcl_wait_set_t * size_t;
  rcl_wait_set_add_guard_condition :
    rcl_wait_set_t -> void_ptr -> size_t -> rcl_ret_t * rcl_wait_set_t * size_t;
  rcl_action_wait_set_add_action_client :
    rcl_wait_set_t -> void_ptr -> size_t -> rcl_ret_t * rcl_wait_set_t * size_t;
  rcl_action_wait_set_add_action_server :
    rcl_wait_set_t -> void_ptr -> size_t -> rcl_ret_t * rcl_wait_set_t * size_t;
  (** [rcl_action_*_wait_set_get_num_entities]: the result code and the
      numbers of subscriptions, guard conditions, timers, clients and
      services left in the out-parameters (which are 0 before the call). *)
  rcl_action_client_wait_set_get_num_entities :
    void_ptr -> rcl_ret_t * (size_t * size_t * size_t * size_t * size_t);
  rcl_action_server_wait_set_get_num_entities :
    void_ptr -> rcl_ret_t * (size_t * size_t * size_t * size_t * size_t);
  (** [rcl_action_*_wait_set_get_entities_ready]: the result code and the
      flags left in the out-parameters, given the flags before the call. *)
  rcl_action_client_wait_set_get_entities_ready :
    rcl_wait_set_t -> void_ptr -> client_ready_flags -> rcl_ret_t * client_ready_flags;
  rcl_action_server_wait_set_get_entities_ready :
    rcl_wait_set_t -> void_ptr -> server_ready_flags -> rcl_ret_t * server_ready_flags
}.

Section Lifecycle.
Context {api : rcl_api}.

(** *** [_rclc_executor_is_valid] *)
Definition _rclc_executor_is_valid (executor : rclc_executor_t) : bool :=
  if bool_decide (handles executor = None) then false
  else if is_null (allocator executor) then false
  else if max_handles executor =? 0 then false
  else true.

(** *** [rclc_executor_get_zero_initialized_executor] *)
Definition rclc_executor_get_zero_initialized_executor : rclc_executor_t :=
  {| exe_context := NULL;
     handles := None;
     max_handles := 0;
     index := 0;
     allocator := NULL;
     wait_set := zero_wait_set;
     info := rclc_executor_handle_counters_zero_init;
     timeout_ns := 0;
     invocation_time := 0%Z;
     trigger_function := None;
     trigger_object := NULL;
     data_comm_semantics := RCLCPP_EXECUTOR |}.

(** *** [rclc_executor_set_timeout] *)
Definition rclc_executor_set_timeout (executor : rclc_executor_t) (timeout_ns : N)
  : rcl_ret_t * rclc_executor_t :=
  if _rclc_executor_is_valid executor then
    (RCL_RET_OK, set_timeout_ns timeout_ns executor)
  else
    (RCL_RET_ERROR, executor).

(** *** [rclc_executor_set_semantics] *)
Definition rclc_executor_set_semantics (executor : rclc_executor_t)
  (semantics : rclc_executor_semantics_t) : rcl_ret_t * rclc_executor_t :=
  if _rclc_executor_is_valid executor then
    (RCL_RET_OK, set_data_comm_semantics semantics executor)
  else
    (RCL_RET_ERROR, executor).

(** *** [rclc_executor_set_trigger] *)
Definition rclc_executor_set_trigger (executor : rclc_executor_t)
  (trigger_function : option trigger_fn) (trigger_object : void_ptr)
  : rcl_ret_t * rclc_executor_t :=
  (RCL_RET_OK, set_trigger_object trigger_object (set_trigger_function trigger_function executor)).

(** *** [DEFAULT_WAIT_TIMEOUT_NS] *)
Definition DEFAULT_WAIT_TIMEOUT_NS : N := 1000000000.

(** *** [rclc_executor_init] *)
Definition rclc_executor_init (executor : rclc_executor_t) (context : void_ptr)
  (number_of_handles : size_t) (allocator : void_ptr) : rcl_ret_t * rclc_executor_t :=
  if is_null context then (RCL_RET_INVALID_ARGUMENT, executor)
  else if is_null allocator || negb (rcutils_allocator_is_valid allocator)
  then (RCL_RET_INVALID_ARGUMENT, executor)
  else if number_of_handles =? 0 then (RCL_RET_INVALID_ARGUMENT, executor)
  else
    let executor := rclc_executor_get_zero_initialized_executor in
    let executor := set_exe_context context executor in
    let executor := set_max_handles number_of_handles executor in
    let executor := set_index 0 executor in
    let executor := set_wait_set rcl_get_zero_initialized_wait_set executor in
    let executor := set_allocator allocator executor in
    let executor := set_timeout_ns DEFAULT_WAIT_TIMEOUT_NS executor in
    if allocate allocator (size_wrap (number_of_handles * sizeof_rclc_executor_handle_t)) then
      let executor :=
        set_handles
          (Some ((λ h, rclc_executor_handle_init h number_of_handles)
                   <$> replicate (N.to_nat number_of_handles) raw_handle)) executor in
      let executor := set_info rclc_executor_handle_counters_zero_init executor in
      let executor := (rclc_executor_set_trigger executor (Some rclc_executor_trigger_any) NULL).2 in
      let executor := (rclc_executor_set_semantics executor RCLCPP_EXECUTOR).2 in
      (RCL_RET_OK, executor)
    else (RCL_RET_BAD_ALLOC, set_handles None executor).

(** *** [rclc_executor_fini] *)
Definition rclc_executor_fini (executor : rclc_executor_t) : rcl_ret_t * rclc_executor_t :=
  if _rclc_executor_is_valid executor then
    let executor := set_handles None executor in
    let executor := set_max_handles 0 executor in
    let executor := set_index 0 executor in
    let executor := set_info rclc_executor_handle_counters_zero_init executor in
    let executor :=
      if rcl_wait_set_is_valid (wait_set executor)
      then set_wait_set (rcl_wait_set_fini (wait_set executor)).2 executor
      else executor in
    (RCL_RET_OK, set_timeout_ns DEFAULT_WAIT_TIMEOUT_NS executor)
  else (RCL_RET_OK, executor).

(** ** Registration *)

(** The block that every [add_*] and [_rclc_executor_remove_handle] contains:
<<
  if (rcl_wait_set_is_valid(&executor->wait_set)) {
    ret = rcl_wait_set_fini(&executor->wait_set);
    if (RCL_RET_OK != ret) { ...; return ret; }
  }
>>
    It yields [inl ret] for the early return and [inr] to go on; [ret] keeps
    its previous value [RCL_RET_OK] when the wait set is not valid. *)
Definition invalidate_wait_set (executor : rclc_executor_t)
  : rcl_ret_t * rclc_executor_t + rclc_executor_t :=
  if rcl_wait_set_is_valid (wait_set executor) then
    let '(ret, ws) := rcl_wait_set_fini (wait_set executor) in
    let executor := set_wait_set ws executor in
    if ret <>r? RCL_RET_OK then inl (ret, executor) else inr executor
  else inr executor.

(** [executor->handles[executor->index].f = v] for the fields an [add_*]
    assigns, followed by [executor->index++]. *)
Definition assign_next_handle (f : rclc_executor_handle_t -> rclc_executor_handle_t)
  (executor : rclc_executor_t) : rclc_executor_t :=
  let executor := store_handle (index executor) (f (handle_at executor (index executor))) executor in
  set_index (size_incr (index executor)) executor.

(** The array-bound check of every [add_*]. *)
Definition handles_full (executor : rclc_executor_t) : bool :=
  max_handles executor <=? index executor.

(** *** [rclc_executor_add_subscription] *)
Definition rclc_executor_add_subscription (executor : rclc_executor_t)
  (subscription msg callback : void_ptr) (invocation : rclc_executor_handle_invocation_t)
  : rcl_ret_t * rclc_executor_t :=
  if is_null subscription then (RCL_RET_INVALID_ARGUMENT, executor)
  else if is_null msg then (RCL_RET_INVALID_ARGUMENT, executor)
  else if is_null callback then (RCL_RET_INVALID_ARGUMENT, executor)
  else if handles_full executor then (RCL_RET_ERROR, executor)
  else
    let executor :=
      assign_next_handle
        (λ h, set_data_available false (set_callback_context NULL (set_initialized true
               (set_invocation invocation (set_callback callback (set_data msg
               (set_entity subscription (set_type RCLC_SUBSCRIPTION h)))))))) executor in
    match invalidate_wait_set executor with
    | inl r => r
    | inr executor => (RCL_RET_OK, set_info (incr_subscriptions (info executor)) executor)
    end.

(** *** [rclc_executor_add_subscription_with_context] *)
Definition rclc_executor_add_subscription_with_context (executor : rclc_executor_t)
  (subscription msg callback context : void_ptr)
  (invocation : rclc_executor_handle_invocation_t) : rcl_ret_t * rclc_executor_t :=
  if is_null subscription then (RCL_RET_INVALID_ARGUMENT, executor)
  else if is_null msg then (RCL_RET_INVALID_ARGUMENT, executor)
  else if is_null callback then (RCL_RET_INVALID_ARGUMENT, executor)
  else if handles_full executor then (RCL_RET_ERROR, executor)
  else
    let executor :=
      assign_next_handle
        (λ h, set_callback_context context (set_initialized true
               (set_invocation invocation (set_callback callback (set_data msg
               (set_entity subscription (set_type RCLC_SUBSCRIPTION_WITH_CONTEXT h)))))))
        executor in
    match invalidate_wait_set executor with
    | inl r => r
    | inr executor => (RCL_RET_OK, set_info (incr_subscriptions (info executor)) executor)
    end.

(** *** [rclc_executor_add_timer] *)
Definition rclc_executor_add_timer (executor : rclc_executor_t) (timer : void_ptr)
  : rcl_ret_t * rclc_executor_t :=
  if is_null timer then (RCL_RET_INVALID_ARGUMENT, executor)
  else if handles_full executor then (RCL_RET_ERROR, executor)
  else
    let executor :=
      assign_next_handle
        (λ h, set_data_available false (set_callback_context NULL (set_initialized true
               (set_invocation ON_NEW_DATA (set_entity timer (set_type RCLC_TIMER h))))))
        executor in
    match invalidate_wait_set executor with
    | inl r => r
    | inr executor => (RCL_RET_OK, set_info (incr_timers (info executor)) executor)
    end.

(** *** [rclc_executor_add_client] *)
Definition rclc_executor_add_client (executor : rclc_executor_t)
  (client response_msg callback : void_ptr) : rcl_ret_t * rclc_executor_t :=
  if is_null client then (RCL_RET_INVALID_ARGUMENT, executor)
  else if is_null response_msg then (RCL_RET_INVALID_ARGUMENT, executor)
  else if is_null callback then (RCL_RET_INVALID_ARGUMENT, executor)
  else if handles_full executor then (RCL_RET_ERROR, executor)
  else
    let executor :=
      assign_next_handle
        (λ h, set_callback_context NULL (set_initialized true (set_invocation ON_NEW_DATA
               (set_callback callback (set_data response_msg (set_entity client
               (set_type RCLC_CLIENT h))))))) executor in
    match invalidate_wait_set executor with
    | inl r => r
    | inr executor => (RCL_RET_OK, set_info (incr_clients (info executor)) executor)
    end.

(** *** [rclc_executor_add_client_with_request_id] *)
Definition rclc_executor_add_client_with_request_id (executor : rclc_executor_t)
  (client response_msg callback : void_ptr) : rcl_ret_t * rclc_executor_t :=
  if is_null client then (RCL_RET_INVALID_ARGUMENT, executor)
  else if is_null response_msg then (RCL_RET_INVALID_ARGUMENT, executor)
  else if is_null callback then (RCL_RET_INVALID_ARGUMENT, executor)
  else if handles_full executor then (RCL_RET_ERROR, executor)
  else
    let executor :=
      assign_next_handle
        (λ h, set_callback_context NULL (set_initialized true (set_invocation ON_NEW_DATA
               (set_callback callback (set_data response_msg (set_entity client
               (set_type RCLC_CLIENT_WITH_REQUEST_ID h))))))) executor in
    match invalidate_wait_set executor with
    | inl r => r
    | inr executor => (RCL_RET_OK, set_info (incr_clients (info executor)) executor)
    end.

(** *** [rclc_executor_add_service] *)
Definition rclc_executor_add_service (executor : rclc_executor_t)
  (service request_msg response_msg callback : void_ptr) : rcl_ret_t * rclc_executor_t :=
  if is_null service then (RCL_RET_INVALID_ARGUMENT, executor)
  else if is_null request_msg then (RCL_RET_INVALID_ARGUMENT, executor)
  else if is_null response_msg then (RCL_RET_INVALID_ARGUMENT, executor)
  else if is_null callback then (RCL_RET_INVALID_ARGUMENT, executor)
  else if handles_full executor then (RCL_RET_ERROR, executor)
  else
    let executor :=
      assign_next_handle
        (λ h, set_callback_context NULL (set_initialized true (set_invocation ON_NEW_DATA
               (set_callback callback (set_data_response_msg response_msg
               (set_data request_msg (set_entity service (set_type RCLC_SERVICE h))))))))
        executor in
    match invalidate_wait_set executor with
    | inl r => r
    | inr executor => (RCL_RET_OK, set_info (incr_services (info executor)) executor)
    end.

(** *** [rclc_executor_add_service_with_context] *)
Definition rclc_executor_add_service_with_context (executor : rclc_executor_t)
  (service request_msg response_msg callback context : void_ptr)
  : rcl_ret_t * rclc_executor_t :=
  if is_null service then (RCL_RET_INVALID_ARGUMENT, executor)
  else if is_null request_msg then (RCL_RET_INVALID_ARGUMENT, executor)
  else if is_null response_msg then (RCL_RET_INVALID_ARGUMENT, executor)
  else if is_null callback then (RCL_RET_INVALID_ARGUMENT, executor)
  else if handles_full executor then (RCL_RET_ERROR, executor)
  else
    let executor :=
      assign_next_handle
        (λ h, set_callback_context context (set_initialized true (set_invocation ON_NEW_DATA
               (set_callback callback (set_data_response_msg response_msg
               (set_data request_msg (set_entity service
               (set_type RCLC_SERVICE_WITH_CONTEXT h)))))))) executor in
    match invalidate_wait_set executor with
    | inl r => r
    | inr executor => (RCL_RET_OK, set_info (incr_services (info executor)) executor)
    end.

(** *** [rclc_executor_add_service_with_request_id] *)
Definition rclc_executor_add_service_with_request_id (executor : rclc_executor_t)
  (service request_msg response_msg callback : void_ptr) : rcl_ret_t * rclc_executor_t :=
  if is_null service then (RCL_RET_INVALID_ARGUMENT, executor)
  else if is_null request_msg then (RCL_RET_INVALID_ARGUMENT, executor)
  else if is_null response_msg then (RCL_RET_INVALID_ARGUMENT, executor)
  else if is_null callback then (RCL_RET_INVALID_ARGUMENT, executor)
  else if handles_full executor then (RCL_RET_ERROR, executor)
  else
    let executor :=
      assign_next_handle
        (λ h, set_callback_context NULL (set_initialized true (set_invocation ON_NEW_DATA
               (set_callback callback (set_data_response_msg response_msg
               (set_data request_msg (set_entity service
               (set_type RCLC_SERVICE_WITH_REQUEST_ID h)))))))) executor in
    match invalidate_wait_set executor with
    | inl r => r
    | inr executor => (RCL_RET_OK, set_info (incr_services (info executor)) executor)
    end.

(** *** [rclc_executor_add_guard_condition] *)
Definition rclc_executor_add_guard_condition (executor : rclc_executor_t)
  (gc callback : void_ptr) : rcl_ret_t * rclc_executor_t :=
  if is_null gc then (RCL_RET_INVALID_ARGUMENT, executor)
  else if is_null callback then (RCL_RET_INVALID_ARGUMENT, executor)
  else if handles_full executor then (RCL_RET_ERROR, executor)
  else
    let executor :=
      assign_next_handle
        (λ h, set_callback_context NULL (set_initialized true (set_invocation ON_NEW_DATA
               (set_callback callback (set_entity gc (set_type RCLC_GUARD_CONDITION h))))))
        executor in
    match invalidate_wait_set executor with
    | inl r => r
    | inr executor => (RCL_RET_OK, set_info (incr_guard_conditions (info executor)) executor)
    end.

(** *** [rclc_executor_add_action_client]

    The goal-handle pool ([rclc_action_init_goal_handle_memory] and the loop
    that links each goal handle to its action client) and the buffer of the
    cancel response live in the environment and are not part of the state of
    the model; the allocation of the pool is, because its failure is
    reported. *)
Definition rclc_executor_add_action_client (executor : rclc_executor_t)
  (action_client : void_ptr) (handles_number : size_t)
  (ros_result_response ros_feedback goal_callback feedback_callback result_callback
   cancel_callback context : void_ptr) (m : action_memory)
  : rcl_ret_t * rclc_executor_t * action_memory :=
  if is_null action_client then (RCL_RET_INVALID_ARGUMENT, executor, m)
  else if is_null ros_result_response then (RCL_RET_INVALID_ARGUMENT, executor, m)
  else if is_null goal_callback then (RCL_RET_INVALID_ARGUMENT, executor, m)
  else if is_null result_callback then (RCL_RET_INVALID_ARGUMENT, executor, m)
  else if negb (is_null feedback_callback) && is_null ros_feedback
  then (RCL_RET_INVALID_ARGUMENT, executor, m)
  else if handles_full executor then (RCL_RET_ERROR, executor, m)
  else
    let c := load_action_client m action_client in
    let c :=
      mk_action_client (allocator executor) (ac_goal_handles_memory_size c) (ac_ros_feedback c)
        (ac_ros_result_response c) (ac_goal_callback c) (ac_feedback_callback c)
        (ac_result_callback c) (ac_cancel_callback c) (feedback_available c)
        (status_available c) (goal_response_available c) (cancel_response_available c)
        (result_response_available c) in
    if negb (allocate (allocator executor)
               (size_wrap (handles_number * sizeof_rclc_action_goal_handle_t)))
    then (RCL_RET_ERROR, executor, store_action_client action_client c m)
    else
      let c :=
        mk_action_client (allocator executor) handles_number ros_feedback ros_result_response
          goal_callback feedback_callback result_callback cancel_callback
          false false false false false in
      let m := store_action_client action_client c m in
      let executor :=
        assign_next_handle
          (λ h, set_callback_context context (set_initialized true
                 (set_invocation ON_NEW_DATA (set_entity action_client
                 (set_type RCLC_ACTION_CLIENT h))))) executor in
      match invalidate_wait_set executor with
      | inl (ret, executor) => (ret, executor, m)
      | inr executor =>
          let '(ret, (num_subscriptions, num_guard_conditions, num_timers, num_clients,
                      num_services)) :=
            rcl_action_client_wait_set_get_num_entities action_client in
          let i := info executor in
          let i := add_subscriptions num_subscriptions i in
          let i := add_guard_conditions num_guard_conditions i in
          let i := add_timers num_timers i in
          let i := add_clients num_clients i in
          let i := add_services num_services i in
          let i := incr_action_clients i in
          (ret, set_info i executor, m)
      end.

(** *** [rclc_executor_add_action_server] *)
Definition rclc_executor_add_action_server (executor : rclc_executor_t)
  (action_server : void_ptr) (handles_number : size_t) (ros_goal_request : void_ptr)
  (ros_goal_request_size : size_t) (goal_callback cancel_callback context : void_ptr)
  (m : action_memory) : rcl_ret_t * rclc_executor_t * action_memory :=
  if is_null action_server then (RCL_RET_INVALID_ARGUMENT, executor, m)
  else if is_null ros_goal_request then (RCL_RET_INVALID_ARGUMENT, executor, m)
  else if is_null goal_callback then (RCL_RET_INVALID_ARGUMENT, executor, m)
  else if is_null cancel_callback then (RCL_RET_INVALID_ARGUMENT, executor, m)
  else if ros_goal_request_size <=? 0 then (RCL_RET_ERROR, executor, m)
  else
    let s := load_action_server m action_server in
    let s :=
      mk_action_server (allocator executor) (as_goal_handles_memory_size s) (as_goal_callback s)
        (as_cancel_callback s) (goal_ended s) (goal_request_available s)
        (cancel_request_available s) (result_request_available s) (goal_expired_available s) in
    let m := store_action_server action_server s m in
    if handles_full executor then (RCL_RET_ERROR, executor, m)
    else if negb (allocate (allocator executor)
                    (size_wrap (handles_number * sizeof_rclc_action_goal_handle_t)))
    then (RCL_RET_ERROR, executor, m)
    else
      let s :=
        mk_action_server (allocator executor) handles_number goal_callback cancel_callback
          false false false false false in
      let m := store_action_server action_server s m in
      let executor :=
        assign_next_handle
          (λ h, set_callback_context context (set_initialized true
                 (set_invocation ON_NEW_DATA (set_entity action_server
                 (set_type RCLC_ACTION_SERVER h))))) executor in
      match invalidate_wait_set executor with
      | inl (ret, executor) => (ret, executor, m)
      | inr executor =>
          let '(ret, (num_subscriptions, num_guard_conditions, num_timers, num_clients,
                      num_services)) :=
            rcl_action_server_wait_set_get_num_entities action_server in
          let i := info executor in
          let i := add_subscriptions num_subscriptions i in
          let i := add_guard_conditions num_guard_conditions i in
          let i := add_timers num_timers i in
          let i := add_clients num_clients i in
          let i := add_services num_services i in
          let i := incr_action_servers i in
          (ret, set_info i executor, m)
      end.

(** ** Removal *)

(** *** [_rclc_executor_find_handle]

    The scan over [executor->handles .. &executor->handles[executor->index]];
    a pointer to a handle of the array is its position.  [fuel] is the number
    of handles left to test. *)
Fixpoint find_handle_loop (hs : list rclc_executor_handle_t) (rcl_handle : void_ptr)
  (fuel test_handle : nat) : option nat :=
  match fuel with
  | O => None
  | S fuel' =>
      if ptr_eqb rcl_handle (rclc_executor_handle_get_ptr (hs !!! test_handle))
      then Some test_handle
      else find_handle_loop hs rcl_handle fuel' (S test_handle)
  end.

Definition _rclc_executor_find_handle (executor : rclc_executor_t) (rcl_handle : void_ptr)
  : option nat :=
  find_handle_loop (handle_array executor) rcl_handle (N.to_nat (index executor)) 0.

(** The loop [for (dest = handle; dest < &handles[index]; dest++) *dest = *(dest + 1)];
    [fuel] is the number of copies left. *)
Fixpoint shift_handles (hs : list rclc_executor_handle_t) (fuel handle_dest : nat)
  : list rclc_executor_handle_t :=
  match fuel with
  | O => hs
  | S fuel' => shift_handles (<[handle_dest := hs !!! S handle_dest]> hs) fuel' (S handle_dest)
  end.

(** *** [_rclc_executor_remove_handle] *)
Definition _rclc_executor_remove_handle (executor : rclc_executor_t) (handle : option nat)
  : rcl_ret_t * rclc_executor_t :=
  match handle with
  | None => (RCL_RET_ERROR, executor)
  | Some handle =>
      if index executor <=? N.of_nat handle then (RCL_RET_ERROR, executor)
      else if index executor =? 0 then (RCL_RET_ERROR, executor)
      else
        let executor := set_index (size_decr (index executor)) executor in
        let executor :=
          set_handles
            ((λ hs, shift_handles hs (N.to_nat (index executor) - handle) handle)
               <$> handles executor) executor in
        let executor :=
          store_handle (index executor)
            (rclc_executor_handle_init (handle_at executor (index executor))
               (max_handles executor)) executor in
        match invalidate_wait_set executor with
        | inl r => r
        | inr executor => (RCL_RET_OK, executor)
        end
  end.

(** *** [rclc_executor_remove_subscription] *)
Definition rclc_executor_remove_subscription (executor : rclc_executor_t)
  (subscription : void_ptr) : rcl_ret_t * rclc_executor_t :=
  if is_null subscription then (RCL_RET_INVALID_ARGUMENT, executor)
  else
    let handle := _rclc_executor_find_handle executor subscription in
    let '(ret, executor) := _rclc_executor_remove_handle executor handle in
    if ret <>r? RCL_RET_OK then (ret, executor)
    else (ret, set_info (decr_subscriptions (info executor)) executor).

(** *** [rclc_executor_remove_timer] *)
Definition rclc_executor_remove_timer (executor : rclc_executor_t) (timer : void_ptr)
  : rcl_ret_t * rclc_executor_t :=
  if is_null timer then (RCL_RET_INVALID_ARGUMENT, executor)
  else
    let handle := _rclc_executor_find_handle executor timer in
    let '(ret, executor) := _rclc_executor_remove_handle executor handle in
    if ret <>r? RCL_RET_OK then (ret, executor)
    else (ret, set_info (decr_timers (info executor)) executor).

(** *** [rclc_executor_remove_client] *)
Definition rclc_executor_remove_client (executor : rclc_executor_t) (client : void_ptr)
  : rcl_ret_t * rclc_executor_t :=
  if is_null client then (RCL_RET_INVALID_ARGUMENT, executor)
  else
    let handle := _rclc_executor_find_handle executor client in
    let '(ret, executor) := _rclc_executor_remove_handle executor handle in
    if ret <>r? RCL_RET_OK then (ret, executor)
    else (ret, set_info (decr_clients (info executor)) executor).

(** *** [rclc_executor_remove_service] *)
Definition rclc_executor_remove_service (executor : rclc_executor_t) (service : void_ptr)
  : rcl_ret_t * rclc_executor_t :=
  if is_null service then (RCL_RET_INVALID_ARGUMENT, executor)
  else
    let handle := _rclc_executor_find_handle executor service in
    let '(ret, executor) := _rclc_executor_remove_handle executor handle in
    if ret <>r? RCL_RET_OK then (ret, executor)
    else (ret, set_info (decr_services (info executor)) executor).

(** *** [rclc_executor_remove_guard_condition] *)
Definition rclc_executor_remove_guard_condition (executor : rclc_executor_t)
  (guard_condition : void_ptr) : rcl_ret_t * rclc_executor_t :=
  if is_null guard_condition then (RCL_RET_INVALID_ARGUMENT, executor)
  else
    let handle := _rclc_executor_find_handle executor guard_condition in
    let '(ret, executor) := _rclc_executor_remove_handle executor handle in
    if ret <>r? RCL_RET_OK then (ret, executor)
    else (ret, set_info (decr_guard_conditions (info executor)) executor).

(** *** [rclc_executor_prepare] *)
Definition rclc_executor_prepare (executor : rclc_executor_t) : rcl_ret_t * rclc_executor_t :=
  if negb (rcl_wait_set_is_valid (wait_set executor)) then
    let '(_, ws) := rcl_wait_set_fini (wait_set executor) in
    let executor := set_wait_set ws executor in
    let executor := set_wait_set rcl_get_zero_initialized_wait_set executor in
    let i := info executor in
    let '(rc, ws) :=
      rcl_wait_set_init (wait_set executor) (number_of_subscriptions i)
        (number_of_guard_conditions i) (number_of_timers i) (number_of_clients i)
        (number_of_services i) (number_of_events i) (exe_context executor)
        (allocator executor) in
    (rc, set_wait_set ws executor)
  else (RCL_RET_OK, executor).

End Lifecycle.

(** ** The environment of a round

    The world outside the executor: the memory holding the action endpoint
    structs, and everything else (middleware queues, user buffers, the goal
    handle pools of the action endpoints), which stays abstract. *)
Record world (Ext : Type) := mk_world {
  mem : action_memory;
  ext : Ext
}.
Arguments mk_world {Ext} _ _.
Arguments mem {Ext} _.
Arguments ext {Ext} _.

Definition set_mem {Ext} (m : action_memory) (w : world Ext) : world Ext := mk_world m (ext w).

(** The calls a round makes into the middleware and into user code.  A call
    is named after the C function that is called; a user callback is named
    after the field of the callback union through which it is called and
    carries the function pointer.

    The action branches of [_rclc_take_new_data] and [_rclc_execute] work on
    goal handles through helpers that are not part of these sources.  Each of
    their blocks is one call here:
    - [rcl_action_take_*]: the rcl take of the block, whose result code is the
      result of the call, together with the goal-handle bookkeeping that
      follows it (for [rcl_action_take_goal_request], the acquisition of a
      free goal handle before it, the take being skipped with [RCL_RET_OK]
      when none is free; for [rcl_action_take_cancel_request], the immediate
      reject response);
    - [action_*_callbacks] and [action_server_terminated_goals]: the loop of
      the block in [_rclc_execute], which invokes the user callbacks of the
      action endpoint. *)
Inductive call :=
| rcl_take (subscription data : void_ptr)
| rcl_take_request (service : void_ptr) (request_header : rmw_request_id_t) (data : void_ptr)
| rcl_take_response (client : void_ptr) (request_header : rmw_request_id_t) (data : void_ptr)
| rcl_action_take_goal_response (action_client : void_ptr)
| rcl_action_take_feedback (action_client : void_ptr)
| rcl_action_take_cancel_response (action_client : void_ptr)
| rcl_action_take_result_response (action_client : void_ptr)
| rcl_action_take_goal_request (action_server : void_ptr)
| rcl_action_take_result_request (action_server : void_ptr)
| rcl_action_take_cancel_request (action_server : void_ptr)
| subscription_callback (fn msg : void_ptr)
| subscription_callback_with_context (fn msg context : void_ptr)
| rcl_timer_call (timer : void_ptr)
| service_callback (fn request response : void_ptr)
| service_callback_with_reqid (fn request : void_ptr) (id : rmw_request_id_t)
    (response : void_ptr)
| service_callback_with_context (fn request response context : void_ptr)
| rcl_send_response (service : void_ptr) (id : rmw_request_id_t) (response : void_ptr)
| client_callback (fn response : void_ptr)
| client_callback_with_reqid (fn response : void_ptr) (id : rmw_request_id_t)
| gc_callback (fn : void_ptr)
| action_client_goal_response_callbacks (action_client context : void_ptr)
| action_client_feedback_callbacks (action_client context : void_ptr)
| action_client_cancel_response_callbacks (action_client context : void_ptr)
| action_client_result_response_callbacks (action_client context : void_ptr)
| action_server_terminated_goals (action_server : void_ptr)
| action_server_goal_request_callbacks (action_server context : void_ptr)
| action_server_cancel_request_callbacks (action_server context : void_ptr).

(** The middleware and the user code as the executor sees them during a
    round: each call transforms the world and answers with a result code and,
    for the takes of services and clients, the request id left in the header. *)
Class rcl_runtime (Ext : Type) := {
  perform : call -> world Ext -> rcl_ret_t * rmw_request_id_t * world Ext;
  rcl_context_is_valid : void_ptr -> world Ext -> bool;
  rcl_wait : rcl_wait_set_t -> Z -> world Ext -> rcl_ret_t * rcl_wait_set_t * world Ext
}.

(** Ghost trace of a round. *)
Inductive event :=
| ev_call (c : call) (rc : rcl_ret_t)
    (** the call [c] was made and returned [rc] *)
| ev_wait (timeout : Z) (rc : rcl_ret_t)
    (** [rcl_wait] was called with [timeout] (an [int64_t]) and returned [rc] *)
| ev_take_new_data (i : nat) (rc : rcl_ret_t)
    (** [_rclc_take_new_data(&executor->handles[i], ..)] returned [rc] *)
| ev_execute (i : nat)
    (** [_rclc_execute(&executor->handles[i])] was entered *).

(** A take: a call that pulls data out of the middleware. *)
Definition is_take (c : call) : bool :=
  match c with
  | rcl_take _ _ | rcl_take_request _ _ _ | rcl_take_response _ _ _
  | rcl_action_take_goal_response _ | rcl_action_take_feedback _
  | rcl_action_take_cancel_response _ | rcl_action_take_result_response _
  | rcl_action_take_goal_request _ | rcl_action_take_result_request _
  | rcl_action_take_cancel_request _ => true
  | _ => false
  end.

(** A callback: a call that runs user code (the timer call runs the callback
    of the timer). *)
Definition is_callback (c : call) : bool :=
  match c with
  | subscription_callback _ _ | subscription_callback_with_context _ _ _
  | rcl_timer_call _
  | service_callback _ _ _ | service_callback_with_reqid _ _ _ _
  | service_callback_with_context _ _ _ _
  | client_callback _ _ | client_callback_with_reqid _ _ _
  | gc_callback _
  | action_client_goal_response_callbacks _ _ | action_client_feedback_callbacks _ _
  | action_client_cancel_response_callbacks _ _ | action_client_result_response_callbacks _ _
  | action_server_terminated_goals _
  | action_server_goal_request_callbacks _ _ | action_server_cancel_request_callbacks _ _ => true
  | _ => false
  end.

Definition is_take_event (e : event) : bool :=
  match e with
  | ev_call c _ => is_take c
  | ev_take_new_data _ _ => true
  | _ => false
  end.

Definition is_callback_event (e : event) : bool :=
  match e with
  | ev_call c _ => is_callback c
  | _ => false
  end.

Section Round.
Context {api : rcl_api} {Ext : Type} {rt : rcl_runtime Ext}.

(** The effect state of a round: the world and the ghost trace. *)
Definition effects : Type := world Ext * list event.

(** Make a call: perform it and record it. *)
Definition do_call (c : call) (s : effects) : rcl_ret_t * rmw_request_id_t * effects :=
  let '(rc, id, w) := perform c s.1 in
  (rc, id, (w, s.2 ++ [ev_call c rc])).

Definition log (e : event) (s : effects) : effects := (s.1, s.2 ++ [e]).

(** *** [_rclc_check_for_new_data] *)
Definition _rclc_check_for_new_data (handle : rclc_executor_handle_t) (wait_set : rcl_wait_set_t)
  (m : action_memory) : rcl_ret_t * rclc_executor_handle_t * action_memory :=
  match type handle with
  | RCLC_SUBSCRIPTION | RCLC_SUBSCRIPTION_WITH_CONTEXT =>
      (RCL_RET_OK,
       set_data_available (negb (is_null (ws_entry (subscriptions wait_set) (h_index handle))))
         handle, m)
  | RCLC_TIMER =>
      (RCL_RET_OK,
       set_data_available (negb (is_null (ws_entry (timers wait_set) (h_index handle))))
         handle, m)
  | RCLC_SERVICE | RCLC_SERVICE_WITH_REQUEST_ID | RCLC_SERVICE_WITH_CONTEXT =>
      (RCL_RET_OK,
       set_data_available (negb (is_null (ws_entry (services wait_set) (h_index handle))))
         handle, m)
  | RCLC_CLIENT | RCLC_CLIENT_WITH_REQUEST_ID =>
      (RCL_RET_OK,
       set_data_available (negb (is_null (ws_entry (clients wait_set) (h_index handle))))
         handle, m)
  | RCLC_GUARD_CONDITION =>
      (RCL_RET_OK,
       set_data_available
         (negb (is_null (ws_entry (guard_conditions wait_set) (h_index handle)))) handle, m)
  | RCLC_ACTION_CLIENT =>
      let c := load_action_client m (entity handle) in
      let '(rc, flags) :=
        rcl_action_client_wait_set_get_entities_ready wait_set (entity handle) (ac_ready c) in
      (rc, handle, store_action_client (entity handle) (ac_set_ready flags c) m)
  | RCLC_ACTION_SERVER =>
      let s := load_action_server m (entity handle) in
      let '(rc, flags) :=
        rcl_action_server_wait_set_get_entities_ready wait_set (entity handle) (as_ready s) in
      (rc, handle, store_action_server (entity handle) (as_set_ready flags s) m)
  | RCLC_NONE => (RCL_RET_ERROR, handle, m)
  end.

(** One gated take of an action endpoint:
    [if (flag) { rc = take(..); if (rc != RCL_RET_OK) return rc; ... }].
    [inl] is the early return. *)
Definition gated_take (flag : bool) (c : call) (rc : rcl_ret_t) (s : effects)
  : rcl_ret_t * effects + rcl_ret_t * effects :=
  if flag then
    let '(rc, _, s) := do_call c s in
    if rc <>r? RCL_RET_OK then inl (rc, s) else inr (rc, s)
  else inr (rc, s).

(** *** [_rclc_take_new_data] *)
Definition _rclc_take_new_data (handle : rclc_executor_handle_t) (wait_set : rcl_wait_set_t)
  (s : effects) : rcl_ret_t * rclc_executor_handle_t * effects :=
  match type handle with
  | RCLC_SUBSCRIPTION | RCLC_SUBSCRIPTION_WITH_CONTEXT =>
      if negb (is_null (ws_entry (subscriptions wait_set) (h_index handle))) then
        let '(rc, _, s) := do_call (rcl_take (entity handle) (data handle)) s in
        if rc <>r? RCL_RET_OK then
          (rc,
           if rc =r? RCL_RET_SUBSCRIPTION_TAKE_FAILED then set_data_available false handle
           else handle, s)
        else (rc, handle, s)
      else (RCL_RET_OK, handle, s)
  | RCLC_TIMER => (RCL_RET_OK, handle, s)
  | RCLC_ACTION_CLIENT =>
      let p := entity handle in
      let rc := RCL_RET_OK in
      match gated_take (goal_response_available (load_action_client (mem s.1) p))
              (rcl_action_take_goal_response p) rc s with
      | inl (rc, s) => (rc, handle, s)
      | inr (rc, s) =>
      match gated_take
              (negb (is_null (ac_feedback_callback (load_action_client (mem s.1) p)))
               && feedback_available (load_action_client (mem s.1) p))
              (rcl_action_take_feedback p) rc s with
      | inl (rc, s) => (rc, handle, s)
      | inr (rc, s) =>
      match gated_take (cancel_response_available (load_action_client (mem s.1) p))
              (rcl_action_take_cancel_response p) rc s with
      | inl (rc, s) => (rc, handle, s)
      | inr (rc, s) =>
      match gated_take (result_response_available (load_action_client (mem s.1) p))
              (rcl_action_take_result_response p) rc s with
      | inl (rc, s) => (rc, handle, s)
      | inr (rc, s) => (rc, handle, s)
      end end end end
  | RCLC_ACTION_SERVER =>
      let p := entity handle in
      let rc := RCL_RET_OK in
      match gated_take (goal_request_available (load_action_server (mem s.1) p))
              (rcl_action_take_goal_request p) rc s with
      | inl (rc, s) => (rc, handle, s)
      | inr (rc, s) =>
      let result_request := result_request_available (load_action_server (mem s.1) p) in
      match gated_take result_request (rcl_action_take_result_request p) rc s with
      | inl (rc, s) => (rc, handle, s)
      | inr (rc, s) =>
      let s : effects :=
        if result_request then
          (set_mem (store_action_server p
                      (as_set_result_request_available false (load_action_server (mem s.1) p))
                      (mem s.1)) s.1, s.2)
        else s in
      match gated_take (cancel_request_available (load_action_server (mem s.1) p))
              (rcl_action_take_cancel_request p) rc s with
      | inl (rc, s) => (rc, handle, s)
      | inr (rc, s) => (rc, handle, s)
      end end end
  | RCLC_SERVICE | RCLC_SERVICE_WITH_REQUEST_ID | RCLC_SERVICE_WITH_CONTEXT =>
      if negb (is_null (ws_entry (services wait_set) (h_index handle))) then
        let '(rc, id, s) :=
          do_call (rcl_take_request (entity handle) (req_id handle) (data handle)) s in
        let handle := set_req_id id handle in
        if rc <>r? RCL_RET_OK then
          (rc,
           if rc =r? RCL_RET_SERVICE_TAKE_FAILED then set_data_available false handle
           else handle, s)
        else (rc, handle, s)
      else (RCL_RET_OK, handle, s)
  | RCLC_CLIENT | RCLC_CLIENT_WITH_REQUEST_ID =>
      if negb (is_null (ws_entry (clients wait_set) (h_index handle))) then
        let '(rc, id, s) :=
          do_call (rcl_take_response (entity handle) (req_id handle) (data handle)) s in
        (rc, set_req_id id handle, s)
      else (RCL_RET_OK, handle, s)
  | RCLC_GUARD_CONDITION => (RCL_RET_OK, handle, s)
  | RCLC_NONE => (RCL_RET_ERROR, handle, s)
  end.

(** A block of [_rclc_execute] for an action endpoint:
    [if (flag) { ...callbacks... ; reset }]. *)
Definition gated_block (flag : bool) (c : call) (reset : action_memory -> action_memory)
  (s : effects) : effects :=
  if flag then
    let '(_, _, s) := do_call c s in
    (set_mem (reset (mem s.1)) s.1, s.2)
  else s.

(** *** [_rclc_execute] *)
Definition _rclc_execute (handle : rclc_executor_handle_t) (s : effects) : rcl_ret_t * effects :=
  let invoke_callback :=
    (bool_decide (invocation handle = ON_NEW_DATA)
     && _rclc_check_handle_data_available (mem s.1) handle)
    || bool_decide (invocation handle = ALWAYS) in
  if invoke_callback then
    match type handle with
    | RCLC_SUBSCRIPTION =>
        let msg := if data_available handle then data handle else NULL in
        let '(_, _, s) := do_call (subscription_callback (callback handle) msg) s in
        (RCL_RET_OK, s)
    | RCLC_SUBSCRIPTION_WITH_CONTEXT =>
        let msg := if data_available handle then data handle else NULL in
        let '(_, _, s) :=
          do_call (subscription_callback_with_context (callback handle) msg
                     (callback_context handle)) s in
        (RCL_RET_OK, s)
    | RCLC_TIMER =>
        let '(rc, _, s) := do_call (rcl_timer_call (entity handle)) s in
        if rc =r? RCL_RET_TIMER_CANCELED then (RCL_RET_OK, s)
        else (rc, s)
    | RCLC_SERVICE | RCLC_SERVICE_WITH_REQUEST_ID | RCLC_SERVICE_WITH_CONTEXT =>
        let user_call :=
          match type handle with
          | RCLC_SERVICE =>
              service_callback (callback handle) (data handle) (data_response_msg handle)
          | RCLC_SERVICE_WITH_REQUEST_ID =>
              service_callback_with_reqid (callback handle) (data handle) (req_id handle)
                (data_response_msg handle)
          | _ =>
              service_callback_with_context (callback handle) (data handle)
                (data_response_msg handle) (callback_context handle)
          end in
        let '(_, _, s) := do_call user_call s in
        let '(rc, _, s) :=
          do_call (rcl_send_response (entity handle) (req_id handle)
                     (data_response_msg handle)) s in
        (rc, s)
    | RCLC_CLIENT =>
        let '(_, _, s) := do_call (client_callback (callback handle) (data handle)) s in
        (RCL_RET_OK, s)
    | RCLC_CLIENT_WITH_REQUEST_ID =>
        let '(_, _, s) :=
          do_call (client_callback_with_reqid (callback handle) (data handle)
                     (req_id handle)) s in
        (RCL_RET_OK, s)
    | RCLC_GUARD_CONDITION =>
        let '(_, _, s) := do_call (gc_callback (callback handle)) s in
        (RCL_RET_OK, s)
    | RCLC_ACTION_CLIENT =>
        let p := entity handle in
        let ctx := callback_context handle in
        let s := gated_block (goal_response_available (load_action_client (mem s.1) p))
                   (action_client_goal_response_callbacks p ctx) id s in
        let s := gated_block (feedback_available (load_action_client (mem s.1) p))
                   (action_client_feedback_callbacks p ctx) id s in
        let s := gated_block (cancel_response_available (load_action_client (mem s.1) p))
                   (action_client_cancel_response_callbacks p ctx) id s in
        let s := gated_block (result_response_available (load_action_client (mem s.1) p))
                   (action_client_result_response_callbacks p ctx) id s in
        (RCL_RET_OK, s)
    | RCLC_ACTION_SERVER =>
        let p := entity handle in
        let ctx := callback_context handle in
        let s := gated_block (goal_ended (load_action_server (mem s.1) p))
                   (action_server_terminated_goals p)
                   (λ m, store_action_server p
                           (as_set_goal_ended false (load_action_server m p)) m) s in
        let s := gated_block (goal_request_available (load_action_server (mem s.1) p))
                   (action_server_goal_request_callbacks p ctx)
                   (λ m, store_action_server p
                           (as_set_goal_request_available false (load_action_server m p)) m)
                   s in
        let s := gated_block (cancel_request_available (load_action_server (mem s.1) p))
                   (action_server_cancel_request_callbacks p ctx)
                   (λ m, store_action_server p
                           (as_set_cancel_request_available false (load_action_server m p)) m)
                   s in
        (RCL_RET_OK, s)
    | RCLC_NONE => (RCL_RET_ERROR, s)
    end
  else (RCL_RET_OK, s).

(** ** The schedulers *)

(** The state of a round: the handle array, the world and the ghost trace. *)
Record round := mk_round {
  r_handles : list rclc_executor_handle_t;
  r_effects : effects
}.

(** The result of a loop over the handles: it ran to its end with the
    current value of [rc], or it returned early. *)
Inductive loop_result (St : Type) :=
| Continue (rc : rcl_ret_t) (s : St)
| Return (rc : rcl_ret_t) (s : St).
Arguments Continue {St} _ _.
Arguments Return {St} _ _.

(** [for (size_t i = 0; (i < executor->max_handles && executor->handles[i].initialized); i++)]
    with the given body, over a state [St] that holds the handle array;
    [fuel] bounds the number of iterations left and is [max_handles] at the
    start, so the loop never stops for lack of fuel. *)
Fixpoint for_handles {St : Type} (handles_of : St -> list rclc_executor_handle_t)
  (max_handles : size_t) (body : nat -> St -> loop_result St)
  (fuel i : nat) (rc : rcl_ret_t) (s : St) : loop_result St :=
  match fuel with
  | O => Continue rc s
  | S fuel' =>
      if (N.of_nat i <? max_handles) && initialized (handles_of s !!! i) then
        match body i s with
        | Return rc s => Return rc s
        | Continue rc s => for_handles handles_of max_handles body fuel' (S i) rc s
        end
      else Continue rc s
  end.

(** Body of the readiness loop. *)
Definition check_body (wait_set : rcl_wait_set_t) (i : nat) (r : round) : loop_result round :=
  let '(rc, h, m) :=
    _rclc_check_for_new_data (r_handles r !!! i) wait_set (mem (r_effects r).1) in
  let r := mk_round (<[i := h]> (r_handles r)) (set_mem m (r_effects r).1, (r_effects r).2) in
  if (rc <>r? RCL_RET_OK) && (rc <>r? RCL_RET_SUBSCRIPTION_TAKE_FAILED) then Return rc r
  else Continue rc r.

(** [rc = _rclc_take_new_data(&executor->handles[i], &executor->wait_set)] *)
Definition take_step (wait_set : rcl_wait_set_t) (i : nat) (r : round) : rcl_ret_t * round :=
  let '(rc, h, s) := _rclc_take_new_data (r_handles r !!! i) wait_set (r_effects r) in
  (rc, mk_round (<[i := h]> (r_handles r)) (log (ev_take_new_data i rc) s)).

(** [rc = _rclc_execute(&executor->handles[i])] *)
Definition execute_step (i : nat) (r : round) : rcl_ret_t * round :=
  let '(rc, s) := _rclc_execute (r_handles r !!! i) (log (ev_execute i) (r_effects r)) in
  (rc, mk_round (r_handles r) s).

(** Body of the take-and-execute loop of [_rclc_default_scheduling]. *)
Definition default_body (wait_set : rcl_wait_set_t) (i : nat) (r : round) : loop_result round :=
  let '(rc, r) := take_step wait_set i r in
  if (rc <>r? RCL_RET_OK) && (rc <>r? RCL_RET_SUBSCRIPTION_TAKE_FAILED)
     && (rc <>r? RCL_RET_SERVICE_TAKE_FAILED) then Return rc r
  else
    let '(rc, r) := execute_step i r in
    if rc <>r? RCL_RET_OK then Return rc r else Continue rc r.

(** Body of the take loop of [_rclc_let_scheduling]. *)
Definition let_take_body (wait_set : rcl_wait_set_t) (i : nat) (r : round) : loop_result round :=
  let '(rc, r) := take_step wait_set i r in
  if (rc <>r? RCL_RET_OK) && (rc <>r? RCL_RET_SUBSCRIPTION_TAKE_FAILED) then Return rc r
  else Continue rc r.

(** Body of the execute loop of [_rclc_let_scheduling]. *)
Definition let_execute_body (i : nat) (r : round) : loop_result round :=
  let '(rc, r) := execute_step i r in
  if rc <>r? RCL_RET_OK then Return rc r else Continue rc r.

(** [executor->trigger_function(executor->handles, executor->max_handles,
    executor->trigger_object)]; calling a [NULL] function pointer is
    undefined, which is [None]. *)
Definition call_trigger (executor : rclc_executor_t) (r : round) : option bool :=
  match trigger_function executor with
  | None => None
  | Some f =>
      Some (f (mem (r_effects r).1) (Some (r_handles r))
              (to_unsigned_int (max_handles executor)) (trigger_object executor))
  end.

(** *** [_rclc_default_scheduling]

    The schedulers work on the handle array of the executor, which is
    [r_handles]; the other fields of the executor are only read. *)
Definition _rclc_default_scheduling (executor : rclc_executor_t) (r : round)
  : option (rcl_ret_t * round) :=
  let n := N.to_nat (max_handles executor) in
  match for_handles r_handles (max_handles executor) (check_body (wait_set executor)) n 0 RCL_RET_OK r with
  | Return rc r => Some (rc, r)
  | Continue rc r =>
      match call_trigger executor r with
      | None => None
      | Some false => Some (rc, r)
      | Some true =>
          match for_handles r_handles (max_handles executor) (default_body (wait_set executor))
                  n 0 rc r with
          | Return rc r => Some (rc, r)
          | Continue rc r => Some (rc, r)
          end
      end
  end.

(** *** [_rclc_let_scheduling] *)
Definition _rclc_let_scheduling (executor : rclc_executor_t) (r : round)
  : option (rcl_ret_t * round) :=
  let n := N.to_nat (max_handles executor) in
  match for_handles r_handles (max_handles executor) (check_body (wait_set executor)) n 0 RCL_RET_OK r with
  | Return rc r => Some (rc, r)
  | Continue rc r =>
      match call_trigger executor r with
      | None => None
      | Some false => Some (rc, r)
      | Some true =>
          match for_handles r_handles (max_handles executor) (let_take_body (wait_set executor))
                  n 0 rc r with
          | Return rc r => Some (rc, r)
          | Continue rc r =>
              match for_handles r_handles (max_handles executor) let_execute_body n 0 rc r with
              | Return rc r => Some (rc, r)
              | Continue rc r => Some (rc, r)
              end
          end
      end
  end.

(** *** [rclc_executor_spin_some] *)

(** Body of the loop that adds the handles to the wait set.  The slot that
    the middleware assigns is written to [executor->handles[i].index]. *)
Definition wait_set_add_body (i : nat) (executor : rclc_executor_t)
  : loop_result rclc_executor_t :=
  let h := handle_array executor !!! i in
  let add (f : rcl_wait_set_t -> void_ptr -> size_t -> rcl_ret_t * rcl_wait_set_t * size_t) :=
    let '(rc, ws, slot) := f (wait_set executor) (entity h) (h_index h) in
    let executor := set_wait_set ws (store_handle (N.of_nat i) (set_h_index slot h) executor) in
    if rc =r? RCL_RET_OK then Continue rc executor else Return rc executor in
  match type h with
  | RCLC_SUBSCRIPTION | RCLC_SUBSCRIPTION_WITH_CONTEXT => add rcl_wait_set_add_subscription
  | RCLC_TIMER => add rcl_wait_set_add_timer
  | RCLC_SERVICE | RCLC_SERVICE_WITH_REQUEST_ID | RCLC_SERVICE_WITH_CONTEXT =>
      add rcl_wait_set_add_service
  | RCLC_CLIENT | RCLC_CLIENT_WITH_REQUEST_ID => add rcl_wait_set_add_client
  | RCLC_GUARD_CONDITION => add rcl_wait_set_add_guard_condition
  | RCLC_ACTION_CLIENT => add rcl_action_wait_set_add_action_client
  | RCLC_ACTION_SERVER => add rcl_action_wait_set_add_action_server
  | RCLC_NONE => Return RCL_RET_ERROR executor
  end.

(** The result of [spin_some]: the return code, the executor and the world
    after the call, and the ghost trace of the call; [None] when the call
    runs into undefined behaviour (a [NULL] trigger function). *)
Definition spin_result : Type := option (rcl_ret_t * rclc_executor_t * world Ext * list event).

Definition finish_round (executor : rclc_executor_t) (o : option (rcl_ret_t * round))
  : spin_result :=
  match o with
  | None => None
  | Some (rc, r) =>
      Some (rc, set_handles ((λ _, r_handles r) <$> handles executor) executor,
            (r_effects r).1, (r_effects r).2)
  end.

Definition rclc_executor_spin_some (executor : rclc_executor_t) (timeout_ns : N)
  (w : world Ext) : spin_result :=
  if negb (rcl_context_is_valid (exe_context executor) w) then
    Some (RCL_RET_ERROR, executor, w, [])
  else
    (* the result of rclc_executor_prepare is not looked at *)
    let executor := (rclc_executor_prepare executor).2 in
    let '(rc, ws) := rcl_wait_set_clear (wait_set executor) in
    let executor := set_wait_set ws executor in
    if rc <>r? RCL_RET_OK then Some (rc, executor, w, [])
    else
      match for_handles handle_array (max_handles executor) wait_set_add_body
              (N.to_nat (max_handles executor)) 0 rc executor with
      | Return rc executor => Some (rc, executor, w, [])
      | Continue _ executor =>
          (* rc = rcl_wait(&executor->wait_set, timeout_ns); RCLC_UNUSED(rc);
             the parameter of rcl_wait is an int64_t *)
          let '(rc, ws, w) := rcl_wait (wait_set executor) (to_int64 (Z.of_N timeout_ns)) w in
          let executor := set_wait_set ws executor in
          let r :=
            mk_round (handle_array executor) (w, [ev_wait (to_int64 (Z.of_N timeout_ns)) rc]) in
          match data_comm_semantics executor with
          | LET => finish_round executor (_rclc_let_scheduling executor r)
          | RCLCPP_EXECUTOR => finish_round executor (_rclc_default_scheduling executor r)
          end
      end.

End Round.

(** ** The registration interface as a whole *)

(** The C type of the entity that each kind of handle refers to. *)
Definition entity_type (t : rclc_executor_handle_type_t) : option c_type :=
  match t with
  | RCLC_SUBSCRIPTION | RCLC_SUBSCRIPTION_WITH_CONTEXT => Some T_rcl_subscription
  | RCLC_TIMER => Some T_rcl_timer
  | RCLC_CLIENT | RCLC_CLIENT_WITH_REQUEST_ID => Some T_rcl_client
  | RCLC_SERVICE | RCLC_SERVICE_WITH_REQUEST_ID | RCLC_SERVICE_WITH_CONTEXT => Some T_rcl_service
  | RCLC_GUARD_CONDITION => Some T_rcl_guard_condition
  | RCLC_ACTION_CLIENT => Some T_rclc_action_client
  | RCLC_ACTION_SERVER => Some T_rclc_action_server
  | RCLC_NONE => None
  end.

(** The five [remove_*] functions. *)
Inductive removal :=
| remove_subscription
| remove_timer
| remove_client
| remove_service
| remove_guard_condition.

(** The C type of the parameter of a [remove_*] function. *)
Definition removal_type (k : removal) : c_type :=
  match k with
  | remove_subscription => T_rcl_subscription
  | remove_timer => T_rcl_timer
  | remove_client => T_rcl_client
  | remove_service => T_rcl_service
  | remove_guard_condition => T_rcl_guard_condition
  end.

(** The counter that a [remove_*] function decrements. *)
Definition removal_decrement (k : removal)
  : rclc_executor_handle_counters_t -> rclc_executor_handle_counters_t :=
  match k with
  | remove_subscription => decr_subscriptions
  | remove_timer => decr_timers
  | remove_client => decr_clients
  | remove_service => decr_services
  | remove_guard_condition => decr_guard_conditions
  end.

(** A call of one of the registration functions with its arguments.  The
    entity is given by its object; the call passes the pointer of the C type
    of the parameter to it. *)
Inductive registration :=
| add_subscription (subscription : N) (msg callback : void_ptr)
    (invocation : rclc_executor_handle_invocation_t)
| add_subscription_with_context (subscription : N) (msg callback context : void_ptr)
    (invocation : rclc_executor_handle_invocation_t)
| add_timer (timer : N)
| add_client (client : N) (response_msg callback : void_ptr)
| add_client_with_request_id (client : N) (response_msg callback : void_ptr)
| add_service (service : N) (request_msg response_msg callback : void_ptr)
| add_service_with_context (service : N) (request_msg response_msg callback context : void_ptr)
| add_service_with_request_id (service : N) (request_msg response_msg callback : void_ptr)
| add_guard_condition (gc : N) (callback : void_ptr)
| add_action_client (action_client : N) (handles_number : size_t)
    (ros_result_response ros_feedback goal_callback feedback_callback result_callback
     cancel_callback context : void_ptr)
| add_action_server (action_server : N) (handles_number : size_t) (ros_goal_request : void_ptr)
    (ros_goal_request_size : size_t) (goal_callback cancel_callback context : void_ptr)
| remove (k : removal) (entity : N).

Definition is_add (op : registration) : bool :=
  match op with
  | remove _ _ => false
  | _ => true
  end.

(** The guards of an [add_*] on its arguments other than the executor: the
    required pointers are not [NULL] (and, for an action server, the size of
    a goal request is not 0). *)
Definition arguments_accepted (op : registration) : bool :=
  match op with
  | add_subscription _ msg callback _ => negb (is_null msg) && negb (is_null callback)
  | add_subscription_with_context _ msg callback _ _ =>
      negb (is_null msg) && negb (is_null callback)
  | add_timer _ => true
  | add_client _ response_msg callback
  | add_client_with_request_id _ response_msg callback =>
      negb (is_null response_msg) && negb (is_null callback)
  | add_service _ request_msg response_msg callback
  | add_service_with_context _ request_msg response_msg callback _
  | add_service_with_request_id _ request_msg response_msg callback =>
      negb (is_null request_msg) && negb (is_null response_msg) && negb (is_null callback)
  | add_guard_condition _ callback => negb (is_null callback)
  | add_action_client _ _ ros_result_response ros_feedback goal_callback feedback_callback
      result_callback _ _ =>
      negb (is_null ros_result_response) && negb (is_null goal_callback)
      && negb (is_null result_callback)
      && (is_null feedback_callback || negb (is_null ros_feedback))
  | add_action_server _ _ ros_goal_request ros_goal_request_size goal_callback
      cancel_callback _ =>
      negb (is_null ros_goal_request) && negb (is_null goal_callback)
      && negb (is_null cancel_callback) && negb (ros_goal_request_size =? 0)
  | remove _ _ => true
  end.

Section Registration.
Context {api : rcl_api}.

(** [rclc_executor_remove_*], by the function called. *)
Definition rclc_executor_remove (k : removal) (executor : rclc_executor_t) (p : void_ptr)
  : rcl_ret_t * rclc_executor_t :=
  match k with
  | remove_subscription => rclc_executor_remove_subscription executor p
  | remove_timer => rclc_executor_remove_timer executor p
  | remove_client => rclc_executor_remove_client executor p
  | remove_service => rclc_executor_remove_service executor p
  | remove_guard_condition => rclc_executor_remove_guard_condition executor p
  end.

(** The state that registration works on. *)
Definition registry : Type := rclc_executor_t * action_memory.

Definition register (op : registration) (s : registry) : rcl_ret_t * registry :=
  let '(executor, m) := s in
  let plain (r : rcl_ret_t * rclc_executor_t) : rcl_ret_t * registry := (r.1, (r.2, m)) in
  let action (r : rcl_ret_t * rclc_executor_t * action_memory) : rcl_ret_t * registry :=
    (r.1.1, (r.1.2, r.2)) in
  match op with
  | add_subscription subscription msg callback invocation =>
      plain (rclc_executor_add_subscription executor (Ptr T_rcl_subscription subscription)
               msg callback invocation)
  | add_subscription_with_context subscription msg callback context invocation =>
      plain (rclc_executor_add_subscription_with_context executor
               (Ptr T_rcl_subscription subscription) msg callback context invocation)
  | add_timer timer => plain (rclc_executor_add_timer executor (Ptr T_rcl_timer timer))
  | add_client client response_msg callback =>
      plain (rclc_executor_add_client executor (Ptr T_rcl_client client) response_msg callback)
  | add_client_with_request_id client response_msg callback =>
      plain (rclc_executor_add_client_with_request_id executor (Ptr T_rcl_client client)
               response_msg callback)
  | add_service service request_msg response_msg callback =>
      plain (rclc_executor_add_service executor (Ptr T_rcl_service service) request_msg
               response_msg callback)
  | add_service_with_context service request_msg response_msg callback context =>
      plain (rclc_executor_add_service_with_context executor (Ptr T_rcl_service service)
               request_msg response_msg callback context)
  | add_service_with_request_id service request_msg response_msg callback =>
      plain (rclc_executor_add_service_with_request_id executor (Ptr T_rcl_service service)
               request_msg response_msg callback)
  | add_guard_condition gc callback =>
      plain (rclc_executor_add_guard_condition executor (Ptr T_rcl_guard_condition gc) callback)
  | add_action_client action_client handles_number ros_result_response ros_feedback
      goal_callback feedback_callback result_callback cancel_callback context =>
      action (rclc_executor_add_action_client executor (Ptr T_rclc_action_client action_client)
                handles_number ros_result_response ros_feedback goal_callback
                feedback_callback result_callback cancel_callback context m)
  | add_action_server action_server handles_number ros_goal_request ros_goal_request_size
      goal_callback cancel_callback context =>
      action (rclc_executor_add_action_server executor (Ptr T_rclc_action_server action_server)
                handles_number ros_goal_request ros_goal_request_size goal_callback
                cancel_callback context m)
  | remove k entity => plain (rclc_executor_remove k executor (Ptr (removal_type k) entity))
  end.

(** A sequence of registration calls, each of which has to succeed. *)
Fixpoint register_all (ops : list registration) (s : registry) : option registry :=
  match ops with
  | [] => Some s
  | op :: ops =>
      let '(ret, s) := register op s in
      if ret =r? RCL_RET_OK then register_all ops s else None
  end.

(** The number of middleware entities of each sort that a handle stands for:
    one for a plain handle, what the action endpoint reports for an action
    handle.  The components are subscriptions, guard conditions, timers,
    clients, services, as in [rcl_action_*_wait_set_get_num_entities]. *)
Definition entities_of (h : rclc_executor_handle_t) : N * N * N * N * N :=
  match type h with
  | RCLC_SUBSCRIPTION | RCLC_SUBSCRIPTION_WITH_CONTEXT => (1, 0, 0, 0, 0)
  | RCLC_GUARD_CONDITION => (0, 1, 0, 0, 0)
  | RCLC_TIMER => (0, 0, 1, 0, 0)
  | RCLC_CLIENT | RCLC_CLIENT_WITH_REQUEST_ID => (0, 0, 0, 1, 0)
  | RCLC_SERVICE | RCLC_SERVICE_WITH_REQUEST_ID | RCLC_SERVICE_WITH_CONTEXT => (0, 0, 0, 0, 1)
  | RCLC_ACTION_CLIENT => (rcl_action_client_wait_set_get_num_entities (entity h)).2
  | RCLC_ACTION_SERVER => (rcl_action_server_wait_set_get_num_entities (entity h)).2
  | RCLC_NONE => (0, 0, 0, 0, 0)
  end.

End Registration.

(** Sum of a measure over the handle table. *)
Fixpoint total (f : rclc_executor_handle_t -> N) (hs : list rclc_executor_handle_t) : N :=
  match hs with
  | [] => 0
  | h :: hs => f h + total f hs
  end.

Definition has_type (t : rclc_executor_handle_type_t) (h : rclc_executor_handle_t) : N :=
  if bool_decide (type h = t) then 1 else 0.

(** The counter block that the handle table calls for: per sort, the number
    of entities of the handles in the table, as a [size_t]. *)
Definition census {api : rcl_api} (hs : list rclc_executor_handle_t)
  : rclc_executor_handle_counters_t :=
  {| number_of_subscriptions := size_wrap (total (λ h, (entities_of h).1.1.1.1) hs);
     number_of_timers := size_wrap (total (λ h, (entities_of h).1.1.2) hs);
     number_of_clients := size_wrap (total (λ h, (entities_of h).1.2) hs);
     number_of_services := size_wrap (total (λ h, (entities_of h).2) hs);
     number_of_action_clients := size_wrap (total (has_type RCLC_ACTION_CLIENT) hs);
     number_of_action_servers := size_wrap (total (has_type RCLC_ACTION_SERVER) hs);
     number_of_guard_conditions := size_wrap (total (λ h, (entities_of h).1.1.1.2) hs);
     number_of_events := 0 |}.

(** ** The error vocabulary of the specification

    The specification names the results of the public interface [Ok],
    [InvalidArgument], [OutOfMemory], [Overflow], [NotFound], [Timeout] and
    [Error].  [executor.c] returns [rcl_ret_t] codes; the codes that carry one
    of these names are mapped to it, every other failure is the
    specification's [Error]. *)
Inductive spec_result :=
| Ok
| InvalidArgument
| OutOfMemory
| Overflow
| NotFound
| Timeout
| Error.

Definition spec_result_of (rc : rcl_ret_t) : spec_result :=
  match rc with
  | RCL_RET_OK => Ok
  | RCL_RET_INVALID_ARGUMENT => InvalidArgument
  | RCL_RET_BAD_ALLOC => OutOfMemory
  | RCL_RET_TIMEOUT => Timeout
  | _ => Error
  end.

(** ** A reference middleware

    A small implementation of the two interfaces, used to run the executor
    on concrete inputs.  It follows the documented behaviour of rcl where the
    executor depends on it: a wait set holds one slot per entity, [rcl_wait]
    leaves the entities that are ready in their slots and sets the others to
    [NULL], a take copies the pending message into the buffer it is given. *)
Module Toy.

Fixpoint assoc {A} (p : void_ptr) (l : list (void_ptr * A)) : option A :=
  match l with
  | [] => None
  | (q, a) :: l => if ptr_eqb p q then Some a else assoc p l
  end.

Definition update {A} (p : void_ptr) (a : A) (l : list (void_ptr * A)) : list (void_ptr * A) :=
  (p, a) :: filter (λ x, x.1 ≠ p) l.

Definition member (p : void_ptr) (l : list void_ptr) : bool := bool_decide (p ∈ l).

(** *** The wait set.  [impl] is 0 for a wait set that is not initialised,
    1 for an initialised one and 2 for an initialised one whose finalisation
    is going to fail. *)
Definition is_valid (ws : rcl_wait_set_t) : bool := negb (impl ws =? 0).

Definition fini (ws : rcl_wait_set_t) : rcl_ret_t * rcl_wait_set_t :=
  (if impl ws =? 2 then RCL_RET_ERROR else RCL_RET_OK, zero_wait_set).

Definition init (ws : rcl_wait_set_t) (n_sub n_gc n_timer n_client n_service n_event : size_t)
  (context allocator : void_ptr) : rcl_ret_t * rcl_wait_set_t :=
  if is_null context || is_null allocator then (RCL_RET_INVALID_ARGUMENT, ws)
  else
    let slots (n : size_t) := replicate (N.to_nat n) NULL in
    (RCL_RET_OK,
     mk_wait_set (slots n_sub) (slots n_gc) (slots n_timer) (slots n_client) (slots n_service)
       (slots n_event) 1).

Definition RCL_RET_WAIT_SET_INVALID : rcl_ret_t := RCL_RET_other 900.
Definition RCL_RET_WAIT_SET_FULL : rcl_ret_t := RCL_RET_other 902.

Definition clear (ws : rcl_wait_set_t) : rcl_ret_t * rcl_wait_set_t :=
  if is_valid ws then
    let wipe (l : list void_ptr) := (λ _, NULL) <$> l in
    (RCL_RET_OK,
     mk_wait_set (wipe (subscriptions ws)) (wipe (guard_conditions ws)) (wipe (timers ws))
       (wipe (clients ws)) (wipe (services ws)) (wipe (events ws)) (impl ws))
  else (RCL_RET_WAIT_SET_INVALID, ws).

Definition first_free (arr : list void_ptr) : option nat :=
  fst <$> list_find (λ p, p = NULL) arr.

Definition set_subscriptions v (ws : rcl_wait_set_t) :=
  mk_wait_set v (guard_conditions ws) (timers ws) (clients ws) (services ws) (events ws) (impl ws).
Definition set_guard_conditions v (ws : rcl_wait_set_t) :=
  mk_wait_set (subscriptions ws) v (timers ws) (clients ws) (services ws) (events ws) (impl ws).
Definition set_timers v (ws : rcl_wait_set_t) :=
  mk_wait_set (subscriptions ws) (guard_conditions ws) v (clients ws) (services ws) (events ws)
    (impl ws).
Definition set_clients v (ws : rcl_wait_set_t) :=
  mk_wait_set (subscriptions ws) (guard_conditions ws) (timers ws) v (services ws) (events ws)
    (impl ws).
Definition set_services v (ws : rcl_wait_set_t) :=
  mk_wait_set (subscriptions ws) (guard_conditions ws) (timers ws) (clients ws) v (events ws)
    (impl ws).

Definition add_entity (get : rcl_wait_set_t -> list void_ptr)
  (set : list void_ptr -> rcl_wait_set_t -> rcl_wait_set_t)
  (ws : rcl_wait_set_t) (p : void_ptr) (slot : size_t) : rcl_ret_t * rcl_wait_set_t * size_t :=
  if negb (is_valid ws) then (RCL_RET_WAIT_SET_INVALID, ws, slot)
  else if is_null p then (RCL_RET_INVALID_ARGUMENT, ws, slot)
  else
    match first_free (get ws) with
    | Some i => (RCL_RET_OK, set (<[i := p]> (get ws)) ws, N.of_nat i)
    | None => (RCL_RET_WAIT_SET_FULL, ws, slot)
    end.

(** The entities of an action endpoint: an action client owns two
    subscriptions (feedback, status) and three clients (goal, cancel,
    result); an action server owns one timer (goal expiry) and three services
    (goal, cancel, result). *)
Definition sub_entity (ty : c_type) (owner : void_ptr) (k : N) : void_ptr :=
  Ptr ty (1000 + 10 * obj_of owner + k).

Fixpoint add_entities (adds : list (rcl_wait_set_t -> rcl_ret_t * rcl_wait_set_t * size_t))
  (ws : rcl_wait_set_t) (slot : size_t) : rcl_ret_t * rcl_wait_set_t * size_t :=
  match adds with
  | [] => (RCL_RET_OK, ws, slot)
  | add :: adds =>
      let '(rc, ws', slot') := add ws in
      if rc =r? RCL_RET_OK then
        let '(rc, ws'', _) := add_entities adds ws' slot' in (rc, ws'', slot')
      else (rc, ws, slot)
  end.

Definition add_action_client (ws : rcl_wait_set_t) (p : void_ptr) (slot : size_t) :=
  if is_null p then (RCL_RET_INVALID_ARGUMENT, ws, slot)
  else
    add_entities
      [ (λ ws, add_entity clients set_clients ws (sub_entity T_rcl_client p 0) slot);
        (λ ws, add_entity clients set_clients ws (sub_entity T_rcl_client p 1) slot);
        (λ ws, add_entity clients set_clients ws (sub_entity T_rcl_client p 2) slot);
        (λ ws, add_entity subscriptions set_subscriptions ws
                 (sub_entity T_rcl_subscription p 0) slot);
        (λ ws, add_entity subscriptions set_subscriptions ws
                 (sub_entity T_rcl_subscription p 1) slot) ] ws slot.

Definition add_action_server (ws : rcl_wait_set_t) (p : void_ptr) (slot : size_t) :=
  if is_null p then (RCL_RET_INVALID_ARGUMENT, ws, slot)
  else
    add_entities
      [ (λ ws, add_entity services set_services ws (sub_entity T_rcl_service p 0) slot);
        (λ ws, add_entity services set_services ws (sub_entity T_rcl_service p 1) slot);
        (λ ws, add_entity services set_services ws (sub_entity T_rcl_service p 2) slot);
        (λ ws, add_entity timers set_timers ws (sub_entity T_rcl_timer p 0) slot) ] ws slot.

Definition client_num_entities (p : void_ptr) : rcl_ret_t * (N * N * N * N * N) :=
  if is_null p then (RCL_RET_INVALID_ARGUMENT, (0, 0, 0, 0, 0))
  else (RCL_RET_OK, (2, 0, 0, 3, 0)).
Definition server_num_entities (p : void_ptr) : rcl_ret_t * (N * N * N * N * N) :=
  if is_null p then (RCL_RET_INVALID_ARGUMENT, (0, 0, 0, 0, 0))
  else (RCL_RET_OK, (0, 0, 1, 0, 3)).

Definition client_entities_ready (ws : rcl_wait_set_t) (p : void_ptr)
  (before : client_ready_flags) : rcl_ret_t * client_ready_flags :=
  if negb (is_valid ws) || is_null p then (RCL_RET_INVALID_ARGUMENT, before)
  else
    (RCL_RET_OK,
     (member (sub_entity T_rcl_subscription p 0) (subscriptions ws),
      member (sub_entity T_rcl_subscription p 1) (subscriptions ws),
      member (sub_entity T_rcl_client p 0) (clients ws),
      member (sub_entity T_rcl_client p 1) (clients ws),
      member (sub_entity T_rcl_client p 2) (clients ws))).

Definition server_entities_ready (ws : rcl_wait_set_t) (p : void_ptr)
  (before : server_ready_flags) : rcl_ret_t * server_ready_flags :=
  if negb (is_valid ws) || is_null p then (RCL_RET_INVALID_ARGUMENT, before)
  else
    (RCL_RET_OK,
     (member (sub_entity T_rcl_service p 0) (services ws),
      member (sub_entity T_rcl_service p 1) (services ws),
      member (sub_entity T_rcl_service p 2) (services ws),
      member (sub_entity T_rcl_timer p 0) (timers ws))).

(** An allocator is valid when it points to an allocator object; it serves
    every request below 1 MiB. *)
Definition api : rcl_api :=
  {| rcutils_allocator_is_valid p :=
       match p with Ptr T_rcl_allocator _ => true | _ => false end;
     allocate _ size := size <? 2 ^ 20;
     sizeof_rclc_executor_handle_t := 96;
     sizeof_rclc_action_goal_handle_t := 128;
     rcl_get_zero_initialized_wait_set := zero_wait_set;
     rcl_wait_set_is_valid := is_valid;
     rcl_wait_set_fini := fini;
     rcl_wait_set_init := init;
     rcl_wait_set_clear := clear;
     rcl_wait_set_add_subscription := add_entity subscriptions set_subscriptions;
     rcl_wait_set_add_timer := add_entity timers set_timers;
     rcl_wait_set_add_service := add_entity services set_services;
     rcl_wait_set_add_client := add_entity clients set_clients;
     rcl_wait_set_add_guard_condition := add_entity guard_conditions set_guard_conditions;
     rcl_action_wait_set_add_action_client := add_action_client;
     rcl_action_wait_set_add_action_server := add_action_server;
     rcl_action_client_wait_set_get_num_entities := client_num_entities;
     rcl_action_server_wait_set_get_num_entities := server_num_entities;
     rcl_action_client_wait_set_get_entities_ready := client_entities_ready;
     rcl_action_server_wait_set_get_entities_ready := server_entities_ready |}.

(** *** The world of the reference middleware.
    - [ready]: the entities that have data pending (or, for a timer, that
      have elapsed; for a guard condition, that were triggered);
    - [topic]: the message pending for an entity (keep-last, depth 1);
    - [buffer]: the contents of the user buffers;
    - [journal]: the callbacks that ran, each with the message it was handed
      ([None] for a [NULL] message or a callback without message);
    - [result_of]: the result code that each call is going to return;
    - [publishes]: what a user callback publishes, by function pointer. *)
Record state := mk_state {
  context_valid : bool;
  ready : list void_ptr;
  topic : list (void_ptr * N);
  buffer : list (void_ptr * N);
  journal : list (void_ptr * option N);
  result_of : call -> rcl_ret_t;
  publishes : void_ptr -> list (void_ptr * N)
}.

Definition set_ready v (s : state) :=
  mk_state (context_valid s) v (topic s) (buffer s) (journal s) (result_of s) (publishes s).
Definition set_topic v (s : state) :=
  mk_state (context_valid s) (ready s) v (buffer s) (journal s) (result_of s) (publishes s).
Definition set_buffer v (s : state) :=
  mk_state (context_valid s) (ready s) (topic s) v (journal s) (result_of s) (publishes s).
Definition set_journal v (s : state) :=
  mk_state (context_valid s) (ready s) (topic s) (buffer s) v (result_of s) (publishes s).

(** A successful take moves the pending message of the entity into the
    buffer and consumes it. *)
Definition take (entity data : void_ptr) (s : state) : state :=
  let s :=
    match assoc entity (topic s) with
    | Some v => set_buffer (update data v (buffer s)) s
    | None => s
    end in
  set_ready (filter (λ p, p ≠ entity) (ready s)) s.

Definition publish (s : state) (m : void_ptr * N) : state :=
  set_ready (m.1 :: filter (λ p, p ≠ m.1) (ready s)) (set_topic (update m.1 m.2 (topic s)) s).

(** A user callback: it is entered in the journal with the message it reads
    and publishes what [publishes] says. *)
Definition run_callback (fn msg : void_ptr) (s : state) : state :=
  let s := set_journal (journal s ++ [(fn, assoc msg (buffer s))]) s in
  foldl publish s (publishes s fn).

Definition toy_perform (c : call) (w : world state) : rcl_ret_t * rmw_request_id_t * world state :=
  let s := ext w in
  let rc := result_of s c in
  let done (id : rmw_request_id_t) (s : state) := (rc, id, mk_world (mem w) s) in
  match c with
  | rcl_take subscription data =>
      if rc =r? RCL_RET_OK then done 0 (take subscription data s) else done 0 s
  | rcl_take_request entity header data | rcl_take_response entity header data =>
      if rc =r? RCL_RET_OK
      then done (default 0 (assoc entity (topic s))) (take entity data s)
      else done header s
  | subscription_callback fn msg | subscription_callback_with_context fn msg _
  | service_callback fn msg _ | service_callback_with_reqid fn msg _ _
  | service_callback_with_context fn msg _ _
  | client_callback fn msg | client_callback_with_reqid fn msg _ =>
      done 0 (run_callback fn msg s)
  | gc_callback fn => done 0 (run_callback fn NULL s)
  | rcl_timer_call timer =>
      if rc =r? RCL_RET_OK then done 0 (run_callback timer NULL s) else done 0 s
  | _ => done 0 s
  end.

Definition keep_ready (s : state) (arr : list void_ptr) : list void_ptr :=
  (λ p, if member p (ready s) then p else NULL) <$> arr.

Definition toy_wait (ws : rcl_wait_set_t) (timeout : Z) (w : world state)
  : rcl_ret_t * rcl_wait_set_t * world state :=
  if negb (is_valid ws) then (RCL_RET_WAIT_SET_INVALID, ws, w)
  else
    let s := ext w in
    let ws :=
      mk_wait_set (keep_ready s (subscriptions ws)) (keep_ready s (guard_conditions ws))
        (keep_ready s (timers ws)) (keep_ready s (clients ws)) (keep_ready s (services ws))
        (keep_ready s (events ws)) (impl ws) in
    let nothing (arr : list void_ptr) := forallb is_null arr in
    if nothing (subscriptions ws) && nothing (guard_conditions ws) && nothing (timers ws)
       && nothing (clients ws) && nothing (services ws) && nothing (events ws)
    then (RCL_RET_TIMEOUT, ws, w)
    else (RCL_RET_OK, ws, w).

Definition runtime : rcl_runtime state :=
  {| perform := toy_perform;
     rcl_context_is_valid context w :=
       match context with
       | Ptr T_rcl_context _ => context_valid (ext w)
       | _ => false
       end;
     rcl_wait := toy_wait |}.

(** A quiet world: valid context, nothing pending, every call succeeds and
    no callback publishes. *)
Definition quiet : world state :=
  mk_world empty_memory (mk_state true [] [] [] [] (λ _, RCL_RET_OK) (λ _, [])).

End Toy.


(** ** Concrete inputs

    Executors and worlds of the reference middleware on which the statements
    below are instantiated. *)
Module Example.

#[local] Existing Instance Toy.api.
#[local] Existing Instance Toy.runtime.

Definition ctx : void_ptr := Ptr T_rcl_context 1.
Definition alloc : void_ptr := Ptr T_rcl_allocator 1.

(** [rclc_executor_init] with capacity [n]. *)
Definition fresh (n : size_t) : rclc_executor_t :=
  (rclc_executor_init rclc_executor_get_zero_initialized_executor ctx n alloc).2.

Definition timer_1 : void_ptr := Ptr T_rcl_timer 1.
Definition timer_2 : void_ptr := Ptr T_rcl_timer 2.
Definition sub_1 : void_ptr := Ptr T_rcl_subscription 1.
Definition sub_2 : void_ptr := Ptr T_rcl_subscription 2.
Definition service_1 : void_ptr := Ptr T_rcl_service 1.
Definition action_client_1 : void_ptr := Ptr T_rclc_action_client 1.
Definition msg_1 : void_ptr := Ptr T_message 1.
Definition msg_2 : void_ptr := Ptr T_message 2.
Definition msg_3 : void_ptr := Ptr T_message 3.
Definition fn_1 : void_ptr := Ptr T_function 1.
Definition fn_2 : void_ptr := Ptr T_function 2.

(** Capacity 1, one timer: a full table. *)
Definition one_timer : rclc_executor_t := (rclc_executor_add_timer (fresh 1) timer_1).2.

(** Capacity 3 with a timer, a subscription and a second timer, in this
    order; the table is full. *)
Definition three_handles : rclc_executor_t :=
  let e := (rclc_executor_add_timer (fresh 3) timer_1).2 in
  let e := (rclc_executor_add_subscription e sub_1 msg_1 fn_1 ON_NEW_DATA).2 in
  (rclc_executor_add_timer e timer_2).2.

(** The same executor after [rclc_executor_prepare]: its wait set is valid. *)
Definition three_handles_prepared : rclc_executor_t := (rclc_executor_prepare three_handles).2.

End Example.
(** ** Vocabulary of the statements *)

(** [e] satisfies the representation invariant of an initialised executor:
    [handles] points to an array of [max_handles] handles, and the number of
    handles in use does not exceed it. *)
Definition well_formed (e : rclc_executor_t) : Prop :=
  ∃ hs, handles e = Some hs ∧ length hs = N.to_nat (max_handles e)
        ∧ index e ≤ max_handles e ∧ max_handles e < 2 ^ SIZE_WIDTH.

(** The endpoint [p] is registered: one of the handles in use refers to it. *)
Definition registered (e : rclc_executor_t) (p : void_ptr) : Prop :=
  ∃ i, (i < N.to_nat (index e))%nat ∧ rclc_executor_handle_get_ptr (handle_array e !!! i) = p.

(** Handle [i] belongs to the initialised prefix of the table, which is what
    the loops of a round run over. *)
Definition in_initialized_prefix (max_handles : size_t) (hs : list rclc_executor_handle_t)
  (i : nat) : Prop :=
  ∀ j, (j ≤ i)%nat → N.of_nat j < max_handles ∧ initialized (hs !!! j) = true.

(** The trace of a round. *)
Definition trace_of {Ext} (r : @round Ext) : list event := (r_effects r).2.


(** A handle in use: it is initialised and refers to an entity of the C type
    of its kind. *)
Definition in_use (h : rclc_executor_handle_t) : Prop :=
  initialized h = true ∧ ∃ ty o, entity_type (type h) = Some ty ∧ entity h = Ptr ty o.

(** A free slot of the table: it is in the state in which
    [rclc_executor_handle_init] leaves a handle (of no kind, not initialised,
    every pointer [NULL], wait-set slot equal to the capacity). *)
Definition free (max_handles : size_t) (h : rclc_executor_handle_t) : Prop :=
  h = rclc_executor_handle_init h max_handles.

(** The handles in use are the first [index] slots of the table, the other
    slots are free. *)
Definition dense (e : rclc_executor_t) : Prop :=
  ∀ i, (i < N.to_nat (max_handles e))%nat →
       if bool_decide (i < N.to_nat (index e))%nat
       then in_use (handle_array e !!! i)
       else free (max_handles e) (handle_array e !!! i).

(** The representation invariant of the registration interface: the table
    is well formed and dense, and the counters are those that the table
    calls for. *)
Definition consistent {api : rcl_api} (e : rclc_executor_t) : Prop :=
  well_formed e ∧ dense e ∧ info e = census (handle_array e).

(** The counters [c] after one more handle [h] has been accounted for. *)
Definition count_handle {api : rcl_api} (h : rclc_executor_handle_t)
  (c : rclc_executor_handle_counters_t) : rclc_executor_handle_counters_t :=
  {| number_of_subscriptions := size_add (number_of_subscriptions c) (entities_of h).1.1.1.1;
     number_of_timers := size_add (number_of_timers c) (entities_of h).1.1.2;
     number_of_clients := size_add (number_of_clients c) (entities_of h).1.2;
     number_of_services := size_add (number_of_services c) (entities_of h).2;
     number_of_action_clients :=
       size_add (number_of_action_clients c) (has_type RCLC_ACTION_CLIENT h);
     number_of_action_servers :=
       size_add (number_of_action_servers c) (has_type RCLC_ACTION_SERVER h);
     number_of_guard_conditions :=
       size_add (number_of_guard_conditions c) (entities_of h).1.1.1.2;
     number_of_events := number_of_events c |}.

(** The fields of a handle that registration sets agree in [h] and [h'].
    The other fields, [data_available] and [req_id], are those that a round
    writes. *)
Definition same_registration (h h' : rclc_executor_handle_t) : Prop :=
  type h' = type h ∧ invocation h' = invocation h ∧ entity h' = entity h
  ∧ data h' = data h ∧ data_response_msg h' = data_response_msg h
  ∧ callback_context h' = callback_context h ∧ callback h' = callback h
  ∧ h_index h' = h_index h ∧ initialized h' = initialized h.

Arguments Continue {St} _ _.
Arguments Return {St} _ _.

(** The steps of a round: the entries of the trace that record the passes
    over the handles, without the calls made in between. *)
Definition is_step (ev : event) : bool :=
  match ev with
  | ev_take_new_data _ _ | ev_execute _ => true
  | _ => false
  end.

Definition steps (tr : list event) : list event := List.filter is_step tr.

(** The part of the trace that a round adds. *)
Definition added (tr tr' : list event) : list event := drop (length tr) tr'.

(** The events of a take: calls that pull data out of the middleware. *)
Definition take_calls (evs : list event) : Prop :=
  Forall (λ ev, is_take_event ev = true ∧ is_callback_event ev = false ∧ is_step ev = false) evs.

(** The events of an execute: calls that are no takes. *)
Definition execute_calls (evs : list event) : Prop :=
  Forall (λ ev, is_take_event ev = false ∧ is_step ev = false) evs.

(** The handle table [hs'] holds the registrations of [hs]. *)
Definition same_table (hs hs' : list rclc_executor_handle_t) : Prop :=
  length hs' = length hs ∧ ∀ j, same_registration (hs !!! j) (hs' !!! j).

(** The results of [_rclc_take_new_data] after which the take loop of the
    LET scheduler goes on, and those after which the default scheduler
    executes the handle. *)
Definition tolerated_by_let (rc : rcl_ret_t) : Prop :=
  rc = RCL_RET_OK ∨ rc = RCL_RET_SUBSCRIPTION_TAKE_FAILED.

Definition tolerated_by_default (rc : rcl_ret_t) : Prop :=
  rc = RCL_RET_OK ∨ rc = RCL_RET_SUBSCRIPTION_TAKE_FAILED ∨ rc = RCL_RET_SERVICE_TAKE_FAILED.

(** The steps of a handle in the default scheduler: take, then execute. *)
Definition take_and_execute (i : nat) (rc : rcl_ret_t) : list event :=
  [ev_take_new_data i rc; ev_execute i].

(** The wait-set entry that [_rclc_check_for_new_data] reads for a handle of
    a plain kind; the readiness of an action endpoint is not read from the
    arrays of the wait set. *)
Definition wait_set_slot (ws : rcl_wait_set_t) (h : rclc_executor_handle_t) : option void_ptr :=
  match type h with
  | RCLC_SUBSCRIPTION | RCLC_SUBSCRIPTION_WITH_CONTEXT =>
      Some (ws_entry (subscriptions ws) (h_index h))
  | RCLC_TIMER => Some (ws_entry (timers ws) (h_index h))
  | RCLC_CLIENT | RCLC_CLIENT_WITH_REQUEST_ID => Some (ws_entry (clients ws) (h_index h))
  | RCLC_SERVICE | RCLC_SERVICE_WITH_REQUEST_ID | RCLC_SERVICE_WITH_CONTEXT =>
      Some (ws_entry (services ws) (h_index h))
  | RCLC_GUARD_CONDITION => Some (ws_entry (guard_conditions ws) (h_index h))
  | RCLC_ACTION_CLIENT | RCLC_ACTION_SERVER | RCLC_NONE => None
  end.

(** Nothing is ready: the handles of the initialised prefix are of plain
    kinds and the wait set holds [NULL] in the entry of each of them. *)
Definition nothing_ready (max_handles : size_t) (ws : rcl_wait_set_t)
  (hs : list rclc_executor_handle_t) : Prop :=
  ∀ i, in_initialized_prefix max_handles hs i → wait_set_slot ws (hs !!! i) = Some NULL.

(** The fields of a handle that registration sets, without the slot in the
    wait set, which [rclc_executor_spin_some] assigns. *)
Definition same_endpoint (h h' : rclc_executor_handle_t) : Prop :=
  type h' = type h ∧ invocation h' = invocation h ∧ entity h' = entity h
  ∧ data h' = data h ∧ data_response_msg h' = data_response_msg h
  ∧ callback_context h' = callback_context h ∧ callback h' = callback h
  ∧ initialized h' = initialized h.

(** The executor [e'] is set up as [e]: the same configuration, the same
    number of handles in use and the same counters, and a handle table that
    holds the same endpoints. *)
Definition same_setup (e e' : rclc_executor_t) : Prop :=
  exe_context e' = exe_context e
  ∧ max_handles e' = max_handles e
  ∧ index e' = index e
  ∧ allocator e' = allocator e
  ∧ info e' = info e
  ∧ timeout_ns e' = timeout_ns e
  ∧ invocation_time e' = invocation_time e
  ∧ trigger_function e' = trigger_function e
  ∧ trigger_object e' = trigger_object e
  ∧ data_comm_semantics e' = data_comm_semantics e
  ∧ (handles e' = None ↔ handles e = None)
  ∧ length (handle_array e') = length (handle_array e)
  ∧ ∀ j, same_endpoint (handle_array e !!! j) (handle_array e' !!! j).

(** The scheduler that [rclc_executor_spin_some] runs. *)
Definition scheduler_of {api : rcl_api} {Ext : Type} {rt : rcl_runtime Ext}
  (e : rclc_executor_t) : @round Ext → option (rcl_ret_t * @round Ext) :=
  match data_comm_semantics e with
  | LET => _rclc_let_scheduling e
  | RCLCPP_EXECUTOR => _rclc_default_scheduling e
  end.

(** The number of handles of the given kinds in a part of the table. *)
Definition handles_of (kinds : list rclc_executor_handle_type_t)
  (hs : list rclc_executor_handle_t) : N :=
  N.of_nat (length (filter (λ h, type h ∈ kinds) hs)).

(** The counter that the body of a [remove_*] function names in its last
    statement, [executor->info.number_of_<sort>--]. *)
Definition removal_counter (k : removal) (c : rclc_executor_handle_counters_t) : size_t :=
  match k with
  | remove_subscription => number_of_subscriptions c
  | remove_timer => number_of_timers c
  | remove_client => number_of_clients c
  | remove_service => number_of_services c
  | remove_guard_condition => number_of_guard_conditions c
  end.

(** The trigger fires in the round that starts from [r]: the readiness loop
    runs to its end, and the trigger function returns true on the table that
    the loop leaves. *)
Definition trigger_fires {api : rcl_api} {Ext : Type} {rt : rcl_runtime Ext}
  (e : rclc_executor_t) (r : @round Ext) : Prop :=
  ∃ rc1 r1,
    for_handles r_handles (max_handles e) (check_body (wait_set e))
      (N.to_nat (max_handles e)) 0 RCL_RET_OK r = Continue rc1 r1
    ∧ call_trigger e r1 = Some true.

(** The [remove_*] call that undoes an [add_*] call of a plain endpoint. *)
Definition removal_of (op : registration) : option (removal * N) :=
  match op with
  | add_subscription s _ _ _ | add_subscription_with_context s _ _ _ _ =>
      Some (remove_subscription, s)
  | add_timer t => Some (remove_timer, t)
  | add_client c _ _ | add_client_with_request_id c _ _ => Some (remove_client, c)
  | add_service s _ _ _ | add_service_with_context s _ _ _ _
  | add_service_with_request_id s _ _ _ => Some (remove_service, s)
  | add_guard_condition g _ => Some (remove_guard_condition, g)
  | add_action_client _ _ _ _ _ _ _ _ _ | add_action_server _ _ _ _ _ _ _ | remove _ _ => None
  end.

(** The registration that a handle holds: its kind and the entity it refers
    to. *)
Definition endpoint_of (h : rclc_executor_handle_t) : rclc_executor_handle_type_t * void_ptr :=
  (type h, entity h).

(** The registrations of the handles in use, in the order of the table,
    which is the order in which a round processes them. *)
Definition endpoints_in_use (e : rclc_executor_t)
  : list (rclc_executor_handle_type_t * void_ptr) :=
  endpoint_of <$> take (N.to_nat (index e)) (handle_array e).

(** What an [add_*] call registers. *)
Definition added_endpoint (op : registration)
  : option (rclc_executor_handle_type_t * void_ptr) :=
  match op with
  | add_subscription s _ _ _ => Some (RCLC_SUBSCRIPTION, Ptr T_rcl_subscription s)
  | add_subscription_with_context s _ _ _ _ =>
      Some (RCLC_SUBSCRIPTION_WITH_CONTEXT, Ptr T_rcl_subscription s)
  | add_timer t => Some (RCLC_TIMER, Ptr T_rcl_timer t)
  | add_client c _ _ => Some (RCLC_CLIENT, Ptr T_rcl_client c)
  | add_client_with_request_id c _ _ => Some (RCLC_CLIENT_WITH_REQUEST_ID, Ptr T_rcl_client c)
  | add_service s _ _ _ => Some (RCLC_SERVICE, Ptr T_rcl_service s)
  | add_service_with_context s _ _ _ _ => Some (RCLC_SERVICE_WITH_CONTEXT, Ptr T_rcl_service s)
  | add_service_with_request_id s _ _ _ =>
      Some (RCLC_SERVICE_WITH_REQUEST_ID, Ptr T_rcl_service s)
  | add_guard_condition g _ => Some (RCLC_GUARD_CONDITION, Ptr T_rcl_guard_condition g)
  | add_action_client a _ _ _ _ _ _ _ _ => Some (RCLC_ACTION_CLIENT, Ptr T_rclc_action_client a)
  | add_action_server a _ _ _ _ _ _ => Some (RCLC_ACTION_SERVER, Ptr T_rclc_action_server a)
  | remove _ _ => None
  end.

(** A list of registrations without the oldest registration of the entity
    [p]. *)
Fixpoint without_first (p : void_ptr) (l : list (rclc_executor_handle_type_t * void_ptr))
  : list (rclc_executor_handle_type_t * void_ptr) :=
  match l with
  | [] => []
  | x :: l => if ptr_eqb p x.2 then l else x :: without_first p l
  end.

(** The registrations as a list, oldest first: an [add_*] appends to it, a
    [remove_*] takes the oldest registration of its entity out of it. *)
Definition registration_step (l : list (rclc_executor_handle_type_t * void_ptr))
  (op : registration) : list (rclc_executor_handle_type_t * void_ptr) :=
  match op with
  | remove k o => without_first (Ptr (removal_type k) o) l
  | _ => l ++ option_list (added_endpoint op)
  end.

Definition registrations_after (ops : list registration)
  : list (rclc_executor_handle_type_t * void_ptr) :=
  foldl registration_step [] ops.

(** The slots of the table [hs] that are not initialised are the same in
    [hs']. *)
Definition free_slots_untouched (hs hs' : list rclc_executor_handle_t) : Prop :=
  ∀ j, initialized (hs !!! j) = false → hs' !!! j = hs !!! j.

(** The take that [_rclc_take_new_data] makes for a subscription or a
    service, with the result by which the middleware says that there was
    nothing to take. *)
Definition take_of (h : rclc_executor_handle_t) : option (call * rcl_ret_t) :=
  match type h with
  | RCLC_SUBSCRIPTION | RCLC_SUBSCRIPTION_WITH_CONTEXT =>
      Some (rcl_take (entity h) (data h), RCL_RET_SUBSCRIPTION_TAKE_FAILED)
  | RCLC_SERVICE | RCLC_SERVICE_WITH_REQUEST_ID | RCLC_SERVICE_WITH_CONTEXT =>
      Some (rcl_take_request (entity h) (req_id h) (data h), RCL_RET_SERVICE_TAKE_FAILED)
  | _ => None
  end.

(** The calls that register an action endpoint. *)
Definition is_action_add (op : registration) : bool :=
  match op with
  | add_action_client _ _ _ _ _ _ _ _ _ | add_action_server _ _ _ _ _ _ _ => true
  | _ => false
  end.

(** The handles of the initialised prefix are plain ones: each has an
    entry in the wait set. *)
Definition plain_table (max_handles : size_t) (ws : rcl_wait_set_t)
  (hs : list rclc_executor_handle_t) : Prop :=
  ∀ i, in_initialized_prefix max_handles hs i → ∃ p, wait_set_slot ws (hs !!! i) = Some p.

(** Something is ready: the wait set holds the entity of a handle of the
    initialised prefix. *)
Definition something_ready (max_handles : size_t) (ws : rcl_wait_set_t)
  (hs : list rclc_executor_handle_t) : Prop :=
  ∃ i p, in_initialized_prefix max_handles hs i
         ∧ wait_set_slot ws (hs !!! i) = Some p ∧ p ≠ NULL.

(** ** Scenarios

    Registration sequences and rounds of the reference middleware on which
    the statements with hypotheses are instantiated. *)
Module Scenario.

#[local] Existing Instance Toy.api.
#[local] Existing Instance Toy.runtime.

(** The registry after the calls [ops], all of which succeed. *)
Definition after (ops : list registration) (s : registry) : registry :=
  default s (register_all ops s).

(** A timer, a subscription and an action client are added to an executor of
    capacity 4, then the timer is removed. *)
Definition registrations : list registration :=
  [ add_timer 1;
    add_subscription 1 Example.msg_1 Example.fn_1 ON_NEW_DATA;
    add_action_client 1 2 Example.msg_2 NULL Example.fn_1 NULL Example.fn_2 NULL NULL;
    remove remove_timer 1 ].

Abbreviation registered_state := (after registrations (Example.fresh 4, empty_memory)).

(** The executor of the scenario after [rclc_executor_prepare]: its wait
    set is valid. *)
Abbreviation prepared :=
  (rclc_executor_prepare (api := Toy.api)
     (after registrations (Example.fresh 4, empty_memory)).1).2.

(** A wait set whose finalisation fails, and an executor that holds it. *)
Definition broken_wait_set : rcl_wait_set_t := mk_wait_set [] [] [] [] [] [] 2.

Abbreviation failing := (set_wait_set broken_wait_set (Example.fresh 2)).

(** The result of a call of [rclc_executor_spin_some] that is defined. *)
Definition spun (e : rclc_executor_t) (timeout : N) (w : world Toy.state)
  : rcl_ret_t * rclc_executor_t * world Toy.state * list event :=
  default (RCL_RET_ERROR, e, w, []) (rclc_executor_spin_some e timeout w).

(** A call of [rclc_executor_spin_some] on the executor with two timers and a
    subscription, in a world in which nothing is pending. *)
Abbreviation idle_spin := (spun Example.three_handles 0 Toy.quiet).

(** A call of [rclc_executor_spin_some] on the executor of the scenario, in
    the same world. *)
Abbreviation registered_spin :=
  (spun (after registrations (Example.fresh 4, empty_memory)).1 0 Toy.quiet).

(** A world in which the take of a subscription finds nothing to take. *)
Definition nothing_to_take : world Toy.state :=
  mk_world empty_memory
    (Toy.mk_state true [] [] [] []
       (λ c, match c with
             | rcl_take _ _ => RCL_RET_SUBSCRIPTION_TAKE_FAILED
             | _ => RCL_RET_OK
             end)
       (λ _, [])).

(** A round over the subscription of the executor with three handles, which
    has slot 0 of a wait set that reports it ready. *)
Definition ready_wait_set : rcl_wait_set_t := mk_wait_set [Example.sub_1] [] [] [] [] [] 1.

Definition failing_round : @round Toy.state :=
  mk_round [set_data_available true (set_h_index 0 (handle_at Example.three_handles 1))]
    (nothing_to_take, []).

(** A world in which the context has been shut down. *)
Definition shut_down : world Toy.state :=
  mk_world empty_memory (Toy.mk_state false [] [] [] [] (λ _, RCL_RET_OK) (λ _, [])).

(** A world in which a message is pending for the subscription, and a call
    of [rclc_executor_spin_some] in it. *)
Definition pending : world Toy.state :=
  mk_world empty_memory
    (Toy.mk_state true [Example.sub_1] [(Example.sub_1, 7)] [] [] (λ _, RCL_RET_OK) (λ _, [])).

Abbreviation busy_spin := (spun Example.three_handles 0 pending).

(** An action client and a subscription are added, in this order, to an
    executor of capacity 2. *)
Definition action_first : list registration :=
  [ add_action_client 1 2 Example.msg_2 NULL Example.fn_1 NULL Example.fn_2 NULL NULL;
    add_subscription 1 Example.msg_1 Example.fn_1 ON_NEW_DATA ].

(** The handle table and the memory of this executor once a goal response
    has arrived for the action client and a message for the subscription. *)
Definition both_ready_handles : list rclc_executor_handle_t :=
  <[1%nat := set_data_available true
               (handle_at (after action_first (Example.fresh 2, empty_memory)).1 1)]>
    (handle_array (after action_first (Example.fresh 2, empty_memory)).1).

Definition both_ready_memory : action_memory :=
  store_action_client Example.action_client_1
    (ac_set_ready (false, false, true, false, false)
       (load_action_client (after action_first (Example.fresh 2, empty_memory)).2
          Example.action_client_1))
    (after action_first (Example.fresh 2, empty_memory)).2.

(** A service and a subscription are added, in this order, to an executor
    of capacity 2; the same executor with LET semantics; a world in which a
    request is pending for the service and a message for the subscription,
    and in which [rcl_take_request] finds nothing to take. *)
Definition service_first : list registration :=
  [ add_service 1 Example.msg_1 Example.msg_2 Example.fn_1;
    add_subscription 1 Example.msg_3 Example.fn_2 ON_NEW_DATA ].

Abbreviation service_first_default := (after service_first (Example.fresh 2, empty_memory)).1.

Abbreviation service_first_let :=
  (rclc_executor_set_semantics (after service_first (Example.fresh 2, empty_memory)).1 LET).2.

Definition no_request : world Toy.state :=
  mk_world empty_memory
    (Toy.mk_state true [Example.service_1; Example.sub_1]
       [(Example.service_1, 5); (Example.sub_1, 7)] [] []
       (λ c, match c with
             | rcl_take_request _ _ _ => RCL_RET_SERVICE_TAKE_FAILED
             | _ => RCL_RET_OK
             end)
       (λ _, [])).

End Scenario.

(** ** The spin loops

    [rclc_executor_spin], [rclc_executor_spin_one_period] and
    [rclc_executor_spin_period] call [rclc_executor_spin_some] with the
    timeout of the executor.  The periodic functions read the system clock
    and sleep. *)

Definition set_invocation_time v (e : rclc_executor_t) :=
  mk_executor (exe_context e) (handles e) (max_handles e) (index e) (allocator e) (wait_set e)
    (info e) (timeout_ns e) v (trigger_function e) (trigger_object e) (data_comm_semantics e).

(** The clock and the sleep of the platform.
    - [rcutils_system_time_now before w]: the result of
      [rcutils_system_time_now(&t)] and the value of [t] after the call, where
      [before] is the value of [t] before it ([None] for a variable that has
      not been initialised);
    - [rclc_sleep_ms ms w]: the call [rclc_sleep_ms(ms)], with the value of
      the argument expression before its conversion to the type of the
      parameter. *)
Class rcutils_time (Ext : Type) := {
  rcutils_system_time_now : option Z -> world Ext -> rcl_ret_t * Z * world Ext;
  rclc_sleep_ms : Z -> world Ext -> world Ext
}.

(** A spin loop after the number of rounds that the model follows it: it
    is still running, or it has returned. *)
Inductive spinning (Ext : Type) :=
| Running (executor : rclc_executor_t) (w : world Ext) (trace : list event)
| Returned (ret : rcl_ret_t) (executor : rclc_executor_t) (w : world Ext) (trace : list event).
Arguments Running {Ext} _ _ _.
Arguments Returned {Ext} _ _ _ _.

Section Spinning.
Context {api : rcl_api} {Ext : Type} {rt : rcl_runtime Ext} {clock : rcutils_time Ext}.

(** [!((ret == RCL_RET_OK) || (ret == RCL_RET_TIMEOUT))] *)
Definition ends_spinning (ret : rcl_ret_t) : bool :=
  negb ((ret =r? RCL_RET_OK) || (ret =r? RCL_RET_TIMEOUT)).

(** *** [rclc_executor_spin]

    The loop [while (true)] is followed for [rounds] iterations; the trace
    is that of the rounds so far.  [None] is undefined behaviour, as for
    [rclc_executor_spin_some]. *)
Fixpoint rclc_executor_spin (rounds : nat) (executor : rclc_executor_t) (w : world Ext)
  (trace : list event) : option (spinning Ext) :=
  match rounds with
  | O => Some (Running executor w trace)
  | S rounds =>
      match rclc_executor_spin_some executor (timeout_ns executor) w with
      | None => None
      | Some (ret, executor, w, tr) =>
          if ends_spinning ret then Some (Returned ret executor w (trace ++ tr))
          else rclc_executor_spin rounds executor w (trace ++ tr)
      end
  end.

(** *** [rclc_executor_spin_one_period] *)
Definition rclc_executor_spin_one_period (executor : rclc_executor_t) (period : N)
  (w : world Ext) : option (rcl_ret_t * rclc_executor_t * world Ext * list event) :=
  let '(executor, w) :=
    if (invocation_time executor =? 0)%Z then
      (* ret = rcutils_system_time_now(&executor->invocation_time); RCLC_UNUSED(ret); *)
      let '(_, now, w) := rcutils_system_time_now (Some (invocation_time executor)) w in
      (set_invocation_time now executor, w)
    else (executor, w) in
  match rclc_executor_spin_some executor (timeout_ns executor) w with
  | None => None
  | Some (ret, executor, w, tr) =>
      if ends_spinning ret then Some (ret, executor, w, tr)
      else
        let '(ret, end_time_point, w) := rcutils_system_time_now None w in
        let sleep_time :=
          to_int64 (invocation_time executor + Z.of_N period - end_time_point) in
        let w :=
          if (0 <? sleep_time)%Z then rclc_sleep_ms (sleep_time ÷ 1000000) w else w in
        let executor :=
          set_invocation_time (to_int64 (invocation_time executor + Z.of_N period)) executor in
        Some (ret, executor, w, tr)
  end.

(** *** [rclc_executor_spin_period] *)
Fixpoint rclc_executor_spin_period (rounds : nat) (executor : rclc_executor_t) (period : N)
  (w : world Ext) (trace : list event) : option (spinning Ext) :=
  match rounds with
  | O => Some (Running executor w trace)
  | S rounds =>
      match rclc_executor_spin_one_period executor period w with
      | None => None
      | Some (ret, executor, w, tr) =>
          if ends_spinning ret then Some (Returned ret executor w (trace ++ tr))
          else rclc_executor_spin_period rounds executor period w (trace ++ tr)
      end
  end.

(** The time for which [rclc_executor_spin_one_period] schedules the round
    it runs: the invocation time of the executor, which is read from the
    clock when it is 0. *)
Definition start_time (executor : rclc_executor_t) (w : world Ext) : Z :=
  if (invocation_time executor =? 0)%Z
  then (rcutils_system_time_now (Some (invocation_time executor)) w).1.2
  else invocation_time executor.

End Spinning.

(** A reference clock on top of a reference world: the time in nanoseconds,
    which each reading of the clock advances by [tick] and each sleep by its
    duration. *)
Module ToyClock.

Definition tick : Z := 250000.

Record state := mk_state {
  base : Toy.state;
  now : Z;
  slept : list Z
}.

Definition lift (w : world state) : world Toy.state := mk_world (mem w) (base (ext w)).
Definition lower (w : world state) (w' : world Toy.state) : world state :=
  mk_world (mem w') (mk_state (ext w') (now (ext w)) (slept (ext w))).

Definition runtime : rcl_runtime state :=
  {| perform c w := let '(rc, id, w') := Toy.toy_perform c (lift w) in (rc, id, lower w w');
     rcl_context_is_valid context w := rcl_context_is_valid (rcl_runtime := Toy.runtime) context (lift w);
     rcl_wait ws timeout w := let '(rc, ws, w') := Toy.toy_wait ws timeout (lift w) in
                              (rc, ws, lower w w') |}.

Definition time : rcutils_time state :=
  {| rcutils_system_time_now _ w :=
       (RCL_RET_OK, (now (ext w) + tick)%Z,
        mk_world (mem w) (mk_state (base (ext w)) (now (ext w) + tick)%Z (slept (ext w))));
     rclc_sleep_ms ms w :=
       mk_world (mem w)
         (mk_state (base (ext w)) (now (ext w) + ms * 1000000)%Z (slept (ext w) ++ [ms])) |}.

(** A quiet world in which the clock shows one second. *)
Definition quiet : world state := mk_world empty_memory (mk_state (ext Toy.quiet) 1000000000 []).

End ToyClock.

(** The executor [e'] is set up as [e], except for the invocation time,
    which the periodic spin functions advance. *)
Definition same_setup_but_time (e e' : rclc_executor_t) : Prop :=
  same_setup (set_invocation_time (invocation_time e') e) e'.

(** A periodic run of the reference middleware with the reference clock. *)
Module PeriodicScenario.

(** What [rclc_executor_spin_period] has reached after the given number of
    rounds, when it is still running. *)
Definition periods (rounds : nat) (e : rclc_executor_t) (period : N) (w : world ToyClock.state)
  : rclc_executor_t * world ToyClock.state * list event :=
  match rclc_executor_spin_period (api := Toy.api) (rt := ToyClock.runtime)
          (clock := ToyClock.time) rounds e period w [] with
  | Some (Running e' w' tr) => (e', w', tr)
  | _ => (e, w, [])
  end.

(** Two rounds with a period of 10 ms on the executor with two timers and a
    subscription, in a world in which nothing is pending. *)
Abbreviation two_periods := (periods 2 Example.three_handles 10000000 ToyClock.quiet).

End PeriodicScenario.
(** * Properties *)

(** ** Setters: [set_timeout], [set_semantics], [set_trigger] *)

Lemma zero_initialized_executor_is_not_valid :
  _rclc_executor_is_valid rclc_executor_get_zero_initialized_executor = false.
Proof. reflexivity. Qed.

(** C7, as the claim states it, fails: on a zero-initialised executor
    [set_timeout] and [set_semantics] return [RCL_RET_ERROR], which is not
    [RCL_RET_INVALID_ARGUMENT] (the code reserves that for a [NULL] executor
    pointer). *)
Lemma set_timeout_uninitialized_is_not_invalid_argument :
  (rclc_executor_set_timeout rclc_executor_get_zero_initialized_executor 5).1 = RCL_RET_ERROR
  ∧ (rclc_executor_set_timeout rclc_executor_get_zero_initialized_executor 5).1
    ≠ RCL_RET_INVALID_ARGUMENT
  ∧ (rclc_executor_set_semantics rclc_executor_get_zero_initialized_executor LET).1
    ≠ RCL_RET_INVALID_ARGUMENT.
Proof. repeat split; vm_compute; discriminate. Qed.

(** C7 (amended): on an executor that is not initialised, [set_timeout] and
    [set_semantics] fail with [RCL_RET_ERROR] and leave the executor as it is;
    on an initialised executor they return [RCL_RET_OK] and change the
    corresponding field and nothing else. *)
Theorem setters_check_initialization :
  ∀ (executor : rclc_executor_t) (ns : N) (semantics : rclc_executor_semantics_t),
    (_rclc_executor_is_valid executor = false →
       rclc_executor_set_timeout executor ns = (RCL_RET_ERROR, executor)
       ∧ rclc_executor_set_semantics executor semantics = (RCL_RET_ERROR, executor))
    ∧ (_rclc_executor_is_valid executor = true →
       (rclc_executor_set_timeout executor ns).1 = RCL_RET_OK
       ∧ timeout_ns (rclc_executor_set_timeout executor ns).2 = ns
       ∧ set_timeout_ns (timeout_ns executor) (rclc_executor_set_timeout executor ns).2
         = executor
       ∧ (rclc_executor_set_semantics executor semantics).1 = RCL_RET_OK
       ∧ data_comm_semantics (rclc_executor_set_semantics executor semantics).2 = semantics
       ∧ set_data_comm_semantics (data_comm_semantics executor)
           (rclc_executor_set_semantics executor semantics).2 = executor).
Proof.
  intros executor ns semantics.
  unfold rclc_executor_set_timeout, rclc_executor_set_semantics.
  split; intros Hvalid; rewrite Hvalid; simpl.
  - done.
  - destruct executor; done.
Qed.

(** C10: [set_trigger] returns [RCL_RET_OK] and stores the function pointer
    and the object it is given, whatever they are and whatever the state of
    the executor; the other fields keep their values.  In particular it does
    so on a zero-initialised executor with a [NULL] function pointer. *)
Theorem set_trigger_stores_unconditionally :
  ∀ (executor : rclc_executor_t) (fn : option trigger_fn) (obj : void_ptr),
    (rclc_executor_set_trigger executor fn obj).1 = RCL_RET_OK
    ∧ trigger_function (rclc_executor_set_trigger executor fn obj).2 = fn
    ∧ trigger_object (rclc_executor_set_trigger executor fn obj).2 = obj
    ∧ set_trigger_object (trigger_object executor)
        (set_trigger_function (trigger_function executor)
           (rclc_executor_set_trigger executor fn obj).2) = executor
    ∧ rclc_executor_set_trigger rclc_executor_get_zero_initialized_executor None obj
      = (RCL_RET_OK, set_trigger_object obj rclc_executor_get_zero_initialized_executor).
Proof.
  intros [] fn obj. unfold rclc_executor_set_trigger. simpl. done.
Qed.

(** A witness for C7: the zero-initialised executor, and an executor
    initialised with capacity 2. *)
Lemma setters_check_initialization_witness :
  (rclc_executor_set_timeout rclc_executor_get_zero_initialized_executor 5
   = (RCL_RET_ERROR, rclc_executor_get_zero_initialized_executor)
   ∧ rclc_executor_set_semantics rclc_executor_get_zero_initialized_executor LET
     = (RCL_RET_ERROR, rclc_executor_get_zero_initialized_executor))
  ∧ ((rclc_executor_set_timeout (Example.fresh 2) 5).1 = RCL_RET_OK
     ∧ timeout_ns (rclc_executor_set_timeout (Example.fresh 2) 5).2 = 5
     ∧ set_timeout_ns (timeout_ns (Example.fresh 2))
         (rclc_executor_set_timeout (Example.fresh 2) 5).2 = Example.fresh 2
     ∧ (rclc_executor_set_semantics (Example.fresh 2) LET).1 = RCL_RET_OK
     ∧ data_comm_semantics (rclc_executor_set_semantics (Example.fresh 2) LET).2 = LET
     ∧ set_data_comm_semantics (data_comm_semantics (Example.fresh 2))
         (rclc_executor_set_semantics (Example.fresh 2) LET).2 = Example.fresh 2).
Proof.
  split.
  - apply (proj1 (setters_check_initialization
                    rclc_executor_get_zero_initialized_executor 5 LET)).
    reflexivity.
  - apply (proj2 (setters_check_initialization (Example.fresh 2) 5 LET)).
    reflexivity.
Defined.

(** ** Removal *)

Section RemovalProperties.
Context {api : rcl_api}.

(** The scan of [_rclc_executor_find_handle] returns the first position in
    its range whose entity is the one looked for. *)
Lemma find_handle_loop_Some hs p fuel start i :
  find_handle_loop hs p fuel start = Some i →
  (start ≤ i < start + fuel)%nat
  ∧ rclc_executor_handle_get_ptr (hs !!! i) = p
  ∧ ∀ j, (start ≤ j < i)%nat → rclc_executor_handle_get_ptr (hs !!! j) ≠ p.
Proof.
  revert start. induction fuel as [|fuel IH]; intros start; simpl; [done|].
  unfold ptr_eqb. case_bool_decide as Hp.
  - intros [= <-]. repeat split; [lia | lia | done | intros j ?; lia].
  - intros Hfind. destruct (IH _ Hfind) as (Hrange & Hi & Hfirst).
    repeat split; [lia | lia | done |].
    intros j Hj. destruct (decide (j = start)) as [->|]; [congruence|].
    apply Hfirst. lia.
Qed.

Lemma find_handle_loop_None hs p fuel start :
  find_handle_loop hs p fuel start = None ↔
  ∀ j, (start ≤ j < start + fuel)%nat → rclc_executor_handle_get_ptr (hs !!! j) ≠ p.
Proof.
  revert start. induction fuel as [|fuel IH]; intros start; simpl.
  - split; [intros _ j ?; lia | done].
  - unfold ptr_eqb. case_bool_decide as Hp.
    + split; [done|]. intros H. exfalso. apply (H start); [lia | done].
    + rewrite IH. split.
      * intros H j Hj. destruct (decide (j = start)) as [->|]; [congruence|].
        apply H. lia.
      * intros H j Hj. apply H. lia.
Qed.

Lemma find_handle_unregistered e p :
  ¬ registered e p → _rclc_executor_find_handle e p = None.
Proof.
  intros Hnot. apply find_handle_loop_None. intros j Hj Hp.
  apply Hnot. exists j. split; [lia | done].
Qed.

Lemma find_handle_registered e p :
  registered e p → ∃ i, _rclc_executor_find_handle e p = Some i.
Proof.
  intros (j & Hj & Hp).
  destruct (_rclc_executor_find_handle e p) as [i|] eqn:Hfind; [eauto|].
  apply find_handle_loop_None with (j := j) in Hfind; [done | lia].
Qed.

Lemma remove_handle_not_found e : _rclc_executor_remove_handle e None = (RCL_RET_ERROR, e).
Proof. reflexivity. Qed.

(** C9: a [remove_*] call that names an endpoint which is not registered
    (in particular any call on an executor without handles) returns an error
    code and leaves the executor exactly as it was.  The code is
    [RCL_RET_INVALID_ARGUMENT] for a [NULL] endpoint and [RCL_RET_ERROR]
    otherwise. *)
Theorem remove_unregistered_is_atomic :
  ∀ (k : removal) (e : rclc_executor_t) (p : void_ptr),
    index e = 0 ∨ ¬ registered e p →
    rclc_executor_remove k e p
    = (if is_null p then RCL_RET_INVALID_ARGUMENT else RCL_RET_ERROR, e)
    ∧ (rclc_executor_remove k e p).1 ≠ RCL_RET_OK.
Proof.
  intros k e p Hnot.
  assert (¬ registered e p) as Hunreg.
  { destruct Hnot as [Hzero|]; [|done]. intros (i & Hi & _). rewrite Hzero in Hi. lia. }
  assert (rclc_executor_remove k e p
          = (if is_null p then RCL_RET_INVALID_ARGUMENT else RCL_RET_ERROR, e)) as Heq.
  { destruct k; simpl;
      unfold rclc_executor_remove_subscription, rclc_executor_remove_timer,
        rclc_executor_remove_client, rclc_executor_remove_service,
        rclc_executor_remove_guard_condition;
      destruct (is_null p); try done;
      rewrite (find_handle_unregistered e p Hunreg), remove_handle_not_found; done. }
  split; [done|]. rewrite Heq. destruct (is_null p); done.
Qed.

Lemma size_decr_pos x : 0 < x < 2 ^ SIZE_WIDTH → size_decr x = x - 1.
Proof.
  unfold size_decr, size_wrap, SIZE_WIDTH. intros H.
  symmetry. apply N.mod_unique with (q := 1); lia.
Qed.

Lemma shift_handles_app l1 a mid l2 :
  shift_handles (l1 ++ a :: mid ++ l2) (length mid) (length l1)
  = l1 ++ mid ++ ((a :: mid) !!! length mid) :: l2.
Proof.
  revert l1 a. induction mid as [|b mid IH]; intros l1 a; simpl; [done|].
  rewrite lookup_total_app_r by lia.
  replace (S (length l1) - length l1)%nat with 1%nat by lia. simpl.
  replace (length l1) with (length l1 + 0)%nat at 1 by lia.
  rewrite insert_app_r. simpl.
  specialize (IH (l1 ++ [b]) b). rewrite length_app in IH. simpl in IH.
  rewrite Nat.add_1_r in IH. rewrite <- !(assoc_L (++)) in IH. simpl in IH.
  rewrite IH. done.
Qed.

Lemma split_at_handle (hs : list rclc_executor_handle_t) i n :
  (i < n ≤ length hs)%nat →
  hs = take i hs ++ (hs !!! i) :: drop (S i) (take n hs) ++ drop n hs.
Proof.
  intros Hi.
  assert (take n hs = take i hs ++ (hs !!! i) :: drop (S i) (take n hs)) as Hn.
  { rewrite <- (take_drop_middle (take n hs) i (hs !!! i)) at 1.
    - rewrite take_take. by replace (i `min` n)%nat with i by lia.
    - rewrite lookup_take_lt by lia. apply list_lookup_lookup_total_lt. lia. }
  rewrite <- (take_drop n hs) at 1. rewrite Hn at 1.
  by rewrite <- (assoc_L (++)).
Qed.

(** [_rclc_executor_remove_handle] on a handle in use: the handle is taken
    out of the table before the wait set is finalised, and the result of the
    call is the result of the finalisation. *)
Lemma remove_handle_result e hs i :
  handles e = Some hs →
  length hs = N.to_nat (max_handles e) →
  index e ≤ max_handles e →
  max_handles e < 2 ^ SIZE_WIDTH →
  (i < N.to_nat (index e))%nat →
  _rclc_executor_remove_handle e (Some i)
  = (if rcl_wait_set_is_valid (wait_set e) then (rcl_wait_set_fini (wait_set e)).1
     else RCL_RET_OK,
     set_wait_set
       (if rcl_wait_set_is_valid (wait_set e) then (rcl_wait_set_fini (wait_set e)).2
        else wait_set e)
       (set_handles
          (Some (delete i (take (N.to_nat (index e)) hs)
                 ++ rclc_executor_handle_init (hs !!! (N.to_nat (index e) - 1)%nat)
                      (max_handles e)
                 :: drop (N.to_nat (index e)) hs))
          (set_index (index e - 1) e))).
Proof.
  intros Hhs Hlen Hidx Hmax Hi.
  unfold _rclc_executor_remove_handle.
  destruct (index e <=? N.of_nat i) eqn:Hle; [apply N.leb_le in Hle; lia|].
  destruct (index e =? 0) eqn:Hz; [apply N.eqb_eq in Hz; lia|].
  rewrite size_decr_pos by lia.
  set (n := N.to_nat (index e)) in *.
  assert (N.to_nat (index e - 1) = (n - 1)%nat) as Hn1 by lia.
  pose proof (split_at_handle hs i n ltac:(lia)) as Hsplit.
  set (l1 := take i hs) in *. set (a := hs !!! i) in *.
  set (mid := drop (S i) (take n hs)) in *. set (l2 := drop n hs) in *.
  assert (length l1 = i) as Hl1 by (unfold l1; rewrite length_take; lia).
  assert (length mid = (n - 1 - i)%nat) as Hmid.
  { unfold mid. rewrite length_drop, length_take. lia. }
  assert (hs !!! (n - 1)%nat = (a :: mid) !!! length mid) as Hlast.
  { rewrite Hsplit at 1. rewrite lookup_total_app_r by lia.
    rewrite (app_comm_cons mid l2 a), lookup_total_app_l by (simpl; lia).
    f_equal. lia. }
  assert (delete i (take n hs) = l1 ++ mid) as Hdel.
  { rewrite delete_take_drop, take_take. by replace (i `min` n)%nat with i by lia. }
  assert (shift_handles hs (n - 1 - i) i = l1 ++ mid ++ (a :: mid) !!! length mid :: l2)
    as Hshift.
  { rewrite <- Hmid, <- Hl1. rewrite Hsplit at 1. apply shift_handles_app. }
  assert ((l1 ++ mid ++ (a :: mid) !!! length mid :: l2) !!! (n - 1)%nat
          = (a :: mid) !!! length mid) as Hat.
  { rewrite (assoc_L (++)), lookup_total_app_r by (rewrite length_app; lia).
    rewrite length_app. replace (n - 1 - (length l1 + length mid))%nat with 0%nat by lia. done. }
  assert (<[(n - 1)%nat := rclc_executor_handle_init ((a :: mid) !!! length mid)
                             (max_handles e)]>
            (l1 ++ mid ++ (a :: mid) !!! length mid :: l2)
          = (l1 ++ mid) ++ rclc_executor_handle_init ((a :: mid) !!! length mid)
                             (max_handles e) :: l2) as Hins.
  { rewrite (assoc_L (++)).
    replace (n - 1)%nat with (length (l1 ++ mid) + 0)%nat by (rewrite length_app; lia).
    by rewrite insert_app_r. }
  rewrite Hdel, Hlast.
  destruct e as [c0 h0 mx idx al ws inf tn it tf tobj sem]. simpl in *. subst h0.
  unfold store_handle, handle_at, handle_array, set_handles, set_index. simpl.
  rewrite Hn1, Hshift, Hat, Hins.
  unfold invalidate_wait_set. simpl.
  destruct (rcl_wait_set_is_valid ws) eqn:Hvalid; [|done].
  destruct (rcl_wait_set_fini ws) as [ret ws']. simpl.
  unfold ret_eqb. by case_bool_decide as Hret; simpl; [rewrite Hret|].
Qed.

Lemma remove_handle_found e hs i :
  handles e = Some hs →
  length hs = N.to_nat (max_handles e) →
  index e ≤ max_handles e →
  max_handles e < 2 ^ SIZE_WIDTH →
  (i < N.to_nat (index e))%nat →
  (rcl_wait_set_is_valid (wait_set e) = true → (rcl_wait_set_fini (wait_set e)).1 = RCL_RET_OK) →
  _rclc_executor_remove_handle e (Some i)
  = (RCL_RET_OK,
     set_wait_set
       (if rcl_wait_set_is_valid (wait_set e) then (rcl_wait_set_fini (wait_set e)).2
        else wait_set e)
       (set_handles
          (Some (delete i (take (N.to_nat (index e)) hs)
                 ++ rclc_executor_handle_init (hs !!! (N.to_nat (index e) - 1)%nat)
                      (max_handles e)
                 :: drop (N.to_nat (index e)) hs))
          (set_index (index e - 1) e))).
Proof.
  intros Hhs Hlen Hidx Hmax Hi Hfini.
  rewrite (remove_handle_result e hs i) by done.
  destruct (rcl_wait_set_is_valid (wait_set e)); [by rewrite Hfini | done].
Qed.


End RemovalProperties.

(** A witness for C9: removing a subscription that was never added from the
    executor with three handles. *)
Lemma remove_unregistered_is_atomic_witness :
  rclc_executor_remove (api := Toy.api) remove_subscription Example.three_handles Example.sub_2
  = (RCL_RET_ERROR, Example.three_handles)
  ∧ rclc_executor_remove (api := Toy.api) remove_timer (Example.fresh 2) Example.timer_1
    = (RCL_RET_ERROR, Example.fresh 2).
Proof.
  split.
  - apply (remove_unregistered_is_atomic (api := Toy.api) remove_subscription
             Example.three_handles Example.sub_2).
    right. intros (i & Hi & Hp).
    change (N.to_nat (index Example.three_handles)) with 3%nat in Hi.
    destruct i as [|[|[|i]]]; [vm_compute in Hp; discriminate .. | lia].
  - apply (remove_unregistered_is_atomic (api := Toy.api) remove_timer
             (Example.fresh 2) Example.timer_1).
    left. reflexivity.
Defined.



(** ** Registration on a full table *)

Section FullTable.
Context {api : rcl_api}.

(** C6 (amended): when the table is full, every [add_*] whose arguments pass
    the [NULL] guards returns [RCL_RET_ERROR], the code of any other failure
    (there is no code for an overflow), and leaves the executor as it was:
    handle table, number of handles in use and counters.  The memory of the
    action endpoints is untouched too, except that [add_action_server] has
    already stored the allocator in the action server. *)
Theorem add_on_full_table_is_rejected :
  ∀ (op : registration) (e : rclc_executor_t) (m : action_memory),
    is_add op = true →
    arguments_accepted op = true →
    index e = max_handles e →
    (register op (e, m)).1 = RCL_RET_ERROR
    ∧ (register op (e, m)).2.1 = e
    ∧ match op with
      | add_action_server _ _ _ _ _ _ _ => True
      | _ => (register op (e, m)).2.2 = m
      end.
Proof.
  intros op e m Hadd Hargs Hfull.
  assert (handles_full e = true) as Hf.
  { unfold handles_full. apply N.leb_le. lia. }
  destruct op; try discriminate Hadd; simpl in Hargs |- *;
    unfold rclc_executor_add_subscription, rclc_executor_add_subscription_with_context,
      rclc_executor_add_timer, rclc_executor_add_client,
      rclc_executor_add_client_with_request_id, rclc_executor_add_service,
      rclc_executor_add_service_with_context, rclc_executor_add_service_with_request_id,
      rclc_executor_add_guard_condition, rclc_executor_add_action_client,
      rclc_executor_add_action_server;
    rewrite ?Hf; simpl;
    repeat match type of Hargs with
           | _ && _ = true => apply andb_prop in Hargs; destruct Hargs as [Hargs ?]
           end;
    repeat match goal with
           | H : negb ?b = true |- _ => apply negb_true_iff in H; rewrite ?H
           end;
    rewrite ?Hf; simpl; try done.
  - (* add_action_client: the guard on the feedback buffer *)
    match goal with H : _ || _ = true |- _ => apply orb_prop in H; destruct H as [H|H] end.
    + rewrite H. done.
    + apply negb_true_iff in H. rewrite H, andb_false_r. done.
  - (* add_action_server *)
    destruct (ros_goal_request_size <=? 0); done.
Qed.

End FullTable.

(** C6, as the claim states it, fails: with capacity 1 the second [add_timer]
    returns [RCL_RET_ERROR], which is the specification's [Error] and not its
    [Overflow]. *)
Lemma add_timer_on_full_table_is_not_overflow :
  (rclc_executor_add_timer (api := Toy.api) (Example.fresh 1) Example.timer_1).1 = RCL_RET_OK
  ∧ (rclc_executor_add_timer (api := Toy.api) Example.one_timer Example.timer_2).1
    = RCL_RET_ERROR
  ∧ spec_result_of
      (rclc_executor_add_timer (api := Toy.api) Example.one_timer Example.timer_2).1 = Error
  ∧ spec_result_of
      (rclc_executor_add_timer (api := Toy.api) Example.one_timer Example.timer_2).1
    ≠ Overflow.
Proof. repeat split; vm_compute; discriminate. Qed.

(** A witness for C6, the scenario of the specification: capacity 1, two
    [add_timer] calls; the second is rejected and the counter of timers is
    still 1. *)
Lemma add_on_full_table_is_rejected_witness :
  (rclc_executor_add_timer (api := Toy.api) Example.one_timer Example.timer_2).1
  = RCL_RET_ERROR
  ∧ (rclc_executor_add_timer (api := Toy.api) Example.one_timer Example.timer_2).2
    = Example.one_timer
  ∧ number_of_timers
      (info (rclc_executor_add_timer (api := Toy.api) Example.one_timer Example.timer_2).2)
    = 1
  ∧ index (rclc_executor_add_timer (api := Toy.api) Example.one_timer Example.timer_2).2 = 1.
Proof.
  assert (∀ e m o, (register (api := Toy.api) (add_timer o) (e, m)).1
                   = (rclc_executor_add_timer e (Ptr T_rcl_timer o)).1) as Hret' by reflexivity.
  assert (∀ e m o, (register (api := Toy.api) (add_timer o) (e, m)).2.1
                   = (rclc_executor_add_timer e (Ptr T_rcl_timer o)).2) as He' by reflexivity.
  destruct (add_on_full_table_is_rejected (api := Toy.api) (add_timer 2) Example.one_timer
              empty_memory eq_refl eq_refl ltac:(vm_compute; reflexivity)) as (Hret & He & _).
  rewrite Hret' in Hret. rewrite He' in He.
  split; [exact Hret|]. split; [exact He|].
  split; vm_compute; reflexivity.
Defined.

(** ** Reading the result of a call *)

Lemma ok_result {A} (x : rcl_ret_t * A) : x.1 = RCL_RET_OK → x = (RCL_RET_OK, x.2).
Proof. destruct x as [rc a]. simpl. by intros ->. Qed.

Lemma fresh_result (n : size_t) :
  (rclc_executor_init (api := Toy.api) rclc_executor_get_zero_initialized_executor
     Example.ctx n Example.alloc).1 = RCL_RET_OK →
  rclc_executor_init (api := Toy.api) rclc_executor_get_zero_initialized_executor
    Example.ctx n Example.alloc = (RCL_RET_OK, Example.fresh n).
Proof. apply ok_result. Qed.

Lemma after_result (ops : list registration) (s : registry) :
  (if register_all (api := Toy.api) ops s is Some _ then true else false) = true →
  register_all (api := Toy.api) ops s = Some ((Scenario.after ops s).1, (Scenario.after ops s).2).
Proof. unfold Scenario.after. by destruct (register_all ops s) as [[e m]|]. Qed.

Lemma spun_result (e : rclc_executor_t) (timeout : N) (w : world Toy.state) :
  (if rclc_executor_spin_some (api := Toy.api) (rt := Toy.runtime) e timeout w is Some _
   then true else false) = true →
  rclc_executor_spin_some (api := Toy.api) (rt := Toy.runtime) e timeout w
  = Some ((Scenario.spun e timeout w).1.1.1, (Scenario.spun e timeout w).1.1.2,
          (Scenario.spun e timeout w).1.2, (Scenario.spun e timeout w).2).
Proof.
  unfold Scenario.spun.
  by destruct (rclc_executor_spin_some e timeout w) as [[[[rc e'] w'] tr]|].
Qed.

Lemma register_result {api : rcl_api} (op : registration) (s : registry) :
  (register op s).1 = RCL_RET_OK →
  register op s = (RCL_RET_OK, ((register op s).2.1, (register op s).2.2)).
Proof. destruct (register op s) as [rc [e m]]. simpl. by intros ->. Qed.

(** ** Trigger predicates *)

Lemma in_initialized_prefix_S mx hs k :
  in_initialized_prefix mx hs (S k) ↔
  in_initialized_prefix mx hs k ∧ N.of_nat (S k) < mx ∧ initialized (hs !!! S k) = true.
Proof.
  unfold in_initialized_prefix. split.
  - intros H. split; [intros j Hj; apply H; lia|]. apply H. lia.
  - intros (H & Hlt & Hinit) j Hj.
    destruct (decide (j = S k)) as [->|]; [done|]. apply H. lia.
Qed.

Lemma trigger_any_loop_true m hs fuel i :
  trigger_any_loop m hs fuel i = true ↔
  ∃ k, (i ≤ k < i + fuel)%nat
       ∧ (∀ j, (i ≤ j ≤ k)%nat → initialized (hs !!! j) = true)
       ∧ _rclc_check_handle_data_available m (hs !!! k) = true.
Proof.
  revert i. induction fuel as [|fuel IH]; intros i; simpl.
  - split; [done | intros (k & ? & _); lia].
  - destruct (initialized (hs !!! i)) eqn:Hinit.
    + destruct (_rclc_check_handle_data_available m (hs !!! i)) eqn:Hav.
      * split; [|done]. intros _. exists i. split; [lia|]. split; [|done].
        intros j Hj. by replace j with i by lia.
      * rewrite IH. split.
        -- intros (k & Hk & Hpre & Hk'). exists k. split; [lia|]. split; [|done].
           intros j Hj. destruct (decide (j = i)) as [->|]; [done|]. apply Hpre. lia.
        -- intros (k & Hk & Hpre & Hk'). exists k.
           destruct (decide (k = i)) as [->|]; [congruence|].
           split; [lia|]. split; [|done]. intros j Hj. apply Hpre. lia.
    + split; [done|]. intros (k & Hk & Hpre & _).
      rewrite Hpre in Hinit by lia. done.
Qed.

Lemma trigger_all_loop_true m hs fuel i :
  trigger_all_loop m hs fuel i = true ↔
  ∀ k, (i ≤ k < i + fuel)%nat →
       (∀ j, (i ≤ j ≤ k)%nat → initialized (hs !!! j) = true) →
       _rclc_check_handle_data_available m (hs !!! k) = true.
Proof.
  revert i. induction fuel as [|fuel IH]; intros i; simpl.
  - split; [intros _ k ?; lia | done].
  - destruct (initialized (hs !!! i)) eqn:Hinit.
    + destruct (_rclc_check_handle_data_available m (hs !!! i)) eqn:Hav; simpl.
      * rewrite IH. split.
        -- intros H k Hk Hpre. destruct (decide (k = i)) as [->|]; [done|].
           apply H; [lia|]. intros j Hj. apply Hpre. lia.
        -- intros H k Hk Hpre. apply H; [lia|]. intros j Hj.
           destruct (decide (j = i)) as [->|]; [done|]. apply Hpre. lia.
      * split; [done|]. intros H. rewrite <- Hav. apply H; [lia|].
        intros j Hj. by replace j with i by lia.
    + split; [|done]. intros _ k Hk Hpre. rewrite Hpre in Hinit by lia. done.
Qed.

Lemma trigger_one_loop_true m hs obj fuel i :
  trigger_one_loop m hs obj fuel i = true ↔
  ∃ k, (i ≤ k < i + fuel)%nat
       ∧ (∀ j, (i ≤ j ≤ k)%nat → initialized (hs !!! j) = true)
       ∧ _rclc_check_handle_data_available m (hs !!! k) = true
       ∧ rclc_executor_handle_get_ptr (hs !!! k) = obj
       ∧ obj ≠ NULL
       ∧ ∀ j, (i ≤ j < k)%nat → _rclc_check_handle_data_available m (hs !!! j) = true →
              rclc_executor_handle_get_ptr (hs !!! j) ≠ NULL.
Proof.
  revert i. induction fuel as [|fuel IH]; intros i; simpl.
  - split; [done | intros (k & ? & _); lia].
  - destruct (initialized (hs !!! i)) eqn:Hinit.
    2:{ split; [done|]. intros (k & Hk & Hpre & _). rewrite Hpre in Hinit by lia. done. }
    destruct (_rclc_check_handle_data_available m (hs !!! i)) eqn:Hav.
    + unfold is_null, ptr_eqb. case_bool_decide as Hnull.
      { split; [done|]. intros (k & Hk & Hpre & Hk' & Hptr & Hobj & Hfirst).
        destruct (decide (k = i)) as [->|]; [congruence|].
        exfalso. apply (Hfirst i); [lia | done | done]. }
      case_bool_decide as Heq.
      { split; [|done]. intros _. exists i. split; [lia|].
        split; [intros j Hj; by replace j with i by lia|].
        split; [done|]. split; [done|]. split; [congruence|]. intros j Hj. lia. }
      rewrite IH. split.
      * intros (k & Hk & Hpre & Hk' & Hptr & Hobj & Hfirst). exists k. split; [lia|].
        split; [intros j Hj; destruct (decide (j = i)) as [->|]; [done | apply Hpre; lia]|].
        split; [done|]. split; [done|]. split; [done|].
        intros j Hj Hj'. destruct (decide (j = i)) as [->|]; [done|]. apply Hfirst; [lia|done].
      * intros (k & Hk & Hpre & Hk' & Hptr & Hobj & Hfirst). exists k.
        destruct (decide (k = i)) as [->|]; [congruence|].
        split; [lia|]. split; [intros j Hj; apply Hpre; lia|].
        split; [done|]. split; [done|]. split; [done|].
        intros j Hj. apply Hfirst. lia.
    + rewrite IH. split.
      * intros (k & Hk & Hpre & Hk' & Hptr & Hobj & Hfirst). exists k. split; [lia|].
        split; [intros j Hj; destruct (decide (j = i)) as [->|]; [done | apply Hpre; lia]|].
        split; [done|]. split; [done|]. split; [done|].
        intros j Hj Hj'. destruct (decide (j = i)) as [->|]; [congruence|].
        apply Hfirst; [lia|done].
      * intros (k & Hk & Hpre & Hk' & Hptr & Hobj & Hfirst). exists k.
        destruct (decide (k = i)) as [->|]; [congruence|].
        split; [lia|]. split; [intros j Hj; apply Hpre; lia|].
        split; [done|]. split; [done|]. split; [done|].
        intros j Hj. apply Hfirst. lia.
Qed.

Lemma prefix_within_size (size : N) hs k :
  in_initialized_prefix size hs k ↔
  (k < N.to_nat size)%nat ∧ ∀ j, (0 ≤ j ≤ k)%nat → initialized (hs !!! j) = true.
Proof.
  unfold in_initialized_prefix. split.
  - intros H. split; [destruct (H k) as [? _]; lia|]. intros j Hj. apply H. lia.
  - intros [Hk H] j Hj. split; [lia|]. apply H. lia.
Qed.

(** [rclc_executor_trigger_any] fires exactly when some handle of the
    initialised prefix of the table (within the size it is given) has data
    available; it does not fire for a [NULL] table. *)
Theorem trigger_any_fires_iff :
  ∀ (m : action_memory) (hs : list rclc_executor_handle_t) (size : N) (obj : void_ptr),
    rclc_executor_trigger_any m None size obj = false
    ∧ (rclc_executor_trigger_any m (Some hs) size obj = true
       ↔ ∃ k, in_initialized_prefix size hs k
              ∧ _rclc_check_handle_data_available m (hs !!! k) = true).
Proof.
  intros m hs size obj. split; [done|]. simpl. rewrite trigger_any_loop_true. split.
  - intros (k & Hk & Hpre & Hav). exists k. split; [|done].
    apply prefix_within_size. split; [lia | done].
  - intros (k & Hpre & Hav). apply prefix_within_size in Hpre as [Hk Hpre].
    exists k. split; [lia|]. split; [|done]. intros j Hj. apply Hpre. lia.
Qed.

(** [rclc_executor_trigger_all] fires exactly when every handle of the
    initialised prefix of the table has data available; in particular it
    fires when the first handle is not initialised.  It does not fire for a
    [NULL] table. *)
Theorem trigger_all_fires_iff :
  ∀ (m : action_memory) (hs : list rclc_executor_handle_t) (size : N) (obj : void_ptr),
    rclc_executor_trigger_all m None size obj = false
    ∧ (rclc_executor_trigger_all m (Some hs) size obj = true
       ↔ ∀ k, in_initialized_prefix size hs k →
              _rclc_check_handle_data_available m (hs !!! k) = true).
Proof.
  intros m hs size obj. split; [done|]. simpl. rewrite trigger_all_loop_true. split.
  - intros H k Hpre. apply prefix_within_size in Hpre as [Hk Hpre].
    apply H; [lia|]. intros j Hj. apply Hpre. lia.
  - intros H k Hk Hpre. apply H. apply prefix_within_size. split; [lia | done].
Qed.

(** [rclc_executor_trigger_one] fires exactly when a handle of the
    initialised prefix refers to the trigger object and has data available,
    and no handle before it has data available without referring to an
    entity ([rclc_executor_handle_get_ptr] is [NULL] for the handles of
    action clients and action servers): the scan gives up at such a handle. *)
Theorem trigger_one_fires_iff :
  ∀ (m : action_memory) (hs : list rclc_executor_handle_t) (size : N) (obj : void_ptr),
    rclc_executor_trigger_one m None size obj = false
    ∧ (rclc_executor_trigger_one m (Some hs) size obj = true
       ↔ ∃ k, in_initialized_prefix size hs k
              ∧ _rclc_check_handle_data_available m (hs !!! k) = true
              ∧ rclc_executor_handle_get_ptr (hs !!! k) = obj
              ∧ obj ≠ NULL
              ∧ ∀ j, (j < k)%nat →
                     _rclc_check_handle_data_available m (hs !!! j) = true →
                     rclc_executor_handle_get_ptr (hs !!! j) ≠ NULL).
Proof.
  intros m hs size obj. split; [done|]. simpl. rewrite trigger_one_loop_true. split.
  - intros (k & Hk & Hpre & Hav & Hptr & Hobj & Hfirst). exists k.
    split; [apply prefix_within_size; split; [lia | done]|].
    repeat split; try done. intros j Hj. apply Hfirst. lia.
  - intros (k & Hpre & Hav & Hptr & Hobj & Hfirst).
    apply prefix_within_size in Hpre as [Hk Hpre]. exists k. split; [lia|].
    split; [intros j Hj; apply Hpre; lia|]. repeat split; try done.
    intros j Hj. apply Hfirst. lia.
Qed.

(** ** The invariant of the registration interface *)

Section RegistrationInvariant.
Context {api : rcl_api}.

Lemma total_app f l1 l2 : total f (l1 ++ l2) = total f l1 + total f l2.
Proof. induction l1 as [|h l1 IH]; simpl; [done|]. rewrite IH. lia. Qed.

Lemma total_insert f hs n h :
  (n < length hs)%nat → total f (<[n := h]> hs) + f (hs !!! n) = total f hs + f h.
Proof.
  revert n. induction hs as [|a hs IH]; intros n Hn; simpl in *; [lia|].
  destruct n as [|n]; simpl; [lia|].
  specialize (IH n ltac:(lia)).
  change ((a :: hs) !!! S n) with (hs !!! n). lia.
Qed.

Lemma total_delete f hs i :
  (i < length hs)%nat → total f (delete i hs) + f (hs !!! i) = total f hs.
Proof.
  revert i. induction hs as [|a hs IH]; intros i Hi; simpl in *; [lia|].
  destruct i as [|i]; simpl; [change ((a :: hs) !!! 0%nat) with a; lia|].
  specialize (IH i ltac:(lia)).
  change ((a :: hs) !!! S i) with (hs !!! i). lia.
Qed.

Lemma total_remove f (hs : list rclc_executor_handle_t) i n x :
  (i < n ≤ length hs)%nat →
  total f (delete i (take n hs) ++ x :: drop n hs) + f (hs !!! i) = total f hs + f x.
Proof.
  intros Hi. rewrite total_app. simpl.
  pose proof (total_delete f (take n hs) i) as Hdel.
  rewrite length_take in Hdel. specialize (Hdel ltac:(lia)).
  rewrite lookup_total_take in Hdel. destruct (decide (i < n)%nat); [|lia].
  assert (total f hs = total f (take n hs) + total f (drop n hs)) as Hsplit.
  { by rewrite <- total_app, take_drop. }
  lia.
Qed.

Lemma size_add_wrap_l a b : size_add (size_wrap a) b = size_wrap (a + b).
Proof. unfold size_add, size_wrap. by rewrite N.Div0.add_mod_idemp_l. Qed.

Lemma size_wrap_idemp a : size_wrap (size_wrap a) = size_wrap a.
Proof. unfold size_wrap. by rewrite N.Div0.mod_mod. Qed.

Lemma size_add_wrap_0 a : size_add (size_wrap a) 0 = size_wrap a.
Proof. by rewrite size_add_wrap_l, N.add_0_r. Qed.

Lemma size_decr_wrap a : 1 ≤ a → size_add (size_wrap a) SIZE_MAX = size_wrap (a - 1).
Proof.
  intros Ha. rewrite size_add_wrap_l. unfold size_wrap, SIZE_MAX.
  replace (a + (2 ^ SIZE_WIDTH - 1)) with (a - 1 + 1 * 2 ^ SIZE_WIDTH).
  - by rewrite N.Div0.mod_add.
  - assert (0 < 2 ^ SIZE_WIDTH) by (unfold SIZE_WIDTH; lia). lia.
Qed.

Lemma size_incr_small x : x < 2 ^ SIZE_WIDTH - 1 → size_incr x = x + 1.
Proof. intros H. unfold size_incr, size_wrap. apply N.mod_small. lia. Qed.


Lemma total_insert_free f hs n h :
  (n < length hs)%nat → f (hs !!! n) = 0 → total f (<[n := h]> hs) = total f hs + f h.
Proof. intros Hn Hf. pose proof (total_insert f hs n h Hn). lia. Qed.

Lemma free_type mx h : free mx h → type h = RCLC_NONE.
Proof. intros ->. done. Qed.

Lemma free_initialized mx h : free mx h → initialized h = false.
Proof. intros ->. done. Qed.

Lemma free_counts_nothing h :
  type h = RCLC_NONE →
  entities_of h = (0, 0, 0, 0, 0)
  ∧ has_type RCLC_ACTION_CLIENT h = 0 ∧ has_type RCLC_ACTION_SERVER h = 0.
Proof. intros H. unfold entities_of, has_type. rewrite H. done. Qed.

(** Filling a free slot accounts for one more handle. *)
Lemma census_insert_free hs n h :
  (n < length hs)%nat → type (hs !!! n) = RCLC_NONE →
  census (<[n := h]> hs) = count_handle h (census hs).
Proof.
  intros Hn Hfree. destruct (free_counts_nothing _ Hfree) as (He & Hac & Has).
  unfold census, count_handle. simpl. rewrite !size_add_wrap_l.
  f_equal; f_equal; apply total_insert_free; try done; simpl; by rewrite He.
Qed.

(** Taking a handle out of the handles in use, the slot that becomes free
    being [x]. *)
Lemma census_remove hs i n x :
  (i < n ≤ length hs)%nat → type x = RCLC_NONE →
  census hs = count_handle (hs !!! i) (census (delete i (take n hs) ++ x :: drop n hs)).
Proof.
  intros Hi Hfree. destruct (free_counts_nothing _ Hfree) as (He & Hac & Has).
  unfold census, count_handle. simpl. rewrite !size_add_wrap_l.
  f_equal; f_equal;
    match goal with
    | |- total ?f _ = _ => pose proof (total_remove f hs i n x Hi) as Ht
    end; simpl in Ht; rewrite ?He, ?Hac, ?Has in Ht; simpl in Ht; lia.
Qed.

Lemma invalidate_wait_set_inr e e' :
  invalidate_wait_set e = inr e' → ∃ ws, e' = set_wait_set ws e.
Proof.
  unfold invalidate_wait_set. destruct (rcl_wait_set_is_valid (wait_set e)).
  - destruct (rcl_wait_set_fini (wait_set e)) as [ret ws].
    destruct (ret <>r? RCL_RET_OK); [done|]. intros [= <-]. eauto.
  - intros [= <-]. exists (wait_set e). by destruct e.
Qed.

Lemma invalidate_wait_set_inl e r :
  invalidate_wait_set e = inl r → r.1 ≠ RCL_RET_OK.
Proof.
  unfold invalidate_wait_set. destruct (rcl_wait_set_is_valid (wait_set e)); [|done].
  destruct (rcl_wait_set_fini (wait_set e)) as [ret ws].
  unfold ret_eqb. case_bool_decide; [done|]. by intros [= <-].
Qed.

(** The step that every [add_*] makes on a table that is not full. *)
Lemma add_consistent e f ws g :
  consistent e →
  handles_full e = false →
  in_use (f (handle_at e (index e))) →
  g (census (handle_array e)) = count_handle (f (handle_at e (index e))) (census (handle_array e)) →
  consistent (set_info (g (info e)) (set_wait_set ws (assign_next_handle f e))).
Proof.
  intros ((hs & Hhs & Hlen & Hidx & Hmax) & Hdense & Hinfo) Hfull Huse Hg.
  apply N.leb_gt in Hfull.
  assert (handle_array e = hs) as Harr by (unfold handle_array; by rewrite Hhs).
  assert (size_incr (index e) = index e + 1) as Hincr by (apply size_incr_small; lia).
  set (n := N.to_nat (index e)) in *.
  assert (free (max_handles e) (hs !!! n)) as Hfree.
  { specialize (Hdense n ltac:(lia)). rewrite Harr in Hdense.
    rewrite bool_decide_eq_false_2 in Hdense by lia. done. }
  unfold handle_at in *. rewrite Harr in *. fold n in Huse, Hg.
  set (h := f (hs !!! n)) in *.
  assert (handle_array (set_info (g (info e)) (set_wait_set ws (assign_next_handle f e)))
          = <[n := h]> hs) as Harr'.
  { unfold handle_array, assign_next_handle, store_handle, handle_at, handle_array. simpl.
    rewrite Hhs. simpl. done. }
  split; [|split].
  - exists (<[n := h]> hs). repeat split.
    + unfold assign_next_handle, store_handle, handle_at, handle_array. simpl.
      rewrite Hhs. simpl. done.
    + rewrite length_insert. done.
    + simpl. rewrite Hincr. lia.
    + done.
  - intros i Hi. rewrite Harr'. simpl in Hi |- *. rewrite Hincr.
    specialize (Hdense i Hi). rewrite Harr in Hdense.
    destruct (decide (i = n)) as [->|Hne].
    + rewrite bool_decide_eq_true_2 by lia.
      rewrite list_lookup_total_insert_eq by lia. done.
    + rewrite list_lookup_total_insert_ne by done.
      case_bool_decide; case_bool_decide; try done; lia.
  - rewrite Harr'. simpl. rewrite Hinfo, Hg.
    symmetry. apply census_insert_free; [lia | by eapply free_type].
Qed.


Lemma census_wrapped hs :
  census hs
  = mk_counters (size_wrap (number_of_subscriptions (census hs)))
      (size_wrap (number_of_timers (census hs))) (size_wrap (number_of_clients (census hs)))
      (size_wrap (number_of_services (census hs)))
      (size_wrap (number_of_action_clients (census hs)))
      (size_wrap (number_of_action_servers (census hs)))
      (size_wrap (number_of_guard_conditions (census hs))) 0.
Proof. unfold census. simpl. by rewrite !size_wrap_idemp. Qed.

Lemma size_add_0_r a : size_add a 0 = size_wrap a.
Proof. unfold size_add. by rewrite N.add_0_r. Qed.

Lemma size_add_add a b c : size_add (size_add a b) c = size_add a (b + c).
Proof.
  unfold size_add, size_wrap. rewrite N.Div0.add_mod_idemp_l. f_equal. lia.
Qed.

Lemma size_incr_decr a : size_add (size_add a 1) SIZE_MAX = size_wrap a.
Proof.
  rewrite size_add_add. unfold size_add, size_wrap, SIZE_MAX.
  replace (a + (1 + (2 ^ SIZE_WIDTH - 1))) with (a + 1 * 2 ^ SIZE_WIDTH).
  - by rewrite N.Div0.mod_add.
  - assert (0 < 2 ^ SIZE_WIDTH) by (unfold SIZE_WIDTH; lia). lia.
Qed.

(** A plain [add_*] accounts for the handle it stores. *)
Ltac count_plain Hc :=
  rewrite Hc at 1; unfold count_handle, entities_of, has_type,
    incr_subscriptions, incr_timers, incr_clients, incr_services, incr_guard_conditions,
    add_subscriptions, add_timers, add_clients, add_services, add_guard_conditions;
  simpl; rewrite ?size_add_0_r, ?size_wrap_idemp, ?size_add_wrap_l; reflexivity.

Ltac add_plain Hreg :=
  match type of Hreg with
  | context [invalidate_wait_set ?e1] =>
      let Hinv := fresh "Hinv" in
      destruct (invalidate_wait_set e1) as [r|e2] eqn:Hinv; simpl in Hreg;
      [ apply invalidate_wait_set_inl in Hinv; injection Hreg as Hreg _ _; congruence
      | apply invalidate_wait_set_inr in Hinv; destruct Hinv as [ws ->];
        injection Hreg as <- <- ]
  end.

Lemma register_add_plain_consistent op e m e' m' :
  consistent e →
  match op with
  | add_action_client _ _ _ _ _ _ _ _ _ | add_action_server _ _ _ _ _ _ _ | remove _ _ => False
  | _ => True
  end →
  register op (e, m) = (RCL_RET_OK, (e', m')) →
  consistent e'.
Proof.
  intros Hc Hplain Hreg.
  pose proof (census_wrapped (handle_array e)) as Hw.
  destruct op; try done; simpl in Hreg;
    unfold rclc_executor_add_subscription, rclc_executor_add_subscription_with_context,
      rclc_executor_add_timer, rclc_executor_add_client,
      rclc_executor_add_client_with_request_id, rclc_executor_add_service,
      rclc_executor_add_service_with_context, rclc_executor_add_service_with_request_id,
      rclc_executor_add_guard_condition in Hreg;
    repeat match type of Hreg with
           | context [if is_null ?p then _ else _] => destruct (is_null p); [done|]
           end;
    destruct (handles_full e) eqn:Hfull; [done| | done | | done | | done | | done |
                                          | done | | done | | done | | done |];
    add_plain Hreg;
    match goal with
    | |- consistent (set_info (?g (info _)) (set_wait_set ?ws (assign_next_handle ?f e))) =>
        apply (add_consistent e f ws g Hc Hfull)
    end;
    try (split; [done | eexists _, _; split; reflexivity]);
    count_plain Hw.
Qed.


Ltac count_action Hc Hnum :=
  rewrite Hc at 1; unfold count_handle, entities_of, has_type,
    incr_action_clients, incr_action_servers, add_action_clients, add_action_servers,
    add_subscriptions, add_timers, add_clients, add_services, add_guard_conditions;
  simpl; rewrite Hnum; simpl;
  rewrite ?size_add_0_r, ?size_wrap_idemp, ?size_add_wrap_l; reflexivity.

Lemma register_add_action_consistent op e m e' m' :
  consistent e →
  match op with
  | add_action_client _ _ _ _ _ _ _ _ _ | add_action_server _ _ _ _ _ _ _ => True
  | _ => False
  end →
  register op (e, m) = (RCL_RET_OK, (e', m')) →
  consistent e'.
Proof.
  intros Hc Hplain Hreg.
  pose proof (census_wrapped (handle_array e)) as Hw.
  destruct op; try done; simpl in Hreg;
    unfold rclc_executor_add_action_client, rclc_executor_add_action_server in Hreg.
  - repeat match type of Hreg with
           | context [if is_null ?p then _ else _] => destruct (is_null p); [done|]
           end.
    destruct (negb (is_null feedback_callback) && is_null ros_feedback); [done|].
    destruct (handles_full e) eqn:Hfull; [done|].
    destruct (negb (allocate _ _)); [done|].
    match type of Hreg with
    | context [invalidate_wait_set ?e1] =>
        destruct (invalidate_wait_set e1) as [[ret e2]|e2] eqn:Hinv; simpl in Hreg
    end.
    { apply invalidate_wait_set_inl in Hinv. injection Hreg as Hreg _ _. simpl in Hinv.
      congruence. }
    apply invalidate_wait_set_inr in Hinv. destruct Hinv as [ws ->].
    destruct (rcl_action_client_wait_set_get_num_entities (Ptr T_rclc_action_client action_client))
      as [ret [[[[n1 n2] n3] n4] n5]] eqn:Hnum.
    injection Hreg as _ <- _.
    match goal with
    | |- consistent (set_info ?i (set_wait_set ?ws (assign_next_handle ?f e))) =>
        apply (add_consistent e f ws
                 (λ c, incr_action_clients (add_services n5 (add_clients n4 (add_timers n3
                         (add_guard_conditions n2 (add_subscriptions n1 c)))))) Hc Hfull)
    end.
    + split; [done | eexists _, _; split; reflexivity].
    + count_action Hw Hnum.
  - repeat match type of Hreg with
           | context [if is_null ?p then _ else _] => destruct (is_null p); [done|]
           end.
    destruct (ros_goal_request_size <=? 0); [done|].
    destruct (handles_full e) eqn:Hfull; [done|].
    destruct (negb (allocate _ _)); [done|].
    match type of Hreg with
    | context [invalidate_wait_set ?e1] =>
        destruct (invalidate_wait_set e1) as [[ret e2]|e2] eqn:Hinv; simpl in Hreg
    end.
    { apply invalidate_wait_set_inl in Hinv. injection Hreg as Hreg _ _. simpl in Hinv.
      congruence. }
    apply invalidate_wait_set_inr in Hinv. destruct Hinv as [ws ->].
    destruct (rcl_action_server_wait_set_get_num_entities (Ptr T_rclc_action_server action_server))
      as [ret [[[[n1 n2] n3] n4] n5]] eqn:Hnum.
    injection Hreg as _ <- _.
    match goal with
    | |- consistent (set_info ?i (set_wait_set ?ws (assign_next_handle ?f e))) =>
        apply (add_consistent e f ws
                 (λ c, incr_action_servers (add_services n5 (add_clients n4 (add_timers n3
                         (add_guard_conditions n2 (add_subscriptions n1 c)))))) Hc Hfull)
    end.
    + split; [done | eexists _, _; split; reflexivity].
    + count_action Hw Hnum.
Qed.


Lemma remove_handle_fini_fails e h :
  rcl_wait_set_is_valid (wait_set e) = true →
  (rcl_wait_set_fini (wait_set e)).1 ≠ RCL_RET_OK →
  (_rclc_executor_remove_handle e h).1 ≠ RCL_RET_OK.
Proof.
  intros Hvalid Hfini. unfold _rclc_executor_remove_handle.
  destruct h as [i|]; [|done].
  destruct (index e <=? N.of_nat i); [done|]. destruct (index e =? 0); [done|].
  unfold invalidate_wait_set, store_handle. simpl. rewrite Hvalid.
  destruct (rcl_wait_set_fini (wait_set e)) as [ret ws]. simpl in *.
  unfold ret_eqb. by rewrite bool_decide_eq_false_2.
Qed.

(** The kind of a handle that [_rclc_executor_find_handle] finds for the
    argument of a [remove_*] function is one that the function counts. *)
Lemma found_handle_counts k h o :
  in_use h →
  rclc_executor_handle_get_ptr h = Ptr (removal_type k) o →
  entity_type (type h) = Some (removal_type k)
  ∧ type h ≠ RCLC_ACTION_CLIENT ∧ type h ≠ RCLC_ACTION_SERVER.
Proof.
  intros (_ & ty & o' & Hty & He) Hp. unfold rclc_executor_handle_get_ptr in Hp.
  destruct (type h); try done; rewrite He in Hp; injection Hp as -> _; done.
Qed.

Lemma remove_consistent k entity e m e' m' :
  consistent e →
  register (remove k entity) (e, m) = (RCL_RET_OK, (e', m')) →
  consistent e'.
Proof.
  intros ((hs & Hhs & Hlen & Hidx & Hmax) & Hdense & Hinfo) Hreg.
  assert (handle_array e = hs) as Harr by (unfold handle_array; by rewrite Hhs).
  set (p := Ptr (removal_type k) entity) in *.
  change (register (remove k entity) (e, m))
    with ((rclc_executor_remove k e p).1, ((rclc_executor_remove k e p).2, m)) in Hreg.
  injection Hreg as Hret He' _.
  assert (∃ i, _rclc_executor_find_handle e p = Some i
               ∧ rclc_executor_remove k e p
                 = (let r := _rclc_executor_remove_handle e (Some i) in
                    if r.1 <>r? RCL_RET_OK then r
                    else (r.1, set_info (removal_decrement k (info r.2)) r.2))) as (i & Hfind & Hrem).
  { destruct (_rclc_executor_find_handle e p) as [i|] eqn:Hfind.
    - exists i. split; [done|].
      destruct k;
        unfold rclc_executor_remove, rclc_executor_remove_subscription,
          rclc_executor_remove_timer, rclc_executor_remove_client,
          rclc_executor_remove_service, rclc_executor_remove_guard_condition;
        change (is_null p) with false; cbv iota zeta; rewrite Hfind;
        destruct (_rclc_executor_remove_handle e (Some i)) as [ret e1]; cbn [fst snd];
        by destruct (ret <>r? RCL_RET_OK).
    - exfalso.
      assert ((rclc_executor_remove k e p).1 = RCL_RET_ERROR) as Herr.
      { destruct k; simpl;
          unfold rclc_executor_remove_subscription, rclc_executor_remove_timer,
            rclc_executor_remove_client, rclc_executor_remove_service,
            rclc_executor_remove_guard_condition;
          change (is_null p) with false; cbv iota; by rewrite Hfind. }
      congruence. }
  rewrite Hrem in Hret, He'. clear Hrem.
  destruct (find_handle_loop_Some _ _ _ _ _ Hfind) as (Hrange & Hi & _).
  rewrite Harr in Hi.
  assert (rcl_wait_set_is_valid (wait_set e) = true →
          (rcl_wait_set_fini (wait_set e)).1 = RCL_RET_OK) as Hfini.
  { intros Hvalid. destruct (decide ((rcl_wait_set_fini (wait_set e)).1 = RCL_RET_OK)) as [|Hne];
      [done|].
    pose proof (remove_handle_fini_fails e (Some i) Hvalid Hne) as Hfail.
    exfalso. cbv zeta in Hret. unfold ret_eqb in Hret. case_bool_decide; simpl in Hret; done. }
  pose proof (remove_handle_found e hs i Hhs Hlen Hidx Hmax ltac:(lia) Hfini) as Hfound.
  rewrite Hfound in He'. simpl in He'. clear Hret Hfound. subst e'.
  set (n := N.to_nat (index e)) in *.
  set (x := rclc_executor_handle_init (hs !!! (n - 1)%nat) (max_handles e)).
  set (hs' := delete i (take n hs) ++ x :: drop n hs).
  assert (length (delete i (take n hs)) = (n - 1)%nat) as Hdel.
  { rewrite length_delete, length_take; [lia|].
    apply lookup_lt_is_Some. rewrite length_take. lia. }
  assert (in_use (hs !!! i)) as Huse.
  { specialize (Hdense i ltac:(lia)). rewrite Harr in Hdense.
    rewrite bool_decide_eq_true_2 in Hdense by lia. done. }
  destruct (found_handle_counts k _ _ Huse Hi) as (Hty & Hnac & Hnas).
  split; [|split].
  - exists hs'. repeat split; simpl; [|lia|done].
    unfold hs'. rewrite length_app. simpl. rewrite length_drop, Hdel. lia.
  - intros j Hj. simpl in Hj |- *. unfold handle_array. simpl. fold x hs'.
    assert (N.to_nat (index e - 1) = (n - 1)%nat) as -> by lia.
    case_bool_decide as Hjn.
    + unfold hs'. rewrite lookup_total_app_l by lia.
      rewrite list_lookup_total_delete, lookup_total_take.
      specialize (Hdense (if decide (j < i)%nat then j else S j)).
      rewrite Harr in Hdense.
      destruct (decide (j < i)%nat).
      * rewrite decide_True by lia. rewrite bool_decide_eq_true_2 in Hdense by lia.
        apply Hdense. lia.
      * rewrite decide_True by lia. rewrite bool_decide_eq_true_2 in Hdense by lia.
        apply Hdense. lia.
    + unfold hs'. rewrite lookup_total_app_r by lia. rewrite Hdel.
      destruct (decide (j = (n - 1)%nat)) as [->|Hne].
      * replace (n - 1 - (n - 1))%nat with 0%nat by lia. done.
      * replace (j - (n - 1))%nat with (S (j - n)) by lia. simpl.
        change ((x :: drop n hs) !!! S (j - n)) with (drop n hs !!! (j - n)%nat).
        rewrite lookup_total_drop. replace (n + (j - n))%nat with j by lia.
        specialize (Hdense j Hj). rewrite Harr in Hdense.
        rewrite bool_decide_eq_false_2 in Hdense by lia. done.
  - unfold handle_array. simpl. fold x hs'. rewrite Hinfo, Harr.
    rewrite (census_remove hs i n x ltac:(lia) eq_refl). fold hs'.
    pose proof (census_wrapped hs') as Hw. rewrite Hw.
    unfold count_handle, entities_of, has_type. simpl.
    rewrite !size_wrap_idemp.
    destruct (type (hs !!! i)); try done; destruct k; try done;
      unfold removal_decrement, decr_subscriptions, decr_timers, decr_clients, decr_services,
        decr_guard_conditions, add_subscriptions, add_timers, add_clients, add_services,
        add_guard_conditions; simpl;
      rewrite ?size_add_0_r, ?size_wrap_idemp, ?size_incr_decr, ?size_wrap_idemp; reflexivity.
Qed.

(** Every registration call that succeeds keeps the invariant. *)
Lemma register_consistent op e m e' m' :
  consistent e → register op (e, m) = (RCL_RET_OK, (e', m')) → consistent e'.
Proof.
  intros Hc Hreg. destruct op;
    first [ eapply remove_consistent; [exact Hc | exact Hreg]
          | eapply register_add_plain_consistent; [exact Hc | | exact Hreg]; exact I
          | eapply register_add_action_consistent; [exact Hc | | exact Hreg]; exact I ].
Qed.

Lemma register_all_consistent ops e m e' m' :
  consistent e → register_all ops (e, m) = Some (e', m') → consistent e'.
Proof.
  revert e m. induction ops as [|op ops IH]; intros e m Hc Hall; cbn [register_all] in Hall.
  - by injection Hall as <- <-.
  - destruct (register op (e, m)) as [ret [e1 m1]] eqn:Hreg.
    unfold ret_eqb in Hall. case_bool_decide as Hret; [|done]. subst ret.
    eapply IH; [|done]. by eapply register_consistent.
Qed.


Lemma total_free f hs : (∀ h, h ∈ hs → f h = 0) → total f hs = 0.
Proof.
  induction hs as [|a hs IH]; intros H; simpl; [done|].
  rewrite (H a) by apply list_elem_of_here. rewrite IH; [done|].
  intros h Hh. apply H. by apply list_elem_of_further.
Qed.

(** [rclc_executor_init] establishes the invariant, with no handle in use. *)
Lemma init_consistent e0 context n alloc e :
  n < 2 ^ SIZE_WIDTH →
  rclc_executor_init e0 context n alloc = (RCL_RET_OK, e) →
  consistent e ∧ index e = 0 ∧ max_handles e = n.
Proof.
  intros Hn Hinit. unfold rclc_executor_init in Hinit.
  destruct (is_null context); [done|].
  destruct (is_null alloc) eqn:Hnull; [done|]. simpl in Hinit.
  destruct (negb (rcutils_allocator_is_valid alloc)); [done|].
  destruct (n =? 0) eqn:Hzero; [done|].
  destruct (allocate alloc _); [|done].
  unfold rclc_executor_set_semantics, rclc_executor_set_trigger, _rclc_executor_is_valid in Hinit.
  simpl in Hinit. rewrite Hnull, Hzero in Hinit. simpl in Hinit.
  injection Hinit as <-. simpl.
  set (hs := (λ h, rclc_executor_handle_init h n) <$> replicate (N.to_nat n) raw_handle).
  assert (∀ h, h ∈ hs → free n h) as Hfree.
  { intros h Hh. apply list_elem_of_fmap in Hh as (h0 & -> & _). done. }
  assert (length hs = N.to_nat n) as Hlen.
  { unfold hs. by rewrite length_fmap, length_replicate. }
  split; [|done]. split; [|split].
  - exists hs. simpl. split; [done|]. split; [done|]. split; [lia | done].
  - intros i Hi. change (handle_array _) with hs. simpl in Hi.
    rewrite bool_decide_eq_false_2 by (simpl; lia).
    apply Hfree. apply list_elem_of_lookup_total_2. lia.
  - unfold handle_array. simpl. fold hs. unfold census.
    rewrite !total_free; [done | ..]; intros h Hh;
      destruct (free_counts_nothing h (free_type _ _ (Hfree h Hh))) as (He & Hac & Has);
      simpl; by rewrite ?He.
Qed.

(** The counters of the executor are those that its handle table calls for,
    after any sequence of registration calls that succeeded: for each sort
    of entity, the counter that sizes the wait set is the number of entities
    of the handles in the table (one for a plain handle, what the action
    endpoint reports for an action handle), as a [size_t]. *)
Theorem counters_match_handle_table :
  ∀ (e0 : rclc_executor_t) (context : void_ptr) (n : size_t) (alloc : void_ptr)
    (e : rclc_executor_t) (ops : list registration) (m : action_memory)
    (e' : rclc_executor_t) (m' : action_memory),
    n < 2 ^ SIZE_WIDTH →
    rclc_executor_init e0 context n alloc = (RCL_RET_OK, e) →
    register_all ops (e, m) = Some (e', m') →
    info e' = census (handle_array e').
Proof.
  intros e0 context n alloc e ops m e' m' Hn Hinit Hall.
  destruct (init_consistent _ _ _ _ _ Hn Hinit) as (Hc & _ & _).
  by destruct (register_all_consistent _ _ _ _ _ Hc Hall) as (_ & _ & ?).
Qed.

(** After any sequence of registration calls that succeeded, the handles
    that the loops of a round and the built-in triggers run over (the
    initialised handles at the start of the table, up to its capacity) are
    exactly the handles in use, each of which has a kind; the slots behind
    them are in the state that [rclc_executor_handle_init] leaves; the table
    keeps the length of its capacity. *)
Theorem handles_in_use_are_the_initialized_prefix :
  ∀ (e0 : rclc_executor_t) (context : void_ptr) (n : size_t) (alloc : void_ptr)
    (e : rclc_executor_t) (ops : list registration) (m : action_memory)
    (e' : rclc_executor_t) (m' : action_memory),
    n < 2 ^ SIZE_WIDTH →
    rclc_executor_init e0 context n alloc = (RCL_RET_OK, e) →
    register_all ops (e, m) = Some (e', m') →
    index e' ≤ max_handles e'
    ∧ length (handle_array e') = N.to_nat (max_handles e')
    ∧ (∀ i, in_initialized_prefix (max_handles e') (handle_array e') i
            ↔ (i < N.to_nat (index e'))%nat)
    ∧ (∀ i, (i < N.to_nat (index e'))%nat → type (handle_array e' !!! i) ≠ RCLC_NONE)
    ∧ (∀ i, (N.to_nat (index e') ≤ i < N.to_nat (max_handles e'))%nat →
            handle_array e' !!! i
            = rclc_executor_handle_init (handle_array e' !!! i) (max_handles e')).
Proof.
  intros e0 context n alloc e ops m e' m' Hn Hinit Hall.
  destruct (init_consistent _ _ _ _ _ Hn Hinit) as (Hc & _ & _).
  destruct (register_all_consistent _ _ _ _ _ Hc Hall)
    as ((hs & Hhs & Hlen & Hidx & Hmax) & Hdense & _).
  assert (handle_array e' = hs) as Harr by (unfold handle_array; by rewrite Hhs).
  split; [done|]. split; [by rewrite Harr|]. split; [|split].
  - intros i. split.
    + intros Hpre. destruct (Hpre i ltac:(lia)) as [Hlt Hinit'].
      specialize (Hdense i ltac:(lia)). case_bool_decide; [done|].
      apply free_initialized in Hdense. congruence.
    + intros Hi j Hj. split; [lia|].
      specialize (Hdense j ltac:(lia)). rewrite bool_decide_eq_true_2 in Hdense by lia.
      apply Hdense.
  - intros i Hi Hnone. specialize (Hdense i ltac:(lia)).
    rewrite bool_decide_eq_true_2 in Hdense by lia.
    destruct Hdense as (_ & ty & o & Hty & _). by rewrite Hnone in Hty.
  - intros i Hi. specialize (Hdense i ltac:(lia)).
    rewrite bool_decide_eq_false_2 in Hdense by lia. done.
Qed.

Lemma total_indicator kinds (f : rclc_executor_handle_t → N) hs :
  (∀ h, h ∈ hs → f h = if decide (type h ∈ kinds) then 1 else 0) →
  total f hs = handles_of kinds hs.
Proof.
  unfold handles_of. induction hs as [|a hs IH]; intros Hf; [done|].
  simpl. rewrite filter_cons, (Hf a) by apply list_elem_of_here.
  rewrite IH by (intros h Hh; apply Hf; by apply list_elem_of_further).
  destruct (decide (type a ∈ kinds)); simpl; lia.
Qed.

Lemma handles_of_le kinds hs : handles_of kinds hs ≤ N.of_nat (length hs).
Proof. unfold handles_of. pose proof (length_filter (λ h, type h ∈ kinds) hs). lia. Qed.

Lemma handles_of_none kinds hs h : handles_of kinds hs = 0 → h ∈ hs → type h ∉ kinds.
Proof.
  unfold handles_of. intros Hnone Hin Hkind.
  assert (h ∈ filter (λ h, type h ∈ kinds) hs) as Hf by (by apply list_elem_of_filter).
  destruct (filter (λ h, type h ∈ kinds) hs); [by apply elem_of_nil in Hf | simpl in Hnone; lia].
Qed.

(** The free slots count nothing: the counters that the table calls for
    are those that the handles in use call for. *)
Lemma census_used e :
  well_formed e → dense e →
  census (handle_array e) = census (take (N.to_nat (index e)) (handle_array e)).
Proof.
  intros (hs & Hhs & Hlen & Hidx & Hmax) Hdense.
  assert (handle_array e = hs) as Harr by (unfold handle_array; by rewrite Hhs).
  unfold dense in Hdense. rewrite Harr in *.
  assert (∀ h, h ∈ drop (N.to_nat (index e)) hs → type h = RCLC_NONE) as Hfree.
  { intros h Hh. apply list_elem_of_lookup in Hh as [j Hj]. rewrite lookup_drop in Hj.
    assert (N.to_nat (index e) + j < length hs)%nat as Hlt by (by eapply lookup_lt_Some).
    specialize (Hdense (N.to_nat (index e) + j)%nat ltac:(lia)).
    rewrite bool_decide_eq_false_2 in Hdense by lia.
    rewrite (list_lookup_total_correct _ _ _ Hj) in Hdense. by eapply free_type. }
  assert (∀ f, (∀ h, type h = RCLC_NONE → f h = 0) →
               total f hs = total f (take (N.to_nat (index e)) hs)) as Htot.
  { intros f Hf. rewrite <- (take_drop (N.to_nat (index e)) hs) at 1.
    rewrite total_app, (total_free f (drop _ hs)); [lia|]. intros h Hh. by apply Hf, Hfree. }
  unfold census. f_equal; f_equal; apply Htot; intros h Hty;
    destruct (free_counts_nothing h Hty) as (He & Hac & Has); by rewrite ?He.
Qed.

(** C4: after any sequence of registration calls that succeeded on a freshly
    initialised executor, the counter block is the one that the handles in
    use call for: per sort, the number of entities of these handles (one for
    a plain handle, what the action endpoint reports for an action handle),
    as a [size_t].  The counters of action clients and of action servers are
    the numbers of their handles, the counter of events is 0, and when no
    action endpoint is registered, each of the other counters is the number
    of handles in use of its kinds. *)
Theorem counters_count_the_handles_in_use :
  ∀ (e0 : rclc_executor_t) (context : void_ptr) (n : size_t) (alloc : void_ptr)
    (e : rclc_executor_t) (ops : list registration) (m : action_memory)
    (e' : rclc_executor_t) (m' : action_memory),
    n < 2 ^ SIZE_WIDTH →
    rclc_executor_init e0 context n alloc = (RCL_RET_OK, e) →
    register_all ops (e, m) = Some (e', m') →
    let used := take (N.to_nat (index e')) (handle_array e') in
    length used = N.to_nat (index e')
    ∧ info e' = census used
    ∧ number_of_action_clients (info e') = handles_of [RCLC_ACTION_CLIENT] used
    ∧ number_of_action_servers (info e') = handles_of [RCLC_ACTION_SERVER] used
    ∧ number_of_events (info e') = 0
    ∧ (handles_of [RCLC_ACTION_CLIENT; RCLC_ACTION_SERVER] used = 0 →
       number_of_subscriptions (info e')
       = handles_of [RCLC_SUBSCRIPTION; RCLC_SUBSCRIPTION_WITH_CONTEXT] used
       ∧ number_of_timers (info e') = handles_of [RCLC_TIMER] used
       ∧ number_of_clients (info e')
         = handles_of [RCLC_CLIENT; RCLC_CLIENT_WITH_REQUEST_ID] used
       ∧ number_of_services (info e')
         = handles_of [RCLC_SERVICE; RCLC_SERVICE_WITH_REQUEST_ID; RCLC_SERVICE_WITH_CONTEXT]
             used
       ∧ number_of_guard_conditions (info e') = handles_of [RCLC_GUARD_CONDITION] used).
Proof.
  intros e0 context n alloc e ops m e' m' Hn Hinit Hall used.
  destruct (init_consistent _ _ _ _ _ Hn Hinit) as (Hc & _ & _).
  destruct (register_all_consistent _ _ _ _ _ Hc Hall) as (Hwf & Hdense & Hinfo).
  rewrite (census_used e' Hwf Hdense) in Hinfo. fold used in Hinfo.
  destruct Hwf as (hs & Hhs & Hlen & Hidx & Hmax).
  assert (handle_array e' = hs) as Harr by (unfold handle_array; by rewrite Hhs).
  assert (length used = N.to_nat (index e')) as Hused.
  { unfold used. rewrite Harr, length_take. lia. }
  assert (∀ kinds, size_wrap (handles_of kinds used) = handles_of kinds used) as Hsmall.
  { intros kinds. pose proof (handles_of_le kinds used) as Hle.
    unfold size_wrap. apply N.mod_small. unfold SIZE_WIDTH in *. lia. }
  split; [done|]. split; [done|]. rewrite Hinfo. unfold census.
  cbn [number_of_subscriptions number_of_timers number_of_clients number_of_services
       number_of_action_clients number_of_action_servers number_of_guard_conditions
       number_of_events].
  split.
  { rewrite (total_indicator [RCLC_ACTION_CLIENT]); [apply Hsmall|].
    intros h _. unfold has_type.
    case_bool_decide as Hty; destruct (decide (type h ∈ _)) as [Hin|Hin]; try done; exfalso.
    - apply Hin. rewrite Hty. apply list_elem_of_here.
    - by apply list_elem_of_singleton in Hin. }
  split.
  { rewrite (total_indicator [RCLC_ACTION_SERVER]); [apply Hsmall|].
    intros h _. unfold has_type.
    case_bool_decide as Hty; destruct (decide (type h ∈ _)) as [Hin|Hin]; try done; exfalso.
    - apply Hin. rewrite Hty. apply list_elem_of_here.
    - by apply list_elem_of_singleton in Hin. }
  split; [done|]. intros Hplain.
  assert (∀ h, h ∈ used → type h ≠ RCLC_ACTION_CLIENT ∧ type h ≠ RCLC_ACTION_SERVER) as Hno.
  { intros h Hh. pose proof (handles_of_none _ _ h Hplain Hh) as Hnot.
    split; intros Hty; apply Hnot; rewrite Hty; set_solver. }
  repeat split.
  all: match goal with
       | |- size_wrap (total _ ?hs) = handles_of ?kinds ?hs =>
           rewrite (total_indicator kinds); [apply Hsmall|]
       end.
  all: intros h Hh; destruct (Hno h Hh) as [Hac Has]; unfold entities_of;
    destruct (type h) eqn:Hty; try done; cbn [fst snd];
    case_decide as Hin; try done; exfalso; set_solver.
Qed.

End RegistrationInvariant.

(** A witness: a timer, a subscription and an action client are added to an
    executor of capacity 4 and the timer is removed again.  The action
    client of the reference middleware stands for two subscriptions and
    three clients. *)
Lemma counters_match_handle_table_witness :
  info Scenario.registered_state.1
  = census (api := Toy.api) (handle_array Scenario.registered_state.1)
  ∧ info Scenario.registered_state.1 = mk_counters 3 0 3 0 1 0 0 0.
Proof.
  split; [|vm_compute; reflexivity].
  apply (counters_match_handle_table (api := Toy.api)
           rclc_executor_get_zero_initialized_executor Example.ctx 4 Example.alloc
           (Example.fresh 4) Scenario.registrations empty_memory
           Scenario.registered_state.1 Scenario.registered_state.2).
  - vm_compute; reflexivity.
  - apply fresh_result. vm_compute; reflexivity.
  - apply after_result. vm_compute; reflexivity.
Defined.

(** A witness: in the same scenario the two handles that are left are the
    initialised prefix of the table. *)
Lemma handles_in_use_are_the_initialized_prefix_witness :
  index Scenario.registered_state.1 = 2
  ∧ max_handles Scenario.registered_state.1 = 4
  ∧ in_initialized_prefix (max_handles Scenario.registered_state.1)
      (handle_array Scenario.registered_state.1) 1
  ∧ type <$> handle_array Scenario.registered_state.1
    = [RCLC_SUBSCRIPTION; RCLC_ACTION_CLIENT; RCLC_NONE; RCLC_NONE].
Proof.
  split; [vm_compute; reflexivity|]. split; [vm_compute; reflexivity|].
  split; [|vm_compute; reflexivity].
  destruct (handles_in_use_are_the_initialized_prefix (api := Toy.api)
              rclc_executor_get_zero_initialized_executor Example.ctx 4 Example.alloc
              (Example.fresh 4) Scenario.registrations empty_memory
              Scenario.registered_state.1 Scenario.registered_state.2)
    as (_ & _ & Hpre & _).
  - vm_compute; reflexivity.
  - apply fresh_result. vm_compute; reflexivity.
  - apply after_result. vm_compute; reflexivity.
  - destruct (Hpre 1%nat) as [_ Hin]. apply Hin.
    assert (N.to_nat (index Scenario.registered_state.1) = 2%nat) as ->
      by (vm_compute; reflexivity).
    lia.
Defined.

(** A witness for C4: a service and a subscription are added to an executor
    of capacity 2; the counter of services and the counter of subscriptions
    are 1, as the table has one handle of each kind. *)
Lemma counters_count_the_handles_in_use_witness :
  number_of_services (info Scenario.service_first_default) = 1
  ∧ number_of_subscriptions (info Scenario.service_first_default) = 1
  ∧ number_of_timers (info Scenario.service_first_default) = 0
  ∧ type <$> handle_array Scenario.service_first_default = [RCLC_SERVICE; RCLC_SUBSCRIPTION].
Proof.
  destruct (counters_count_the_handles_in_use (api := Toy.api)
              rclc_executor_get_zero_initialized_executor Example.ctx 2 Example.alloc
              (Example.fresh 2) Scenario.service_first empty_memory
              Scenario.service_first_default
              (Scenario.after Scenario.service_first (Example.fresh 2, empty_memory)).2)
    as (_ & _ & _ & _ & _ & Hplain).
  - vm_compute; reflexivity.
  - apply fresh_result. vm_compute; reflexivity.
  - apply after_result. vm_compute; reflexivity.
  - destruct Hplain as (Hsub & Htimer & _ & Hsrv & _); [vm_compute; reflexivity|].
    split; [rewrite Hsrv; vm_compute; reflexivity|].
    split; [rewrite Hsub; vm_compute; reflexivity|].
    split; [rewrite Htimer; vm_compute; reflexivity | vm_compute; reflexivity].
Defined.

(** ** Rounds *)

Section RoundProperties.
Context {api : rcl_api} {Ext : Type} {rt : rcl_runtime Ext}.

(** Invariant rule for the loop over the handles: [I] holds before each
    iteration, [Q] when the body returns early.  When the loop runs to its
    end, it has stopped at a position [k] at which the fuel ran out or the
    loop condition failed. *)
Lemma for_handles_inv {St : Type} (handles_of : St → list rclc_executor_handle_t)
  (mx : size_t) (body : nat → St → loop_result St)
  (I : nat → rcl_ret_t → St → Prop) (Q : rcl_ret_t → St → Prop) :
  (∀ i rc s, I i rc s → N.of_nat i < mx → initialized (handles_of s !!! i) = true →
     match body i s with
     | Continue rc' s' => I (S i) rc' s'
     | Return rc' s' => Q rc' s'
     end) →
  ∀ fuel i rc s, I i rc s →
    match for_handles handles_of mx body fuel i rc s with
    | Continue rc' s' =>
        ∃ k, (i ≤ k ≤ i + fuel)%nat ∧ I k rc' s'
             ∧ (k = (i + fuel)%nat
                ∨ ¬ (N.of_nat k < mx ∧ initialized (handles_of s' !!! k) = true))
    | Return rc' s' => Q rc' s'
    end.
Proof.
  intros Hbody fuel. induction fuel as [|fuel IH]; intros i rc s HI; simpl.
  - exists i. split; [lia|]. split; [done|]. left. lia.
  - destruct (N.of_nat i <? mx) eqn:Hlt; simpl.
    2:{ exists i. split; [lia|]. split; [done|]. right. intros [H _].
        apply N.ltb_ge in Hlt. lia. }
    destruct (initialized (handles_of s !!! i)) eqn:Hinit.
    2:{ exists i. split; [lia|]. split; [done|]. right. intros [_ H]. congruence. }
    apply N.ltb_lt in Hlt. specialize (Hbody i rc s HI Hlt Hinit).
    destruct (body i s) as [rc' s'|rc' s']; [|done].
    specialize (IH (S i) rc' s' Hbody).
    destruct (for_handles handles_of mx body fuel (S i) rc' s') as [rc'' s''|rc'' s'']; [|done].
    destruct IH as (k & Hk & HIk & Hstop). exists k. split; [lia|]. split; [done|].
    destruct Hstop as [->|Hstop]; [left; lia | by right].
Qed.


(** *** The helpers of a round *)

Lemma same_registration_refl h : same_registration h h.
Proof. by repeat split. Qed.

Lemma same_registration_trans h1 h2 h3 :
  same_registration h1 h2 → same_registration h2 h3 → same_registration h1 h3.
Proof.
  intros (?&?&?&?&?&?&?&?&?) (?&?&?&?&?&?&?&?&?). repeat split; congruence.
Qed.

Lemma take_is_no_callback c : is_take c = true → is_callback c = false.
Proof. by destruct c. Qed.

Lemma do_call_trace c (s : effects) :
  (do_call c s).2.2 = s.2 ++ [ev_call c (do_call c s).1.1].
Proof. unfold do_call. by destruct (perform c s.1) as [[rc id] w]. Qed.

Lemma check_for_new_data_registration h ws m :
  same_registration h (_rclc_check_for_new_data h ws m).1.2.
Proof.
  unfold _rclc_check_for_new_data.
  destruct (type h) eqn:Ht; simpl; try by repeat split.
  - by destruct (rcl_action_client_wait_set_get_entities_ready _ _ _).
  - by destruct (rcl_action_server_wait_set_get_entities_ready _ _ _).
Qed.

Lemma gated_take_trace flag c rc0 (s : effects) :
  is_take c = true →
  ∃ evs, take_calls evs
         ∧ match gated_take flag c rc0 s with
           | inl (_, s') | inr (_, s') => s'.2 = s.2 ++ evs
           end.
Proof.
  intros Hc. unfold gated_take. destruct flag.
  - pose proof (do_call_trace c s) as Htr.
    destruct (do_call c s) as [[rc id] s']. simpl in Htr.
    exists [ev_call c rc]. split.
    + apply Forall_singleton. simpl. by rewrite Hc, (take_is_no_callback c Hc).
    + by destruct (rc <>r? RCL_RET_OK).
  - exists []. split; [apply Forall_nil_2 | by rewrite app_nil_r].
Qed.

Lemma take_calls_app evs1 evs2 : take_calls evs1 → take_calls evs2 → take_calls (evs1 ++ evs2).
Proof. apply Forall_app_2. Qed.

Lemma take_new_data_spec h ws (s : effects) :
  same_registration h (_rclc_take_new_data h ws s).1.2
  ∧ ∃ evs, take_calls evs ∧ (_rclc_take_new_data h ws s).2.2 = s.2 ++ evs.
Proof.
  assert (take_calls []) as Hnil by apply Forall_nil_2.
  assert (∀ c rc, is_take c = true → take_calls [ev_call c rc]) as Hone.
  { intros c rc Hc. apply Forall_singleton. simpl. by rewrite Hc, (take_is_no_callback c Hc). }
  unfold _rclc_take_new_data. destruct (type h) eqn:Ht.
  1,2: destruct (negb (is_null _));
    [ pose proof (do_call_trace (rcl_take (entity h) (data h)) s) as Htr;
      destruct (do_call _ s) as [[rc id] s']; simpl in Htr;
      destruct (rc <>r? RCL_RET_OK); simpl;
      [ destruct (rc =r? RCL_RET_SUBSCRIPTION_TAKE_FAILED) |];
      (split; [by repeat split | exists [ev_call (rcl_take (entity h) (data h)) rc]; by split; [apply Hone|]])
    | split; [apply same_registration_refl | exists []; by rewrite app_nil_r] ].
  - split; [apply same_registration_refl | exists []; by rewrite app_nil_r].
  - destruct (negb (is_null _)).
    + pose proof (do_call_trace (rcl_take_response (entity h) (req_id h) (data h)) s) as Htr.
      destruct (do_call _ s) as [[rc id] s']. simpl in Htr. simpl.
      split; [by repeat split|].
      exists [ev_call (rcl_take_response (entity h) (req_id h) (data h)) rc].
      by split; [apply Hone|].
    + split; [apply same_registration_refl | exists []; by rewrite app_nil_r].
  - destruct (negb (is_null _)).
    + pose proof (do_call_trace (rcl_take_response (entity h) (req_id h) (data h)) s) as Htr.
      destruct (do_call _ s) as [[rc id] s']. simpl in Htr. simpl.
      split; [by repeat split|].
      exists [ev_call (rcl_take_response (entity h) (req_id h) (data h)) rc].
      by split; [apply Hone|].
    + split; [apply same_registration_refl | exists []; by rewrite app_nil_r].
  - destruct (negb (is_null _)).
    + pose proof (do_call_trace (rcl_take_request (entity h) (req_id h) (data h)) s) as Htr.
      destruct (do_call _ s) as [[rc id] s']. simpl in Htr.
      destruct (rc <>r? RCL_RET_OK); simpl;
        [destruct (rc =r? RCL_RET_SERVICE_TAKE_FAILED)|];
        (split; [by repeat split|];
         exists [ev_call (rcl_take_request (entity h) (req_id h) (data h)) rc];
         by split; [apply Hone|]).
    + split; [apply same_registration_refl | exists []; by rewrite app_nil_r].
  - destruct (negb (is_null _)).
    + pose proof (do_call_trace (rcl_take_request (entity h) (req_id h) (data h)) s) as Htr.
      destruct (do_call _ s) as [[rc id] s']. simpl in Htr.
      destruct (rc <>r? RCL_RET_OK); simpl;
        [destruct (rc =r? RCL_RET_SERVICE_TAKE_FAILED)|];
        (split; [by repeat split|];
         exists [ev_call (rcl_take_request (entity h) (req_id h) (data h)) rc];
         by split; [apply Hone|]).
    + split; [apply same_registration_refl | exists []; by rewrite app_nil_r].
  - destruct (negb (is_null _)).
    + pose proof (do_call_trace (rcl_take_request (entity h) (req_id h) (data h)) s) as Htr.
      destruct (do_call _ s) as [[rc id] s']. simpl in Htr.
      destruct (rc <>r? RCL_RET_OK); simpl;
        [destruct (rc =r? RCL_RET_SERVICE_TAKE_FAILED)|];
        (split; [by repeat split|];
         exists [ev_call (rcl_take_request (entity h) (req_id h) (data h)) rc];
         by split; [apply Hone|]).
    + split; [apply same_registration_refl | exists []; by rewrite app_nil_r].
  - (* action client *)
    split.
    { repeat match goal with
             | |- context [gated_take ?f ?c ?rc ?s] =>
                 destruct (gated_take f c rc s) as [[? ?]|[? ?]]
             end; apply same_registration_refl. }
    cbv zeta.
    repeat match goal with
           | |- context [gated_take ?f ?c ?rc ?s] =>
               let H := fresh "Hg" in
               let evs := fresh "evs" in
               destruct (gated_take_trace f c rc s eq_refl) as (evs & ? & H);
               destruct (gated_take f c rc s) as [[? ?]|[? ?]]; simpl in H |- *
           end;
      eexists; (split; [|repeat match goal with H : _.2 = _ |- _ => rewrite H; clear H end;
                          rewrite <- ?(assoc_L (++)); reflexivity]);
      repeat apply take_calls_app; done.
  - (* action server *)
    split.
    { repeat match goal with
             | |- context [gated_take ?f ?c ?rc ?s] =>
                 destruct (gated_take f c rc s) as [[? ?]|[? ?]]
             end; apply same_registration_refl. }
    cbv zeta.
    destruct (gated_take_trace
                (goal_request_available (load_action_server (mem s.1) (entity h)))
                (rcl_action_take_goal_request (entity h)) RCL_RET_OK s eq_refl) as (evs1 & H1 & Hg1).
    destruct (gated_take _ (rcl_action_take_goal_request (entity h)) RCL_RET_OK s)
      as [[rc1 s1]|[rc1 s1]]; simpl in Hg1 |- *; [by exists evs1|].
    destruct (gated_take_trace
                (result_request_available (load_action_server (mem s1.1) (entity h)))
                (rcl_action_take_result_request (entity h)) rc1 s1 eq_refl) as (evs2 & H2 & Hg2).
    destruct (gated_take _ (rcl_action_take_result_request (entity h)) rc1 s1)
      as [[rc2 s2]|[rc2 s2]]; simpl in Hg2 |- *.
    { exists (evs1 ++ evs2). split; [by apply take_calls_app|].
      by rewrite Hg2, Hg1, (assoc_L (++)). }
    match goal with
    | |- context [gated_take ?f ?c ?rc ?s] =>
        destruct (gated_take_trace f c rc s eq_refl) as (evs3 & H3 & Hg3);
        assert (s.2 = s2.2) as Hs2
          by (by destruct (result_request_available (load_action_server (mem s1.1) (entity h))));
        destruct (gated_take f c rc s) as [[rc3 s3]|[rc3 s3]]; simpl in Hg3 |- *
    end;
      (exists (evs1 ++ evs2 ++ evs3); split; [by repeat apply take_calls_app|];
       by rewrite Hg3, Hs2, Hg2, Hg1, <- !(assoc_L (++))).
  - split; [apply same_registration_refl | exists []; by rewrite app_nil_r].
  - split; [apply same_registration_refl | exists []; by rewrite app_nil_r].
Qed.


Lemma execute_calls_app evs1 evs2 :
  execute_calls evs1 → execute_calls evs2 → execute_calls (evs1 ++ evs2).
Proof. apply Forall_app_2. Qed.

Lemma gated_block_trace flag c reset (s : effects) :
  is_take c = false →
  ∃ evs, execute_calls evs ∧ (gated_block flag c reset s).2 = s.2 ++ evs.
Proof.
  intros Hc. unfold gated_block. destruct flag.
  - pose proof (do_call_trace c s) as Htr.
    destruct (do_call c s) as [[rc id] s']. simpl in Htr |- *.
    exists [ev_call c rc]. split; [|done]. apply Forall_singleton. simpl. by rewrite Hc.
  - exists []. split; [apply Forall_nil_2 | by rewrite app_nil_r].
Qed.

Lemma execute_spec h (s : effects) :
  ∃ evs, execute_calls evs ∧ (_rclc_execute h s).2.2 = s.2 ++ evs.
Proof.
  assert (execute_calls []) as Hnil by apply Forall_nil_2.
  assert (∀ c rc, is_take c = false → execute_calls [ev_call c rc]) as Hone.
  { intros c rc Hc. apply Forall_singleton. simpl. by rewrite Hc. }
  assert (∀ c, is_take c = false →
               ∃ evs, execute_calls evs ∧ (do_call c s).2.2 = s.2 ++ evs) as Hcall.
  { intros c Hc. exists [ev_call c (do_call c s).1.1]. split; [by apply Hone|].
    apply do_call_trace. }
  unfold _rclc_execute.
  destruct (_ && _ || _); [|exists []; by rewrite app_nil_r].
  destruct (type h) eqn:Ht.
  - destruct (Hcall (subscription_callback (callback h)
                       (if data_available h then data h else NULL)) eq_refl) as (evs & ? & Htr).
    destruct (do_call _ s) as [[rc id] s']. by exists evs.
  - destruct (Hcall (subscription_callback_with_context (callback h)
                       (if data_available h then data h else NULL) (callback_context h))
                eq_refl) as (evs & ? & Htr).
    destruct (do_call _ s) as [[rc id] s']. by exists evs.
  - destruct (Hcall (rcl_timer_call (entity h)) eq_refl) as (evs & ? & Htr).
    destruct (do_call _ s) as [[rc id] s']. exists evs.
    by destruct (rc =r? RCL_RET_TIMER_CANCELED).
  - destruct (Hcall (client_callback (callback h) (data h)) eq_refl) as (evs & ? & Htr).
    destruct (do_call _ s) as [[rc id] s']. by exists evs.
  - destruct (Hcall (client_callback_with_reqid (callback h) (data h) (req_id h)) eq_refl)
      as (evs & ? & Htr).
    destruct (do_call _ s) as [[rc id] s']. by exists evs.
  - pose proof (do_call_trace (service_callback (callback h) (data h) (data_response_msg h)) s)
      as Htr1.
    destruct (do_call _ s) as [[rc1 id1] s1]. simpl in Htr1.
    pose proof (do_call_trace (rcl_send_response (entity h) (req_id h) (data_response_msg h)) s1)
      as Htr2.
    destruct (do_call _ s1) as [[rc2 id2] s2]. simpl in Htr2 |- *.
    eexists [_; _]. split; [|by rewrite Htr2, Htr1, <- (assoc_L (++))].
    apply Forall_cons. split; [done|]. by apply Hone.
  - pose proof (do_call_trace (service_callback_with_reqid (callback h) (data h) (req_id h)
                                 (data_response_msg h)) s) as Htr1.
    destruct (do_call _ s) as [[rc1 id1] s1]. simpl in Htr1.
    pose proof (do_call_trace (rcl_send_response (entity h) (req_id h) (data_response_msg h)) s1)
      as Htr2.
    destruct (do_call _ s1) as [[rc2 id2] s2]. simpl in Htr2 |- *.
    eexists [_; _]. split; [|by rewrite Htr2, Htr1, <- (assoc_L (++))].
    apply Forall_cons. split; [done|]. by apply Hone.
  - pose proof (do_call_trace (service_callback_with_context (callback h) (data h)
                                 (data_response_msg h) (callback_context h)) s) as Htr1.
    destruct (do_call _ s) as [[rc1 id1] s1]. simpl in Htr1.
    pose proof (do_call_trace (rcl_send_response (entity h) (req_id h) (data_response_msg h)) s1)
      as Htr2.
    destruct (do_call _ s1) as [[rc2 id2] s2]. simpl in Htr2 |- *.
    eexists [_; _]. split; [|by rewrite Htr2, Htr1, <- (assoc_L (++))].
    apply Forall_cons. split; [done|]. by apply Hone.
  - cbv zeta.
    repeat match goal with
           | |- context [gated_block ?f ?c ?reset ?s] =>
               lazymatch s with
               | context [gated_block] => fail
               | _ =>
                   let H := fresh "Hg" in
                   let evs := fresh "evs" in
                   let s' := fresh "s" in
                   destruct (gated_block_trace f c reset s eq_refl) as (evs & ? & H);
                   set (s' := gated_block f c reset s) in *; clearbody s'
               end
           end.
    simpl. eexists. split; [|repeat match goal with H : _.2 = _ |- _ => rewrite H; clear H end;
                             rewrite <- ?(assoc_L (++)); reflexivity].
    repeat apply execute_calls_app; done.
  - cbv zeta.
    repeat match goal with
           | |- context [gated_block ?f ?c ?reset ?s] =>
               lazymatch s with
               | context [gated_block] => fail
               | _ =>
                   let H := fresh "Hg" in
                   let evs := fresh "evs" in
                   let s' := fresh "s" in
                   destruct (gated_block_trace f c reset s eq_refl) as (evs & ? & H);
                   set (s' := gated_block f c reset s) in *; clearbody s'
               end
           end.
    simpl. eexists. split; [|repeat match goal with H : _.2 = _ |- _ => rewrite H; clear H end;
                             rewrite <- ?(assoc_L (++)); reflexivity].
    repeat apply execute_calls_app; done.
  - destruct (Hcall (gc_callback (callback h)) eq_refl) as (evs & ? & Htr).
    destruct (do_call _ s) as [[rc id] s']. by exists evs.
  - exists []. by rewrite app_nil_r.
Qed.


(** *** The steps of the loops *)

Lemma same_table_refl hs : same_table hs hs.
Proof. split; [done|]. intros j. apply same_registration_refl. Qed.

Lemma same_table_trans hs1 hs2 hs3 :
  same_table hs1 hs2 → same_table hs2 hs3 → same_table hs1 hs3.
Proof.
  intros [Hl1 H1] [Hl2 H2]. split; [congruence|].
  intros j. eapply same_registration_trans; [apply H1 | apply H2].
Qed.

Lemma same_table_insert hs i h' :
  same_registration (hs !!! i) h' → same_table hs (<[i := h']> hs).
Proof.
  intros Hh. split; [apply length_insert|]. intros j.
  rewrite list_lookup_total_insert. case_decide as Hj; [|apply same_registration_refl].
  destruct Hj as [-> _]. done.
Qed.

Lemma same_table_initialized hs hs' j :
  same_table hs hs' → initialized (hs' !!! j) = initialized (hs !!! j).
Proof. intros [_ H]. apply H. Qed.

Lemma steps_app tr1 tr2 : steps (tr1 ++ tr2) = steps tr1 ++ steps tr2.
Proof. apply List.filter_app. Qed.

Lemma steps_take_calls evs : take_calls evs → steps evs = [].
Proof.
  induction 1 as [|ev evs (_ & _ & Hev) _ IH]; [done|].
  unfold steps in *. simpl. by rewrite Hev.
Qed.

Lemma steps_execute_calls evs : execute_calls evs → steps evs = [].
Proof.
  induction 1 as [|ev evs (_ & Hev) _ IH]; [done|].
  unfold steps in *. simpl. by rewrite Hev.
Qed.

Lemma check_body_spec ws i (r : @round Ext) :
  match check_body ws i r with
  | Continue _ r1 | Return _ r1 =>
      trace_of r1 = trace_of r
      ∧ same_table (r_handles r) (r_handles r1)
      ∧ ext (r_effects r1).1 = ext (r_effects r).1
  end.
Proof.
  unfold check_body.
  pose proof (check_for_new_data_registration (r_handles r !!! i) ws (mem (r_effects r).1)) as Hreg.
  destruct (_rclc_check_for_new_data _ _ _) as [[rc h] m]. simpl in Hreg.
  destruct (_ && _); (split; [done|]; split; [by apply same_table_insert | done]).
Qed.

Lemma take_step_spec ws i (r : @round Ext) :
  ∃ evs, take_calls evs
         ∧ trace_of (take_step ws i r).2
           = trace_of r ++ evs ++ [ev_take_new_data i (take_step ws i r).1]
         ∧ same_table (r_handles r) (r_handles (take_step ws i r).2).
Proof.
  unfold take_step.
  destruct (take_new_data_spec (r_handles r !!! i) ws (r_effects r)) as (Hreg & evs & Hevs & Htr).
  destruct (_rclc_take_new_data _ _ _) as [[rc h] s]. simpl in *.
  exists evs. split; [done|]. split; [|by apply same_table_insert].
  unfold trace_of, log. simpl. by rewrite Htr, <- (assoc_L (++)).
Qed.

Lemma execute_step_spec i (r : @round Ext) :
  ∃ evs, execute_calls evs
         ∧ trace_of (execute_step i r).2 = trace_of r ++ ev_execute i :: evs
         ∧ r_handles (execute_step i r).2 = r_handles r.
Proof.
  unfold execute_step.
  destruct (execute_spec (r_handles r !!! i) (log (ev_execute i) (r_effects r)))
    as (evs & Hevs & Htr).
  destruct (_rclc_execute _ _) as [rc s]. simpl in *.
  exists evs. split; [done|]. split; [|done].
  unfold trace_of. simpl. rewrite Htr. unfold log. simpl.
  by rewrite <- (assoc_L (++)).
Qed.

(** The readiness loop makes no call and keeps the registrations. *)
Lemma check_loop_spec mx ws fuel i rc (r : @round Ext) :
  match for_handles r_handles mx (check_body ws) fuel i rc r with
  | Continue _ r1 | Return _ r1 =>
      trace_of r1 = trace_of r
      ∧ same_table (r_handles r) (r_handles r1)
      ∧ ext (r_effects r1).1 = ext (r_effects r).1
  end.
Proof.
  pose (P := λ r1 : @round Ext,
          trace_of r1 = trace_of r ∧ same_table (r_handles r) (r_handles r1)
          ∧ ext (r_effects r1).1 = ext (r_effects r).1).
  pose proof (for_handles_inv r_handles mx (check_body ws) (λ _ _ r1, P r1) (λ _ r1, P r1))
    as Hinv.
  specialize (Hinv ltac:(
    intros j rcj s (Htr & Htab & Hext) _ _;
    pose proof (check_body_spec ws j s) as Hb;
    destruct (check_body ws j s) as [rc' s'|rc' s']; destruct Hb as (Htr' & Htab' & Hext');
    (split; [congruence | split; [by eapply same_table_trans | congruence]])) fuel i rc r).
  specialize (Hinv ltac:(split; [done | split; [apply same_table_refl | done]])).
  destruct (for_handles _ _ _ _ _ _ _) as [rc' r1|rc' r1]; [|done].
  by destruct Hinv as (k & _ & HP & _).
Qed.


(** *** The loops of the LET scheduler *)

Lemma tolerated_by_let_cond rc :
  (rc <>r? RCL_RET_OK) && (rc <>r? RCL_RET_SUBSCRIPTION_TAKE_FAILED) = false
  ↔ tolerated_by_let rc.
Proof.
  unfold tolerated_by_let, ret_eqb. repeat case_bool_decide; simpl; intuition congruence.
Qed.

Lemma tolerated_by_default_cond rc :
  (rc <>r? RCL_RET_OK) && (rc <>r? RCL_RET_SUBSCRIPTION_TAKE_FAILED)
  && (rc <>r? RCL_RET_SERVICE_TAKE_FAILED) = false
  ↔ tolerated_by_default rc.
Proof.
  unfold tolerated_by_default, ret_eqb. repeat case_bool_decide; simpl; intuition congruence.
Qed.

Lemma take_calls_no_callback evs :
  take_calls evs → Forall (λ ev, is_callback_event ev = false) evs.
Proof. intros H. eapply Forall_impl; [exact H|]. by intros ev (? & ? & ?). Qed.

Lemma execute_calls_no_take evs :
  execute_calls evs → Forall (λ ev, is_take_event ev = false) evs.
Proof. intros H. eapply Forall_impl; [exact H|]. by intros ev (? & ?). Qed.

Lemma let_take_loop_spec mx ws fuel rc0 (r : @round Ext) :
  match for_handles r_handles mx (let_take_body ws) fuel 0 rc0 r with
  | Continue rc r1 =>
      ∃ evs rcs,
        trace_of r1 = trace_of r ++ evs
        ∧ same_table (r_handles r) (r_handles r1)
        ∧ Forall (λ ev, is_callback_event ev = false) evs
        ∧ steps evs = imap ev_take_new_data rcs
        ∧ Forall tolerated_by_let rcs
        ∧ (length rcs = fuel
           ∨ ¬ (N.of_nat (length rcs) < mx ∧ initialized (r_handles r !!! length rcs) = true))
        ∧ ∀ j, (j < length rcs)%nat →
               N.of_nat j < mx ∧ initialized (r_handles r !!! j) = true
  | Return rc r1 =>
      ∃ evs rcs,
        trace_of r1 = trace_of r ++ evs
        ∧ same_table (r_handles r) (r_handles r1)
        ∧ Forall (λ ev, is_callback_event ev = false) evs
        ∧ steps evs = imap ev_take_new_data rcs ++ [ev_take_new_data (length rcs) rc]
        ∧ Forall tolerated_by_let rcs
        ∧ ¬ tolerated_by_let rc
  end.
Proof.
  pose (I := λ (k : nat) (_ : rcl_ret_t) (r1 : @round Ext),
          ∃ evs rcs, length rcs = k
            ∧ trace_of r1 = trace_of r ++ evs
            ∧ same_table (r_handles r) (r_handles r1)
            ∧ Forall (λ ev, is_callback_event ev = false) evs
            ∧ steps evs = imap ev_take_new_data rcs
            ∧ Forall tolerated_by_let rcs
            ∧ ∀ j, (j < k)%nat → N.of_nat j < mx ∧ initialized (r_handles r !!! j) = true).
  pose (Q := λ (rc : rcl_ret_t) (r1 : @round Ext),
          ∃ evs rcs,
            trace_of r1 = trace_of r ++ evs
            ∧ same_table (r_handles r) (r_handles r1)
            ∧ Forall (λ ev, is_callback_event ev = false) evs
            ∧ steps evs = imap ev_take_new_data rcs ++ [ev_take_new_data (length rcs) rc]
            ∧ Forall tolerated_by_let rcs
            ∧ ¬ tolerated_by_let rc).
  assert (∀ i rc s, I i rc s → N.of_nat i < mx → initialized (r_handles s !!! i) = true →
            match let_take_body ws i s with
            | Continue rc' s' => I (S i) rc' s'
            | Return rc' s' => Q rc' s'
            end) as Hbody.
  { intros i rc s (evs & rcs & Hlen & Htr & Htab & Hcb & Hsteps & Htol & Hvisited) Hlt Hinit.
    rewrite (same_table_initialized _ _ _ Htab) in Hinit.
    unfold let_take_body.
    destruct (take_step_spec ws i s) as (evs' & Hevs' & Htr' & Htab').
    destruct (take_step ws i s) as [rc' s']. simpl in *.
    assert (trace_of s' = trace_of r ++ (evs ++ evs' ++ [ev_take_new_data i rc'])) as Htr''.
    { by rewrite Htr', Htr, <- (assoc_L (++)). }
    assert (Forall (λ ev, is_callback_event ev = false) (evs ++ evs' ++ [ev_take_new_data i rc']))
      as Hcb'.
    { apply Forall_app_2; [done|]. apply Forall_app_2; [by apply take_calls_no_callback|].
      by apply Forall_singleton. }
    assert (steps (evs ++ evs' ++ [ev_take_new_data i rc'])
            = imap ev_take_new_data rcs ++ [ev_take_new_data (length rcs) rc']) as Hsteps'.
    { rewrite !steps_app, Hsteps, (steps_take_calls evs') by done. by rewrite Hlen. }
    destruct ((rc' <>r? RCL_RET_OK) && (rc' <>r? RCL_RET_SUBSCRIPTION_TAKE_FAILED)) eqn:Hc.
    - exists (evs ++ evs' ++ [ev_take_new_data i rc']), rcs.
      split; [done|]. split; [by eapply same_table_trans|]. split; [done|]. split; [done|].
      split; [done|]. intros Ht. apply tolerated_by_let_cond in Ht. congruence.
    - exists (evs ++ evs' ++ [ev_take_new_data i rc']), (rcs ++ [rc']).
      split; [rewrite length_app; simpl; lia|]. split; [done|].
      split; [by eapply same_table_trans|]. split; [done|].
      split; [rewrite imap_app; simpl; by rewrite Nat.add_0_r|].
      split; [apply Forall_app_2; [done|]; apply Forall_singleton; by apply tolerated_by_let_cond|].
      intros j Hj. destruct (decide (j = i)) as [->|]; [done | apply Hvisited; lia]. }
  pose proof (for_handles_inv r_handles mx (let_take_body ws) I Q Hbody fuel 0%nat rc0 r) as Hinv.
  specialize (Hinv ltac:(
    exists [], []; split; [done|]; split; [by rewrite app_nil_r|];
    split; [apply same_table_refl|]; split; [done|]; split; [done|]; split; [done|];
    intros j Hj; lia)).
  destruct (for_handles _ _ _ _ _ _ _) as [rc r1|rc r1]; [|done].
  destruct Hinv
    as (k & Hk & (evs & rcs & Hlen & Htr & Htab & Hcb & Hsteps & Htol & Hvisited) & Hstop).
  exists evs, rcs. repeat (split; [done|]). subst k. split; [|done].
  destruct Hstop as [->|Hstop]; [by left|]. right.
  by rewrite (same_table_initialized _ _ _ Htab) in Hstop.
Qed.

Lemma let_execute_loop_spec mx fuel rc0 (r : @round Ext) :
  match for_handles r_handles mx let_execute_body fuel 0 rc0 r with
  | Continue rc r1 | Return rc r1 =>
      ∃ evs n,
        trace_of r1 = trace_of r ++ evs
        ∧ r_handles r1 = r_handles r
        ∧ Forall (λ ev, is_take_event ev = false) evs
        ∧ steps evs = ev_execute <$> seq 0 n
        ∧ (∀ j, (j < n)%nat → N.of_nat j < mx ∧ initialized (r_handles r !!! j) = true)
        ∧ ((n = fuel ∨ ¬ (N.of_nat n < mx ∧ initialized (r_handles r !!! n) = true))
           ∨ ((0 < n)%nat ∧ rc ≠ RCL_RET_OK))
  end.
Proof.
  pose (I := λ (k : nat) (_ : rcl_ret_t) (r1 : @round Ext),
          ∃ evs,
            trace_of r1 = trace_of r ++ evs
            ∧ r_handles r1 = r_handles r
            ∧ Forall (λ ev, is_take_event ev = false) evs
            ∧ steps evs = ev_execute <$> seq 0 k
            ∧ ∀ j, (j < k)%nat → N.of_nat j < mx ∧ initialized (r_handles r !!! j) = true).
  pose (Q := λ (rc : rcl_ret_t) (r1 : @round Ext),
          ∃ k, I k RCL_RET_OK r1 ∧ (0 < k)%nat ∧ rc ≠ RCL_RET_OK).
  assert (∀ i rc s, I i rc s → N.of_nat i < mx → initialized (r_handles s !!! i) = true →
            match let_execute_body i s with
            | Continue rc' s' => I (S i) rc' s'
            | Return rc' s' => Q rc' s'
            end) as Hbody.
  { intros i rc s (evs & Htr & Hhs & Hnt & Hsteps & Hcond) Hlt Hinit.
    unfold let_execute_body.
    destruct (execute_step_spec i s) as (evs' & Hevs' & Htr' & Hhs').
    destruct (execute_step i s) as [rc' s']. simpl in *.
    assert (I (S i) rc' s') as HI.
    { exists (evs ++ ev_execute i :: evs').
      split; [by rewrite Htr', Htr, <- (assoc_L (++))|]. split; [congruence|].
      split; [apply Forall_app_2; [done|]; apply Forall_cons; split; [done|];
              by apply execute_calls_no_take|].
      split.
      - rewrite steps_app, Hsteps. change (steps (ev_execute i :: evs'))
          with (ev_execute i :: steps evs').
        rewrite (steps_execute_calls evs') by done.
        by rewrite seq_S, fmap_app.
      - intros j Hj. destruct (decide (j = i)) as [->|]; [|apply Hcond; lia].
        by rewrite <- Hhs. }
    unfold ret_eqb. case_bool_decide as Hrc; simpl; [done|].
    exists (S i). split; [done|]. split; [lia | done]. }
  pose proof (for_handles_inv r_handles mx let_execute_body I Q Hbody fuel 0%nat rc0 r) as Hinv.
  specialize (Hinv ltac:(
    exists []; split; [by rewrite app_nil_r|]; split; [done|]; split; [done|];
    split; [done|]; intros j Hj; lia)).
  destruct (for_handles _ _ _ _ _ _ _) as [rc r1|rc r1].
  - destruct Hinv as (k & _ & (evs & Htr & Hhs & Hnt & Hsteps & Hcond) & Hstop).
    exists evs, k. repeat (split; [done|]). left.
    destruct Hstop as [->|Hstop]; [by left | right]. by rewrite <- Hhs.
  - destruct Hinv as (k & (evs & Htr & Hhs & Hnt & Hsteps & Hcond) & Hk & Hrc).
    exists evs, k. repeat (split; [done|]). by right.
Qed.


Lemma prefix_covered mx (hs : list rclc_executor_handle_t) k i :
  k = N.to_nat mx ∨ ¬ (N.of_nat k < mx ∧ initialized (hs !!! k) = true) →
  in_initialized_prefix mx hs i → (i < k)%nat.
Proof.
  intros Hstop Hpre. destruct (decide (i < k)%nat) as [|Hge]; [done|]. exfalso.
  destruct (Hpre k ltac:(lia)) as [Hlt Hinit].
  destruct Hstop as [->|Hstop]; [lia | by apply Hstop].
Qed.

Lemma in_steps ev tr : ev ∈ steps tr → ev ∈ tr.
Proof.
  rewrite !list_elem_of_In. unfold steps. rewrite List.filter_In. by intros [? _].
Qed.

Lemma prefix_same_table mx hs hs' i :
  same_table hs hs' → in_initialized_prefix mx hs i → in_initialized_prefix mx hs' i.
Proof.
  intros Htab Hpre j Hj. destruct (Hpre j Hj) as [Hlt Hinit]. split; [done|].
  by rewrite (same_table_initialized _ _ _ Htab).
Qed.

(** The structure of a round of the LET scheduler, from which the
    statements about it follow. *)
Lemma let_scheduling_spec e (r : @round Ext) rc r' :
  _rclc_let_scheduling e r = Some (rc, r') →
  same_table (r_handles r) (r_handles r')
  ∧ ∃ takes execs rcs n,
      trace_of r' = trace_of r ++ takes ++ execs
      ∧ Forall (λ ev, is_callback_event ev = false) takes
      ∧ Forall (λ ev, is_take_event ev = false) execs
      ∧ steps execs = ev_execute <$> seq 0 n
      ∧ Forall tolerated_by_let rcs
      ∧ (n ≤ length rcs)%nat
      ∧ ((steps takes = imap ev_take_new_data rcs
          ∧ (execs ≠ [] → ∀ i, in_initialized_prefix (max_handles e) (r_handles r) i →
                               (i < length rcs)%nat)
          ∧ (rcs ≠ [] ∨ trigger_fires e r →
             ∀ i, in_initialized_prefix (max_handles e) (r_handles r) i →
                  (i < length rcs)%nat)
          ∧ (n = length rcs ∨ ((0 < n)%nat ∧ rc ≠ RCL_RET_OK)))
         ∨ (steps takes = imap ev_take_new_data rcs ++ [ev_take_new_data (length rcs) rc]
            ∧ ¬ tolerated_by_let rc ∧ execs = [])).
Proof.
  unfold _rclc_let_scheduling. intros Hrun.
  assert (∀ r1 : @round Ext,
            trace_of r1 = trace_of r → same_table (r_handles r) (r_handles r1) →
            ¬ trigger_fires e r →
            same_table (r_handles r) (r_handles r1)
            ∧ ∃ takes execs rcs n,
                trace_of r1 = trace_of r ++ takes ++ execs
                ∧ Forall (λ ev, is_callback_event ev = false) takes
                ∧ Forall (λ ev, is_take_event ev = false) execs
                ∧ steps execs = ev_execute <$> seq 0 n
                ∧ Forall tolerated_by_let rcs
                ∧ (n ≤ length rcs)%nat
                ∧ ((steps takes = imap ev_take_new_data rcs
                    ∧ (execs ≠ [] → ∀ i, in_initialized_prefix (max_handles e) (r_handles r) i →
                                         (i < length rcs)%nat)
                    ∧ (rcs ≠ [] ∨ trigger_fires e r →
                       ∀ i, in_initialized_prefix (max_handles e) (r_handles r) i →
                            (i < length rcs)%nat)
                    ∧ (n = length rcs ∨ ((0 < n)%nat ∧ rc ≠ RCL_RET_OK)))
                   ∨ (steps takes = imap ev_take_new_data rcs ++ [ev_take_new_data (length rcs) rc]
                      ∧ ¬ tolerated_by_let rc ∧ execs = []))) as Hquiet.
  { intros r1 Htr Htab Hquiet. split; [done|]. exists [], [], [], 0%nat.
    split; [by rewrite Htr, app_nil_r|]. repeat (split; [done|]). left.
    split; [done|]. split; [done|]. split; [by intros [?|?]|]. by left. }
  pose proof (check_loop_spec (max_handles e) (wait_set e) (N.to_nat (max_handles e)) 0
                RCL_RET_OK r) as Hcheck.
  destruct (for_handles r_handles (max_handles e) (check_body (wait_set e)) _ _ _ _)
    as [rc1 r1|rc1 r1] eqn:Hloop; destruct Hcheck as (Htr1 & Htab1 & _).
  2:{ injection Hrun as <- <-. apply Hquiet; [done | done |].
      intros (rc0 & r0 & Hfires & _). unfold trigger_fires in Hfires. congruence. }
  destruct (call_trigger e r1) as [[|]|] eqn:Hcall; [| | done].
  2:{ injection Hrun as <- <-. apply Hquiet; [done | done |].
      intros (rc0 & r0 & Hfires & Htrue). rewrite Hloop in Hfires.
      injection Hfires as <- <-. congruence. }
  pose proof (let_take_loop_spec (max_handles e) (wait_set e) (N.to_nat (max_handles e)) rc1 r1)
    as Htake.
  destruct (for_handles r_handles (max_handles e) (let_take_body (wait_set e)) _ _ _ _)
    as [rc2 r2|rc2 r2].
  2:{ injection Hrun as <- <-.
      destruct Htake as (evs & rcs & Htr2 & Htab2 & Hcb & Hsteps & Htol & Hnot).
      split; [by eapply same_table_trans|].
      exists evs, [], rcs, 0%nat. split; [by rewrite Htr2, Htr1, app_nil_r|].
      repeat (split; [done || lia|]). right. by repeat split. }
  destruct Htake as (evs & rcs & Htr2 & Htab2 & Hcb & Hsteps & Htol & Hstop & Hvisited).
  pose proof (let_execute_loop_spec (max_handles e) (N.to_nat (max_handles e)) rc2 r2) as Hexec.
  assert (∀ (rc3 : rcl_ret_t) (r3 : @round Ext),
            (∃ evs' n,
               trace_of r3 = trace_of r2 ++ evs'
               ∧ r_handles r3 = r_handles r2
               ∧ Forall (λ ev, is_take_event ev = false) evs'
               ∧ steps evs' = ev_execute <$> seq 0 n
               ∧ (∀ j, (j < n)%nat →
                       N.of_nat j < max_handles e ∧ initialized (r_handles r2 !!! j) = true)
               ∧ ((n = N.to_nat (max_handles e)
                   ∨ ¬ (N.of_nat n < max_handles e ∧ initialized (r_handles r2 !!! n) = true))
                  ∨ ((0 < n)%nat ∧ rc3 ≠ RCL_RET_OK))) →
            Some (rc3, r3) = Some (rc, r') →
            same_table (r_handles r) (r_handles r')
            ∧ ∃ takes execs rcs n,
                trace_of r' = trace_of r ++ takes ++ execs
                ∧ Forall (λ ev, is_callback_event ev = false) takes
                ∧ Forall (λ ev, is_take_event ev = false) execs
                ∧ steps execs = ev_execute <$> seq 0 n
                ∧ Forall tolerated_by_let rcs
                ∧ (n ≤ length rcs)%nat
                ∧ ((steps takes = imap ev_take_new_data rcs
                    ∧ (execs ≠ [] → ∀ i, in_initialized_prefix (max_handles e) (r_handles r) i →
                                         (i < length rcs)%nat)
                    ∧ (rcs ≠ [] ∨ trigger_fires e r →
                       ∀ i, in_initialized_prefix (max_handles e) (r_handles r) i →
                            (i < length rcs)%nat)
                    ∧ (n = length rcs ∨ ((0 < n)%nat ∧ rc ≠ RCL_RET_OK)))
                   ∨ (steps takes = imap ev_take_new_data rcs ++ [ev_take_new_data (length rcs) rc]
                      ∧ ¬ tolerated_by_let rc ∧ execs = []))) as Hfinish.
  { intros rc3 r3 (evs' & n & Htr3 & Hhs3 & Hnt & Hsteps' & Hcond & Hcount) [= <- <-].
    assert (same_table (r_handles r) (r_handles r3)) as Htab3.
    { rewrite Hhs3. by eapply same_table_trans. }
    split; [done|]. exists evs, evs', rcs, n.
    split; [by rewrite Htr3, Htr2, Htr1, <- (assoc_L (++))|].
    repeat (split; [done|]).
    assert (length rcs = N.to_nat (max_handles e)
            ∨ ¬ (N.of_nat (length rcs) < max_handles e
                 ∧ initialized (r_handles r1 !!! length rcs) = true)) as Hstop' by done.
    assert (n ≤ length rcs)%nat as Hle.
    { destruct (decide (n ≤ length rcs)%nat) as [|Hgt]; [done|]. exfalso.
      destruct (Hcond (length rcs) ltac:(lia)) as [Hlt Hinit].
      rewrite (same_table_initialized _ _ _ Htab2) in Hinit.
      destruct Hstop' as [Heq|Hstop']; [lia | by apply Hstop']. }
    assert (∀ i, in_initialized_prefix (max_handles e) (r_handles r) i → (i < length rcs)%nat)
      as Hcover.
    { intros i Hpre. apply (prefix_covered (max_handles e) (r_handles r1)); [done|].
      by eapply prefix_same_table. }
    split; [done|]. left. split; [done|]. split; [by intros _|]. split; [by intros _|].
    destruct Hcount as [Hstopn|Hfail]; [left | by right].
    destruct (decide (n = length rcs)) as [|Hne]; [done|]. exfalso.
    destruct (Hvisited n ltac:(lia)) as [Hlt Hinit].
    destruct Hstopn as [->|Hstopn]; [lia|]. apply Hstopn. split; [done|].
    by rewrite (same_table_initialized _ _ _ Htab2). }
  destruct (for_handles r_handles (max_handles e) let_execute_body _ _ _ _) as [rc3 r3|rc3 r3];
    by eapply Hfinish.
Qed.

Lemma let_scheduling_None e (r : @round Ext) :
  _rclc_let_scheduling e r = None → trigger_function e = None.
Proof.
  unfold _rclc_let_scheduling, call_trigger.
  destruct (for_handles r_handles _ (check_body _) _ _ _ _); [|done].
  destruct (trigger_function e) as [f|]; [|done].
  destruct (f _ _ _ _); [|done].
  destruct (for_handles r_handles _ (let_take_body _) _ _ _ _); [|done].
  by destruct (for_handles r_handles _ let_execute_body _ _ _ _).
Qed.

(** Under LET semantics no user callback runs before every take of the
    round has returned: the trace that a round adds splits into a first
    part without callbacks and a second part without takes, and when the
    second part is not empty, the first contains the take of every handle
    of the initialised prefix.  (The round is undefined only for a [NULL]
    trigger function.) *)
Theorem let_takes_precede_callbacks :
  ∀ (e : rclc_executor_t) (r : @round Ext),
    match _rclc_let_scheduling e r with
    | Some (rc, r') =>
        ∃ takes execs,
          trace_of r' = trace_of r ++ takes ++ execs
          ∧ Forall (λ ev, is_callback_event ev = false) takes
          ∧ Forall (λ ev, is_take_event ev = false) execs
          ∧ (execs ≠ [] →
             ∀ i, in_initialized_prefix (max_handles e) (r_handles r) i →
                  ∃ rc_i, ev_take_new_data i rc_i ∈ takes)
    | None => trigger_function e = None
    end.
Proof.
  intros e r.
  destruct (_rclc_let_scheduling e r) as [[rc r']|] eqn:Hrun;
    [|by apply (let_scheduling_None e r)].
  destruct (let_scheduling_spec e r rc r' Hrun)
    as (_ & takes & execs & rcs & n & Htr & Hcb & Hnt & _ & _ & _ & Hshape).
  exists takes, execs. repeat (split; [done|]). intros Hne i Hpre.
  destruct Hshape as [(Hsteps & Hall & _)|(_ & _ & ->)]; [|done].
  specialize (Hall Hne i Hpre).
  destruct (lookup_lt_is_Some_2 rcs i Hall) as [rc_i Hrc].
  exists rc_i. apply in_steps. rewrite Hsteps.
  apply list_elem_of_lookup. exists i. by rewrite list_lookup_imap, Hrc.
Qed.

Lemma let_scheduling_steps e (r : @round Ext) rc r' :
  _rclc_let_scheduling e r = Some (rc, r') →
  ∃ (new : list event) (rcs : list rcl_ret_t),
    trace_of r' = trace_of r ++ new
    ∧ Forall tolerated_by_let rcs
    ∧ ((∃ n, (n ≤ length rcs)%nat
             ∧ steps new = imap ev_take_new_data rcs ++ (ev_execute <$> seq 0 n)
             ∧ (n = length rcs ∨ ((0 < n)%nat ∧ rc ≠ RCL_RET_OK))
             ∧ (rcs ≠ [] ∨ trigger_fires e r →
                ∀ i, in_initialized_prefix (max_handles e) (r_handles r) i →
                     (i < length rcs)%nat))
       ∨ (¬ tolerated_by_let rc
          ∧ steps new
            = imap ev_take_new_data rcs ++ [ev_take_new_data (length rcs) rc])).
Proof.
  intros Hrun.
  destruct (let_scheduling_spec e r rc r' Hrun)
    as (_ & takes & execs & rcs & n & Htr & _ & _ & Hexecs & Htol & Hn & Hshape).
  exists (takes ++ execs), rcs. repeat (split; [done|]). rewrite steps_app, Hexecs.
  destruct Hshape as [(Hsteps & _ & Hcover & Hcount)|(Hsteps & Hnot & ->)].
  - left. exists n. rewrite Hsteps. by repeat (split; [done|]).
  - right. split; [done|]. rewrite Hsteps.
    assert (steps [] = ev_execute <$> seq 0 n) as Hn0 by done.
    destruct n; [by rewrite app_nil_r | done].
Qed.

(** The steps of a round of the LET scheduler: the takes of the handles in
    the order of the table, then the executes in the same order.  When the
    trigger fires (and whenever a take is made) and all the takes return
    [RCL_RET_OK] or [RCL_RET_SUBSCRIPTION_TAKE_FAILED], the takes cover the
    initialised prefix, and every handle taken from is then executed, unless
    an execute fails, which ends the round with a result other than
    [RCL_RET_OK].  A take that returns anything else (for instance
    [RCL_RET_SERVICE_TAKE_FAILED]) ends the round with this result before
    anything is executed. *)
Theorem let_round_steps :
  ∀ (e : rclc_executor_t) (r : @round Ext),
    match _rclc_let_scheduling e r with
    | Some (rc, r') =>
        ∃ (new : list event) (rcs : list rcl_ret_t),
          trace_of r' = trace_of r ++ new
          ∧ Forall tolerated_by_let rcs
          ∧ ((∃ n, (n ≤ length rcs)%nat
                   ∧ steps new = imap ev_take_new_data rcs ++ (ev_execute <$> seq 0 n)
                   ∧ (n = length rcs ∨ ((0 < n)%nat ∧ rc ≠ RCL_RET_OK))
                   ∧ (rcs ≠ [] ∨ trigger_fires e r →
                      ∀ i, in_initialized_prefix (max_handles e) (r_handles r) i →
                           (i < length rcs)%nat))
             ∨ (¬ tolerated_by_let rc
                ∧ steps new
                  = imap ev_take_new_data rcs ++ [ev_take_new_data (length rcs) rc]))
    | None => trigger_function e = None
    end.
Proof.
  intros e r.
  destruct (_rclc_let_scheduling e r) as [[rc r']|] eqn:Hrun.
  - by apply let_scheduling_steps.
  - by apply (let_scheduling_None e r).
Qed.

(** C1: under LET semantics, whenever a callback runs in a round, the takes
    of the round have all been made before it.  Wherever the trace that the
    round adds holds a callback, the part before it holds the take of every
    handle of the initialised prefix, each with a result after which the take
    loop goes on; the part after it holds no take.  So no callback of the
    round runs before the take of a later handle, and none can see what such
    a take brings.  In a round in which the trigger fires, the take of every
    handle of the initialised prefix is made, unless one of the takes ends
    the round, in which case no callback runs.  (The round is undefined only
    for a [NULL] trigger function.) *)
Theorem let_callbacks_run_after_every_take :
  ∀ (e : rclc_executor_t) (r : @round Ext),
    match _rclc_let_scheduling e r with
    | Some (rc, r') =>
        ∃ new : list event,
          trace_of r' = trace_of r ++ new
          ∧ (∀ (before : list event) (ev : event) (after : list event),
              new = before ++ ev :: after →
              is_callback_event ev = true →
              (∀ i, in_initialized_prefix (max_handles e) (r_handles r) i →
                    ∃ rc_i, ev_take_new_data i rc_i ∈ before ∧ tolerated_by_let rc_i)
              ∧ Forall (λ ev', is_take_event ev' = false) after)
          ∧ (trigger_fires e r →
             (∀ i, in_initialized_prefix (max_handles e) (r_handles r) i →
                   ∃ rc_i, ev_take_new_data i rc_i ∈ new ∧ tolerated_by_let rc_i)
             ∨ (¬ tolerated_by_let rc
                ∧ Forall (λ ev, is_callback_event ev = false) new))
    | None => trigger_function e = None
    end.
Proof.
  intros e r.
  destruct (_rclc_let_scheduling e r) as [[rc r']|] eqn:Hrun;
    [|by apply (let_scheduling_None e r)].
  destruct (let_scheduling_spec e r rc r' Hrun)
    as (_ & takes & execs & rcs & n & Htr & Hcb & Hnt & _ & Htol & _ & Hshape).
  exists (takes ++ execs). split; [done|].
  assert (∀ i, (i < length rcs)%nat → steps takes = imap ev_take_new_data rcs →
               ∃ rc_i, ev_take_new_data i rc_i ∈ takes ∧ tolerated_by_let rc_i) as Htaken.
  { intros i Hi Hsteps. destruct (lookup_lt_is_Some_2 rcs i Hi) as [rc_i Hrc].
    exists rc_i. split; [|by eapply Forall_lookup_1].
    apply in_steps. rewrite Hsteps.
    apply list_elem_of_lookup. exists i. by rewrite list_lookup_imap, Hrc. }
  split.
  2:{ intros Hfires. destruct Hshape as [(Hsteps & _ & Hall & _)|(_ & Hnot & ->)].
      - left. intros i Hpre. destruct (Htaken i (Hall (or_intror Hfires) i Hpre) Hsteps)
          as (rc_i & Hin & Hrc).
        exists rc_i. split; [|done]. apply elem_of_app. by left.
      - right. split; [done|]. by rewrite app_nil_r. }
  intros before ev after Hsplit Hev.
  assert (∃ mid, before = takes ++ mid ∧ execs = mid ++ ev :: after) as (mid & -> & Hexecs).
  { apply app_eq_inv in Hsplit as [(mid & -> & Hmid)|(mid & Htakes & Hmid)]; [|by exists mid].
    destruct mid as [|ev0 mid].
    - exists []. simpl in Hmid. by rewrite !app_nil_r.
    - exfalso. simpl in Hmid. injection Hmid as <- ->.
      rewrite Forall_app, Forall_cons in Hcb. destruct Hcb as (_ & Hno & _). congruence. }
  assert (execs ≠ []) as Hne by (rewrite Hexecs; by destruct mid).
  destruct Hshape as [(Hsteps & Hall & _)|(_ & _ & ->)]; [|done].
  split.
  - intros i Hpre. destruct (Htaken i (Hall Hne i Hpre) Hsteps) as (rc_i & Hin & Hrc).
    exists rc_i. split; [|done]. apply elem_of_app. by left.
  - rewrite Hexecs, Forall_app, Forall_cons in Hnt. by destruct Hnt as (_ & _ & ?).
Qed.

(** *** The loop of the default scheduler *)

Lemma default_loop_spec mx ws fuel rc0 (r : @round Ext) :
  match for_handles r_handles mx (default_body ws) fuel 0 rc0 r with
  | Continue rc r1 =>
      ∃ evs rcs,
        trace_of r1 = trace_of r ++ evs
        ∧ same_table (r_handles r) (r_handles r1)
        ∧ steps evs = concat (imap take_and_execute rcs)
        ∧ Forall tolerated_by_default rcs
        ∧ (rcs = [] ∨ rc = RCL_RET_OK)
        ∧ (length rcs = fuel
           ∨ ¬ (N.of_nat (length rcs) < mx ∧ initialized (r_handles r !!! length rcs) = true))
  | Return rc r1 =>
      ∃ evs rcs,
        trace_of r1 = trace_of r ++ evs
        ∧ same_table (r_handles r) (r_handles r1)
        ∧ Forall tolerated_by_default rcs
        ∧ rc ≠ RCL_RET_OK
        ∧ ((¬ tolerated_by_default rc
            ∧ steps evs
              = concat (imap take_and_execute rcs) ++ [ev_take_new_data (length rcs) rc])
           ∨ (rcs ≠ [] ∧ steps evs = concat (imap take_and_execute rcs)))
  end.
Proof.
  pose (I := λ (k : nat) (rc : rcl_ret_t) (r1 : @round Ext),
          ∃ evs rcs, length rcs = k
            ∧ trace_of r1 = trace_of r ++ evs
            ∧ same_table (r_handles r) (r_handles r1)
            ∧ steps evs = concat (imap take_and_execute rcs)
            ∧ Forall tolerated_by_default rcs
            ∧ (rcs = [] ∨ rc = RCL_RET_OK)).
  pose (Q := λ (rc : rcl_ret_t) (r1 : @round Ext),
          ∃ evs rcs,
            trace_of r1 = trace_of r ++ evs
            ∧ same_table (r_handles r) (r_handles r1)
            ∧ Forall tolerated_by_default rcs
            ∧ rc ≠ RCL_RET_OK
            ∧ ((¬ tolerated_by_default rc
                ∧ steps evs
                  = concat (imap take_and_execute rcs) ++ [ev_take_new_data (length rcs) rc])
               ∨ (rcs ≠ [] ∧ steps evs = concat (imap take_and_execute rcs)))).
  assert (∀ i rc s, I i rc s → N.of_nat i < mx → initialized (r_handles s !!! i) = true →
            match default_body ws i s with
            | Continue rc' s' => I (S i) rc' s'
            | Return rc' s' => Q rc' s'
            end) as Hbody.
  { intros i rc s (evs & rcs & Hlen & Htr & Htab & Hsteps & Htol & _) _ _.
    unfold default_body.
    destruct (take_step_spec ws i s) as (evs1 & Hevs1 & Htr1 & Htab1).
    destruct (take_step ws i s) as [rc1 s1]. simpl in *.
    destruct ((rc1 <>r? RCL_RET_OK) && (rc1 <>r? RCL_RET_SUBSCRIPTION_TAKE_FAILED)
              && (rc1 <>r? RCL_RET_SERVICE_TAKE_FAILED)) eqn:Hc.
    - assert (¬ tolerated_by_default rc1) as Hnot.
      { intros Ht. apply tolerated_by_default_cond in Ht. congruence. }
      exists (evs ++ evs1 ++ [ev_take_new_data i rc1]), rcs.
      split; [by rewrite Htr1, Htr, <- (assoc_L (++))|].
      split; [by eapply same_table_trans|]. split; [done|].
      split; [intros ->; apply Hnot; by left|]. left. split; [done|].
      rewrite !steps_app, Hsteps, (steps_take_calls evs1) by done. by rewrite Hlen.
    - apply tolerated_by_default_cond in Hc.
      destruct (execute_step_spec i s1) as (evs2 & Hevs2 & Htr2 & Hhs2).
      destruct (execute_step i s1) as [rc2 s2]. simpl in *.
      assert (trace_of s2
              = trace_of r ++ (evs ++ evs1 ++ [ev_take_new_data i rc1] ++ ev_execute i :: evs2))
        as Htr'.
      { rewrite Htr2, Htr1, Htr, <- !(assoc_L (++)). done. }
      assert (steps (evs ++ evs1 ++ [ev_take_new_data i rc1] ++ ev_execute i :: evs2)
              = concat (imap take_and_execute (rcs ++ [rc1]))) as Hsteps'.
      { rewrite !steps_app, Hsteps, (steps_take_calls evs1) by done.
        change (steps (ev_execute i :: evs2)) with (ev_execute i :: steps evs2).
        rewrite (steps_execute_calls evs2) by done.
        rewrite imap_app, concat_app. simpl. by rewrite ?app_nil_r, ?Nat.add_0_r, ?Hlen. }
      assert (same_table (r_handles r) (r_handles s2)) as Htab'.
      { rewrite Hhs2. by eapply same_table_trans. }
      assert (Forall tolerated_by_default (rcs ++ [rc1])) as Htol'.
      { apply Forall_app_2; [done | by apply Forall_singleton]. }
      unfold ret_eqb. case_bool_decide as Hok; simpl.
      + exists (evs ++ evs1 ++ [ev_take_new_data i rc1] ++ ev_execute i :: evs2), (rcs ++ [rc1]).
        split; [rewrite length_app; simpl; lia|]. repeat (split; [done|]). by right.
      + exists (evs ++ evs1 ++ [ev_take_new_data i rc1] ++ ev_execute i :: evs2), (rcs ++ [rc1]).
        repeat (split; [done|]). right. split; [|done]. by destruct rcs. }
  pose proof (for_handles_inv r_handles mx (default_body ws) I Q Hbody fuel 0%nat rc0 r) as Hinv.
  specialize (Hinv ltac:(
    exists [], []; split; [done|]; split; [by rewrite app_nil_r|];
    split; [apply same_table_refl|]; repeat split; by left)).
  destruct (for_handles _ _ _ _ _ _ _) as [rc r1|rc r1]; [|done].
  destruct Hinv as (k & Hk & (evs & rcs & Hlen & Htr & Htab & Hsteps & Htol & Hrc) & Hstop).
  exists evs, rcs. repeat (split; [done|]). subst k.
  destruct Hstop as [->|Hstop]; [by left|]. right.
  by rewrite (same_table_initialized _ _ _ Htab) in Hstop.
Qed.

Lemma default_scheduling_None e (r : @round Ext) :
  _rclc_default_scheduling e r = None → trigger_function e = None.
Proof.
  unfold _rclc_default_scheduling, call_trigger.
  destruct (for_handles r_handles _ (check_body _) _ _ _ _); [|done].
  destruct (trigger_function e) as [f|]; [|done].
  destruct (f _ _ _ _); [|done].
  by destruct (for_handles r_handles _ (default_body _) _ _ _ _).
Qed.

Lemma default_scheduling_steps e (r : @round Ext) rc r' :
  _rclc_default_scheduling e r = Some (rc, r') →
  ∃ (new : list event) (rcs : list rcl_ret_t),
    trace_of r' = trace_of r ++ new
    ∧ Forall tolerated_by_default rcs
    ∧ ((steps new = concat (imap take_and_execute rcs)
        ∧ (rc = RCL_RET_OK → rcs ≠ [] →
           ∀ i, in_initialized_prefix (max_handles e) (r_handles r) i →
                (i < length rcs)%nat))
       ∨ (¬ tolerated_by_default rc
          ∧ steps new
            = concat (imap take_and_execute rcs)
              ++ [ev_take_new_data (length rcs) rc])).
Proof.
  intros Hrun.
  unfold _rclc_default_scheduling in Hrun.
  assert (∀ r1 : @round Ext, trace_of r1 = trace_of r →
            ∃ (new : list event) (rcs : list rcl_ret_t),
              trace_of r1 = trace_of r ++ new
              ∧ Forall tolerated_by_default rcs
              ∧ ((steps new = concat (imap take_and_execute rcs)
                  ∧ (rc = RCL_RET_OK → rcs ≠ [] →
                     ∀ i, in_initialized_prefix (max_handles e) (r_handles r) i →
                          (i < length rcs)%nat))
                 ∨ (¬ tolerated_by_default rc
                    ∧ steps new
                      = concat (imap take_and_execute rcs)
                        ++ [ev_take_new_data (length rcs) rc]))) as Hquiet.
  { intros r1 Htr. exists [], []. split; [by rewrite app_nil_r|]. split; [done|].
    left. by split. }
  pose proof (check_loop_spec (max_handles e) (wait_set e) (N.to_nat (max_handles e)) 0
                RCL_RET_OK r) as Hcheck.
  destruct (for_handles r_handles (max_handles e) (check_body (wait_set e)) _ _ _ _)
    as [rc1 r1|rc1 r1]; destruct Hcheck as (Htr1 & Htab1 & _).
  2:{ injection Hrun as <- <-. by apply Hquiet. }
  destruct (call_trigger e r1) as [[|]|]; [| injection Hrun as <- <-; by apply Hquiet | done].
  pose proof (default_loop_spec (max_handles e) (wait_set e) (N.to_nat (max_handles e)) rc1 r1)
    as Hloop.
  destruct (for_handles r_handles (max_handles e) (default_body (wait_set e)) _ _ _ _)
    as [rc2 r2|rc2 r2]; injection Hrun as <- <-.
  - destruct Hloop as (evs & rcs & Htr2 & Htab2 & Hsteps & Htol & _ & Hstop).
    exists evs, rcs. split; [by rewrite Htr2, Htr1|]. split; [done|]. left. split; [done|].
    intros _ _ i Hpre. apply (prefix_covered (max_handles e) (r_handles r1)); [done|].
    by eapply prefix_same_table.
  - destruct Hloop as (evs & rcs & Htr2 & Htab2 & Htol & Hrc & Hshape).
    exists evs, rcs. split; [by rewrite Htr2, Htr1|]. split; [done|].
    destruct Hshape as [[Hnot Hsteps]|[Hne Hsteps]]; [by right|]. left. by split.
Qed.

(** The steps of a round of the default scheduler: take and execute, handle
    by handle in the order of the table.  A handle is executed after its take
    returned [RCL_RET_OK], [RCL_RET_SUBSCRIPTION_TAKE_FAILED] or
    [RCL_RET_SERVICE_TAKE_FAILED]; a take that returns anything else ends the
    round with this result.  A round that returns [RCL_RET_OK] and has taken a
    step has processed every handle of the initialised prefix. *)
Theorem default_round_steps :
  ∀ (e : rclc_executor_t) (r : @round Ext),
    match _rclc_default_scheduling e r with
    | Some (rc, r') =>
        ∃ (new : list event) (rcs : list rcl_ret_t),
          trace_of r' = trace_of r ++ new
          ∧ Forall tolerated_by_default rcs
          ∧ ((steps new = concat (imap take_and_execute rcs)
              ∧ (rc = RCL_RET_OK → rcs ≠ [] →
                 ∀ i, in_initialized_prefix (max_handles e) (r_handles r) i →
                      (i < length rcs)%nat))
             ∨ (¬ tolerated_by_default rc
                ∧ steps new
                  = concat (imap take_and_execute rcs)
                    ++ [ev_take_new_data (length rcs) rc]))
    | None => trigger_function e = None
    end.
Proof.
  intros e r.
  destruct (_rclc_default_scheduling e r) as [[rc r']|] eqn:Hrun.
  - by apply default_scheduling_steps.
  - by apply (default_scheduling_None e r).
Qed.

End RoundProperties.

(** ** Rounds in which nothing is ready *)

Section IdleRound.
Context {api : rcl_api} {Ext : Type} {rt : rcl_runtime Ext}.

Lemma wait_set_slot_same ws h h' :
  same_registration h h' → wait_set_slot ws h' = wait_set_slot ws h.
Proof. intros (Ht & _ & _ & _ & _ & _ & _ & Hi & _). unfold wait_set_slot. by rewrite Ht, Hi. Qed.

Lemma check_for_new_data_idle h ws m :
  wait_set_slot ws h = Some NULL →
  _rclc_check_for_new_data h ws m = (RCL_RET_OK, set_data_available false h, m).
Proof.
  unfold wait_set_slot, _rclc_check_for_new_data.
  destruct (type h); intros [= ->]; done.
Qed.

Lemma plain_data_available ws m h p :
  wait_set_slot ws h = Some p →
  _rclc_check_handle_data_available m h = data_available h.
Proof.
  unfold wait_set_slot, _rclc_check_handle_data_available.
  destruct (type h); try done; by destruct (data_available h).
Qed.

Lemma set_mem_same (w : world Ext) : set_mem (mem w) w = w.
Proof. by destruct w. Qed.

Lemma check_body_idle ws i (s : @round Ext) :
  wait_set_slot ws (r_handles s !!! i) = Some NULL →
  check_body ws i s
  = Continue RCL_RET_OK
      (mk_round (<[i := set_data_available false (r_handles s !!! i)]> (r_handles s))
         (r_effects s)).
Proof.
  intros Hslot. unfold check_body. rewrite (check_for_new_data_idle _ _ _ Hslot).
  cbn [negb andb ret_eqb]. rewrite set_mem_same, <- surjective_pairing. done.
Qed.

(** The readiness loop when nothing is ready: it clears [data_available]
    in every handle of the initialised prefix and changes nothing else. *)
Lemma check_loop_idle mx ws (r : @round Ext) :
  nothing_ready mx ws (r_handles r) →
  ∃ r1 k,
    for_handles r_handles mx (check_body ws) (N.to_nat mx) 0 RCL_RET_OK r
    = Continue RCL_RET_OK r1
    ∧ r_effects r1 = r_effects r
    ∧ same_table (r_handles r) (r_handles r1)
    ∧ (∀ j, (j < k)%nat → data_available (r_handles r1 !!! j) = false)
    ∧ (k = N.to_nat mx ∨ ¬ (N.of_nat k < mx ∧ initialized (r_handles r1 !!! k) = true)).
Proof.
  intros Hidle.
  pose (I := λ (k : nat) (rc : rcl_ret_t) (r1 : @round Ext),
          rc = RCL_RET_OK
          ∧ r_effects r1 = r_effects r
          ∧ same_table (r_handles r) (r_handles r1)
          ∧ ∀ j, (j < k)%nat →
                 N.of_nat j < mx ∧ initialized (r_handles r !!! j) = true
                 ∧ data_available (r_handles r1 !!! j) = false).
  assert (∀ i rc s, I i rc s → N.of_nat i < mx → initialized (r_handles s !!! i) = true →
            match check_body ws i s with
            | Continue rc' s' => I (S i) rc' s'
            | Return rc' s' => False
            end) as Hbody.
  { intros i rc s (-> & Heff & Htab & Hdone) Hlt Hinit.
    assert (initialized (r_handles r !!! i) = true) as Hinit'.
    { by rewrite <- (same_table_initialized _ _ i Htab). }
    assert (in_initialized_prefix mx (r_handles r) i) as Hpre.
    { intros j Hj. destruct (decide (j = i)) as [->|]; [done|].
      destruct (Hdone j ltac:(lia)) as (? & ? & _). done. }
    assert (wait_set_slot ws (r_handles s !!! i) = Some NULL) as Hslot.
    { rewrite (wait_set_slot_same ws (r_handles r !!! i)); [by apply Hidle | apply Htab]. }
    assert (i < length (r_handles s))%nat as Hlen.
    { destruct (decide (i < length (r_handles s))%nat) as [|Hge]; [done|].
      rewrite list_lookup_total_alt, lookup_ge_None_2 in Hinit by lia. done. }
    rewrite (check_body_idle _ _ _ Hslot). cbn [r_handles r_effects].
    split; [done|]. split; [done|].
    split.
    { eapply same_table_trans; [done|]. apply same_table_insert. by repeat split. }
    intros j Hj. destruct (decide (j = i)) as [->|Hne].
    - split; [done|]. split; [done|]. cbn [r_handles].
      by rewrite list_lookup_total_insert_eq.
    - destruct (Hdone j ltac:(lia)) as (? & ? & ?).
      split; [done|]. split; [done|]. cbn [r_handles].
      by rewrite list_lookup_total_insert_ne. }
  pose proof (for_handles_inv r_handles mx (check_body ws) I (λ _ _, False) Hbody
                (N.to_nat mx) 0%nat RCL_RET_OK r) as Hinv.
  specialize (Hinv ltac:(
    split; [done|]; split; [done|]; split; [apply same_table_refl|]; intros j Hj; lia)).
  destruct (for_handles _ _ _ _ _ _ _) as [rc r1|rc r1]; [|done].
  destruct Hinv as (k & Hk & (-> & Heff & Htab & Hdone) & Hstop).
  exists r1, k. repeat (split; [done|]). split; [intros j Hj; by apply Hdone|].
  destruct Hstop as [->|Hstop]; [left; lia | by right].
Qed.

(** When nothing is ready, the trigger [rclc_executor_trigger_any] does not
    fire and both schedulers return [RCL_RET_OK] without a take or a
    callback. *)
Lemma idle_round e (r : @round Ext) :
  trigger_function e = Some rclc_executor_trigger_any →
  nothing_ready (max_handles e) (wait_set e) (r_handles r) →
  ∃ r',
    _rclc_default_scheduling e r = Some (RCL_RET_OK, r')
    ∧ _rclc_let_scheduling e r = Some (RCL_RET_OK, r')
    ∧ r_effects r' = r_effects r
    ∧ same_table (r_handles r) (r_handles r').
Proof.
  intros Htrig Hidle.
  destruct (check_loop_idle (max_handles e) (wait_set e) r Hidle)
    as (r1 & k & Hloop & Heff & Htab & Hdone & Hstop).
  exists r1.
  assert (call_trigger e r1 = Some false) as Hcall.
  { unfold call_trigger. rewrite Htrig. f_equal. simpl.
    destruct (trigger_any_loop _ _ _ _) eqn:Hany; [|done]. exfalso.
    apply trigger_any_loop_true in Hany as (j & Hj & Hpre & Hav).
    assert (to_unsigned_int (max_handles e) ≤ max_handles e) as Hsize.
    { unfold to_unsigned_int. apply N.Div0.mod_le. }
    assert (in_initialized_prefix (max_handles e) (r_handles r1) j) as Hpre1.
    { intros i Hi. split; [lia | apply Hpre; lia]. }
    assert (in_initialized_prefix (max_handles e) (r_handles r) j) as Hpre0.
    { intros i Hi. destruct (Hpre1 i Hi) as [? Hinit]. split; [done|].
      by rewrite <- (same_table_initialized _ _ i Htab). }
    pose proof (prefix_covered _ _ _ _ Hstop Hpre1) as Hjk.
    assert (wait_set_slot (wait_set e) (r_handles r1 !!! j) = Some NULL) as Hslot.
    { rewrite (wait_set_slot_same _ (r_handles r !!! j)); [by apply Hidle | apply Htab]. }
    rewrite (plain_data_available _ _ _ _ Hslot), (Hdone j Hjk) in Hav. done. }
  unfold _rclc_default_scheduling, _rclc_let_scheduling. rewrite Hloop, Hcall. done.
Qed.


(** *** What a round and [rclc_executor_spin_some] leave in place *)

Lemma same_registration_sym h h' : same_registration h h' → same_registration h' h.
Proof. intros (?&?&?&?&?&?&?&?&?). by repeat split. Qed.

Lemma same_table_sym hs hs' : same_table hs hs' → same_table hs' hs.
Proof. intros [Hl H]. split; [done|]. intros j. by apply same_registration_sym. Qed.

Lemma nothing_ready_same_table mx ws hs hs' :
  same_table hs hs' → nothing_ready mx ws hs → nothing_ready mx ws hs'.
Proof.
  intros Htab Hidle i Hpre.
  rewrite (wait_set_slot_same ws (hs !!! i)); [|apply Htab].
  apply Hidle. eapply prefix_same_table; [by apply same_table_sym | done].
Qed.

Lemma default_scheduling_same_table e (r : @round Ext) rc r' :
  _rclc_default_scheduling e r = Some (rc, r') → same_table (r_handles r) (r_handles r').
Proof.
  unfold _rclc_default_scheduling. intros Hrun.
  pose proof (check_loop_spec (max_handles e) (wait_set e) (N.to_nat (max_handles e)) 0
                RCL_RET_OK r) as Hcheck.
  destruct (for_handles r_handles (max_handles e) (check_body (wait_set e)) _ _ _ _)
    as [rc1 r1|rc1 r1]; destruct Hcheck as (_ & Htab1 & _); [|by injection Hrun as <- <-].
  destruct (call_trigger e r1) as [[|]|]; [| by injection Hrun as <- <- | done].
  pose proof (default_loop_spec (max_handles e) (wait_set e) (N.to_nat (max_handles e)) rc1 r1)
    as Hloop.
  destruct (for_handles r_handles (max_handles e) (default_body (wait_set e)) _ _ _ _)
    as [rc2 r2|rc2 r2]; injection Hrun as <- <-;
    destruct Hloop as (evs & rcs & _ & Htab2 & _); by eapply same_table_trans.
Qed.

(** A round of either scheduler keeps the registrations: the table keeps
    its length, and in every handle the round writes at most
    [data_available] and [req_id].  (The round is undefined only for a
    [NULL] trigger function.) *)
Theorem round_keeps_registrations :
  ∀ (e : rclc_executor_t) (r : @round Ext),
    match _rclc_default_scheduling e r with
    | Some (_, r') => same_table (r_handles r) (r_handles r')
    | None => trigger_function e = None
    end
    ∧ match _rclc_let_scheduling e r with
      | Some (_, r') => same_table (r_handles r) (r_handles r')
      | None => trigger_function e = None
      end.
Proof.
  intros e r. split.
  - destruct (_rclc_default_scheduling e r) as [[rc r']|] eqn:Hrun.
    + by eapply default_scheduling_same_table.
    + by eapply default_scheduling_None.
  - destruct (_rclc_let_scheduling e r) as [[rc r']|] eqn:Hrun.
    + by destruct (let_scheduling_spec e r rc r' Hrun).
    + by eapply let_scheduling_None.
Qed.

Lemma same_endpoint_refl h : same_endpoint h h.
Proof. by repeat split. Qed.

Lemma same_endpoint_trans h1 h2 h3 :
  same_endpoint h1 h2 → same_endpoint h2 h3 → same_endpoint h1 h3.
Proof. intros (?&?&?&?&?&?&?&?) (?&?&?&?&?&?&?&?). repeat split; congruence. Qed.

Lemma same_registration_endpoint h h' : same_registration h h' → same_endpoint h h'.
Proof. intros (?&?&?&?&?&?&?&?&?). by repeat split. Qed.

Lemma same_setup_refl e : same_setup e e.
Proof. repeat split; try done. Qed.

Lemma same_setup_trans e1 e2 e3 : same_setup e1 e2 → same_setup e2 e3 → same_setup e1 e3.
Proof.
  intros (?&?&?&?&?&?&?&?&?&?&Hn1&?&Hh1) (?&?&?&?&?&?&?&?&?&?&Hn2&?&Hh2).
  unfold same_setup. repeat (split; [congruence|]).
  split; [tauto|]. split; [congruence|].
  intros j. eapply same_endpoint_trans; [apply Hh1 | apply Hh2].
Qed.

Lemma same_setup_wait_set ws e : same_setup e (set_wait_set ws e).
Proof. repeat split; try done. Qed.

Lemma same_setup_store e i h :
  same_endpoint (handle_array e !!! i) h → same_setup e (store_handle (N.of_nat i) h e).
Proof.
  unfold same_setup, store_handle, handle_array. simpl. rewrite Nat2N.id.
  destruct (handles e) as [hs|]; simpl; intros Hh; repeat (split; [done|]).
  - split; [apply length_insert|]. intros j.
    rewrite list_lookup_total_insert. case_decide as Hj; [|apply same_endpoint_refl].
    by destruct Hj as [-> _].
  - apply same_endpoint_refl.
Qed.

Lemma prepare_same_setup e : same_setup e (rclc_executor_prepare e).2.
Proof.
  unfold rclc_executor_prepare. destruct (negb _); [|apply same_setup_refl].
  destruct (rcl_wait_set_fini _) as [rc ws]. simpl.
  destruct (rcl_wait_set_init _ _ _ _ _ _ _ _ _) as [rc' ws']. simpl.
  repeat split; try done.
Qed.

Lemma wait_set_add_body_same_setup i e :
  match wait_set_add_body i e with
  | Continue _ e' | Return _ e' => same_setup e e'
  end.
Proof.
  unfold wait_set_add_body.
  assert (∀ f : rcl_wait_set_t → void_ptr → size_t → rcl_ret_t * rcl_wait_set_t * size_t,
            match (let '(rc, ws, slot) :=
                     f (wait_set e) (entity (handle_array e !!! i)) (h_index (handle_array e !!! i)) in
                   if rc =r? RCL_RET_OK
                   then Continue rc (set_wait_set ws
                          (store_handle (N.of_nat i) (set_h_index slot (handle_array e !!! i)) e))
                   else Return rc (set_wait_set ws
                          (store_handle (N.of_nat i) (set_h_index slot (handle_array e !!! i)) e)))
            with
            | Continue _ e' | Return _ e' => same_setup e e'
            end) as Hadd.
  { intros f. destruct (f _ _ _) as [[rc ws] slot].
    assert (same_setup e (set_wait_set ws
              (store_handle (N.of_nat i) (set_h_index slot (handle_array e !!! i)) e))) as Hs.
    { eapply same_setup_trans; [|apply same_setup_wait_set].
      apply same_setup_store. by repeat split. }
    by destruct (rc =r? RCL_RET_OK). }
  destruct (type (handle_array e !!! i)); try apply Hadd. apply same_setup_refl.
Qed.

Lemma wait_set_add_loop_same_setup mx fuel i rc e :
  match for_handles handle_array mx wait_set_add_body fuel i rc e with
  | Continue _ e' | Return _ e' => same_setup e e'
  end.
Proof.
  pose proof (for_handles_inv handle_array mx wait_set_add_body
                (λ _ _ e', same_setup e e') (λ _ e', same_setup e e')) as Hinv.
  specialize (Hinv ltac:(
    intros j rcj s Hs _ _; pose proof (wait_set_add_body_same_setup j s) as Hb;
    destruct (wait_set_add_body j s); (eapply same_setup_trans; [exact Hs | exact Hb])) fuel i rc e
    (same_setup_refl e)).
  destruct (for_handles _ _ _ _ _ _ _) as [rc' e'|rc' e']; [|done].
  by destruct Hinv as (k & _ & Hs & _).
Qed.


Lemma scheduler_same_table e (r : @round Ext) rc r' :
  scheduler_of e r = Some (rc, r') → same_table (r_handles r) (r_handles r').
Proof.
  unfold scheduler_of. destruct (data_comm_semantics e); intros Hrun.
  - by eapply default_scheduling_same_table.
  - by destruct (let_scheduling_spec e r rc r' Hrun).
Qed.

Lemma scheduler_None e (r : @round Ext) : scheduler_of e r = None → trigger_function e = None.
Proof.
  unfold scheduler_of. destruct (data_comm_semantics e).
  - apply default_scheduling_None.
  - apply let_scheduling_None.
Qed.

(** The two ways in which [rclc_executor_spin_some] ends: it returns before
    waiting, with an empty trace, or it waits and runs a round of the
    scheduler on the handle table. *)
Lemma spin_some_inv e timeout (w : world Ext) :
  match rclc_executor_spin_some e timeout w with
  | Some (rc, e', w', tr) =>
      (tr = [] ∧ same_setup e e')
      ∨ ∃ e3 rcw w2 r',
          same_setup e e3
          ∧ scheduler_of e3 (mk_round (handle_array e3) (w2, [ev_wait (to_int64 (Z.of_N timeout)) rcw]))
            = Some (rc, r')
          ∧ e' = set_handles ((λ _, r_handles r') <$> handles e3) e3
          ∧ w' = (r_effects r').1
          ∧ tr = trace_of r'
  | None => trigger_function e = None
  end.
Proof.
  unfold rclc_executor_spin_some.
  destruct (negb (rcl_context_is_valid (exe_context e) w)); [left; split; [done|apply same_setup_refl]|].
  pose proof (prepare_same_setup e) as Hprep.
  set (e1 := (rclc_executor_prepare e).2) in *. clearbody e1.
  destruct (rcl_wait_set_clear (wait_set e1)) as [rc1 ws1].
  assert (same_setup e (set_wait_set ws1 e1)) as Hclear.
  { eapply same_setup_trans; [done | apply same_setup_wait_set]. }
  set (e2 := set_wait_set ws1 e1) in *. clearbody e2.
  destruct (rc1 <>r? RCL_RET_OK); [by left|].
  pose proof (wait_set_add_loop_same_setup (max_handles e2) (N.to_nat (max_handles e2)) 0 rc1 e2)
    as Hadd.
  destruct (for_handles handle_array _ wait_set_add_body _ _ _ _) as [rc2 e3|rc2 e3].
  2:{ left. split; [done|]. by eapply same_setup_trans. }
  destruct (rcl_wait (wait_set e3) (to_int64 (Z.of_N timeout)) w) as [[rcw ws3] w2].
  assert (same_setup e (set_wait_set ws3 e3)) as Hwait.
  { eapply same_setup_trans; [done|]. eapply same_setup_trans; [done|].
    apply same_setup_wait_set. }
  set (e4 := set_wait_set ws3 e3) in *. clearbody e4.
  assert (match data_comm_semantics e4 with
          | RCLCPP_EXECUTOR =>
              finish_round e4
                (_rclc_default_scheduling e4
                   (mk_round (handle_array e4) (w2, [ev_wait (to_int64 (Z.of_N timeout)) rcw])))
          | LET =>
              finish_round e4
                (_rclc_let_scheduling e4 (mk_round (handle_array e4) (w2, [ev_wait (to_int64 (Z.of_N timeout)) rcw])))
          end
          = finish_round e4
              (scheduler_of e4 (mk_round (handle_array e4) (w2, [ev_wait (to_int64 (Z.of_N timeout)) rcw])))) as ->.
  { unfold scheduler_of. by destruct (data_comm_semantics e4). }
  destruct (scheduler_of e4 _) as [[rc r']|] eqn:Hrun; simpl.
  - right. by exists e4, rcw, w2, r'.
  - apply scheduler_None in Hrun. destruct Hwait as (_&_&_&_&_&_&_&Ht&_). congruence.
Qed.

Lemma finish_round_same_setup e (r' : @round Ext) :
  same_table (handle_array e) (r_handles r') →
  same_setup e (set_handles ((λ _, r_handles r') <$> handles e) e)
  ∧ handle_array (set_handles ((λ _, r_handles r') <$> handles e) e) = r_handles r'.
Proof.
  intros [Hlen Htab]. unfold same_setup, handle_array in *. simpl.
  destruct (handles e) as [hs|]; simpl in *.
  - split; [|done]. repeat (split; [done|]).
    intros j. by apply same_registration_endpoint.
  - apply nil_length_inv in Hlen. rewrite Hlen. split; [|done].
    repeat (split; [done|]). done.
Qed.

(** [rclc_executor_spin_some] does not change what is registered: the
    configuration of the executor, the number of handles in use and the
    counters stay as they are, the handle table keeps its length, and in
    every handle only the wait-set slot, [data_available] and [req_id] are
    written.  (The call is undefined only for a [NULL] trigger function.) *)
Theorem spin_some_keeps_setup :
  ∀ (e : rclc_executor_t) (timeout : N) (w : world Ext),
    match rclc_executor_spin_some e timeout w with
    | Some (_, e', _, _) => same_setup e e'
    | None => trigger_function e = None
    end.
Proof.
  intros e timeout w. pose proof (spin_some_inv e timeout w) as Hinv.
  destruct (rclc_executor_spin_some e timeout w) as [[[[rc e'] w'] tr]|]; [|done].
  destruct Hinv as [[_ Hs]|(e3 & rcw & w2 & r' & Hs & Hrun & -> & _ & _)]; [done|].
  apply scheduler_same_table in Hrun. simpl in Hrun.
  eapply same_setup_trans; [done|]. by apply finish_round_same_setup.
Qed.

(** When [rcl_wait] leaves nothing ready, [rclc_executor_spin_some] with the
    trigger [rclc_executor_trigger_any] returns [RCL_RET_OK] without a take or
    a callback, whatever [rcl_wait] returned: the result of [rcl_wait] (for
    instance [RCL_RET_TIMEOUT]) is not the result of the call. *)
Theorem spin_some_ignores_the_result_of_wait :
  ∀ (e : rclc_executor_t) (timeout : N) (w : world Ext)
    (rc : rcl_ret_t) (e' : rclc_executor_t) (w' : world Ext) (tr : list event),
    rclc_executor_spin_some e timeout w = Some (rc, e', w', tr) →
    tr ≠ [] →
    trigger_function e = Some rclc_executor_trigger_any →
    nothing_ready (max_handles e') (wait_set e') (handle_array e') →
    rc = RCL_RET_OK ∧ ∃ rcw, tr = [ev_wait (to_int64 (Z.of_N timeout)) rcw].
Proof.
  intros e timeout w rc e' w' tr Hspin Htr Htrig Hidle.
  pose proof (spin_some_inv e timeout w) as Hinv. rewrite Hspin in Hinv.
  destruct Hinv as [[-> _]|(e3 & rcw & w2 & r' & Hs & Hrun & -> & _ & ->)]; [done|].
  pose proof (scheduler_same_table _ _ _ _ Hrun) as Htab. simpl in Htab.
  destruct (finish_round_same_setup e3 r' Htab) as [Hs' Harr].
  rewrite Harr in Hidle. simpl in Hidle.
  assert (trigger_function e3 = Some rclc_executor_trigger_any) as Htrig3.
  { destruct Hs as (_&_&_&_&_&_&_&Ht&_). congruence. }
  assert (nothing_ready (max_handles e3) (wait_set e3) (handle_array e3)) as Hidle3.
  { eapply nothing_ready_same_table; [by apply same_table_sym | done]. }
  destruct (idle_round e3 (mk_round (handle_array e3) (w2, [ev_wait (to_int64 (Z.of_N timeout)) rcw]))
              Htrig3 Hidle3) as (r1 & Hdef & Hlet & Heff & _).
  assert (scheduler_of e3 (mk_round (handle_array e3) (w2, [ev_wait (to_int64 (Z.of_N timeout)) rcw]))
          = Some (RCL_RET_OK, r1)) as Hrun'.
  { unfold scheduler_of. by destruct (data_comm_semantics e3). }
  rewrite Hrun in Hrun'. injection Hrun' as -> ->.
  split; [done|]. exists rcw. unfold trace_of. by rewrite Heff.
Qed.

(** C2: what [rclc_executor_spin_some] returns when the wait elapses idle.
    The call has waited, [rcl_wait] has returned [RCL_RET_TIMEOUT] and has
    left nothing ready; the trigger is [rclc_executor_trigger_any], which
    [rclc_executor_init] installs.  The call returns [RCL_RET_OK], the
    specification's [Ok] and not its [Timeout]: the result of [rcl_wait] is
    assigned to [rc] and overwritten by the result of the scheduler, which
    takes nothing and calls nothing. *)
Theorem spin_some_returns_ok_after_an_idle_wait :
  ∀ (e : rclc_executor_t) (timeout : N) (w : world Ext)
    (rc : rcl_ret_t) (e' : rclc_executor_t) (w' : world Ext) (tr : list event),
    rclc_executor_spin_some e timeout w = Some (rc, e', w', tr) →
    trigger_function e = Some rclc_executor_trigger_any →
    ev_wait (to_int64 (Z.of_N timeout)) RCL_RET_TIMEOUT ∈ tr →
    nothing_ready (max_handles e') (wait_set e') (handle_array e') →
    rc = RCL_RET_OK
    ∧ spec_result_of rc = Ok
    ∧ spec_result_of rc ≠ Timeout
    ∧ tr = [ev_wait (to_int64 (Z.of_N timeout)) RCL_RET_TIMEOUT]
    ∧ same_setup e e'.
Proof.
  intros e timeout w rc e' w' tr Hspin Htrig Hwait Hidle.
  pose proof (spin_some_inv e timeout w) as Hinv. rewrite Hspin in Hinv.
  destruct Hinv as [[-> _]|(e3 & rcw & w2 & r' & Hs & Hrun & -> & _ & ->)];
    [by apply elem_of_nil in Hwait|].
  pose proof (scheduler_same_table _ _ _ _ Hrun) as Htab. simpl in Htab.
  destruct (finish_round_same_setup e3 r' Htab) as [Hs' Harr].
  rewrite Harr in Hidle. simpl in Hidle.
  assert (trigger_function e3 = Some rclc_executor_trigger_any) as Htrig3.
  { destruct Hs as (_&_&_&_&_&_&_&Ht&_). congruence. }
  assert (nothing_ready (max_handles e3) (wait_set e3) (handle_array e3)) as Hidle3.
  { eapply nothing_ready_same_table; [by apply same_table_sym | done]. }
  destruct (idle_round e3 (mk_round (handle_array e3) (w2, [ev_wait (to_int64 (Z.of_N timeout)) rcw]))
              Htrig3 Hidle3) as (r1 & Hdef & Hlet & Heff & _).
  assert (scheduler_of e3 (mk_round (handle_array e3) (w2, [ev_wait (to_int64 (Z.of_N timeout)) rcw]))
          = Some (RCL_RET_OK, r1)) as Hrun'.
  { unfold scheduler_of. by destruct (data_comm_semantics e3). }
  rewrite Hrun in Hrun'. injection Hrun' as -> ->.
  unfold trace_of in Hwait |- *. rewrite Heff in Hwait |- *. cbn [snd] in Hwait |- *.
  apply list_elem_of_singleton in Hwait. injection Hwait as <-.
  repeat (split; [done|]). by eapply same_setup_trans.
Qed.

End IdleRound.

(** A witness: the executor with two timers and a subscription spins in a
    world in which nothing is pending.  [rcl_wait] of the reference
    middleware returns [RCL_RET_TIMEOUT]; the call returns [RCL_RET_OK]. *)
Lemma spin_some_ignores_the_result_of_wait_witness :
  rclc_executor_spin_some (api := Toy.api) (rt := Toy.runtime) Example.three_handles 0 Toy.quiet
  = Some (Scenario.idle_spin.1.1.1, Scenario.idle_spin.1.1.2, Scenario.idle_spin.1.2,
          Scenario.idle_spin.2)
  ∧ Scenario.idle_spin.1.1.1 = RCL_RET_OK
  ∧ Scenario.idle_spin.2 = [ev_wait 0 RCL_RET_TIMEOUT].
Proof.
  assert (rclc_executor_spin_some (api := Toy.api) (rt := Toy.runtime)
            Example.three_handles 0 Toy.quiet
          = Some (Scenario.idle_spin.1.1.1, Scenario.idle_spin.1.1.2, Scenario.idle_spin.1.2,
                  Scenario.idle_spin.2)) as Hspin
    by (apply spun_result; vm_compute; reflexivity).
  split; [exact Hspin|]. split; [|vm_compute; reflexivity].
  apply (spin_some_ignores_the_result_of_wait (api := Toy.api) (rt := Toy.runtime)
           Example.three_handles 0 Toy.quiet _ _ _ _ Hspin).
  - vm_compute. discriminate.
  - reflexivity.
  - intros i Hpre. destruct (Hpre i (le_n i)) as [Hlt _].
    assert (max_handles Scenario.idle_spin.1.1.2 = 3) as Hmax by (vm_compute; reflexivity).
    rewrite Hmax in Hlt.
    destruct i as [|[|[|i]]]; [vm_compute; reflexivity .. | lia].
Defined.

(** C2, a failing input: the executor with two timers and a subscription,
    initialised and with a valid context, spins with a timeout of 0 in a
    world in which nothing is pending.  [rcl_wait] of the reference
    middleware returns [RCL_RET_TIMEOUT] and leaves nothing ready; the call
    returns [RCL_RET_OK], which is not the specification's [Timeout]. *)
Lemma spin_some_returns_ok_after_an_idle_wait_witness :
  Scenario.idle_spin.2 = [ev_wait 0 RCL_RET_TIMEOUT]
  ∧ Scenario.idle_spin.1.1.1 = RCL_RET_OK
  ∧ spec_result_of Scenario.idle_spin.1.1.1 ≠ Timeout
  ∧ same_setup Example.three_handles Scenario.idle_spin.1.1.2.
Proof.
  assert (rclc_executor_spin_some (api := Toy.api) (rt := Toy.runtime)
            Example.three_handles 0 Toy.quiet
          = Some (Scenario.idle_spin.1.1.1, Scenario.idle_spin.1.1.2, Scenario.idle_spin.1.2,
                  Scenario.idle_spin.2)) as Hspin
    by (apply spun_result; vm_compute; reflexivity).
  destruct (spin_some_returns_ok_after_an_idle_wait (api := Toy.api) (rt := Toy.runtime)
              Example.three_handles 0 Toy.quiet _ _ _ _ Hspin)
    as (Hrc & _ & Hspec & Htr & Hsetup).
  - reflexivity.
  - assert (Scenario.idle_spin.2 = [ev_wait 0 RCL_RET_TIMEOUT]) as ->
      by (vm_compute; reflexivity).
    apply list_elem_of_here.
  - intros i Hpre. destruct (Hpre i (le_n i)) as [Hlt _].
    assert (max_handles Scenario.idle_spin.1.1.2 = 3) as Hmax by (vm_compute; reflexivity).
    rewrite Hmax in Hlt.
    destruct i as [|[|[|i]]]; [vm_compute; reflexivity .. | lia].
  - split; [exact Htr|]. split; [exact Hrc|]. split; [exact Hspec | exact Hsetup].
Defined.

(** ** Life cycle *)

Section LifecycleProperties.
Context {api : rcl_api}.

(** [rclc_executor_fini] always returns [RCL_RET_OK] (a failure of
    [rcl_wait_set_fini] is not reported), leaves an executor that is not
    valid, and does nothing on an executor that is not valid: on the
    zero-initialised executor and when it is called a second time. *)
Theorem fini_is_idempotent :
  ∀ e : rclc_executor_t,
    (rclc_executor_fini e).1 = RCL_RET_OK
    ∧ _rclc_executor_is_valid (rclc_executor_fini e).2 = false
    ∧ rclc_executor_fini (rclc_executor_fini e).2 = (RCL_RET_OK, (rclc_executor_fini e).2)
    ∧ rclc_executor_fini rclc_executor_get_zero_initialized_executor
      = (RCL_RET_OK, rclc_executor_get_zero_initialized_executor)
    ∧ (_rclc_executor_is_valid e = true →
       handles (rclc_executor_fini e).2 = None
       ∧ max_handles (rclc_executor_fini e).2 = 0
       ∧ index (rclc_executor_fini e).2 = 0
       ∧ info (rclc_executor_fini e).2 = rclc_executor_handle_counters_zero_init
       ∧ timeout_ns (rclc_executor_fini e).2 = DEFAULT_WAIT_TIMEOUT_NS).
Proof.
  intros e.
  assert (_rclc_executor_is_valid (rclc_executor_fini e).2 = false) as Hinvalid.
  { unfold rclc_executor_fini. destruct (_rclc_executor_is_valid e) eqn:Hvalid; [|done].
    by destruct (rcl_wait_set_is_valid (wait_set _)). }
  split; [|split; [done|split; [|split]]].
  - unfold rclc_executor_fini. by destruct (_rclc_executor_is_valid e).
  - unfold rclc_executor_fini at 1. by rewrite Hinvalid.
  - done.
  - intros Hvalid. unfold rclc_executor_fini. rewrite Hvalid.
    by destruct (rcl_wait_set_is_valid (wait_set _)).
Qed.

(** [rclc_executor_init] either rejects its arguments with
    [RCL_RET_INVALID_ARGUMENT] and leaves the executor as it was, or fails to
    allocate the handle table with [RCL_RET_BAD_ALLOC] and leaves an executor
    that is not valid, or returns [RCL_RET_OK] with a valid executor of the
    given capacity in which no handle is in use: every slot is in the state
    that [rclc_executor_handle_init] leaves, the counters are zero, the
    timeout is one second, the semantics [RCLCPP_EXECUTOR] and the trigger
    [rclc_executor_trigger_any]. *)
Theorem init_establishes_an_empty_executor :
  ∀ (e : rclc_executor_t) (context : void_ptr) (n : size_t) (alloc : void_ptr),
    match (rclc_executor_init e context n alloc).1 with
    | RCL_RET_OK =>
        context ≠ NULL ∧ alloc ≠ NULL ∧ n ≠ 0
        ∧ _rclc_executor_is_valid (rclc_executor_init e context n alloc).2 = true
        ∧ (rclc_executor_init e context n alloc).2
          = {| exe_context := context;
               handles := Some (replicate (N.to_nat n) (rclc_executor_handle_init raw_handle n));
               max_handles := n;
               index := 0;
               allocator := alloc;
               wait_set := rcl_get_zero_initialized_wait_set;
               info := rclc_executor_handle_counters_zero_init;
               timeout_ns := 1000000000;
               invocation_time := 0%Z;
               trigger_function := Some rclc_executor_trigger_any;
               trigger_object := NULL;
               data_comm_semantics := RCLCPP_EXECUTOR |}
        ∧ (n < 2 ^ SIZE_WIDTH → consistent (rclc_executor_init e context n alloc).2)
    | RCL_RET_INVALID_ARGUMENT =>
        (rclc_executor_init e context n alloc).2 = e
        ∧ (context = NULL ∨ alloc = NULL ∨ rcutils_allocator_is_valid alloc = false ∨ n = 0)
    | RCL_RET_BAD_ALLOC =>
        _rclc_executor_is_valid (rclc_executor_init e context n alloc).2 = false
        ∧ handles (rclc_executor_init e context n alloc).2 = None
    | _ => False
    end.
Proof.
  intros e context n alloc.
  destruct (rclc_executor_init e context n alloc) as [rc e'] eqn:Hinit.
  pose proof Hinit as Hinit'. unfold rclc_executor_init in Hinit.
  unfold is_null in Hinit. case_bool_decide as Hctx; [injection Hinit as <- <-; simpl; auto|].
  case_bool_decide as Halloc; [injection Hinit as <- <-; simpl; auto|]. simpl in Hinit.
  destruct (rcutils_allocator_is_valid alloc) eqn:Hvalid; simpl in Hinit;
    [|injection Hinit as <- <-; simpl; auto].
  destruct (n =? 0) eqn:Hzero;
    [apply N.eqb_eq in Hzero; injection Hinit as <- <-; simpl; auto|].
  destruct (allocate alloc _).
  - unfold rclc_executor_set_semantics, rclc_executor_set_trigger, _rclc_executor_is_valid,
      is_null in Hinit. simpl in Hinit.
    rewrite (bool_decide_eq_false_2 _ Halloc), Hzero in Hinit. simpl in Hinit.
    injection Hinit as <- <-. simpl. apply N.eqb_neq in Hzero.
    split; [done|]. split; [done|]. split; [done|]. split.
    { unfold _rclc_executor_is_valid, is_null. simpl.
      rewrite (bool_decide_eq_false_2 _ Halloc). by destruct (n =? 0) eqn:?; [apply N.eqb_eq in Heqb|]. }
    split; [by rewrite fmap_replicate|].
    intros Hn. by destruct (init_consistent e context n alloc _ Hn Hinit').
  - injection Hinit as <- <-. simpl. split; [|done].
    unfold _rclc_executor_is_valid. simpl. done.
Qed.

End LifecycleProperties.

(** ** Registration calls in sequence *)

Section RegistrationSequences.
Context {api : rcl_api}.

Lemma invalidate_wait_set_invalid e :
  rcl_wait_set_is_valid (wait_set e) = false → invalidate_wait_set e = inr e.
Proof. intros H. unfold invalidate_wait_set. by rewrite H. Qed.

Lemma find_handle_after_add e hs f p :
  handles e = Some hs →
  (N.to_nat (index e) < length hs)%nat →
  index e < 2 ^ SIZE_WIDTH - 1 →
  ¬ registered e p →
  rclc_executor_handle_get_ptr (f (hs !!! N.to_nat (index e))) = p →
  _rclc_executor_find_handle (assign_next_handle f e) p = Some (N.to_nat (index e)).
Proof.
  intros Hhs Hlen Hidx Hnot Hp.
  assert (handle_array e = hs) as Harr by (unfold handle_array; by rewrite Hhs).
  unfold _rclc_executor_find_handle, assign_next_handle, store_handle, handle_at, handle_array.
  simpl. rewrite Hhs. simpl. rewrite size_incr_small by done.
  set (n := N.to_nat (index e)) in *.
  replace (N.to_nat (index e + 1)) with (S n) by lia.
  destruct (find_handle_loop _ p (S n) 0) as [i|] eqn:Hfind.
  - apply find_handle_loop_Some in Hfind as (Hi & Hpi & _).
    destruct (decide (i = n)) as [->|Hne]; [done|]. exfalso.
    rewrite list_lookup_total_insert_ne in Hpi by done.
    apply Hnot. exists i. rewrite Harr. split; [lia | done].
  - exfalso. eapply find_handle_loop_None with (j := n) in Hfind; [|lia].
    by rewrite list_lookup_total_insert_eq in Hfind.
Qed.


(** An [add_*] followed by the [remove_*] of the same endpoint, for any
    function [f] that fills the slot and any update [g] of the counters that
    the removal undoes. *)
Lemma add_then_remove e f g k o :
  consistent e →
  handles_full e = false →
  rcl_wait_set_is_valid (wait_set e) = false →
  ¬ registered e (Ptr (removal_type k) o) →
  rclc_executor_handle_get_ptr (f (handle_at e (index e))) = Ptr (removal_type k) o →
  req_id (f (handle_at e (index e))) = req_id (handle_at e (index e)) →
  removal_decrement k (g (info e)) = info e →
  rclc_executor_remove k (set_info (g (info e)) (assign_next_handle f e))
    (Ptr (removal_type k) o)
  = (RCL_RET_OK, e).
Proof.
  intros ((hs & Hhs & Hlen & Hidx & Hmax) & Hdense & Hinfo) Hfull Hws Hnot Hp Hreq Hg.
  apply N.leb_gt in Hfull.
  assert (handle_array e = hs) as Harr by (unfold handle_array; by rewrite Hhs).
  unfold handle_at in Hp, Hreq. rewrite Harr in Hp, Hreq.
  set (n := N.to_nat (index e)) in *.
  set (p := Ptr (removal_type k) o) in *.
  set (h := hs !!! n) in *.
  assert (free (max_handles e) h) as Hfree.
  { specialize (Hdense n ltac:(lia)). rewrite Harr in Hdense.
    rewrite bool_decide_eq_false_2 in Hdense by lia. done. }
  set (e1 := set_info (g (info e)) (assign_next_handle f e)).
  assert (size_incr (index e) = index e + 1) as Hincr by (apply size_incr_small; lia).
  assert (handles e1 = Some (<[n := f h]> hs)) as Hhs1.
  { unfold e1, assign_next_handle, store_handle, handle_at, handle_array. simpl.
    rewrite Hhs. done. }
  assert (index e1 = index e + 1) as Hidx1 by (unfold e1; simpl; done).
  assert (_rclc_executor_find_handle e1 p = Some n) as Hfind.
  { change (_rclc_executor_find_handle e1 p)
      with (_rclc_executor_find_handle (assign_next_handle f e) p).
    apply (find_handle_after_add e hs f p Hhs); [lia | lia | done | done]. }
  pose proof (remove_handle_found e1 (<[n := f h]> hs) n Hhs1) as Hrem.
  specialize (Hrem ltac:(rewrite length_insert; exact Hlen) ltac:(rewrite Hidx1; simpl; lia)
                Hmax ltac:(rewrite Hidx1; lia)
                ltac:(intros Hv; change (wait_set e1) with (wait_set e) in Hv; congruence)).
  change (wait_set e1) with (wait_set e) in Hrem. rewrite Hws in Hrem.
  rewrite Hidx1 in Hrem. replace (N.to_nat (index e + 1)) with (S n) in Hrem by lia.
  replace (S n - 1)%nat with n in Hrem by lia.
  replace (index e + 1 - 1) with (index e) in Hrem by lia.
  rewrite list_lookup_total_insert_eq in Hrem by lia.
  assert (delete n (take (S n) (<[n := f h]> hs)) = take n hs) as Hdel.
  { rewrite delete_take_drop, take_take, drop_ge by (rewrite length_take, length_insert; lia).
    rewrite app_nil_r. replace (n `min` S n)%nat with n by lia.
    by rewrite take_insert_ge. }
  assert (rclc_executor_handle_init (f h) (max_handles e1) = h) as Hslot.
  { rewrite Hfree at 2. unfold rclc_executor_handle_init. by rewrite Hreq. }
  rewrite Hdel, Hslot, drop_insert_lt in Hrem by lia.
  assert (take n hs ++ h :: drop (S n) hs = hs) as Hhs'.
  { apply take_drop_middle. apply list_lookup_lookup_total_lt. lia. }
  rewrite Hhs' in Hrem.
  assert (rclc_executor_remove k e1 p
          = (let r := _rclc_executor_remove_handle e1 (Some n) in
             if r.1 <>r? RCL_RET_OK then r
             else (r.1, set_info (removal_decrement k (info r.2)) r.2))) as ->.
  { destruct k;
      unfold rclc_executor_remove, rclc_executor_remove_subscription,
        rclc_executor_remove_timer, rclc_executor_remove_client,
        rclc_executor_remove_service, rclc_executor_remove_guard_condition;
      change (is_null p) with false; cbv iota zeta; rewrite Hfind;
      destruct (_rclc_executor_remove_handle e1 (Some n)) as [ret e2]; cbn [fst snd];
      by destruct (ret <>r? RCL_RET_OK). }
  rewrite Hrem. cbv zeta. cbn [fst snd negb ret_eqb]. simpl. rewrite Hg.
  f_equal. destruct e as [c0 h0 mx idx al ws inf tn it tf tobj sem]. simpl in *.
  by subst h0.
Qed.


Lemma decrement_undoes_increment k hs :
  removal_decrement k
    (match k with
     | remove_subscription => incr_subscriptions
     | remove_timer => incr_timers
     | remove_client => incr_clients
     | remove_service => incr_services
     | remove_guard_condition => incr_guard_conditions
     end (census hs))
  = census hs.
Proof.
  unfold census.
  destruct k; unfold removal_decrement, decr_subscriptions, decr_timers, decr_clients,
    decr_services, decr_guard_conditions, incr_subscriptions, incr_timers, incr_clients,
    incr_services, incr_guard_conditions, add_subscriptions, add_timers, add_clients,
    add_services, add_guard_conditions; simpl;
    by rewrite size_incr_decr, size_wrap_idemp.
Qed.

(** A plain [add_*] that succeeds on an executor whose wait set is not
    valid: it fills the next slot and increments one counter. *)
Lemma register_plain_add op k o e m :
  removal_of op = Some (k, o) →
  arguments_accepted op = true →
  handles_full e = false →
  rcl_wait_set_is_valid (wait_set e) = false →
  ∃ f g,
    register op (e, m) = (RCL_RET_OK, (set_info (g (info e)) (assign_next_handle f e), m))
    ∧ (∀ h, rclc_executor_handle_get_ptr (f h) = Ptr (removal_type k) o
            ∧ req_id (f h) = req_id h ∧ initialized (f h) = true)
    ∧ (∀ hs, removal_decrement k (g (census hs)) = census hs).
Proof.
  intros Hrem Hargs Hfull Hws.
  assert (∀ f, invalidate_wait_set (assign_next_handle f e) = inr (assign_next_handle f e))
    as Hinv.
  { intros f. by apply invalidate_wait_set_invalid. }
  destruct op; try discriminate Hrem; injection Hrem as <- <-; simpl in Hargs;
    repeat match goal with
           | H : _ && _ = true |- _ => apply andb_prop in H; destruct H
           | H : negb _ = true |- _ => apply negb_true_iff in H
           end;
    cbn [register fst snd];
    unfold rclc_executor_add_subscription, rclc_executor_add_subscription_with_context,
      rclc_executor_add_timer, rclc_executor_add_client,
      rclc_executor_add_client_with_request_id, rclc_executor_add_service,
      rclc_executor_add_service_with_context, rclc_executor_add_service_with_request_id,
      rclc_executor_add_guard_condition;
    repeat match goal with
           | H : is_null ?p = false |- _ => rewrite H; clear H
           end;
    change (is_null (Ptr _ _)) with false; cbv iota; rewrite Hfull, Hinv; cbn [fst snd];
    match goal with
    | |- ∃ f g, (_, (set_info (?g0 (info (assign_next_handle ?f0 e))) _, _)) = _ ∧ _ =>
        exists f0, g0
    end;
    (split; [reflexivity|]); (split; [by intros h|]);
    intros hs;
    first [ apply (decrement_undoes_increment remove_subscription hs)
          | apply (decrement_undoes_increment remove_timer hs)
          | apply (decrement_undoes_increment remove_client hs)
          | apply (decrement_undoes_increment remove_service hs)
          | apply (decrement_undoes_increment remove_guard_condition hs) ].
Qed.

(** On an executor obtained by registration calls, on which the wait set is
    not valid and the table is not full: adding a plain endpoint that is not
    registered yet and removing it again gives back the executor as it was,
    handle table and counters included. *)
Theorem add_then_remove_restores_the_executor :
  ∀ (e0 : rclc_executor_t) (context : void_ptr) (n : size_t) (alloc : void_ptr)
    (e : rclc_executor_t) (ops : list registration) (m : action_memory)
    (e1 : rclc_executor_t) (m1 : action_memory)
    (op : registration) (k : removal) (o : N),
    n < 2 ^ SIZE_WIDTH →
    rclc_executor_init e0 context n alloc = (RCL_RET_OK, e) →
    register_all ops (e, m) = Some (e1, m1) →
    removal_of op = Some (k, o) →
    arguments_accepted op = true →
    index e1 < max_handles e1 →
    ¬ registered e1 (Ptr (removal_type k) o) →
    rcl_wait_set_is_valid (wait_set e1) = false →
    register_all [op; remove k o] (e1, m1) = Some (e1, m1).
Proof.
  intros e0 context n alloc e ops m e1 m1 op k o Hn Hinit Hall Hrem Hargs Hidx Hnot Hws.
  destruct (init_consistent _ _ _ _ _ Hn Hinit) as (Hc0 & _ & _).
  pose proof (register_all_consistent _ _ _ _ _ Hc0 Hall) as Hc.
  assert (handles_full e1 = false) as Hfull by (unfold handles_full; by apply N.leb_gt).
  assert (info e1 = census (handle_array e1)) as Hinfo by apply Hc.
  destruct (register_plain_add op k o e1 m1 Hrem Hargs Hfull Hws) as (f & g & Hreg & Hf & Hg).
  destruct (Hf (handle_at e1 (index e1))) as (Hp & Hreq & _).
  assert (removal_decrement k (g (info e1)) = info e1) as Hg' by (rewrite Hinfo; apply Hg).
  cbn [register_all]. rewrite Hreg. unfold ret_eqb at 1. rewrite bool_decide_eq_true_2 by done.
  change (register (remove k o) (set_info (g (info e1)) (assign_next_handle f e1), m1))
    with ((rclc_executor_remove k (set_info (g (info e1)) (assign_next_handle f e1))
             (Ptr (removal_type k) o)).1,
          ((rclc_executor_remove k (set_info (g (info e1)) (assign_next_handle f e1))
              (Ptr (removal_type k) o)).2, m1)).
  rewrite (add_then_remove e1 f g k o Hc Hfull Hws Hnot Hp Hreq Hg'). cbn [fst snd].
  unfold ret_eqb. by rewrite bool_decide_eq_true_2.
Qed.


(** *** The wait set after a registration call *)

Lemma invalidate_wait_set_inr_wait_set e e' :
  invalidate_wait_set e = inr e' →
  wait_set e'
  = if rcl_wait_set_is_valid (wait_set e) then (rcl_wait_set_fini (wait_set e)).2
    else wait_set e.
Proof.
  unfold invalidate_wait_set. destruct (rcl_wait_set_is_valid (wait_set e)).
  - destruct (rcl_wait_set_fini (wait_set e)) as [ret ws].
    destruct (ret <>r? RCL_RET_OK); [done|]. by intros [= <-].
  - by intros [= <-].
Qed.

Lemma remove_handle_ok_wait_set e h e' :
  _rclc_executor_remove_handle e h = (RCL_RET_OK, e') →
  wait_set e'
  = if rcl_wait_set_is_valid (wait_set e) then (rcl_wait_set_fini (wait_set e)).2
    else wait_set e.
Proof.
  unfold _rclc_executor_remove_handle. destruct h as [i|]; [|done].
  destruct (index e <=? N.of_nat i); [done|]. destruct (index e =? 0); [done|].
  match goal with
  | |- context [invalidate_wait_set ?e1] =>
      destruct (invalidate_wait_set e1) as [[ret e2]|e2] eqn:Hinv
  end.
  - apply invalidate_wait_set_inl in Hinv. simpl in Hinv. by intros [= -> _].
  - apply invalidate_wait_set_inr_wait_set in Hinv. by intros [= <-].
Qed.

Lemma remove_unfold k e p :
  p ≠ NULL →
  rclc_executor_remove k e p
  = (let r := _rclc_executor_remove_handle e (_rclc_executor_find_handle e p) in
     if r.1 <>r? RCL_RET_OK then r
     else (r.1, set_info (removal_decrement k (info r.2)) r.2)).
Proof.
  intros Hp. assert (is_null p = false) as Hnull by (unfold is_null; by case_bool_decide).
  destruct k;
    unfold rclc_executor_remove, rclc_executor_remove_subscription,
      rclc_executor_remove_timer, rclc_executor_remove_client,
      rclc_executor_remove_service, rclc_executor_remove_guard_condition;
    rewrite Hnull; cbv zeta;
    destruct (_rclc_executor_remove_handle e (_rclc_executor_find_handle e p)) as [ret e2];
    cbn [fst snd]; by destruct (ret <>r? RCL_RET_OK).
Qed.

(** A registration call that succeeds has finalised the wait set if it was
    valid. *)
Lemma register_ok_wait_set op e m e' m' :
  register op (e, m) = (RCL_RET_OK, (e', m')) →
  wait_set e'
  = if rcl_wait_set_is_valid (wait_set e) then (rcl_wait_set_fini (wait_set e)).2
    else wait_set e.
Proof.
  intros Hreg. destruct op; simpl in Hreg;
    unfold rclc_executor_add_subscription, rclc_executor_add_subscription_with_context,
      rclc_executor_add_timer, rclc_executor_add_client,
      rclc_executor_add_client_with_request_id, rclc_executor_add_service,
      rclc_executor_add_service_with_context, rclc_executor_add_service_with_request_id,
      rclc_executor_add_guard_condition, rclc_executor_add_action_client,
      rclc_executor_add_action_server in Hreg;
    repeat match type of Hreg with
           | context [if is_null ?p then _ else _] => destruct (is_null p); [done|]
           end.
  1-9: destruct (handles_full e); try done;
    match type of Hreg with
    | context [invalidate_wait_set ?e1] =>
        destruct (invalidate_wait_set e1) as [r|e2] eqn:Hinv
    end; simpl in Hreg;
    first [ apply invalidate_wait_set_inl in Hinv; injection Hreg as Hreg _ _; congruence
          | apply invalidate_wait_set_inr_wait_set in Hinv; injection Hreg as <- _;
            exact Hinv ].
  - destruct (negb (is_null feedback_callback) && is_null ros_feedback); [done|].
    destruct (handles_full e); [done|]. destruct (negb (allocate _ _)); [done|].
    match type of Hreg with
    | context [invalidate_wait_set ?e1] =>
        destruct (invalidate_wait_set e1) as [[ret e2]|e2] eqn:Hinv; simpl in Hreg
    end.
    { apply invalidate_wait_set_inl in Hinv. injection Hreg as Hreg _ _. simpl in Hinv.
      congruence. }
    apply invalidate_wait_set_inr_wait_set in Hinv.
    destruct (rcl_action_client_wait_set_get_num_entities _) as [ret [[[[n1 n2] n3] n4] n5]].
    injection Hreg as _ <- _. exact Hinv.
  - destruct (ros_goal_request_size <=? 0); [done|].
    destruct (handles_full e); [done|]. destruct (negb (allocate _ _)); [done|].
    match type of Hreg with
    | context [invalidate_wait_set ?e1] =>
        destruct (invalidate_wait_set e1) as [[ret e2]|e2] eqn:Hinv; simpl in Hreg
    end.
    { apply invalidate_wait_set_inl in Hinv. injection Hreg as Hreg _ _. simpl in Hinv.
      congruence. }
    apply invalidate_wait_set_inr_wait_set in Hinv.
    destruct (rcl_action_server_wait_set_get_num_entities _) as [ret [[[[n1 n2] n3] n4] n5]].
    injection Hreg as _ <- _. exact Hinv.
  - rewrite remove_unfold in Hreg by done. cbv zeta in Hreg.
    destruct (_rclc_executor_remove_handle e _) as [ret e2] eqn:Hrem. cbn [fst snd] in Hreg.
    unfold ret_eqb in Hreg. case_bool_decide as Hok; simpl in Hreg.
    + subst ret. injection Hreg as <- _. exact (remove_handle_ok_wait_set _ _ _ Hrem).
    + injection Hreg as Hreg _ _. congruence.
Qed.


Lemma consistent_set_wait_set ws e : consistent e → consistent (set_wait_set ws e).
Proof. intros (Hwf & Hdense & Hinfo). done. Qed.

Lemma prepare_sets_wait_set e : ∃ ws, (rclc_executor_prepare e).2 = set_wait_set ws e.
Proof.
  unfold rclc_executor_prepare. destruct (negb _).
  - destruct (rcl_wait_set_fini _) as [rc ws]. simpl.
    destruct (rcl_wait_set_init _ _ _ _ _ _ _ _ _) as [rc' ws']. simpl. by exists ws'.
  - exists (wait_set e). by destruct e.
Qed.

Lemma prepare_consistent e : consistent e → consistent (rclc_executor_prepare e).2.
Proof.
  intros Hc. destruct (prepare_sets_wait_set e) as [ws ->]. by apply consistent_set_wait_set.
Qed.

(** A registration call that succeeds leaves the wait set finalised, so
    that the next [rclc_executor_prepare] (the next [rclc_executor_spin_some])
    builds a new wait set, whose sizes are the numbers of entities of the
    handles that are in the table now.  The statement is for a middleware
    whose [rcl_wait_set_fini] leaves the wait set invalid. *)
Theorem registration_makes_prepare_rebuild_the_wait_set :
  ∀ (op : registration) (e : rclc_executor_t) (m : action_memory)
    (e' : rclc_executor_t) (m' : action_memory),
    consistent e →
    (∀ ws, rcl_wait_set_is_valid (rcl_wait_set_fini ws).2 = false) →
    register op (e, m) = (RCL_RET_OK, (e', m')) →
    rcl_wait_set_is_valid (wait_set e') = false
    ∧ rclc_executor_prepare e'
      = (let c := census (handle_array e') in
         let r := rcl_wait_set_init rcl_get_zero_initialized_wait_set
                    (number_of_subscriptions c) (number_of_guard_conditions c)
                    (number_of_timers c) (number_of_clients c) (number_of_services c) 0
                    (exe_context e') (allocator e') in
         (r.1, set_wait_set r.2 e')).
Proof.
  intros op e m e' m' Hc Hlaw Hreg.
  assert (rcl_wait_set_is_valid (wait_set e') = false) as Hinvalid.
  { rewrite (register_ok_wait_set _ _ _ _ _ Hreg).
    destruct (rcl_wait_set_is_valid (wait_set e)) eqn:Hv; [apply Hlaw | done]. }
  split; [done|].
  destruct (register_consistent _ _ _ _ _ Hc Hreg) as (_ & _ & Hinfo).
  unfold rclc_executor_prepare. rewrite Hinvalid. cbn [negb].
  destruct (rcl_wait_set_fini (wait_set e')) as [rc ws]. cbv zeta. cbn [info exe_context allocator set_wait_set wait_set].
  rewrite Hinfo. cbn [number_of_events census].
  by destruct (rcl_wait_set_init _ _ _ _ _ _ _ _ _).
Qed.

Lemma size_add_1_ne x : size_add (size_wrap x) 1 ≠ size_wrap x.
Proof.
  unfold size_add, size_wrap, SIZE_WIDTH.
  assert (x mod 2 ^ 64 < 2 ^ 64) as Hlt by (apply N.mod_lt; lia).
  set (y := x mod 2 ^ 64) in *. clearbody y.
  destruct (decide (y + 1 < 2 ^ 64)) as [Hsmall|Hbig].
  - rewrite N.mod_small by done. lia.
  - replace (y + 1) with (2 ^ 64) by lia. rewrite N.Div0.mod_same. lia.
Qed.

(** An [add_*] of a plain endpoint whose [rcl_wait_set_fini] fails returns
    the error of the finalisation after the handle has been stored: the
    endpoint is registered and the number of handles in use is incremented,
    but the counter of its sort is not, so that the counters no longer match
    the handle table. *)
Theorem add_is_not_undone_when_fini_fails :
  ∀ (op : registration) (k : removal) (o : N) (e : rclc_executor_t) (m : action_memory),
    consistent e →
    removal_of op = Some (k, o) →
    arguments_accepted op = true →
    index e < max_handles e →
    rcl_wait_set_is_valid (wait_set e) = true →
    (rcl_wait_set_fini (wait_set e)).1 ≠ RCL_RET_OK →
    (register op (e, m)).1 = (rcl_wait_set_fini (wait_set e)).1
    ∧ index (register op (e, m)).2.1 = index e + 1
    ∧ registered (register op (e, m)).2.1 (Ptr (removal_type k) o)
    ∧ info (register op (e, m)).2.1 = info e
    ∧ info (register op (e, m)).2.1 ≠ census (handle_array (register op (e, m)).2.1).
Proof.
  intros op k o e m Hc Hrem Hargs Hidx Hvalid Hfail.
  destruct Hc as ((hs & Hhs & Hlen & Hle & Hmax) & Hdense & Hinfo).
  assert (handles_full e = false) as Hfull by (unfold handles_full; by apply N.leb_gt).
  assert (handle_array e = hs) as Harr by (unfold handle_array; by rewrite Hhs).
  assert (size_incr (index e) = index e + 1) as Hincr by (apply size_incr_small; lia).
  set (n := N.to_nat (index e)) in *.
  assert (type (hs !!! n) = RCLC_NONE) as Hfree.
  { specialize (Hdense n ltac:(lia)). rewrite Harr in Hdense.
    rewrite bool_decide_eq_false_2 in Hdense by lia. by eapply free_type. }
  assert (∀ f, invalidate_wait_set (assign_next_handle f e)
               = inl ((rcl_wait_set_fini (wait_set e)).1,
                      set_wait_set (rcl_wait_set_fini (wait_set e)).2 (assign_next_handle f e)))
    as Hinv.
  { intros f. unfold invalidate_wait_set.
    change (wait_set (assign_next_handle f e)) with (wait_set e). rewrite Hvalid.
    destruct (rcl_wait_set_fini (wait_set e)) as [ret ws]. simpl in *.
    unfold ret_eqb. by rewrite bool_decide_eq_false_2. }
  assert (∃ f, register op (e, m)
               = ((rcl_wait_set_fini (wait_set e)).1,
                  (set_wait_set (rcl_wait_set_fini (wait_set e)).2 (assign_next_handle f e), m))
               ∧ rclc_executor_handle_get_ptr (f (hs !!! n)) = Ptr (removal_type k) o
               ∧ count_handle (f (hs !!! n)) (census hs) ≠ census hs) as (f & -> & Hp & Hcount).
  { assert (∀ a, size_add (size_wrap a) 1 = size_wrap a → False) as Hne
      by (intros a; apply size_add_1_ne).
    destruct op; try discriminate Hrem; injection Hrem as <- <-; simpl in Hargs;
      repeat match goal with
             | H : _ && _ = true |- _ => apply andb_prop in H; destruct H
             | H : negb _ = true |- _ => apply negb_true_iff in H
             end;
      cbn [register fst snd];
      unfold rclc_executor_add_subscription, rclc_executor_add_subscription_with_context,
        rclc_executor_add_timer, rclc_executor_add_client,
        rclc_executor_add_client_with_request_id, rclc_executor_add_service,
        rclc_executor_add_service_with_context, rclc_executor_add_service_with_request_id,
        rclc_executor_add_guard_condition;
      repeat match goal with
             | H : is_null ?p = false |- _ => rewrite H; clear H
             end;
      change (is_null (Ptr _ _)) with false; cbv iota; rewrite Hfull, Hinv; cbn [fst snd];
      match goal with
      | |- ∃ f, (_, (set_wait_set _ (assign_next_handle ?f0 e), _)) = _ ∧ _ => exists f0
      end;
      (split; [reflexivity|]); (split; [reflexivity|]);
      unfold count_handle, census, entities_of, has_type; simpl;
      intros Heq; injection Heq; intros; eauto. }
  cbn [fst snd].
  assert (handle_array (set_wait_set (rcl_wait_set_fini (wait_set e)).2 (assign_next_handle f e))
          = <[n := f (hs !!! n)]> hs) as Harr'.
  { unfold handle_array, assign_next_handle, store_handle, handle_at, handle_array. simpl.
    rewrite Hhs. done. }
  split; [done|]. split; [simpl; by rewrite Hincr|]. split; [|split; [done|]].
  - exists n. simpl. rewrite Hincr. split; [lia|]. rewrite Harr'.
    by rewrite list_lookup_total_insert_eq by lia.
  - rewrite Harr'. simpl. rewrite Hinfo, Harr, census_insert_free by (done || lia).
    by intros Heq.
Qed.

End RegistrationSequences.

Lemma registered_state_consistent :
  consistent (api := Toy.api) Scenario.registered_state.1.
Proof.
  apply (register_all_consistent (api := Toy.api) Scenario.registrations
           (Example.fresh 4) empty_memory _ Scenario.registered_state.2).
  - apply (init_consistent (api := Toy.api) rclc_executor_get_zero_initialized_executor
             Example.ctx 4 Example.alloc).
    + vm_compute; reflexivity.
    + apply fresh_result. vm_compute; reflexivity.
  - apply after_result. vm_compute; reflexivity.
Qed.

(** A witness: in the scenario, a further timer is added and removed
    again. *)
Lemma add_then_remove_restores_the_executor_witness :
  register_all (api := Toy.api) [add_timer 7; remove remove_timer 7]
    (Scenario.registered_state.1, Scenario.registered_state.2)
  = Some (Scenario.registered_state.1, Scenario.registered_state.2)
  ∧ index Scenario.registered_state.1 = 2
  ∧ max_handles Scenario.registered_state.1 = 4.
Proof.
  split; [|split; vm_compute; reflexivity].
  apply (add_then_remove_restores_the_executor (api := Toy.api)
           rclc_executor_get_zero_initialized_executor Example.ctx 4 Example.alloc
           (Example.fresh 4) Scenario.registrations empty_memory
           Scenario.registered_state.1 Scenario.registered_state.2
           (add_timer 7) remove_timer 7).
  - vm_compute; reflexivity.
  - apply fresh_result. vm_compute; reflexivity.
  - apply after_result. vm_compute; reflexivity.
  - reflexivity.
  - reflexivity.
  - vm_compute; reflexivity.
  - intros (i & Hi & Hp).
    assert (N.to_nat (index Scenario.registered_state.1) = 2%nat) as Hidx
      by (vm_compute; reflexivity).
    rewrite Hidx in Hi.
    destruct i as [|[|i]]; [vm_compute in Hp; discriminate .. | lia].
  - vm_compute; reflexivity.
Defined.

(** A witness: in the scenario, after [rclc_executor_prepare] has built a
    wait set for two subscriptions and three clients, a timer is added; the
    wait set is finalised, and the next [rclc_executor_prepare] builds one
    that has a slot for the timer. *)
Lemma registration_makes_prepare_rebuild_the_wait_set_witness :
  rcl_wait_set_is_valid (rcl_api := Toy.api) (wait_set Scenario.prepared) = true
  ∧ length (timers (wait_set Scenario.prepared)) = 0%nat
  ∧ rcl_wait_set_is_valid (rcl_api := Toy.api)
      (wait_set (register (api := Toy.api) (add_timer 7)
                   (Scenario.prepared, empty_memory)).2.1) = false
  ∧ length (timers (wait_set (rclc_executor_prepare (api := Toy.api)
              (register (api := Toy.api) (add_timer 7)
                 (Scenario.prepared, empty_memory)).2.1).2))
    = 1%nat.
Proof.
  split; [vm_compute; reflexivity|]. split; [vm_compute; reflexivity|].
  split; [|vm_compute; reflexivity].
  destruct (registration_makes_prepare_rebuild_the_wait_set (api := Toy.api) (add_timer 7)
              Scenario.prepared empty_memory
              (register (api := Toy.api) (add_timer 7) (Scenario.prepared, empty_memory)).2.1
              (register (api := Toy.api) (add_timer 7) (Scenario.prepared, empty_memory)).2.2)
    as [Hinvalid _].
  - apply (prepare_consistent (api := Toy.api)). exact registered_state_consistent.
  - intros ws. reflexivity.
  - apply (register_result (api := Toy.api) (add_timer 7) (Scenario.prepared, empty_memory)).
    vm_compute; reflexivity.
  - exact Hinvalid.
Defined.

(** A witness: a timer is added to an executor whose wait set cannot be
    finalised.  The call returns [RCL_RET_ERROR]; the timer is registered
    all the same, and the counter of timers is still 0. *)
Lemma add_is_not_undone_when_fini_fails_witness :
  (register (api := Toy.api) (add_timer 1) (Scenario.failing, empty_memory)).1 = RCL_RET_ERROR
  ∧ index (register (api := Toy.api) (add_timer 1) (Scenario.failing, empty_memory)).2.1 = 1
  ∧ registered (register (api := Toy.api) (add_timer 1) (Scenario.failing, empty_memory)).2.1
      (Ptr T_rcl_timer 1)
  ∧ number_of_timers
      (info (register (api := Toy.api) (add_timer 1) (Scenario.failing, empty_memory)).2.1) = 0.
Proof.
  destruct (add_is_not_undone_when_fini_fails (api := Toy.api) (add_timer 1) remove_timer 1
              Scenario.failing empty_memory) as (Hrc & Hidx & Hreg & Hinfo & _).
  - apply (consistent_set_wait_set (api := Toy.api)).
    apply (init_consistent (api := Toy.api) rclc_executor_get_zero_initialized_executor
             Example.ctx 2 Example.alloc).
    + vm_compute; reflexivity.
    + apply fresh_result. vm_compute; reflexivity.
  - reflexivity.
  - reflexivity.
  - vm_compute; reflexivity.
  - vm_compute; reflexivity.
  - vm_compute. discriminate.
  - split; [vm_compute; reflexivity|]. split; [vm_compute; reflexivity|].
    split; [exact Hreg | vm_compute; reflexivity].
Defined.

(** ** The order of the handle table *)

Section RegistrationOrder.
Context {api : rcl_api}.

Lemma endpoints_after_add e f ws c :
  well_formed e →
  handles_full e = false →
  endpoints_in_use (set_info c (set_wait_set ws (assign_next_handle f e)))
  = endpoints_in_use e ++ [endpoint_of (f (handle_at e (index e)))].
Proof.
  intros (hs & Hhs & Hlen & Hidx & Hmax) Hfull. apply N.leb_gt in Hfull.
  assert (size_incr (index e) = index e + 1) as Hincr by (apply size_incr_small; lia).
  unfold endpoints_in_use, handle_at, handle_array, assign_next_handle, store_handle,
    handle_at, handle_array. simpl. rewrite Hhs, Hincr. simpl.
  set (n := N.to_nat (index e)). replace (N.to_nat (index e + 1)) with (S n) by lia.
  rewrite (take_S_r _ _ (f (hs !!! n))).
  - rewrite fmap_app. simpl. f_equal. f_equal. apply take_insert_ge. lia.
  - apply list_lookup_insert_eq. lia.
Qed.

Lemma invalidate_wait_set_ok e r :
  invalidate_wait_set e = inl r → r.1 = RCL_RET_OK → False.
Proof. intros H Hr. by apply invalidate_wait_set_inl in H. Qed.

(** An [add_*] that succeeds has filled the next slot with a handle of its
    kind for its entity. *)
Lemma register_add_shape op e m e' m' x :
  added_endpoint op = Some x →
  register op (e, m) = (RCL_RET_OK, (e', m')) →
  handles_full e = false
  ∧ ∃ f ws c, e' = set_info c (set_wait_set ws (assign_next_handle f e))
              ∧ ∀ h, endpoint_of (f h) = x.
Proof.
  intros Hx Hreg.
  destruct op; try discriminate Hx; injection Hx as <-; simpl in Hreg;
    unfold rclc_executor_add_subscription, rclc_executor_add_subscription_with_context,
      rclc_executor_add_timer, rclc_executor_add_client,
      rclc_executor_add_client_with_request_id, rclc_executor_add_service,
      rclc_executor_add_service_with_context, rclc_executor_add_service_with_request_id,
      rclc_executor_add_guard_condition, rclc_executor_add_action_client,
      rclc_executor_add_action_server in Hreg;
    repeat match type of Hreg with
           | context [if is_null ?p then _ else _] => destruct (is_null p); [done|]
           end;
    try (destruct (negb (is_null feedback_callback) && is_null ros_feedback); [done|]);
    try (destruct (ros_goal_request_size <=? 0); [done|]);
    (destruct (handles_full e) eqn:Hfull; [done|]);
    try (destruct (negb (allocate _ _)); [done|]);
    (split; [done|]);
    match type of Hreg with
    | context [invalidate_wait_set (assign_next_handle ?f e)] =>
        destruct (invalidate_wait_set (assign_next_handle f e)) as [r|e2] eqn:Hinv;
        [ exfalso; apply (invalidate_wait_set_ok _ _ Hinv); destruct r; simpl in Hreg |- *; congruence
        | apply invalidate_wait_set_inr in Hinv; destruct Hinv as [ws ->];
          exists f, ws ]
    end.
  all: try (eexists; split; [simpl in Hreg; injection Hreg as <- _; reflexivity | done]).
  all: simpl in Hreg.
  - destruct (rcl_action_client_wait_set_get_num_entities _) as [ret [[[[n1 n2] n3] n4] n5]].
    injection Hreg as _ <- _. eexists; split; [reflexivity | done].
  - destruct (rcl_action_server_wait_set_get_num_entities _) as [ret [[[[n1 n2] n3] n4] n5]].
    injection Hreg as _ <- _. eexists; split; [reflexivity | done].
Qed.

(** A [remove_*] that succeeds has found the handle at some position [i] of
    the handles in use and has closed the gap. *)
Lemma register_remove_shape k o e m e' m' :
  well_formed e →
  register (remove k o) (e, m) = (RCL_RET_OK, (e', m')) →
  ∃ i, _rclc_executor_find_handle e (Ptr (removal_type k) o) = Some i
       ∧ index e' = index e - 1
       ∧ 0 < index e
       ∧ ∃ x, handle_array e'
              = delete i (take (N.to_nat (index e)) (handle_array e))
                ++ x :: drop (N.to_nat (index e)) (handle_array e).
Proof.
  intros (hs & Hhs & Hlen & Hidx & Hmax) Hreg.
  assert (handle_array e = hs) as Harr by (unfold handle_array; by rewrite Hhs).
  set (p := Ptr (removal_type k) o) in *.
  change (register (remove k o) (e, m))
    with ((rclc_executor_remove k e p).1, ((rclc_executor_remove k e p).2, m)) in Hreg.
  injection Hreg as Hret He' _.
  rewrite remove_unfold in Hret, He' by done.
  destruct (_rclc_executor_find_handle e p) as [i|] eqn:Hfind; [|done].
  exists i. split; [done|].
  destruct (find_handle_loop_Some _ _ _ _ _ Hfind) as (Hrange & Hi & _).
  assert (rcl_wait_set_is_valid (wait_set e) = true →
          (rcl_wait_set_fini (wait_set e)).1 = RCL_RET_OK) as Hfini.
  { intros Hvalid. destruct (decide ((rcl_wait_set_fini (wait_set e)).1 = RCL_RET_OK)) as [|Hne];
      [done|].
    pose proof (remove_handle_fini_fails e (Some i) Hvalid Hne) as Hfail.
    exfalso. cbv zeta in Hret. unfold ret_eqb in Hret. case_bool_decide; simpl in Hret; done. }
  pose proof (remove_handle_found e hs i Hhs Hlen Hidx Hmax ltac:(lia) Hfini) as Hfound.
  rewrite Hfound in He'. simpl in He'. subst e'. simpl.
  split; [done|]. split; [lia|]. rewrite Harr. unfold handle_array. simpl. eauto.
Qed.

Lemma without_first_delete p (l : list (rclc_executor_handle_type_t * void_ptr)) i x :
  l !! i = Some x →
  x.2 = p →
  (∀ j y, (j < i)%nat → l !! j = Some y → y.2 ≠ p) →
  without_first p l = delete i l.
Proof.
  revert i. induction l as [|a l IH]; intros i Hi Hp Hfirst; simpl in *; [done|].
  unfold ptr_eqb. destruct i as [|i]; simpl in *.
  - injection Hi as ->. by rewrite bool_decide_eq_true_2.
  - rewrite bool_decide_eq_false_2.
    + f_equal. apply IH; [done | done |]. intros j y Hj Hy. apply (Hfirst (S j)); [lia | done].
    + intros ->. by apply (Hfirst 0%nat a); [lia | |].
Qed.

(** For a handle in use, the entity is the argument of a [remove_*] exactly
    when [rclc_executor_handle_get_ptr] gives this argument. *)
Lemma in_use_get_ptr h k o :
  in_use h →
  rclc_executor_handle_get_ptr h = Ptr (removal_type k) o ↔ entity h = Ptr (removal_type k) o.
Proof.
  intros (_ & ty & o' & Hty & He). unfold rclc_executor_handle_get_ptr.
  destruct (type h); try done; simpl in Hty; injection Hty as <-; rewrite He;
    split; try done; destruct k; done.
Qed.

Lemma endpoints_after_remove k o e m e' m' :
  consistent e →
  register (remove k o) (e, m) = (RCL_RET_OK, (e', m')) →
  endpoints_in_use e' = without_first (Ptr (removal_type k) o) (endpoints_in_use e).
Proof.
  intros (Hwf & Hdense & _) Hreg.
  destruct (register_remove_shape _ _ _ _ _ _ Hwf Hreg) as (i & Hfind & Hidx' & Hpos & x & Harr').
  destruct Hwf as (hs & Hhs & Hlen & Hidx & Hmax).
  assert (handle_array e = hs) as Harr by (unfold handle_array; by rewrite Hhs).
  destruct (find_handle_loop_Some _ _ _ _ _ Hfind) as (Hrange & Hi & Hfirst).
  unfold endpoints_in_use. rewrite Harr', Hidx', Harr in *.
  set (n := N.to_nat (index e)) in *.
  assert (length (take n hs) = n) as Htake by (rewrite length_take; lia).
  rewrite take_app_length'.
  2:{ rewrite length_delete, Htake; [lia|]. apply lookup_lt_is_Some. lia. }
  rewrite list_fmap_delete. symmetry.
  assert (∀ j, (j < n)%nat → in_use (hs !!! j)) as Huse.
  { intros j Hj. specialize (Hdense j ltac:(lia)). rewrite Harr in Hdense.
    by rewrite bool_decide_eq_true_2 in Hdense by lia. }
  assert (∀ j, (j < n)%nat →
            (endpoint_of <$> take n hs) !! j = Some (endpoint_of (hs !!! j))) as Hat.
  { intros j Hj. rewrite list_lookup_fmap, lookup_take_lt by lia.
    by rewrite (list_lookup_lookup_total_lt hs j) by lia. }
  apply (without_first_delete _ _ i (endpoint_of (hs !!! i))).
  - apply Hat. lia.
  - simpl. apply in_use_get_ptr; [apply Huse; lia | done].
  - intros j y Hj Hy. rewrite Hat in Hy by lia. injection Hy as <-. simpl.
    intros He. apply (Hfirst j); [lia|]. apply in_use_get_ptr; [apply Huse; lia | done].
Qed.

Lemma register_endpoints op e m e' m' :
  consistent e →
  register op (e, m) = (RCL_RET_OK, (e', m')) →
  endpoints_in_use e' = registration_step (endpoints_in_use e) op.
Proof.
  intros Hc Hreg.
  destruct (added_endpoint op) as [x|] eqn:Hx.
  - destruct (register_add_shape _ _ _ _ _ _ Hx Hreg) as (Hfull & f & ws & c & -> & Hf).
    rewrite endpoints_after_add by (done || apply Hc). rewrite Hf.
    destruct op; try discriminate Hx; simpl in Hx |- *; by injection Hx as <-.
  - destruct op; try discriminate Hx. by eapply endpoints_after_remove.
Qed.

Lemma register_all_endpoints ops e m e' m' :
  consistent e →
  register_all ops (e, m) = Some (e', m') →
  endpoints_in_use e' = foldl registration_step (endpoints_in_use e) ops.
Proof.
  revert e m. induction ops as [|op ops IH]; intros e m Hc Hall; cbn [register_all] in Hall.
  - by injection Hall as <- <-.
  - destruct (register op (e, m)) as [ret [e1 m1]] eqn:Hreg.
    unfold ret_eqb in Hall. case_bool_decide as Hret; [|done]. subst ret.
    simpl. rewrite <- (register_endpoints _ _ _ _ _ Hc Hreg).
    eapply IH; [|done]. by eapply register_consistent.
Qed.

(** The handles in use are the registrations in the order in which they
    were made: after [rclc_executor_init] and a sequence of registration
    calls that succeeded, the kinds and entities of the handles in use, in
    the order of the table, are the list in which every [add_*] has appended
    its endpoint and every [remove_*] has taken out the oldest registration
    of its entity. *)
Theorem handle_table_keeps_registration_order :
  ∀ (e0 : rclc_executor_t) (context : void_ptr) (n : size_t) (alloc : void_ptr)
    (e : rclc_executor_t) (ops : list registration) (m : action_memory)
    (e' : rclc_executor_t) (m' : action_memory),
    n < 2 ^ SIZE_WIDTH →
    rclc_executor_init e0 context n alloc = (RCL_RET_OK, e) →
    register_all ops (e, m) = Some (e', m') →
    endpoints_in_use e' = registrations_after ops.
Proof.
  intros e0 context n alloc e ops m e' m' Hn Hinit Hall.
  destruct (init_consistent _ _ _ _ _ Hn Hinit) as (Hc & Hidx & _).
  rewrite (register_all_endpoints _ _ _ _ _ Hc Hall).
  unfold registrations_after, endpoints_in_use. by rewrite Hidx.
Qed.

End RegistrationOrder.

(** A witness: in the scenario the timer that was added first has been
    removed; the subscription and the action client are left, in the order
    in which they were added. *)
Lemma handle_table_keeps_registration_order_witness :
  endpoints_in_use Scenario.registered_state.1 = registrations_after Scenario.registrations
  ∧ registrations_after Scenario.registrations
    = [(RCLC_SUBSCRIPTION, Example.sub_1); (RCLC_ACTION_CLIENT, Example.action_client_1)].
Proof.
  split; [|vm_compute; reflexivity].
  apply (handle_table_keeps_registration_order (api := Toy.api)
           rclc_executor_get_zero_initialized_executor Example.ctx 4 Example.alloc
           (Example.fresh 4) Scenario.registrations empty_memory
           Scenario.registered_state.1 Scenario.registered_state.2).
  - vm_compute; reflexivity.
  - apply fresh_result. vm_compute; reflexivity.
  - apply after_result. vm_compute; reflexivity.
Defined.

(** ** A take that fails *)

Section TakeFailures.
Context {api : rcl_api} {Ext : Type} {rt : rcl_runtime Ext}.

Lemma take_failed h ws (s : effects) c failed p :
  take_of h = Some (c, failed) →
  wait_set_slot ws h = Some p → p ≠ NULL →
  (perform c s.1).1.1 = failed →
  ∃ h', _rclc_take_new_data h ws s
        = (failed, h', ((perform c s.1).2, s.2 ++ [ev_call c failed]))
        ∧ data_available h' = false
        ∧ invocation h' = invocation h
        ∧ type h' = type h
        ∧ same_registration h h'.
Proof.
  intros Htake Hslot Hp Hrc.
  assert (is_null p = false) as Hnull by (unfold is_null; by case_bool_decide).
  unfold take_of, wait_set_slot in Htake, Hslot. unfold _rclc_take_new_data, do_call.
  destruct (perform c s.1) as [[rc id] w1] eqn:Hperf. cbn [fst snd] in Hrc. subst rc.
  destruct (type h) eqn:Hty; try discriminate Htake;
    injection Htake as <- <-; injection Hslot as Hslot; rewrite Hslot, Hnull;
    cbn [negb]; rewrite Hperf; cbn [fst snd ret_eqb negb];
    unfold ret_eqb; rewrite bool_decide_eq_false_2 by done; cbn [negb];
    rewrite bool_decide_eq_true_2 by done;
    (eexists; split; [reflexivity|]); by repeat split.
Qed.

Lemma execute_without_data h (s : effects) :
  invocation h = ON_NEW_DATA →
  data_available h = false →
  type h ≠ RCLC_ACTION_CLIENT → type h ≠ RCLC_ACTION_SERVER →
  _rclc_execute h s = (RCL_RET_OK, s).
Proof.
  intros Hinv Hdata Hac Has. unfold _rclc_execute, _rclc_check_handle_data_available.
  rewrite Hinv, Hdata. by destruct (type h).
Qed.

(** In the default scheduler, a subscription or a service that the wait set
    reports ready and whose take fails with the take-failed code of its sort
    does not end the round: [data_available] is cleared, the callback of a
    handle registered with [ON_NEW_DATA] is not called and no response is
    sent, and the loop goes on to the next handle with [RCL_RET_OK]. *)
Theorem failed_take_skips_the_callback :
  ∀ (ws : rcl_wait_set_t) (i : nat) (r : @round Ext) (c : call) (failed : rcl_ret_t)
    (p : void_ptr),
    (i < length (r_handles r))%nat →
    take_of (r_handles r !!! i) = Some (c, failed) →
    invocation (r_handles r !!! i) = ON_NEW_DATA →
    wait_set_slot ws (r_handles r !!! i) = Some p →
    p ≠ NULL →
    (perform c (r_effects r).1).1.1 = failed →
    ∃ r', default_body ws i r = Continue RCL_RET_OK r'
          ∧ trace_of r'
            = trace_of r ++ [ev_call c failed; ev_take_new_data i failed; ev_execute i]
          ∧ data_available (r_handles r' !!! i) = false
          ∧ same_table (r_handles r) (r_handles r')
          ∧ (r_effects r').1 = (perform c (r_effects r).1).2.
Proof.
  intros ws i r c failed p Hi Htake Hinv Hslot Hp Hrc.
  destruct (take_failed _ ws (r_effects r) c failed p Htake Hslot Hp Hrc)
    as (h' & Hrun & Hdata & Hinv' & Hty & Hsame).
  assert (failed = RCL_RET_SUBSCRIPTION_TAKE_FAILED ∨ failed = RCL_RET_SERVICE_TAKE_FAILED)
    as Hfailed.
  { unfold take_of in Htake. destruct (type (r_handles r !!! i)); try discriminate Htake;
      injection Htake as _ <-; auto. }
  assert (type h' ≠ RCLC_ACTION_CLIENT ∧ type h' ≠ RCLC_ACTION_SERVER) as [Hac Has].
  { rewrite Hty. unfold take_of in Htake.
    destruct (type (r_handles r !!! i)); try discriminate Htake; done. }
  unfold default_body, take_step. rewrite Hrun. cbv beta iota zeta.
  assert (((failed <>r? RCL_RET_OK) && (failed <>r? RCL_RET_SUBSCRIPTION_TAKE_FAILED)
           && (failed <>r? RCL_RET_SERVICE_TAKE_FAILED)) = false) as ->.
  { unfold ret_eqb. destruct Hfailed as [-> | ->]; by repeat case_bool_decide. }
  unfold execute_step. cbn [r_handles r_effects].
  rewrite list_lookup_total_insert_eq by done.
  rewrite (execute_without_data h') by (done || congruence).
  cbn [ret_eqb negb]. unfold ret_eqb. rewrite bool_decide_eq_true_2 by done. cbn [negb].
  eexists. split; [reflexivity|]. cbn [r_handles r_effects].
  split; [unfold trace_of, log; cbn [fst snd r_effects]; by rewrite <- !(assoc_L (++))|].
  rewrite list_lookup_total_insert_eq by done.
  split; [done|]. split; [by apply same_table_insert | done].
Qed.

Lemma split_in_app {A} (l1 l2 before : list A) x after :
  l1 ++ l2 = before ++ x :: after →
  (∃ l, l1 = before ++ x :: l ∧ after = l ++ l2)
  ∨ (∃ l, before = l1 ++ l ∧ l2 = l ++ x :: after).
Proof.
  intros Heq. apply app_eq_inv in Heq as [(l & -> & Hl)|(l & -> & ->)]; [|right; by exists l].
  destruct l as [|y l]; simpl in Hl.
  - right. exists []. subst l2. split; [by rewrite !app_nil_r | reflexivity].
  - injection Hl as <- ->. left. by exists l.
Qed.

(** Where a take stands among the steps of a round. *)
Lemma take_steps_split k (rcs : list rcl_ret_t) before i rc_i after :
  imap (λ j, ev_take_new_data (k + j)) rcs = before ++ ev_take_new_data i rc_i :: after →
  rc_i ∈ rcs
  ∧ ((after = [] ∧ S i = (k + length rcs)%nat)
     ∨ ∃ rc' after', after = ev_take_new_data (S i) rc' :: after').
Proof.
  revert k before. induction rcs as [|a rcs IH]; intros k before Heq.
  - by destruct before.
  - rewrite imap_cons in Heq. destruct before as [|b before]; simpl in Heq.
    + injection Heq as <- <- <-. split; [apply list_elem_of_here|].
      destruct rcs as [|a' rcs]; [left; split; [done | simpl; lia]|].
      right. exists a', (imap ((λ j, ev_take_new_data (k + j)) ∘ S ∘ S) rcs).
      simpl. by replace (k + 1)%nat with (S (k + 0)) by lia.
    + injection Heq as _ Heq.
      rewrite (imap_ext _ (λ j, ev_take_new_data (S k + j))) in Heq
        by (intros j x _; simpl; f_equal; lia).
      destruct (IH _ _ Heq) as [Hin Hnext]. split; [by apply list_elem_of_further|].
      destruct Hnext as [[-> Hlen]|Hnext]; [left; split; [done | simpl; lia] | by right].
Qed.

Lemma take_and_execute_split k (rcs : list rcl_ret_t) before i rc_i after :
  concat (imap (λ j, take_and_execute (k + j)) rcs)
  = before ++ ev_take_new_data i rc_i :: after →
  rc_i ∈ rcs ∧ ∃ after', after = ev_execute i :: after'.
Proof.
  revert k before. induction rcs as [|a rcs IH]; intros k before Heq.
  - by destruct before.
  - rewrite imap_cons in Heq. simpl in Heq. destruct before as [|b before]; simpl in Heq.
    + injection Heq as <- <- <-. split; [apply list_elem_of_here | by eexists].
    + injection Heq as _ Heq. destruct before as [|b' before]; simpl in Heq; [done|].
      injection Heq as _ Heq.
      rewrite (imap_ext _ (λ j, take_and_execute (S k + j))) in Heq
        by (intros j x _; simpl; f_equal; lia).
      destruct (IH _ _ Heq) as [Hin Hnext]. split; [by apply list_elem_of_further | done].
Qed.


End TakeFailures.

(** A witness: the subscription is reported ready, but [rcl_take] returns
    [RCL_RET_SUBSCRIPTION_TAKE_FAILED].  The callback is not called. *)
Lemma failed_take_skips_the_callback_witness :
  ∃ r', default_body (rt := Toy.runtime) Scenario.ready_wait_set 0 Scenario.failing_round
        = Continue RCL_RET_OK r'
        ∧ trace_of r'
          = [ev_call (rcl_take Example.sub_1 Example.msg_1) RCL_RET_SUBSCRIPTION_TAKE_FAILED;
             ev_take_new_data 0 RCL_RET_SUBSCRIPTION_TAKE_FAILED; ev_execute 0]
        ∧ data_available (r_handles r' !!! 0%nat) = false.
Proof.
  destruct (failed_take_skips_the_callback (rt := Toy.runtime) Scenario.ready_wait_set 0
              Scenario.failing_round (rcl_take Example.sub_1 Example.msg_1)
              RCL_RET_SUBSCRIPTION_TAKE_FAILED Example.sub_1)
    as (r' & Hbody & Htrace & Hdata & _).
  - simpl. lia.
  - vm_compute; reflexivity.
  - vm_compute; reflexivity.
  - vm_compute; reflexivity.
  - discriminate.
  - vm_compute; reflexivity.
  - exists r'. split; [exact Hbody|]. split; [exact Htrace | exact Hdata].
Defined.


(** ** The free slots during a round *)

Section FreeSlots.
Context {api : rcl_api} {Ext : Type} {rt : rcl_runtime Ext}.

Lemma free_slots_untouched_refl hs : free_slots_untouched hs hs.
Proof. by intros j _. Qed.

Lemma free_slots_untouched_trans hs1 hs2 hs3 :
  free_slots_untouched hs1 hs2 → free_slots_untouched hs2 hs3 → free_slots_untouched hs1 hs3.
Proof.
  intros H12 H23 j Hj. rewrite <- (H12 j Hj). apply H23. by rewrite (H12 j Hj).
Qed.

(** A loop over the handles whose body writes to the handle of its
    iteration at most leaves the slots that are not initialised alone. *)
Lemma for_handles_frame {St : Type} (handles_of : St → list rclc_executor_handle_t)
  (mx : size_t) (body : nat → St → loop_result St) :
  (∀ i s, match body i s with
          | Continue _ s' | Return _ s' =>
              ∀ j, j ≠ i → handles_of s' !!! j = handles_of s !!! j
          end) →
  ∀ fuel i rc s,
    match for_handles handles_of mx body fuel i rc s with
    | Continue _ s' | Return _ s' => free_slots_untouched (handles_of s) (handles_of s')
    end.
Proof.
  intros Hbody fuel i rc s.
  pose (I := λ (k : nat) (_ : rcl_ret_t) (s1 : St),
          (∀ j, (k ≤ j)%nat → handles_of s1 !!! j = handles_of s !!! j)
          ∧ free_slots_untouched (handles_of s) (handles_of s1)).
  pose (Q := λ (_ : rcl_ret_t) (s1 : St), free_slots_untouched (handles_of s) (handles_of s1)).
  pose proof (for_handles_inv handles_of mx body I Q) as Hinv.
  assert (∀ k rck s1, I k rck s1 → N.of_nat k < mx → initialized (handles_of s1 !!! k) = true →
            match body k s1 with
            | Continue rc' s' => I (S k) rc' s'
            | Return rc' s' => Q rc' s'
            end) as Hstep.
  { intros k rck s1 [Hrest Hfree] _ Hinit. specialize (Hbody k s1).
    assert (∀ j, initialized (handles_of s !!! j) = false → j ≠ k) as Hne.
    { intros j Hj ->. rewrite Hrest in Hinit by done. congruence. }
    destruct (body k s1) as [rc' s'|rc' s'].
    - split.
      + intros j Hj. rewrite Hbody by lia. apply Hrest. lia.
      + intros j Hj. rewrite Hbody by by apply Hne. by apply Hfree.
    - intros j Hj. rewrite Hbody by by apply Hne. by apply Hfree. }
  specialize (Hinv Hstep fuel i rc s (conj (λ j _, eq_refl) (free_slots_untouched_refl _))).
  destruct (for_handles _ _ _ _ _ _ _) as [rc' s'|rc' s']; [|done].
  by destruct Hinv as (k & _ & [_ HI] & _).
Qed.

Lemma check_body_frame ws i (r : @round Ext) :
  match check_body ws i r with
  | Continue _ r' | Return _ r' => ∀ j, j ≠ i → r_handles r' !!! j = r_handles r !!! j
  end.
Proof.
  unfold check_body. destruct (_rclc_check_for_new_data _ _ _) as [[rc h] m].
  destruct (_ && _); simpl; intros j Hj; by rewrite list_lookup_total_insert_ne.
Qed.

Lemma take_step_frame ws i (r : @round Ext) j :
  j ≠ i → r_handles (take_step ws i r).2 !!! j = r_handles r !!! j.
Proof.
  intros Hj. unfold take_step. destruct (_rclc_take_new_data _ _ _) as [[rc h] s]. simpl.
  by rewrite list_lookup_total_insert_ne.
Qed.

Lemma execute_step_handles i (r : @round Ext) : r_handles (execute_step i r).2 = r_handles r.
Proof. by destruct (execute_step_spec i r) as (_ & _ & _ & ?). Qed.

Lemma let_take_body_frame ws i (r : @round Ext) :
  match let_take_body ws i r with
  | Continue _ r' | Return _ r' => ∀ j, j ≠ i → r_handles r' !!! j = r_handles r !!! j
  end.
Proof.
  unfold let_take_body. pose proof (take_step_frame ws i r) as Ht.
  destruct (take_step ws i r) as [rc r1]. by destruct (_ && _).
Qed.

Lemma let_execute_body_frame i (r : @round Ext) :
  match let_execute_body i r with
  | Continue _ r' | Return _ r' => ∀ j, j ≠ i → r_handles r' !!! j = r_handles r !!! j
  end.
Proof.
  unfold let_execute_body. pose proof (execute_step_handles i r) as He.
  destruct (execute_step i r) as [rc r1]. simpl in He.
  destruct (_ <>r? _); intros j _; by rewrite He.
Qed.

Lemma default_body_frame ws i (r : @round Ext) :
  match default_body ws i r with
  | Continue _ r' | Return _ r' => ∀ j, j ≠ i → r_handles r' !!! j = r_handles r !!! j
  end.
Proof.
  unfold default_body. pose proof (take_step_frame ws i r) as Ht.
  destruct (take_step ws i r) as [rc r1]. simpl in Ht. destruct (_ && _); [done|].
  pose proof (execute_step_handles i r1) as He.
  destruct (execute_step i r1) as [rc2 r2]. simpl in He.
  destruct (_ <>r? _); intros j Hj; rewrite He; by apply Ht.
Qed.

Lemma wait_set_add_body_frame i e :
  match wait_set_add_body i e with
  | Continue _ e' | Return _ e' => ∀ j, j ≠ i → handle_array e' !!! j = handle_array e !!! j
  end.
Proof.
  unfold wait_set_add_body.
  assert (∀ ws h j, j ≠ i →
            handle_array (set_wait_set ws (store_handle (N.of_nat i) h e)) !!! j
            = handle_array e !!! j) as Hstore.
  { intros ws h j Hj. unfold handle_array, store_handle. simpl. rewrite Nat2N.id.
    destruct (handles e) as [hs|]; simpl; [|done]. by rewrite list_lookup_total_insert_ne. }
  assert (∀ f : rcl_wait_set_t → void_ptr → size_t → rcl_ret_t * rcl_wait_set_t * size_t,
            match (let '(rc, ws, slot) :=
                     f (wait_set e) (entity (handle_array e !!! i)) (h_index (handle_array e !!! i)) in
                   if rc =r? RCL_RET_OK
                   then Continue rc (set_wait_set ws
                          (store_handle (N.of_nat i) (set_h_index slot (handle_array e !!! i)) e))
                   else Return rc (set_wait_set ws
                          (store_handle (N.of_nat i) (set_h_index slot (handle_array e !!! i)) e)))
            with
            | Continue _ e' | Return _ e' =>
                ∀ j, j ≠ i → handle_array e' !!! j = handle_array e !!! j
            end) as Hadd.
  { intros f. destruct (f _ _ _) as [[rc ws] slot]. destruct (rc =r? RCL_RET_OK); apply Hstore. }
  destruct (type (handle_array e !!! i)); try apply Hadd. done.
Qed.

Lemma default_scheduling_frame e (r : @round Ext) rc r' :
  _rclc_default_scheduling e r = Some (rc, r') →
  free_slots_untouched (r_handles r) (r_handles r').
Proof.
  unfold _rclc_default_scheduling. intros Hrun.
  pose proof (for_handles_frame r_handles (max_handles e) (check_body (wait_set e))
                (check_body_frame (wait_set e)) (N.to_nat (max_handles e)) 0 RCL_RET_OK r)
    as Hcheck.
  destruct (for_handles r_handles _ (check_body _) _ _ _ _) as [rc1 r1|rc1 r1];
    [|by injection Hrun as <- <-].
  destruct (call_trigger e r1) as [[|]|]; [| by injection Hrun as <- <- | done].
  pose proof (for_handles_frame r_handles (max_handles e) (default_body (wait_set e))
                (default_body_frame (wait_set e)) (N.to_nat (max_handles e)) 0 rc1 r1)
    as Hloop.
  destruct (for_handles r_handles _ (default_body _) _ _ _ _) as [rc2 r2|rc2 r2];
    injection Hrun as <- <-; by eapply free_slots_untouched_trans.
Qed.

Lemma let_scheduling_frame e (r : @round Ext) rc r' :
  _rclc_let_scheduling e r = Some (rc, r') →
  free_slots_untouched (r_handles r) (r_handles r').
Proof.
  unfold _rclc_let_scheduling. intros Hrun.
  pose proof (for_handles_frame r_handles (max_handles e) (check_body (wait_set e))
                (check_body_frame (wait_set e)) (N.to_nat (max_handles e)) 0 RCL_RET_OK r)
    as Hcheck.
  destruct (for_handles r_handles _ (check_body _) _ _ _ _) as [rc1 r1|rc1 r1];
    [|by injection Hrun as <- <-].
  destruct (call_trigger e r1) as [[|]|]; [| by injection Hrun as <- <- | done].
  pose proof (for_handles_frame r_handles (max_handles e) (let_take_body (wait_set e))
                (let_take_body_frame (wait_set e)) (N.to_nat (max_handles e)) 0 rc1 r1)
    as Htake.
  destruct (for_handles r_handles _ (let_take_body _) _ _ _ _) as [rc2 r2|rc2 r2];
    [|injection Hrun as <- <-; by eapply free_slots_untouched_trans].
  pose proof (for_handles_frame r_handles (max_handles e) let_execute_body
                let_execute_body_frame (N.to_nat (max_handles e)) 0 rc2 r2)
    as Hexec.
  destruct (for_handles r_handles _ let_execute_body _ _ _ _) as [rc3 r3|rc3 r3];
    injection Hrun as <- <-;
    (eapply free_slots_untouched_trans; [|exact Hexec]);
    by eapply free_slots_untouched_trans.
Qed.

Lemma handle_array_set_wait_set ws e : handle_array (set_wait_set ws e) = handle_array e.
Proof. done. Qed.

Lemma spin_some_frame e timeout (w : world Ext) rc e' w' tr :
  rclc_executor_spin_some e timeout w = Some (rc, e', w', tr) →
  free_slots_untouched (handle_array e) (handle_array e').
Proof.
  unfold rclc_executor_spin_some. intros Hspin.
  destruct (negb (rcl_context_is_valid (exe_context e) w));
    [injection Hspin as _ <- _ _; apply free_slots_untouched_refl|].
  destruct (prepare_sets_wait_set e) as [ws0 Hprep]. rewrite Hprep in Hspin.
  destruct (rcl_wait_set_clear (wait_set (set_wait_set ws0 e))) as [rc1 ws1].
  set (e2 := set_wait_set ws1 (set_wait_set ws0 e)) in *.
  assert (handle_array e2 = handle_array e) as Harr2 by done. clearbody e2.
  destruct (rc1 <>r? RCL_RET_OK); [injection Hspin as _ <- _ _; by rewrite Harr2|].
  pose proof (for_handles_frame handle_array (max_handles e2) wait_set_add_body
                wait_set_add_body_frame (N.to_nat (max_handles e2)) 0 rc1 e2) as Hadd.
  rewrite Harr2 in Hadd.
  destruct (for_handles handle_array _ wait_set_add_body _ _ _ _) as [rc2 e3|rc2 e3];
    [|by injection Hspin as _ <- _ _].
  destruct (rcl_wait (wait_set e3) (to_int64 (Z.of_N timeout)) w) as [[rcw ws3] w2].
  set (e4 := set_wait_set ws3 e3) in *.
  assert (handle_array e4 = handle_array e3) as Harr4 by done. clearbody e4.
  assert (∀ o, match data_comm_semantics e4 with
               | RCLCPP_EXECUTOR => finish_round e4 (_rclc_default_scheduling e4 o)
               | LET => finish_round e4 (_rclc_let_scheduling e4 o)
               end = finish_round e4 (scheduler_of e4 o)) as Hsched.
  { intros o. unfold scheduler_of. by destruct (data_comm_semantics e4). }
  rewrite Hsched in Hspin.
  destruct (scheduler_of e4 _) as [[rc' r']|] eqn:Hrun; [|done].
  simpl in Hspin. injection Hspin as _ <- _ _.
  pose proof (scheduler_same_table _ _ _ _ Hrun) as Htab. simpl in Htab.
  destruct (finish_round_same_setup e4 r' Htab) as [_ ->].
  eapply free_slots_untouched_trans; [exact Hadd|]. rewrite <- Harr4.
  unfold scheduler_of in Hrun. destruct (data_comm_semantics e4).
  - by apply default_scheduling_frame in Hrun.
  - by apply let_scheduling_frame in Hrun.
Qed.

Lemma spin_some_same_setup e timeout (w : world Ext) rc e' w' tr :
  rclc_executor_spin_some e timeout w = Some (rc, e', w', tr) → same_setup e e'.
Proof.
  intros Hspin. pose proof (spin_some_inv e timeout w) as Hinv. rewrite Hspin in Hinv.
  destruct Hinv as [[_ Hs]|(e3 & rcw & w2 & r' & Hs & Hrun & -> & _ & _)]; [done|].
  apply scheduler_same_table in Hrun. simpl in Hrun.
  eapply same_setup_trans; [done|]. by apply finish_round_same_setup.
Qed.

Lemma total_same f (hs hs' : list rclc_executor_handle_t) :
  length hs' = length hs →
  (∀ j, f (hs' !!! j) = f (hs !!! j)) →
  total f hs' = total f hs.
Proof.
  revert hs'. induction hs as [|h hs IH]; intros [|h' hs'] Hlen Hf; simpl in *; try done.
  pose proof (Hf 0%nat) as H0. simpl in H0. rewrite H0.
  f_equal. apply IH; [lia|]. intros j. apply (Hf (S j)).
Qed.

Lemma census_same (hs hs' : list rclc_executor_handle_t) :
  length hs' = length hs →
  (∀ j, same_endpoint (hs !!! j) (hs' !!! j)) →
  census hs' = census hs.
Proof.
  intros Hlen Hsame.
  assert (∀ j, entities_of (hs' !!! j) = entities_of (hs !!! j)) as Hent.
  { intros j. destruct (Hsame j) as (Hty & _ & Hentity & _).
    unfold entities_of. by rewrite Hty, Hentity. }
  assert (∀ t j, has_type t (hs' !!! j) = has_type t (hs !!! j)) as Hhas.
  { intros t j. destruct (Hsame j) as (Hty & _). unfold has_type. by rewrite Hty. }
  unfold census. f_equal; f_equal; apply total_same; try done; intros j; by rewrite ?Hent.
Qed.

(** What a call of [rclc_executor_spin_some] may change keeps the
    invariant of the registration interface. *)
Lemma consistent_same_setup e e' :
  consistent e →
  same_setup e e' →
  free_slots_untouched (handle_array e) (handle_array e') →
  consistent e'.
Proof.
  intros ((hs & Hhs & Hlen & Hidx & Hmax) & Hdense & Hinfo)
    (_ & Hmx & Hix & _ & Hin & _ & _ & _ & _ & _ & Hnone & Hlen' & Hsame) Hfree.
  assert (handle_array e = hs) as Harr by (unfold handle_array; by rewrite Hhs).
  split; [|split].
  - destruct (handles e') as [hs'|] eqn:Hhs'.
    + exists hs'. unfold handle_array in Hlen'. rewrite Hhs, Hhs' in Hlen'. simpl in Hlen'.
      rewrite Hmx, Hix. by repeat split; try lia.
    + destruct Hnone as [Hnone _]. specialize (Hnone eq_refl). congruence.
  - intros i Hi. rewrite Hmx in Hi. rewrite Hix, Hmx. specialize (Hdense i Hi).
    case_bool_decide.
    + destruct Hdense as (Hinit & ty & o & Hty & He).
      destruct (Hsame i) as (Hty' & _ & He' & _ & _ & _ & _ & Hinit').
      split; [congruence|]. exists ty, o. by rewrite Hty', He'.
    + rewrite (Hfree i); [done|]. by eapply free_initialized.
  - rewrite Hin, Hinfo. symmetry. by apply census_same.
Qed.

Lemma spin_some_consistent e timeout (w : world Ext) rc e' w' tr :
  consistent e →
  rclc_executor_spin_some e timeout w = Some (rc, e', w', tr) →
  consistent e'.
Proof.
  intros Hc Hspin. eapply consistent_same_setup; [exact Hc | |].
  - by eapply spin_some_same_setup.
  - by eapply spin_some_frame.
Qed.

Lemma same_setup_endpoints e e' :
  well_formed e → same_setup e e' → endpoints_in_use e' = endpoints_in_use e.
Proof.
  intros (hs & Hhs & Hlen0 & Hidx & Hmax)
    (_ & _ & Hix & _ & _ & _ & _ & _ & _ & _ & _ & Hlen & Hsame).
  assert (length (handle_array e) = N.to_nat (max_handles e)) as Hl
    by (unfold handle_array; by rewrite Hhs).
  unfold endpoints_in_use. rewrite Hix. apply list_eq. intros j.
  rewrite !list_lookup_fmap. destruct (decide (j < N.to_nat (index e))%nat) as [Hj|Hj].
  - rewrite !lookup_take_lt by done.
    rewrite (list_lookup_lookup_total_lt (handle_array e') j) by lia.
    rewrite (list_lookup_lookup_total_lt (handle_array e) j) by lia. simpl.
    destruct (Hsame j) as (Hty & _ & He & _). unfold endpoint_of. by rewrite Hty, He.
  - rewrite !lookup_take_ge by lia. done.
Qed.

(** A call of [rclc_executor_spin_some] keeps the table as the registration
    calls left it, whatever it returns: the counters still match the table,
    the handles in use are the same endpoints in the same order, and the free
    slots are not written to.  (The call is undefined only for a [NULL]
    trigger function.) *)
Theorem spin_some_keeps_the_table_consistent :
  ∀ (e : rclc_executor_t) (timeout : N) (w : world Ext),
    consistent e →
    match rclc_executor_spin_some e timeout w with
    | Some (_, e', _, _) =>
        consistent e'
        ∧ endpoints_in_use e' = endpoints_in_use e
        ∧ ∀ j, (N.to_nat (index e) ≤ j < N.to_nat (max_handles e))%nat →
               handle_array e' !!! j = handle_array e !!! j
    | None => trigger_function e = None
    end.
Proof.
  intros e timeout w Hc.
  destruct (rclc_executor_spin_some e timeout w) as [[[[rc e'] w'] tr]|] eqn:Hspin.
  2:{ pose proof (spin_some_inv e timeout w) as Hinv. by rewrite Hspin in Hinv. }
  split; [by eapply spin_some_consistent|]. split.
  - apply same_setup_endpoints; [apply Hc | by eapply spin_some_same_setup].
  - intros j Hj. apply (spin_some_frame _ _ _ _ _ _ _ Hspin).
    destruct Hc as (_ & Hdense & _).
    specialize (Hdense j ltac:(lia)). rewrite bool_decide_eq_false_2 in Hdense by lia.
    by eapply free_initialized.
Qed.

End FreeSlots.

(** A witness: the executor of the scenario, with a subscription and an
    action client in a table of capacity 4, spins in a world in which
    nothing is pending. *)
Lemma spin_some_keeps_the_table_consistent_witness :
  consistent (api := Toy.api) Scenario.registered_spin.1.1.2
  ∧ endpoints_in_use Scenario.registered_spin.1.1.2
    = endpoints_in_use Scenario.registered_state.1
  ∧ Scenario.registered_spin.1.1.1 = RCL_RET_OK
  ∧ Scenario.registered_spin.2 = [ev_wait 0 RCL_RET_TIMEOUT].
Proof.
  pose proof (spin_some_keeps_the_table_consistent (api := Toy.api) (rt := Toy.runtime)
                Scenario.registered_state.1 0 Toy.quiet registered_state_consistent) as H.
  rewrite (spun_result Scenario.registered_state.1 0 Toy.quiet) in H
    by (vm_compute; reflexivity).
  destruct H as (Hc & He & _).
  split; [exact Hc|]. split; [exact He|]. split; vm_compute; reflexivity.
Defined.

(** ** The spin loops *)

Section SpinLoops.
Context {api : rcl_api} {Ext : Type} {rt : rcl_runtime Ext} {clock : rcutils_time Ext}.

Lemma ends_spinning_true ret :
  ends_spinning ret = true ↔ ret ≠ RCL_RET_OK ∧ ret ≠ RCL_RET_TIMEOUT.
Proof.
  unfold ends_spinning, ret_eqb. repeat case_bool_decide; simpl; intuition congruence.
Qed.

Lemma spin_some_None e timeout (w : world Ext) :
  rclc_executor_spin_some e timeout w = None → trigger_function e = None.
Proof.
  intros Hspin. pose proof (spin_some_inv e timeout w) as Hinv. by rewrite Hspin in Hinv.
Qed.

Lemma same_setup_trigger e e' : same_setup e e' → trigger_function e' = trigger_function e.
Proof. by intros (_&_&_&_&_&_&_&Ht&_). Qed.

Lemma same_setup_well_formed e e' : well_formed e → same_setup e e' → well_formed e'.
Proof.
  intros (hs & Hhs & Hlen & Hidx & Hmax)
    (_ & Hmx & Hix & _ & _ & _ & _ & _ & _ & _ & Hnone & Hlen' & _).
  destruct (handles e') as [hs'|] eqn:Hhs'.
  - exists hs'. unfold handle_array in Hlen'. rewrite Hhs, Hhs' in Hlen'. simpl in Hlen'.
    rewrite Hmx, Hix. by repeat split; try lia.
  - destruct Hnone as [Hnone _]. specialize (Hnone eq_refl). congruence.
Qed.

(** [rclc_executor_spin] returns neither [RCL_RET_OK] nor
    [RCL_RET_TIMEOUT]: it goes on until a call of [rclc_executor_spin_some]
    fails and returns this failure.  However long it runs, it keeps what is
    registered, and with it the invariant of the table and the order of the
    handles.  (It is undefined only for a [NULL] trigger function.) *)
Theorem spin_returns_only_failures :
  ∀ (rounds : nat) (e : rclc_executor_t) (w : world Ext) (trace : list event),
    match rclc_executor_spin rounds e w trace with
    | Some (Returned ret e' _ _) =>
        ret ≠ RCL_RET_OK ∧ ret ≠ RCL_RET_TIMEOUT
        ∧ same_setup e e'
        ∧ (consistent e → consistent e' ∧ endpoints_in_use e' = endpoints_in_use e)
    | Some (Running e' _ _) =>
        same_setup e e'
        ∧ (consistent e → consistent e' ∧ endpoints_in_use e' = endpoints_in_use e)
    | None => trigger_function e = None
    end.
Proof.
  intros rounds. induction rounds as [|rounds IH]; intros e w tr0; simpl;
    [split; [apply same_setup_refl | done]|].
  destruct (rclc_executor_spin_some e (timeout_ns e) w) as [[[[ret e1] w1] tr1]|] eqn:Hspin;
    [|by eapply spin_some_None].
  pose proof (spin_some_same_setup _ _ _ _ _ _ _ Hspin) as Hs.
  assert (consistent e → consistent e1 ∧ endpoints_in_use e1 = endpoints_in_use e) as Hc1.
  { intros Hc. split; [by eapply spin_some_consistent|].
    apply same_setup_endpoints; [apply Hc | done]. }
  destruct (ends_spinning ret) eqn:Hend.
  - apply ends_spinning_true in Hend as [? ?]. done.
  - specialize (IH e1 w1 (tr0 ++ tr1)).
    destruct (rclc_executor_spin rounds e1 w1 (tr0 ++ tr1)) as [[e2 w2 tr2|ret2 e2 w2 tr2]|].
    + destruct IH as (Hs2 & Hc2). split; [by eapply same_setup_trans|].
      intros Hc. destruct (Hc1 Hc) as [Hc' He]. destruct (Hc2 Hc') as [? He2].
      split; [done | congruence].
    + destruct IH as (? & ? & Hs2 & Hc2). split; [done|]. split; [done|].
      split; [by eapply same_setup_trans|].
      intros Hc. destruct (Hc1 Hc) as [Hc' He]. destruct (Hc2 Hc') as [? He2].
      split; [done | congruence].
    + by rewrite <- (same_setup_trigger _ _ Hs).
Qed.

Lemma spin_unfold rounds e (w : world Ext) tr0 :
  rclc_executor_spin (S rounds) e w tr0
  = match rclc_executor_spin_some e (timeout_ns e) w with
    | None => None
    | Some (ret, e', w', tr) =>
        if ends_spinning ret then Some (Returned ret e' w' (tr0 ++ tr))
        else rclc_executor_spin rounds e' w' (tr0 ++ tr)
    end.
Proof. done. Qed.

Lemma spin_next rounds e (w : world Ext) tr0 e1 w1 tr1 :
  rclc_executor_spin rounds e w tr0 = Some (Running e1 w1 tr1) →
  rclc_executor_spin (S rounds) e w tr0 = rclc_executor_spin 1 e1 w1 tr1.
Proof.
  revert e w tr0. induction rounds as [|rounds IH]; intros e w tr0 Hrun.
  - simpl in Hrun. by injection Hrun as <- <- <-.
  - rewrite spin_unfold in Hrun. rewrite (spin_unfold (S rounds)).
    destruct (rclc_executor_spin_some e (timeout_ns e) w) as [[[[ret e2] w2] tr2]|]; [|done].
    destruct (ends_spinning ret); [done|]. by apply IH.
Qed.

Lemma spin_returned rounds e (w : world Ext) tr0 ret e1 w1 tr1 :
  rclc_executor_spin rounds e w tr0 = Some (Returned ret e1 w1 tr1) →
  rclc_executor_spin (S rounds) e w tr0 = Some (Returned ret e1 w1 tr1).
Proof.
  revert e w tr0. induction rounds as [|rounds IH]; intros e w tr0 Hrun; [done|].
  rewrite spin_unfold in Hrun. rewrite (spin_unfold (S rounds)).
  destruct (rclc_executor_spin_some e (timeout_ns e) w) as [[[[ret2 e2] w2] tr2]|]; [|done].
  destruct (ends_spinning ret2); [done|]. by apply IH.
Qed.

(** [rclc_executor_spin] returns at the first call of
    [rclc_executor_spin_some] that fails: when the loop is still running
    after [n] rounds and the next call fails, the loop returns the result of
    this call, with the executor and the world as the call left them. *)
Theorem spin_returns_the_first_failure :
  ∀ (n : nat) (e : rclc_executor_t) (w : world Ext) (trace : list event)
    (e1 : rclc_executor_t) (w1 : world Ext) (tr1 : list event)
    (ret : rcl_ret_t) (e2 : rclc_executor_t) (w2 : world Ext) (tr2 : list event) (m : nat),
    rclc_executor_spin n e w trace = Some (Running e1 w1 tr1) →
    rclc_executor_spin_some e1 (timeout_ns e1) w1 = Some (ret, e2, w2, tr2) →
    ret ≠ RCL_RET_OK → ret ≠ RCL_RET_TIMEOUT →
    (n < m)%nat →
    rclc_executor_spin m e w trace = Some (Returned ret e2 w2 (tr1 ++ tr2)).
Proof.
  intros n e w tr0 e1 w1 tr1 ret e2 w2 tr2 m Hrun Hspin Hok Htimeout Hm.
  assert (rclc_executor_spin (S n) e w tr0 = Some (Returned ret e2 w2 (tr1 ++ tr2))) as Hnext.
  { rewrite (spin_next _ _ _ _ _ _ _ Hrun), spin_unfold, Hspin.
    by rewrite (proj2 (ends_spinning_true ret)). }
  replace m with (S n + (m - S n))%nat by lia.
  induction (m - S n)%nat as [|k IH]; [by rewrite Nat.add_0_r|].
  rewrite Nat.add_succ_r. by apply spin_returned.
Qed.

(** *** The periodic loops *)

Lemma same_setup_set_invocation_time t e :
  same_setup (set_invocation_time t e) e ↔ t = invocation_time e.
Proof.
  split.
  - by intros (_&_&_&_&_&_&Ht&_).
  - intros ->. destruct e. apply same_setup_refl.
Qed.

Lemma same_setup_but_time_refl e : same_setup_but_time e e.
Proof. unfold same_setup_but_time. by apply same_setup_set_invocation_time. Qed.

Lemma same_setup_change_time t e e' :
  same_setup e e' → same_setup (set_invocation_time t e) (set_invocation_time t e').
Proof.
  intros (?&?&?&?&?&?&?&?&?&?&?&?&?). by repeat (split; [done|]).
Qed.

Lemma same_setup_but_time_trans e1 e2 e3 :
  same_setup_but_time e1 e2 → same_setup_but_time e2 e3 → same_setup_but_time e1 e3.
Proof.
  unfold same_setup_but_time. intros H12 H23.
  apply (same_setup_change_time (invocation_time e3)) in H12.
  eapply same_setup_trans; [|exact H23].
  destruct e1, e2. exact H12.
Qed.

Lemma same_setup_but_time_of e e' : same_setup e e' → same_setup_but_time e e'.
Proof.
  intros Hs. unfold same_setup_but_time.
  assert (invocation_time e' = invocation_time e) as -> by by destruct Hs as (_&_&_&_&_&_&?&_).
  eapply same_setup_trans; [|exact Hs]. by apply same_setup_set_invocation_time.
Qed.

Lemma same_setup_but_time_set t e : same_setup_but_time e (set_invocation_time t e).
Proof. unfold same_setup_but_time. simpl. destruct e. apply same_setup_refl. Qed.

Lemma consistent_set_invocation_time t e : consistent e → consistent (set_invocation_time t e).
Proof. by intros (? & ? & ?). Qed.

Lemma endpoints_set_invocation_time t e :
  endpoints_in_use (set_invocation_time t e) = endpoints_in_use e.
Proof. done. Qed.

Lemma to_int64_small z : (- 2 ^ 63 ≤ z < 2 ^ 63)%Z → to_int64 z = z.
Proof. intros Hz. unfold to_int64. rewrite Z.mod_small; lia. Qed.

(** The two ways in which [rclc_executor_spin_one_period] ends: with the
    failure of [rclc_executor_spin_some], or with the result of the second
    reading of the clock, after the invocation time has been advanced by the
    period. *)
Lemma spin_one_period_inv e period (w : world Ext) :
  match rclc_executor_spin_one_period e period w with
  | Some (ret, e', w', tr) =>
      same_setup_but_time e e'
      ∧ (consistent e → consistent e' ∧ endpoints_in_use e' = endpoints_in_use e)
      ∧ ((ends_spinning ret = true ∧ invocation_time e' = start_time e w)
         ∨ (∃ w2, ret = (rcutils_system_time_now None w2).1.1
                  ∧ invocation_time e' = to_int64 (start_time e w + Z.of_N period)))
  | None => trigger_function e = None
  end.
Proof.
  unfold rclc_executor_spin_one_period, start_time.
  set (e1w := if (invocation_time e =? 0)%Z
              then let '(_, now, w0) := rcutils_system_time_now (Some (invocation_time e)) w in
                   (set_invocation_time now e, w0)
              else (e, w)).
  assert (same_setup_but_time e e1w.1
          ∧ (consistent e → consistent e1w.1 ∧ endpoints_in_use e1w.1 = endpoints_in_use e)
          ∧ invocation_time e1w.1
            = (if (invocation_time e =? 0)%Z
               then (rcutils_system_time_now (Some (invocation_time e)) w).1.2
               else invocation_time e)) as (Hs1 & Hc1 & Ht1).
  { unfold e1w. destruct (invocation_time e =? 0)%Z.
    - destruct (rcutils_system_time_now _ w) as [[ret0 now] w0]. simpl.
      split; [apply same_setup_but_time_set|]. split; [|done].
      intros Hc. split; [by apply consistent_set_invocation_time | done].
    - simpl. split; [apply same_setup_but_time_refl | done]. }
  destruct e1w as [e1 w1]. simpl in Hs1, Hc1, Ht1. rewrite <- Ht1.
  destruct (rclc_executor_spin_some e1 (timeout_ns e1) w1) as [[[[ret e2] w2] tr]|] eqn:Hspin.
  2:{ apply spin_some_None in Hspin. destruct Hs1 as (_&_&_&_&_&_&_&Ht&_).
      simpl in Ht. congruence. }
  pose proof (spin_some_same_setup _ _ _ _ _ _ _ Hspin) as Hs2.
  assert (invocation_time e2 = invocation_time e1) as Ht2
    by by destruct Hs2 as (_&_&_&_&_&_&?&_).
  assert (consistent e → consistent e2 ∧ endpoints_in_use e2 = endpoints_in_use e) as Hc2.
  { intros Hc. destruct (Hc1 Hc) as [Hc' He]. split; [by eapply spin_some_consistent|].
    rewrite <- He. apply same_setup_endpoints; [apply Hc' | done]. }
  assert (same_setup_but_time e e2) as Hs.
  { eapply same_setup_but_time_trans; [exact Hs1 | by apply same_setup_but_time_of]. }
  destruct (ends_spinning ret) eqn:Hend.
  - split; [done|]. split; [done|]. left. by split.
  - destruct (rcutils_system_time_now None w2) as [[ret3 end_time_point] w3] eqn:Hnow.
    split; [|split].
    + eapply same_setup_but_time_trans; [exact Hs | apply same_setup_but_time_set].
    + intros Hc. destruct (Hc2 Hc) as [Hc' He].
      split; [by apply consistent_set_invocation_time | done].
    + right. exists w2. rewrite Hnow. simpl. by rewrite Ht2.
Qed.

Lemma spin_one_period_None e period (w : world Ext) :
  rclc_executor_spin_one_period e period w = None → trigger_function e = None.
Proof.
  intros Hspin. pose proof (spin_one_period_inv e period w) as Hinv. by rewrite Hspin in Hinv.
Qed.

Lemma same_setup_but_time_trigger e e' :
  same_setup_but_time e e' → trigger_function e' = trigger_function e.
Proof. by intros (_&_&_&_&_&_&_&Ht&_). Qed.

(** [rclc_executor_spin_period] returns neither [RCL_RET_OK] nor
    [RCL_RET_TIMEOUT]; however long it runs, it changes nothing of what is
    registered but the invocation time, and keeps the invariant of the table
    and the order of the handles.  (It is undefined only for a [NULL] trigger
    function.) *)
Theorem spin_period_returns_only_failures :
  ∀ (rounds : nat) (e : rclc_executor_t) (period : N) (w : world Ext) (trace : list event),
    match rclc_executor_spin_period rounds e period w trace with
    | Some (Returned ret e' _ _) =>
        ret ≠ RCL_RET_OK ∧ ret ≠ RCL_RET_TIMEOUT
        ∧ same_setup_but_time e e'
        ∧ (consistent e → consistent e' ∧ endpoints_in_use e' = endpoints_in_use e)
    | Some (Running e' _ _) =>
        same_setup_but_time e e'
        ∧ (consistent e → consistent e' ∧ endpoints_in_use e' = endpoints_in_use e)
    | None => trigger_function e = None
    end.
Proof.
  intros rounds. induction rounds as [|rounds IH]; intros e period w tr0; simpl;
    [split; [apply same_setup_but_time_refl | done]|].
  pose proof (spin_one_period_inv e period w) as Hinv.
  destruct (rclc_executor_spin_one_period e period w) as [[[[ret e1] w1] tr1]|]; [|done].
  destruct Hinv as (Hs & Hc1 & _).
  destruct (ends_spinning ret) eqn:Hend.
  - apply ends_spinning_true in Hend as [? ?]. done.
  - specialize (IH e1 period w1 (tr0 ++ tr1)).
    destruct (rclc_executor_spin_period rounds e1 period w1 (tr0 ++ tr1))
      as [[e2 w2 tr2|ret2 e2 w2 tr2]|].
    + destruct IH as (Hs2 & Hc2). split; [by eapply same_setup_but_time_trans|].
      intros Hc. destruct (Hc1 Hc) as [Hc' He]. destruct (Hc2 Hc') as [? He2].
      split; [done | congruence].
    + destruct IH as (? & ? & Hs2 & Hc2). split; [done|]. split; [done|].
      split; [by eapply same_setup_but_time_trans|].
      intros Hc. destruct (Hc1 Hc) as [Hc' He]. destruct (Hc2 Hc') as [? He2].
      split; [done | congruence].
    + by rewrite <- (same_setup_but_time_trigger _ _ Hs).
Qed.

Lemma spin_period_running rounds e period (w : world Ext) tr0 e' w' tr :
  rclc_executor_spin_period rounds e period w tr0 = Some (Running e' w' tr) →
  (0 < invocation_time e)%Z →
  (invocation_time e + Z.of_nat rounds * Z.of_N period < 2 ^ 63)%Z →
  invocation_time e' = (invocation_time e + Z.of_nat rounds * Z.of_N period)%Z.
Proof.
  revert e w tr0. induction rounds as [|rounds IH]; intros e w tr0 Hrun Hpos Hmax.
  - simpl in Hrun. injection Hrun as <- _ _. lia.
  - cbn [rclc_executor_spin_period] in Hrun.
    pose proof (spin_one_period_inv e period w) as Hinv.
    destruct (rclc_executor_spin_one_period e period w) as [[[[ret e1] w1] tr1]|]; [|done].
    destruct (ends_spinning ret) eqn:Hend; [done|].
    destruct Hinv as (_ & _ & [[Hend' _]|(w2 & _ & Ht)]); [congruence|].
    assert (start_time e w = invocation_time e) as Hstart.
    { unfold start_time. destruct (invocation_time e =? 0)%Z eqn:Hz; [|done].
      apply Z.eqb_eq in Hz. lia. }
    rewrite Hstart, to_int64_small in Ht by lia.
    rewrite (IH _ _ _ Hrun) by lia. lia.
Qed.

(** The periodic loop does not drift: while [rclc_executor_spin_period] is
    running, the invocation time after [n] rounds is the time at which the
    first round was scheduled plus [n] periods, whatever the clock showed in
    between and however long the rounds and the sleeps took.  The first round
    is scheduled at the invocation time of the executor or, when this is 0, at
    what the clock shows; the times are positive and in the range of
    [int64_t]. *)
Theorem spin_period_does_not_drift :
  ∀ (n : nat) (e : rclc_executor_t) (period : N) (w : world Ext)
    (e' : rclc_executor_t) (w' : world Ext) (tr : list event),
    rclc_executor_spin_period (S n) e period w [] = Some (Running e' w' tr) →
    (0 < start_time e w)%Z →
    (start_time e w + Z.of_nat (S n) * Z.of_N period < 2 ^ 63)%Z →
    invocation_time e' = (start_time e w + Z.of_nat (S n) * Z.of_N period)%Z.
Proof.
  intros n e period w e' w' tr Hrun Hpos Hmax.
  cbn [rclc_executor_spin_period] in Hrun.
  pose proof (spin_one_period_inv e period w) as Hinv.
  destruct (rclc_executor_spin_one_period e period w) as [[[[ret e1] w1] tr1]|]; [|done].
  destruct (ends_spinning ret) eqn:Hend; [done|].
  destruct Hinv as (_ & _ & [[Hend' _]|(w2 & _ & Ht)]); [congruence|].
  rewrite to_int64_small in Ht by lia.
  rewrite (spin_period_running _ _ _ _ _ _ _ _ Hrun) by lia. lia.
Qed.

End SpinLoops.

Lemma periods_result (rounds : nat) (e : rclc_executor_t) (period : N)
  (w : world ToyClock.state) :
  (if rclc_executor_spin_period (api := Toy.api) (rt := ToyClock.runtime)
        (clock := ToyClock.time) rounds e period w [] is Some (Running _ _ _)
   then true else false) = true →
  rclc_executor_spin_period (api := Toy.api) (rt := ToyClock.runtime)
    (clock := ToyClock.time) rounds e period w []
  = Some (Running (PeriodicScenario.periods rounds e period w).1.1
            (PeriodicScenario.periods rounds e period w).1.2
            (PeriodicScenario.periods rounds e period w).2).
Proof.
  unfold PeriodicScenario.periods.
  by destruct (rclc_executor_spin_period rounds e period w []) as [[e' w' tr|? ? ? ?]|].
Qed.

(** A witness: two rounds with a period of 10 ms, started when the clock
    shows 1.00025 s.  The rounds sleep 9 ms and 10 ms; the third round is
    scheduled for 1.02025 s. *)
Lemma spin_period_does_not_drift_witness :
  invocation_time PeriodicScenario.two_periods.1.1
  = (start_time (clock := ToyClock.time) Example.three_handles ToyClock.quiet
     + Z.of_nat 2 * Z.of_N 10000000)%Z
  ∧ start_time (clock := ToyClock.time) Example.three_handles ToyClock.quiet = 1000250000%Z
  ∧ ToyClock.slept (ext PeriodicScenario.two_periods.1.2) = [9; 10]%Z.
Proof.
  split; [|split; vm_compute; reflexivity].
  apply (spin_period_does_not_drift (api := Toy.api) (rt := ToyClock.runtime)
           (clock := ToyClock.time) 1 Example.three_handles 10000000 ToyClock.quiet
           PeriodicScenario.two_periods.1.1 PeriodicScenario.two_periods.1.2
           PeriodicScenario.two_periods.2).
  - apply periods_result. vm_compute; reflexivity.
  - vm_compute; reflexivity.
  - vm_compute; reflexivity.
Defined.

(** A witness: in a world in which the context of the executor is not
    valid, [rclc_executor_spin_some] fails at once and [rclc_executor_spin]
    returns [RCL_RET_ERROR] in the first round. *)
Lemma spin_returns_the_first_failure_witness :
  rclc_executor_spin (api := Toy.api) (rt := Toy.runtime) 3 Example.three_handles
    Scenario.shut_down []
  = Some (Returned RCL_RET_ERROR Example.three_handles Scenario.shut_down []).
Proof.
  apply (spin_returns_the_first_failure (api := Toy.api) (rt := Toy.runtime) 0
           Example.three_handles Scenario.shut_down []
           Example.three_handles Scenario.shut_down []
           RCL_RET_ERROR Example.three_handles Scenario.shut_down [] 3).
  - reflexivity.
  - reflexivity.
  - discriminate.
  - discriminate.
  - lia.
Defined.

(** ** The wait of a round *)

Section WaitFirst.
Context {api : rcl_api} {Ext : Type} {rt : rcl_runtime Ext}.

Lemma wait_set_add_body_failure i e :
  match wait_set_add_body i e with
  | Return rc _ => rc ≠ RCL_RET_OK
  | Continue _ _ => True
  end.
Proof.
  unfold wait_set_add_body.
  assert (∀ f : rcl_wait_set_t → void_ptr → size_t → rcl_ret_t * rcl_wait_set_t * size_t,
            match (let '(rc, ws, slot) :=
                     f (wait_set e) (entity (handle_array e !!! i)) (h_index (handle_array e !!! i)) in
                   if rc =r? RCL_RET_OK
                   then Continue rc (set_wait_set ws
                          (store_handle (N.of_nat i) (set_h_index slot (handle_array e !!! i)) e))
                   else Return rc (set_wait_set ws
                          (store_handle (N.of_nat i) (set_h_index slot (handle_array e !!! i)) e)))
            with
            | Return rc _ => rc ≠ RCL_RET_OK
            | Continue _ _ => True
            end) as Hadd.
  { intros f. destruct (f _ _ _) as [[rc ws] slot]. unfold ret_eqb. by case_bool_decide. }
  destruct (type (handle_array e !!! i)); try apply Hadd. done.
Qed.

Lemma wait_set_add_loop_failure mx fuel i rc e :
  match for_handles handle_array mx wait_set_add_body fuel i rc e with
  | Return rc' _ => rc' ≠ RCL_RET_OK
  | Continue _ _ => True
  end.
Proof.
  pose proof (for_handles_inv handle_array mx wait_set_add_body
                (λ _ _ _, True) (λ rc' _, rc' ≠ RCL_RET_OK)) as Hinv.
  specialize (Hinv ltac:(
    intros j rcj s _ _ _; pose proof (wait_set_add_body_failure j s) as Hb;
    by destruct (wait_set_add_body j s)) fuel i rc e I).
  by destruct (for_handles _ _ _ _ _ _ _).
Qed.

Lemma default_scheduling_trace e (r : @round Ext) rc r' :
  _rclc_default_scheduling e r = Some (rc, r') → ∃ new, trace_of r' = trace_of r ++ new.
Proof.
  unfold _rclc_default_scheduling. intros Hrun.
  pose proof (check_loop_spec (max_handles e) (wait_set e) (N.to_nat (max_handles e)) 0
                RCL_RET_OK r) as Hcheck.
  destruct (for_handles r_handles _ (check_body _) _ _ _ _) as [rc1 r1|rc1 r1];
    destruct Hcheck as (Htr1 & _); [|injection Hrun as <- <-; exists []; by rewrite app_nil_r].
  destruct (call_trigger e r1) as [[|]|];
    [| injection Hrun as <- <-; exists []; by rewrite app_nil_r | done].
  pose proof (default_loop_spec (max_handles e) (wait_set e) (N.to_nat (max_handles e)) rc1 r1)
    as Hloop.
  destruct (for_handles r_handles _ (default_body _) _ _ _ _) as [rc2 r2|rc2 r2];
    injection Hrun as <- <-; destruct Hloop as (evs & rcs & Htr2 & _); exists evs; congruence.
Qed.

Lemma scheduler_trace e (r : @round Ext) rc r' :
  scheduler_of e r = Some (rc, r') → ∃ new, trace_of r' = trace_of r ++ new.
Proof.
  unfold scheduler_of. destruct (data_comm_semantics e); intros Hrun.
  - by eapply default_scheduling_trace.
  - destruct (let_scheduling_spec e r rc r' Hrun) as (_ & takes & execs & _ & _ & Htr & _).
    by exists (takes ++ execs).
Qed.

(** [rclc_executor_spin_some] waits before it works.  A call that returns
    without having called [rcl_wait] reports a failure
    ([RCL_RET_ERROR] for a context that is not valid, in which case the
    executor is left as it was) and has made no call to the middleware or to
    user code; in every other call [rcl_wait] is called before any take or
    callback, with the given timeout converted to the [int64_t] of its
    parameter: a timeout below [2 ^ 63] arrives as it is, a larger one
    arrives negative ([2 ^ 64 - 1] as [-1]).  (The call is undefined only for
    a [NULL] trigger function.) *)
Theorem spin_some_waits_first :
  ∀ (e : rclc_executor_t) (timeout : N) (w : world Ext),
    match rclc_executor_spin_some e timeout w with
    | Some (rc, e', w', tr) =>
        ((tr = [] ∧ w' = w ∧ rc ≠ RCL_RET_OK)
         ∨ (∃ rcw new, tr = ev_wait (to_int64 (Z.of_N timeout)) rcw :: new))
        ∧ (if rcl_context_is_valid (exe_context e) w then True
           else rc = RCL_RET_ERROR ∧ e' = e ∧ tr = [])
    | None => trigger_function e = None
    end
    ∧ (timeout < 2 ^ 63 → to_int64 (Z.of_N timeout) = Z.of_N timeout)
    ∧ (2 ^ 63 ≤ timeout < 2 ^ 64 →
       to_int64 (Z.of_N timeout) = (Z.of_N timeout - 2 ^ 64)%Z).
Proof.
  intros e timeout w. split.
  2:{ unfold to_int64. split; intros Ht.
      - rewrite Z.mod_small; lia.
      - replace (Z.of_N timeout + 2 ^ 63)%Z
          with ((Z.of_N timeout - 2 ^ 63) + 1 * 2 ^ 64)%Z by lia.
        rewrite Z.mod_add by lia. rewrite Z.mod_small; lia. }
  destruct (rclc_executor_spin_some e timeout w) as [[[[rc e'] w'] tr]|] eqn:Hspin.
  2:{ pose proof (spin_some_inv e timeout w) as Hinv. by rewrite Hspin in Hinv. }
  unfold rclc_executor_spin_some in Hspin.
  destruct (rcl_context_is_valid (exe_context e) w); cbn [negb] in Hspin;
    [|injection Hspin as <- <- <- <-; split; [left|]; done].
  split; [|done].
  destruct (rcl_wait_set_clear (wait_set (rclc_executor_prepare e).2)) as [rc1 ws1].
  set (e2 := set_wait_set ws1 (rclc_executor_prepare e).2) in *. clearbody e2.
  unfold ret_eqb in Hspin. case_bool_decide as Hrc1; cbn [negb] in Hspin;
    [|injection Hspin as <- _ <- <-; by left].
  pose proof (wait_set_add_loop_failure (max_handles e2) (N.to_nat (max_handles e2)) 0 rc1 e2)
    as Hadd.
  destruct (for_handles handle_array _ wait_set_add_body _ _ _ _) as [rc2 e3|rc2 e3];
    [|injection Hspin as <- _ <- <-; by left].
  destruct (rcl_wait (wait_set e3) (to_int64 (Z.of_N timeout)) w) as [[rcw ws3] w2].
  set (e4 := set_wait_set ws3 e3) in *. clearbody e4.
  assert (∀ o, match data_comm_semantics e4 with
               | RCLCPP_EXECUTOR => finish_round e4 (_rclc_default_scheduling e4 o)
               | LET => finish_round e4 (_rclc_let_scheduling e4 o)
               end = finish_round e4 (scheduler_of e4 o)) as Hsched.
  { intros o. unfold scheduler_of. by destruct (data_comm_semantics e4). }
  rewrite Hsched in Hspin.
  destruct (scheduler_of e4 _) as [[rc' r']|] eqn:Hrun; [|done].
  cbn [finish_round] in Hspin. injection Hspin as _ _ _ <-.
  destruct (scheduler_trace _ _ _ _ Hrun) as [new Htr]. right. exists rcw, new. exact Htr.
Qed.

End WaitFirst.

(** ** Registration calls that fail *)

Section FailedRegistration.
Context {api : rcl_api}.

(** While the wait set is not valid (after [rclc_executor_init] and after
    every registration call that succeeded, until the next
    [rclc_executor_prepare]), a call that adds or removes a plain endpoint
    and fails has changed nothing.  It fails with
    [RCL_RET_INVALID_ARGUMENT] when a required argument is [NULL], and with
    [RCL_RET_ERROR] otherwise: when the table is full, or when the endpoint to
    remove is not registered. *)
Theorem failed_registration_changes_nothing :
  ∀ (op : registration) (e : rclc_executor_t) (m : action_memory),
    rcl_wait_set_is_valid (wait_set e) = false →
    is_action_add op = false →
    (register op (e, m)).1 ≠ RCL_RET_OK →
    (register op (e, m)).2 = (e, m)
    ∧ (register op (e, m)).1
      = (if arguments_accepted op then RCL_RET_ERROR else RCL_RET_INVALID_ARGUMENT)
    ∧ (arguments_accepted op = true →
       match op with
       | remove k o => ¬ registered e (Ptr (removal_type k) o)
       | _ => max_handles e ≤ index e
       end).
Proof.
  intros op e m Hws Hplain Hfail.
  assert (∀ f, invalidate_wait_set (assign_next_handle f e) = inr (assign_next_handle f e))
    as Hinv.
  { intros f. by apply invalidate_wait_set_invalid. }
  destruct op; try discriminate Hplain; cbn [register fst snd arguments_accepted] in *.
  1-9: unfold rclc_executor_add_subscription, rclc_executor_add_subscription_with_context,
      rclc_executor_add_timer, rclc_executor_add_client,
      rclc_executor_add_client_with_request_id, rclc_executor_add_service,
      rclc_executor_add_service_with_context, rclc_executor_add_service_with_request_id,
      rclc_executor_add_guard_condition in *;
    change (is_null (Ptr _ _)) with false in *; cbv iota in *;
    repeat match goal with
           | |- context [is_null ?p] => destruct (is_null p); cbn [negb andb fst snd] in *
           end;
    try (split; [done|]; split; [done|]; done);
    unfold handles_full in *;
    (destruct (max_handles e <=? index e) eqn:Hfull;
     [apply N.leb_le in Hfull; done|]);
    rewrite Hinv in Hfail; done.
  match goal with
  | |- context [Ptr (removal_type k) ?o] => set (p := Ptr (removal_type k) o) in *
  end.
  rewrite remove_unfold in * by done.
  destruct (_rclc_executor_find_handle e p) as [i|] eqn:Hfind.
  - exfalso. apply Hfail. unfold _rclc_executor_remove_handle.
    destruct (find_handle_loop_Some _ _ _ _ _ Hfind) as (Hrange & _).
    destruct (index e <=? N.of_nat i) eqn:Hle; [apply N.leb_le in Hle; lia|].
    destruct (index e =? 0) eqn:Hz; [apply N.eqb_eq in Hz; lia|].
    unfold invalidate_wait_set. cbn [wait_set store_handle set_handles set_index]. rewrite Hws.
    done.
  - split; [done|]. split; [done|]. intros _ (j & Hj & Hp).
    eapply find_handle_loop_None with (j := j) in Hfind; [done | lia].
Qed.

End FailedRegistration.

(** A witness: a subscription is added without a message buffer to an
    executor whose table is empty. *)
Lemma failed_registration_changes_nothing_witness :
  (register (api := Toy.api) (add_subscription 5 NULL Example.fn_1 ON_NEW_DATA)
     (Example.fresh 2, empty_memory)).2
  = (Example.fresh 2, empty_memory)
  ∧ (register (api := Toy.api) (add_subscription 5 NULL Example.fn_1 ON_NEW_DATA)
       (Example.fresh 2, empty_memory)).1
    = RCL_RET_INVALID_ARGUMENT.
Proof.
  destruct (failed_registration_changes_nothing (api := Toy.api)
              (add_subscription 5 NULL Example.fn_1 ON_NEW_DATA) (Example.fresh 2)
              empty_memory) as (Hsame & Hret & _).
  - vm_compute; reflexivity.
  - reflexivity.
  - vm_compute. discriminate.
  - split; [exact Hsame | exact Hret].
Defined.

(** ** Rounds in which something is ready *)

Section BusyRound.
Context {api : rcl_api} {Ext : Type} {rt : rcl_runtime Ext}.

Lemma check_for_new_data_plain h ws m p :
  wait_set_slot ws h = Some p →
  _rclc_check_for_new_data h ws m
  = (RCL_RET_OK, set_data_available (negb (is_null p)) h, m).
Proof.
  unfold wait_set_slot, _rclc_check_for_new_data.
  destruct (type h); intros [= <-]; done.
Qed.

Lemma check_body_plain ws i (s : @round Ext) p :
  wait_set_slot ws (r_handles s !!! i) = Some p →
  check_body ws i s
  = Continue RCL_RET_OK
      (mk_round (<[i := set_data_available (negb (is_null p)) (r_handles s !!! i)]> (r_handles s))
         (r_effects s)).
Proof.
  intros Hslot. unfold check_body. rewrite (check_for_new_data_plain _ _ _ _ Hslot).
  cbn [negb andb ret_eqb]. rewrite set_mem_same, <- surjective_pairing. done.
Qed.

(** The readiness loop over plain handles: it sets [data_available] in
    every handle of the initialised prefix to what the wait set says, and
    changes nothing else. *)
Lemma check_loop_plain mx ws (r : @round Ext) :
  plain_table mx ws (r_handles r) →
  ∃ r1 k,
    for_handles r_handles mx (check_body ws) (N.to_nat mx) 0 RCL_RET_OK r
    = Continue RCL_RET_OK r1
    ∧ r_effects r1 = r_effects r
    ∧ same_table (r_handles r) (r_handles r1)
    ∧ (∀ j, (j < k)%nat →
            ∃ p, wait_set_slot ws (r_handles r !!! j) = Some p
                 ∧ data_available (r_handles r1 !!! j) = negb (is_null p))
    ∧ (k = N.to_nat mx ∨ ¬ (N.of_nat k < mx ∧ initialized (r_handles r1 !!! k) = true)).
Proof.
  intros Hplain.
  pose (I := λ (k : nat) (rc : rcl_ret_t) (r1 : @round Ext),
          rc = RCL_RET_OK
          ∧ r_effects r1 = r_effects r
          ∧ same_table (r_handles r) (r_handles r1)
          ∧ ∀ j, (j < k)%nat →
                 N.of_nat j < mx ∧ initialized (r_handles r !!! j) = true
                 ∧ ∃ p, wait_set_slot ws (r_handles r !!! j) = Some p
                        ∧ data_available (r_handles r1 !!! j) = negb (is_null p)).
  assert (∀ i rc s, I i rc s → N.of_nat i < mx → initialized (r_handles s !!! i) = true →
            match check_body ws i s with
            | Continue rc' s' => I (S i) rc' s'
            | Return rc' s' => False
            end) as Hbody.
  { intros i rc s (-> & Heff & Htab & Hdone) Hlt Hinit.
    assert (initialized (r_handles r !!! i) = true) as Hinit'.
    { by rewrite <- (same_table_initialized _ _ i Htab). }
    assert (in_initialized_prefix mx (r_handles r) i) as Hpre.
    { intros j Hj. destruct (decide (j = i)) as [->|]; [done|].
      destruct (Hdone j ltac:(lia)) as (? & ? & _). done. }
    destruct (Hplain i Hpre) as [p Hp].
    assert (wait_set_slot ws (r_handles s !!! i) = Some p) as Hslot.
    { rewrite (wait_set_slot_same ws (r_handles r !!! i)); [done | apply Htab]. }
    assert (i < length (r_handles s))%nat as Hlen.
    { destruct (decide (i < length (r_handles s))%nat) as [|Hge]; [done|].
      rewrite list_lookup_total_alt, lookup_ge_None_2 in Hinit by lia. done. }
    rewrite (check_body_plain _ _ _ _ Hslot). cbn [r_handles r_effects].
    split; [done|]. split; [done|].
    split.
    { eapply same_table_trans; [done|]. apply same_table_insert. by repeat split. }
    intros j Hj. destruct (decide (j = i)) as [->|Hne].
    - split; [done|]. split; [done|]. exists p. split; [done|]. cbn [r_handles].
      by rewrite list_lookup_total_insert_eq.
    - destruct (Hdone j ltac:(lia)) as (? & ? & q & ? & ?).
      split; [done|]. split; [done|]. exists q. split; [done|]. cbn [r_handles].
      by rewrite list_lookup_total_insert_ne. }
  pose proof (for_handles_inv r_handles mx (check_body ws) I (λ _ _, False) Hbody
                (N.to_nat mx) 0%nat RCL_RET_OK r) as Hinv.
  specialize (Hinv ltac:(
    split; [done|]; split; [done|]; split; [apply same_table_refl|]; intros j Hj; lia)).
  destruct (for_handles _ _ _ _ _ _ _) as [rc r1|rc r1]; [|done].
  destruct Hinv as (k & Hk & (-> & Heff & Htab & Hdone) & Hstop).
  exists r1, k. repeat (split; [done|]). split.
  - intros j Hj. destruct (Hdone j Hj) as (_ & _ & p & ? & ?). by exists p.
  - destruct Hstop as [->|Hstop]; [left; lia | by right].
Qed.

Lemma plain_table_same_table mx ws hs hs' :
  same_table hs hs' → plain_table mx ws hs → plain_table mx ws hs'.
Proof.
  intros Htab Hplain i Hpre.
  rewrite (wait_set_slot_same ws (hs !!! i)); [|apply Htab].
  apply Hplain. eapply prefix_same_table; [by apply same_table_sym | done].
Qed.

Lemma something_ready_same_table mx ws hs hs' :
  same_table hs hs' → something_ready mx ws hs → something_ready mx ws hs'.
Proof.
  intros Htab (i & p & Hpre & Hslot & Hp). exists i, p.
  split; [by eapply prefix_same_table|]. split; [|done].
  rewrite (wait_set_slot_same ws (hs !!! i)); [done | apply Htab].
Qed.

(** When something is ready, the trigger [rclc_executor_trigger_any] fires
    and both schedulers take from the first handle. *)
Lemma busy_round e (r : @round Ext) rc r' :
  trigger_function e = Some rclc_executor_trigger_any →
  max_handles e < 2 ^ 32 →
  plain_table (max_handles e) (wait_set e) (r_handles r) →
  something_ready (max_handles e) (wait_set e) (r_handles r) →
  scheduler_of e r = Some (rc, r') →
  ∃ new rc0 more,
    trace_of r' = trace_of r ++ new ∧ steps new = ev_take_new_data 0 rc0 :: more.
Proof.
  intros Htrig Hmax Hplain (i0 & p0 & Hpre0 & Hslot0 & Hp0) Hrun.
  destruct (check_loop_plain (max_handles e) (wait_set e) r Hplain)
    as (r1 & k & Hloop & Heff & Htab & Hdone & Hstop).
  assert (trace_of r1 = trace_of r) as Htr1 by (unfold trace_of; by rewrite Heff).
  assert (in_initialized_prefix (max_handles e) (r_handles r1) i0) as Hpre1
    by by eapply prefix_same_table.
  assert (call_trigger e r1 = Some true) as Hcall.
  { unfold call_trigger. rewrite Htrig. f_equal. simpl.
    apply trigger_any_loop_true. exists i0.
    assert (to_unsigned_int (max_handles e) = max_handles e) as ->
      by (unfold to_unsigned_int; by apply N.mod_small).
    destruct (Hpre1 i0 (le_n _)) as [Hlt _].
    split; [lia|]. split; [intros j Hj; apply Hpre1; lia|].
    pose proof (prefix_covered _ _ _ _ Hstop Hpre1) as Hik.
    destruct (Hdone i0 Hik) as (p & Hslot & Hdata).
    rewrite Hslot0 in Hslot. injection Hslot as <-.
    assert (wait_set_slot (wait_set e) (r_handles r1 !!! i0) = Some p0) as Hslot1.
    { rewrite (wait_set_slot_same _ (r_handles r !!! i0)); [done | apply Htab]. }
    rewrite (plain_data_available _ _ _ _ Hslot1), Hdata.
    unfold is_null. by rewrite bool_decide_eq_false_2. }
  assert (N.of_nat 0 < max_handles e ∧ initialized (r_handles r1 !!! 0%nat) = true) as Hfirst.
  { apply (Hpre1 0%nat). lia. }
  assert (0 < N.to_nat (max_handles e))%nat as Hfuel by lia.
  assert (∀ (rcs : list rcl_ret_t),
            length rcs = N.to_nat (max_handles e)
            ∨ ¬ (N.of_nat (length rcs) < max_handles e
                 ∧ initialized (r_handles r1 !!! length rcs) = true) →
            rcs ≠ []) as Hsome.
  { intros rcs [Hlen|Hstop'] ->; simpl in *; [lia | by apply Hstop']. }
  unfold scheduler_of in Hrun. destruct (data_comm_semantics e).
  - unfold _rclc_default_scheduling in Hrun. rewrite Hloop, Hcall in Hrun.
    pose proof (default_loop_spec (max_handles e) (wait_set e) (N.to_nat (max_handles e))
                  RCL_RET_OK r1) as Hspec.
    destruct (for_handles r_handles _ (default_body _) _ _ _ _) as [rc2 r2|rc2 r2];
      injection Hrun as <- <-.
    + destruct Hspec as (evs & rcs & Htr & _ & Hsteps & _ & _ & Hend).
      specialize (Hsome rcs Hend). destruct rcs as [|rc0 rcs]; [done|].
      exists evs, rc0. eexists. split; [congruence|]. rewrite Hsteps. reflexivity.
    + destruct Hspec as (evs & rcs & Htr & _ & _ & _ & [[_ Hsteps]|[Hne Hsteps]]);
        exists evs; destruct rcs as [|rc0 rcs]; try done;
        eexists _, _; (split; [congruence|]); rewrite Hsteps; reflexivity.
  - unfold _rclc_let_scheduling in Hrun. rewrite Hloop, Hcall in Hrun.
    pose proof (let_take_loop_spec (max_handles e) (wait_set e) (N.to_nat (max_handles e))
                  RCL_RET_OK r1) as Hspec.
    destruct (for_handles r_handles _ (let_take_body _) _ _ _ _) as [rc2 r2|rc2 r2].
    + destruct Hspec as (evs & rcs & Htr & _ & _ & Hsteps & _ & Hend & _).
      specialize (Hsome rcs Hend). destruct rcs as [|rc0 rcs]; [done|].
      pose proof (let_execute_loop_spec (max_handles e) (N.to_nat (max_handles e)) rc2 r2)
        as Hexec.
      destruct (for_handles r_handles _ let_execute_body _ _ _ _) as [rc3 r3|rc3 r3];
        injection Hrun as <- <-; destruct Hexec as (evs2 & n & Htr2 & _);
        exists (evs ++ evs2), rc0; eexists;
        (split; [rewrite Htr2, Htr, Htr1; by rewrite (assoc_L (++))|]);
        rewrite steps_app, Hsteps; reflexivity.
    + injection Hrun as <- <-.
      destruct Hspec as (evs & rcs & Htr & _ & _ & Hsteps & _).
      exists evs. destruct rcs as [|rc0 rcs];
        eexists _, _; (split; [congruence|]); rewrite Hsteps; reflexivity.
Qed.

(** When [rcl_wait] leaves something ready, a call of
    [rclc_executor_spin_some] with the trigger [rclc_executor_trigger_any]
    runs a round: the first step after the wait is the take from the first
    handle of the table.  The statement is for a table of plain handles with
    a capacity that an [unsigned int] holds. *)
Theorem spin_some_works_when_something_is_ready :
  ∀ (e : rclc_executor_t) (timeout : N) (w : world Ext)
    (rc : rcl_ret_t) (e' : rclc_executor_t) (w' : world Ext) (tr : list event),
    rclc_executor_spin_some e timeout w = Some (rc, e', w', tr) →
    tr ≠ [] →
    trigger_function e = Some rclc_executor_trigger_any →
    max_handles e < 2 ^ 32 →
    plain_table (max_handles e') (wait_set e') (handle_array e') →
    something_ready (max_handles e') (wait_set e') (handle_array e') →
    ∃ rcw new rc0 more,
      tr = ev_wait (to_int64 (Z.of_N timeout)) rcw :: new ∧ steps new = ev_take_new_data 0 rc0 :: more.
Proof.
  intros e timeout w rc e' w' tr Hspin Htr Htrig Hmax Hplain Hready.
  pose proof (spin_some_inv e timeout w) as Hinv. rewrite Hspin in Hinv.
  destruct Hinv as [[-> _]|(e3 & rcw & w2 & r' & Hs & Hrun & -> & _ & ->)]; [done|].
  pose proof (scheduler_same_table _ _ _ _ Hrun) as Htab. simpl in Htab.
  destruct (finish_round_same_setup e3 r' Htab) as [Hs' Harr].
  rewrite Harr in Hplain, Hready. simpl in Hplain, Hready.
  assert (trigger_function e3 = Some rclc_executor_trigger_any) as Htrig3.
  { destruct Hs as (_&_&_&_&_&_&_&Ht&_). congruence. }
  assert (max_handles e3 < 2 ^ 32) as Hmax3.
  { destruct Hs as (_&Hm&_). by rewrite Hm. }
  destruct (busy_round e3 (mk_round (handle_array e3) (w2, [ev_wait (to_int64 (Z.of_N timeout)) rcw])) rc r'
              Htrig3 Hmax3) as (new & rc0 & more & Htrace & Hsteps).
  - eapply plain_table_same_table; [by apply same_table_sym | done].
  - eapply something_ready_same_table; [by apply same_table_sym | done].
  - done.
  - exists rcw, new, rc0, more. by split.
Qed.

End BusyRound.

(** A witness: the executor with a timer, a subscription and a second
    timer spins in a world in which a message is pending for the
    subscription.  The round goes over the three handles and calls the
    callback of the subscription. *)
Lemma spin_some_works_when_something_is_ready_witness :
  (∃ rcw new rc0 more,
     Scenario.busy_spin.2 = ev_wait 0 rcw :: new ∧ steps new = ev_take_new_data 0 rc0 :: more)
  ∧ Scenario.busy_spin.1.1.1 = RCL_RET_OK
  ∧ steps Scenario.busy_spin.2
    = [ev_take_new_data 0 RCL_RET_OK; ev_execute 0; ev_take_new_data 1 RCL_RET_OK;
       ev_execute 1; ev_take_new_data 2 RCL_RET_OK; ev_execute 2]
  ∧ ev_call (subscription_callback Example.fn_1 Example.msg_1) RCL_RET_OK
    ∈ Scenario.busy_spin.2.
Proof.
  assert (max_handles Scenario.busy_spin.1.1.2 = 3) as Hmax by (vm_compute; reflexivity).
  split; [|split; [vm_compute; reflexivity|split; [vm_compute; reflexivity|]]].
  - apply (spin_some_works_when_something_is_ready (api := Toy.api) (rt := Toy.runtime)
             Example.three_handles 0 Scenario.pending
             Scenario.busy_spin.1.1.1 Scenario.busy_spin.1.1.2 Scenario.busy_spin.1.2).
    + apply spun_result. vm_compute; reflexivity.
    + vm_compute. discriminate.
    + reflexivity.
    + vm_compute; reflexivity.
    + intros i Hpre. destruct (Hpre i (le_n i)) as [Hlt _]. rewrite Hmax in Hlt.
      destruct i as [|[|[|i]]]; [eexists; vm_compute; reflexivity .. | lia].
    + exists 1%nat, Example.sub_1. split; [|split; [vm_compute; reflexivity | discriminate]].
      intros j Hj. destruct j as [|[|j]]; [split; vm_compute; reflexivity .. | lia].
  - apply list_elem_of_lookup. exists 6%nat. vm_compute; reflexivity.
Defined.

(** ** The trigger [rclc_executor_trigger_one] and its object *)

Section TriggerObject.
Context {api : rcl_api} {Ext : Type} {rt : rcl_runtime Ext}.

Lemma same_table_get_ptr hs hs' j :
  same_table hs hs' →
  rclc_executor_handle_get_ptr (hs' !!! j) = rclc_executor_handle_get_ptr (hs !!! j).
Proof.
  intros [_ Htab]. destruct (Htab j) as (Hty & _ & He & _).
  unfold rclc_executor_handle_get_ptr. by rewrite Hty, He.
Qed.

(** The trigger does not fire for an object that no handle of the
    initialised prefix refers to, nor for [NULL]. *)
Lemma trigger_one_unregistered m hs (size mx : N) obj :
  size ≤ mx →
  obj = NULL
  ∨ (∀ k, in_initialized_prefix mx hs k → rclc_executor_handle_get_ptr (hs !!! k) ≠ obj) →
  rclc_executor_trigger_one m (Some hs) size obj = false.
Proof.
  intros Hsize Hnot. simpl.
  destruct (trigger_one_loop m hs obj (N.to_nat size) 0) eqn:Hone; [|done]. exfalso.
  apply trigger_one_loop_true in Hone as (k & Hk & Hpre & _ & Hptr & Hobj & _).
  destruct Hnot as [->|Hnot]; [done|]. apply (Hnot k); [|done].
  intros j Hj. split; [lia | apply Hpre; lia].
Qed.


End TriggerObject.

